(** * Verification of the hand-gesture particle engine

    Shallow embedding of the particle-simulation engine found in
    [src/lib/optimized-particle-system.ts] and of its two sibling revisions
    [src/unnamed/part_001] (the revision with the strict sphere constraint and
    the meditation skeletons) and [src/unnamed/part_002] (the revision that
    only knows the responsive and cohesive behaviours).

    Numbers.  A JavaScript [number] is modelled by a real number: arithmetic is
    exact, and the tolerances of the specification absorb rounding.  The two
    operations that can leave the finite numbers in exact arithmetic, division
    by zero and the square root of a negative number (JavaScript answers
    Infinity or NaN), are modelled as failing operations in the [option]
    monad: a computation that returns [Some] never produced such a value.
    Indexing an array out of range (JavaScript answers [undefined]) fails in
    the same way.

    Environment.  [performance.now()] and [Math.random()] are inputs: the
    clock value read by a tick is a parameter [now], and the values returned
    by [Math.random()] are given by a stream [rnd : nat -> R] indexed by the
    call number inside the operation that draws them.

    Rendering (the instance matrix, the needle orientation quaternion, the
    camera, the skeleton meshes) never feeds back into the particle store and
    is left out. *)

From Stdlib Require Import Reals Lra Lia List Bool Psatz PeanoNat NArith.
Import ListNotations.
Open Scope R_scope.

(** ** The option monad of undefined results *)

Definition bind {A B : Type} (m : option A) (k : A -> option B) : option B :=
  match m with
  | Some a => k a
  | None => None
  end.

Notation "x <- m ;; k" := (bind m (fun x => k))
  (at level 61, m at next level, right associativity).

(** [a / b]; undefined when [b] is zero. *)
Definition jsdiv (a b : R) : option R :=
  if Req_dec_T b 0 then None else Some (a / b).

(** [Math.sqrt(a)]; undefined when [a] is negative. *)
Definition jssqrt (a : R) : option R :=
  if Rlt_dec a 0 then None else Some (sqrt a).

(** [Math.sign]. *)
Definition sign (a : R) : R :=
  if Rlt_dec 0 a then 1 else if Rlt_dec a 0 then -1 else 0.

(** [a ?? d] on an optional configuration field. *)
Definition nullish (o : option R) (d : R) : R :=
  match o with
  | Some v => v
  | None => d
  end.

(** [a || d] on a number: [d] replaces a zero. *)
Definition orElse (a d : R) : R :=
  if Req_dec_T a 0 then d else a.

(** Monadic map over the particle indices. *)
Fixpoint mapM {A B : Type} (f : A -> option B) (l : list A) : option (list B) :=
  match l with
  | [] => Some []
  | a :: l' => b <- f a ;; bs <- mapM f l' ;; Some (b :: bs)
  end.

(** Monadic left fold, the shape of a [for] loop that threads the store. *)
Fixpoint foldM {A S : Type} (f : S -> A -> option S) (l : list A) (s : S) : option S :=
  match l with
  | [] => Some s
  | a :: l' => s' <- f s a ;; foldM f l' s'
  end.

(** [arr[i] = v] for an index inside the array. *)
Fixpoint replaceAt {A : Type} (i : nat) (v : A) (l : list A) : list A :=
  match l, i with
  | [], _ => []
  | _ :: l', O => v :: l'
  | a :: l', S i' => a :: replaceAt i' v l'
  end.

(** ** THREE.Vector3

    The vector class of the three.js library, which the engine uses for all
    its geometry.  The methods mutate their receiver; here each returns the
    new value.  [normalize] is [divideScalar(length() || 1)] and
    [divideScalar(s)] is [multiplyScalar(1 / s)], as in the library. *)

Module THREE.

Record Vector3 : Type := vec3 { x : R; y : R; z : R }.

Definition add (a b : Vector3) : Vector3 :=
  vec3 (x a + x b) (y a + y b) (z a + z b).

Definition addVectors (a b : Vector3) : Vector3 := add a b.

Definition sub (a b : Vector3) : Vector3 :=
  vec3 (x a - x b) (y a - y b) (z a - z b).

Definition multiplyScalar (a : Vector3) (s : R) : Vector3 :=
  vec3 (x a * s) (y a * s) (z a * s).

Definition divideScalar (a : Vector3) (s : R) : option Vector3 :=
  r <- jsdiv 1 s ;; Some (multiplyScalar a r).

Definition dot (a b : Vector3) : R :=
  x a * x b + y a * y b + z a * z b.

Definition lengthSq (a : Vector3) : R :=
  x a * x a + y a * y a + z a * z a.

Definition length (a : Vector3) : option R := jssqrt (lengthSq a).

Definition normalize (a : Vector3) : option Vector3 :=
  l <- length a ;; divideScalar a (orElse l 1).

Definition crossVectors (a b : Vector3) : Vector3 :=
  vec3 (y a * z b - z a * y b) (z a * x b - x a * z b) (x a * y b - y a * x b).

Definition lerp (a v : Vector3) (alpha : R) : Vector3 :=
  vec3 (x a + (x v - x a) * alpha) (y a + (y v - y a) * alpha) (z a + (z v - z a) * alpha).

Definition distanceToSquared (a v : Vector3) : R :=
  let dx := x a - x v in
  let dy := y a - y v in
  let dz := z a - z v in
  dx * dx + dy * dy + dz * dz.

Definition distanceTo (a v : Vector3) : option R := jssqrt (distanceToSquared a v).

End THREE.

Import THREE.

(** ** Data model *)

Inductive Behavior : Type := responsive | cohesive | needleSphere | needleSwarm.

Inductive Geometry : Type := sphere | needle.

(** [interface ParticleSystemConfig]; an optional field is an [option]. *)
Record ParticleSystemConfig : Type := {
  color : N;
  count : nat;
  size : R;
  boundary : R;
  viscosity : R;
  behavior : Behavior;
  geometry : option Geometry;
  attractionStrength : option R;
  interactionRadius : option R;
  cohesionStrength : option R;
  cohesionRadius : option R;
  baseRadius : option R;
  radiusHandScale : option R;
  outerRadiusMultiplier : option R;
  needleLength : option R
}.

(** One element of [this.particles]. *)
Record Particle : Type := {
  position : Vector3;
  velocity : Vector3;
  direction : Vector3;
  groupIndex : nat;
  assignedCenterIndex : option nat;
  targetPosition : option Vector3
}.

(** [interface HandControl] of the hand tracker. *)
Record HandControl : Type := {
  palm : Vector3;
  fingers : list Vector3;
  handIndex : nat
}.

(** The physics state of one [OptimizedParticleSystem]. *)
Record OptimizedParticleSystem : Type := {
  params : ParticleSystemConfig;
  particles : list Particle;
  handControls : list HandControl
}.

Definition withMotion (p : Particle) (pos vel : Vector3) : Particle :=
  {| position := pos; velocity := vel; direction := direction p;
     groupIndex := groupIndex p; assignedCenterIndex := assignedCenterIndex p;
     targetPosition := targetPosition p |}.

Definition withDirection (p : Particle) (dir : Vector3) : Particle :=
  {| position := position p; velocity := velocity p; direction := dir;
     groupIndex := groupIndex p; assignedCenterIndex := assignedCenterIndex p;
     targetPosition := targetPosition p |}.

Definition withAssignedCenterIndex (p : Particle) (k : nat) : Particle :=
  {| position := position p; velocity := velocity p; direction := direction p;
     groupIndex := groupIndex p; assignedCenterIndex := Some k;
     targetPosition := targetPosition p |}.

Definition withTargetPosition (p : Particle) (t : Vector3) : Particle :=
  {| position := position p; velocity := velocity p; direction := direction p;
     groupIndex := groupIndex p; assignedCenterIndex := assignedCenterIndex p;
     targetPosition := Some t |}.

Definition withParticles (s : OptimizedParticleSystem) (ps : list Particle)
  : OptimizedParticleSystem :=
  {| params := params s; particles := ps; handControls := handControls s |}.

(** [setHandControls]: the snapshot slot is overwritten. *)
Definition setHandControls (s : OptimizedParticleSystem) (hc : list HandControl)
  : OptimizedParticleSystem :=
  {| params := params s; particles := particles s; handControls := hc |}.

(** [new THREE.Vector3(c.palm.x, c.palm.y, c.palm.z)]. *)
Definition palmVector (c : HandControl) : Vector3 :=
  vec3 (x (palm c)) (y (palm c)) (z (palm c)).

(** ** Construction of the particle store *)

(** One iteration of the loop of [initParticles]; it draws nine random
    numbers, in the order position, velocity, direction. *)
Definition initParticle (params : ParticleSystemConfig) (rnd : nat -> R) (i : nat)
  : option Particle :=
  let k := (9 * i)%nat in
  let position := vec3 ((rnd k - 0.5) * boundary params * 2)
                       ((rnd (k + 1)%nat - 0.5) * boundary params * 2)
                       ((rnd (k + 2)%nat - 0.5) * boundary params * 2) in
  let velocity := vec3 ((rnd (k + 3)%nat - 0.5) * 0.8)
                       ((rnd (k + 4)%nat - 0.5) * 0.8)
                       ((rnd (k + 5)%nat - 0.5) * 0.8) in
  direction <- normalize (vec3 (rnd (k + 6)%nat - 0.5)
                               (rnd (k + 7)%nat - 0.5)
                               (rnd (k + 8)%nat - 0.5)) ;;
  Some {| position := position; velocity := velocity; direction := direction;
          groupIndex := i mod 2; assignedCenterIndex := None;
          targetPosition := None |}.

Definition initParticles (params : ParticleSystemConfig) (rnd : nat -> R)
  : option (list Particle) :=
  mapM (initParticle params rnd) (seq 0 (count params)).

(** The physics part of the constructor. *)
Definition construct (params : ParticleSystemConfig) (rnd : nat -> R)
  : option OptimizedParticleSystem :=
  ps <- initParticles params rnd ;;
  Some {| params := params; particles := ps; handControls := [] |}.

(** ** Responsive and cohesive behaviours (identical in the three revisions) *)

(** The contribution of one hand inside the loop of
    [handleResponsiveBehavior]. *)
Definition responsiveHand (params : ParticleSystemConfig) (particle : Particle)
    (totalForce : Vector3) (control : HandControl) : option Vector3 :=
  let palmPos := palmVector control in
  let toPalm := sub palmPos (position particle) in
  dist <- length toPalm ;;
  if Rlt_dec dist (nullish (interactionRadius params) 0) then
    n <- normalize toPalm ;;
    q <- jsdiv dist (nullish (interactionRadius params) 1) ;;
    let force := multiplyScalar n (nullish (attractionStrength params) 0 * (1 - q)) in
    Some (add totalForce force)
  else Some totalForce.

(** The random motion added at the end of [handleResponsiveBehavior]; [k] is
    the number of draws already made in the tick. *)
Definition jitter (rnd : nat -> R) (k : nat) : Vector3 :=
  vec3 ((rnd k - 0.5) * 0.05) ((rnd (k + 1)%nat - 0.5) * 0.05) ((rnd (k + 2)%nat - 0.5) * 0.05).

Definition handleResponsiveBehavior (params : ParticleSystemConfig)
    (handControls : list HandControl) (rnd : nat -> R) (k : nat)
    (particle : Particle) (totalForce : Vector3) : option Vector3 :=
  totalForce' <- foldM (responsiveHand params particle) handControls totalForce ;;
  Some (add totalForce' (jitter rnd k)).

(** The indices visited by [for (let i = 0; i < n; i += step)]. *)
Fixpoint strideFrom (fuel i n step : nat) : list nat :=
  match fuel with
  | O => []
  | S fuel' => if (i <? n)%nat then i :: strideFrom fuel' (i + step) n step else []
  end.

Definition strideIndices (step n : nat) : list nat := strideFrom n 0 n step.

(** The body of the sampling loop of [handleCohesiveBehavior]. *)
Definition cohesiveOther (params : ParticleSystemConfig) (particles : list Particle)
    (particle : Particle) (index : nat) (totalForce : Vector3) (i : nat)
  : option Vector3 :=
  if (i =? index)%nat then Some totalForce
  else
    other <- nth_error particles i ;;
    let dir := sub (position other) (position particle) in
    dist <- length dir ;;
    if Rlt_dec dist (nullish (cohesionRadius params) 0) then
      n <- normalize dir ;;
      q <- jsdiv dist (nullish (cohesionRadius params) 1) ;;
      let dir' := multiplyScalar n (nullish (cohesionStrength params) 0 * (1 - q)) in
      Some (add totalForce dir')
    else Some totalForce.

Definition handleCohesiveBehavior (params : ParticleSystemConfig)
    (particles : list Particle) (particle : Particle) (index : nat)
    (totalForce : Vector3) : option Vector3 :=
  let toCenter := multiplyScalar (position particle) (-0.01) in
  let totalForce1 := add totalForce toCenter in
  let checkStep := 10%nat in
  foldM (cohesiveOther params particles particle index)
        (strideIndices checkStep (List.length particles)) totalForce1.

(** One axis of [applyBoundaries]: the new coordinate and velocity component. *)
Definition applyAxis (boundary p v : R) : R * R :=
  if Rgt_dec (Rabs p) boundary then (sign p * boundary, v * -0.8) else (p, v).

Definition applyBoundaries (params : ParticleSystemConfig) (particle : Particle)
  : Particle :=
  let b := boundary params in
  let '(px, vx) := applyAxis b (x (position particle)) (x (velocity particle)) in
  let '(py, vy) := applyAxis b (y (position particle)) (y (velocity particle)) in
  let '(pz, vz) := applyAxis b (z (position particle)) (z (velocity particle)) in
  withMotion particle (vec3 px py pz) (vec3 vx vy vz).

(** The integration step "Apply forces" of [update]. *)
Definition integrate (params : ParticleSystemConfig) (particle : Particle)
    (totalForce : Vector3) : Particle :=
  let velocity1 := multiplyScalar (add (velocity particle) totalForce) (viscosity params) in
  let position1 := add (position particle) velocity1 in
  withMotion particle position1 velocity1.

(** The total force on particle [i], computed on the store as it is when the
    loop reaches [i]. *)
Definition forceOn (params : ParticleSystemConfig) (handControls : list HandControl)
    (rnd : nat -> R) (ps : list Particle) (i : nat) (particle : Particle)
  : option Vector3 :=
  let totalForce := vec3 0 0 0 in
  match behavior params with
  | responsive => handleResponsiveBehavior params handControls rnd (3 * i) particle totalForce
  | _ => handleCohesiveBehavior params ps particle i totalForce
  end.

(** One iteration of the particle loop of [update]: the particle objects are
    mutated in place, so later particles see the moved earlier ones.  [force]
    is the dispatch on the behaviour, which differs between the revisions only
    in how an unset tunable is read. *)
Definition updateParticle (force : list Particle -> nat -> Particle -> option Vector3)
    (params : ParticleSystemConfig) (ps : list Particle) (i : nat)
  : option (list Particle) :=
  particle <- nth_error ps i ;;
  totalForce <- force ps i particle ;;
  Some (replaceAt i (applyBoundaries params (integrate params particle totalForce)) ps).

(** The particle loop of [update] for the responsive and cohesive behaviours. *)
Definition updateLoop (force : list Particle -> nat -> Particle -> option Vector3)
    (params : ParticleSystemConfig) (ps : list Particle) : option (list Particle) :=
  foldM (updateParticle force params) (seq 0 (List.length ps)) ps.

Definition updateForces (params : ParticleSystemConfig)
    (handControls : list HandControl) (rnd : nat -> R) (ps : list Particle)
  : option (list Particle) :=
  updateLoop (forceOn params handControls rnd) params ps.

(** ** Code shared by the needle modes

    The following blocks occur verbatim in [updateNeedleSphere] and
    [updateNeedleSwarm] of both [src/lib/optimized-particle-system.ts] and
    [src/unnamed/part_001]; each is transcribed once. *)

Definition up : Vector3 := vec3 0 1 0.

(** "Compute dynamic center and hand distance": the active center and the
    driving distance of [updateNeedleSphere]. *)
Definition sphereCenter (handControls : list HandControl) : option (Vector3 * R) :=
  match handControls with
  | [c0; c1] =>
      let palmA := palmVector c0 in
      let palmB := palmVector c1 in
      handDistance <- distanceTo palmA palmB ;;
      Some (multiplyScalar (addVectors palmA palmB) 0.5, handDistance)
  | [c0] => Some (vec3 (x (palm c0)) (y (palm c0)) (z (palm c0)), 15)
  | _ => Some (vec3 0 0 0, 10)
  end.

(** [effectiveRadius] of [updateNeedleSphere] for a driving distance. *)
Definition effectiveRadius (params : ParticleSystemConfig) (handDistance : R) : R :=
  let baseRadius := nullish (baseRadius params) 8 in
  let radiusHandScale := nullish (radiusHandScale params) 1.2 in
  let targetRadius := baseRadius + handDistance * radiusHandScale in
  targetRadius.

(** [targetRadiusForParticle] of [updateNeedleSphere]. *)
Definition targetRadiusForParticle (params : ParticleSystemConfig) (handDistance : R)
    (particle : Particle) : R :=
  let outerRadiusMultiplier := nullish (outerRadiusMultiplier params) 1.8 in
  let shellMultiplier := if (groupIndex particle =? 0)%nat then 1 else outerRadiusMultiplier in
  effectiveRadius params handDistance * shellMultiplier.

(** "Project to sphere surface": the radial direction [toSurface], with the
    stored direction as the fallback at the center. *)
Definition radialDirection (center : Vector3) (particle : Particle) : option Vector3 :=
  let toParticle := sub (position particle) center in
  currentDist <- length toParticle ;;
  if Rgt_dec currentDist 0.01 then normalize toParticle
  else normalize (direction particle).

(** "Create tangential swimming motion": the two tangents and the swim
    direction for particle [i]; [freq] multiplies the time in the phase. *)
Definition swimDirection (toSurface : Vector3) (i : nat) (time freq swimSpeed : R)
  : option Vector3 :=
  let tangent1 := crossVectors toSurface up in
  let tangent1 :=
    if Rlt_dec (lengthSq tangent1) 0.01 then crossVectors toSurface (vec3 1 0 0)
    else tangent1 in
  tangent1 <- normalize tangent1 ;;
  tangent2 <- normalize (crossVectors toSurface tangent1) ;;
  let phase := INR i * 0.01 + time * freq in
  Some (add (multiplyScalar tangent1 (cos phase * swimSpeed))
            (multiplyScalar tangent2 (sin phase * swimSpeed))).

(** [f(particles[i], i)] for every index, the shape of the particle loops of
    the needle modes (each particle only reads its own fields). *)
Definition forEachParticle (f : nat -> Particle -> option Particle) (ps : list Particle)
  : option (list Particle) :=
  mapM (fun ip => f (fst ip) (snd ip)) (combine (seq 0 (List.length ps)) ps).

(** "Step 1: Stable assignment" of [updateNeedleSwarm]: the search for the
    nearest center; [minDist = None] stands for [Infinity]. *)
Fixpoint nearestFrom (pos : Vector3) (centers : list Vector3) (j nearestIndex : nat)
    (minDist : option R) : option nat :=
  match centers with
  | [] => Some nearestIndex
  | c :: cs =>
      d <- distanceTo pos c ;;
      if match minDist with
         | None => true
         | Some m => if Rlt_dec d m then true else false
         end
      then nearestFrom pos cs (S j) j (Some d)
      else nearestFrom pos cs (S j) nearestIndex minDist
  end.

(** The hysteresis loop: the first center other than [k] that is closer than
    [currentDist * 0.8], if there is one. *)
Fixpoint reassignFrom (pos : Vector3) (centers : list Vector3) (j k : nat)
    (currentDist : R) : option (option nat) :=
  match centers with
  | [] => Some None
  | c :: cs =>
      if (j =? k)%nat then reassignFrom pos cs (S j) k currentDist
      else
        d <- distanceTo pos c ;;
        if Rlt_dec d (currentDist * 0.8) then Some (Some j)
        else reassignFrom pos cs (S j) k currentDist
  end.

Definition assignNearest (centers : list Vector3) (particle : Particle) : option Particle :=
  nearestIndex <- nearestFrom (position particle) centers 0 0 None ;;
  Some (withAssignedCenterIndex particle nearestIndex).

(** The body of the assignment loop for one particle. *)
Definition assignCenter (centers : list Vector3) (particle : Particle) : option Particle :=
  match assignedCenterIndex particle with
  | None => assignNearest centers particle
  | Some k =>
      if (List.length centers <=? k)%nat then assignNearest centers particle
      else
        currentCenter <- nth_error centers k ;;
        currentDist <- distanceTo (position particle) currentCenter ;;
        r <- reassignFrom (position particle) centers 0 k currentDist ;;
        match r with
        | Some newIndex => Some (withAssignedCenterIndex particle newIndex)
        | None => Some particle
        end
  end.

(** ** [src/lib/optimized-particle-system.ts] *)

Module SrcLib.

(** The body of the particle loop of [updateNeedleSphere]. *)
Definition needleSphereParticle (params : ParticleSystemConfig) (center : Vector3)
    (handDistance deltaTime time : R) (i : nat) (particle : Particle) : option Particle :=
  let targetRadiusForParticle := targetRadiusForParticle params handDistance particle in
  toSurface <- radialDirection center particle ;;
  let surfacePos := add (multiplyScalar toSurface targetRadiusForParticle) center in
  let swimSpeed := 4.0 in
  swimDirection <- swimDirection toSurface i time 0.4 swimSpeed ;;
  let velocity1 := lerp (velocity particle) swimDirection (deltaTime * 3.0) in
  let position1 := add surfacePos (multiplyScalar velocity1 deltaTime) in
  let newToParticle := sub position1 center in
  position2 <-
    (if Rgt_dec (lengthSq newToParticle) 0.01 then
       n <- normalize newToParticle ;;
       Some (add (multiplyScalar n targetRadiusForParticle) center)
     else Some position1) ;;
  Some (withMotion particle position2 velocity1).

Definition updateNeedleSphere (s : OptimizedParticleSystem) (now deltaTime : R)
  : option (list Particle) :=
  ch <- sphereCenter (handControls s) ;;
  let center := fst ch in
  let handDistance := snd ch in
  let time := now * 0.001 in
  forEachParticle (needleSphereParticle (params s) center handDistance deltaTime time)
                  (particles s).

(** The body of the particle loop of the no-hands branch of
    [updateNeedleSwarm]. *)
Definition swarmIdleParticle (deltaTime time : R) (i : nat) (particle : Particle)
  : option Particle :=
  let center := vec3 0 0 0 in
  let sphereRadius := 12 in
  let shellMultiplier := 1.8 in
  let swimSpeed := 5.0 in
  let shell := if (groupIndex particle =? 0)%nat then 1 else shellMultiplier in
  let targetRadius := sphereRadius * shell in
  toParticle <- radialDirection center particle ;;
  let surfacePos := add (multiplyScalar toParticle targetRadius) center in
  swimDirection <- swimDirection toParticle i time 0.5 swimSpeed ;;
  let velocity1 := lerp (velocity particle) swimDirection (deltaTime * 3.0) in
  let position1 := add surfacePos (multiplyScalar velocity1 deltaTime) in
  let newToParticle := sub position1 center in
  position2 <-
    (if Rgt_dec (lengthSq newToParticle) 0.01 then
       n <- normalize newToParticle ;;
       Some (add (multiplyScalar n targetRadius) center)
     else Some position1) ;;
  Some (withMotion particle position2 velocity1).

(** "Scale sphere radius based on hand separation". *)
Definition swarmSphereRadius (centers : list Vector3) : option R :=
  match centers with
  | c0 :: c1 :: _ =>
      handDistance <- distanceTo c0 c1 ;;
      let maxRadiusForSeparation := handDistance * 0.33 in
      let baseRadius := 6 in
      let radiusHandScale := 0.25 in
      let dynamicRadius := baseRadius + handDistance * radiusHandScale in
      Some (Rmax 6 (Rmin dynamicRadius maxRadiusForSeparation))
  | _ => Some 12
  end.

(** "Gravitational pull" toward the assigned center. *)
Definition gravitationalForce (toCenter : Vector3) (distToCenter targetRadius : R)
  : option Vector3 :=
  let gravitationalStrength := 25.0 in
  let coreRadius := targetRadius * 0.3 in
  if Rgt_dec distToCenter 0.01 then
    toCenterNorm <- normalize toCenter ;;
    if Rgt_dec distToCenter targetRadius then
      q <- jsdiv targetRadius (Rmax distToCenter targetRadius) ;;
      let pullStrength := gravitationalStrength * (1.0 - q) in
      Some (multiplyScalar toCenterNorm (pullStrength * 1.5))
    else if Rlt_dec distToCenter coreRadius then
      q <- jsdiv distToCenter coreRadius ;;
      let pushStrength := gravitationalStrength * 0.5 * (1.0 - q) in
      Some (multiplyScalar toCenterNorm (- pushStrength))
    else
      q <- jsdiv (distToCenter - coreRadius) (targetRadius - coreRadius) ;;
      let pullStrength := gravitationalStrength * 0.3 * (1.0 - q) in
      Some (multiplyScalar toCenterNorm pullStrength)
  else Some (vec3 0 0 0).

(** "Step 2" of [updateNeedleSwarm]: the body of the second particle loop. *)
Definition swarmFollowParticle (centers : list Vector3) (sphereRadius deltaTime time : R)
    (i : nat) (particle : Particle) : option Particle :=
  let shellMultiplier := 1.8 in
  let swimSpeed := 8.0 in
  let followSpeed := 0.3 in
  let centerIndex := match assignedCenterIndex particle with Some k => k | None => O end in
  center <- nth_error centers centerIndex ;;
  let shell := if (groupIndex particle =? 0)%nat then 1 else shellMultiplier in
  let targetRadius := sphereRadius * shell in
  let toCenter := sub center (position particle) in
  distToCenter <- length toCenter ;;
  gravitationalForce <- gravitationalForce toCenter distToCenter targetRadius ;;
  let velocity1 := add (velocity particle) (multiplyScalar gravitationalForce deltaTime) in
  direction <- radialDirection center particle ;;
  let targetPos := add (multiplyScalar direction targetRadius) center in
  let targetPosition1 :=
    match targetPosition particle with
    | None => targetPos
    | Some t => lerp t targetPos followSpeed
    end in
  let position1 := add (position particle) (multiplyScalar velocity1 deltaTime) in
  let position2 := lerp position1 targetPosition1 (followSpeed * 1.5) in
  let toCurrent := sub position2 center in
  position3 <-
    (if Rgt_dec (lengthSq toCurrent) 0.01 then
       dist <- length toCurrent ;;
       if Rgt_dec (Rabs (dist - targetRadius)) 2.0 then
         n <- normalize toCurrent ;;
         Some (lerp position2 (add (multiplyScalar n targetRadius) center) 0.1)
       else Some position2
     else Some position2) ;;
  toSurface <- normalize (sub position3 center) ;;
  swimDirection <- swimDirection toSurface i time 0.5 swimSpeed ;;
  let velocity2 := lerp velocity1 swimDirection (deltaTime * 4.0) in
  let velocity3 := multiplyScalar velocity2 0.96 in
  let maxSpeed := 25.0 in
  speed <- length velocity3 ;;
  velocity4 <-
    (if Rgt_dec speed maxSpeed then
       n <- normalize velocity3 ;; Some (multiplyScalar n maxSpeed)
     else Some velocity3) ;;
  let position4 := add position3 (multiplyScalar velocity4 deltaTime) in
  let newToSurface := sub position4 center in
  pt <-
    (if Rgt_dec (lengthSq newToSurface) 0.01 then
       dist <- length newToSurface ;;
       if Rgt_dec (Rabs (dist - targetRadius)) 0.5 then
         n <- normalize newToSurface ;;
         let position5 := lerp position4 (add (multiplyScalar n targetRadius) center) 0.2 in
         Some (position5, position5)
       else Some (position4, targetPosition1)
     else Some (position4, targetPosition1)) ;;
  Some (withTargetPosition (withMotion particle (fst pt) velocity4) (snd pt)).

Definition updateNeedleSwarm (s : OptimizedParticleSystem) (now deltaTime : R)
  : option (list Particle) :=
  let time := now * 0.001 in
  match handControls s with
  | [] => forEachParticle (swarmIdleParticle deltaTime time) (particles s)
  | _ =>
      let centers := map palmVector (handControls s) in
      sphereRadius <- swarmSphereRadius centers ;;
      ps1 <- mapM (assignCenter centers) (particles s) ;;
      forEachParticle (swarmFollowParticle centers sphereRadius deltaTime time) ps1
  end.

(** [update(deltaTime)]; [now] is the value of [performance.now()] read by
    the tick and [rnd] the stream of [Math.random()] results. *)
Definition update (deltaTime now : R) (rnd : nat -> R) (s : OptimizedParticleSystem)
  : option OptimizedParticleSystem :=
  match behavior (params s) with
  | needleSphere => ps <- updateNeedleSphere s now deltaTime ;; Some (withParticles s ps)
  | needleSwarm => ps <- updateNeedleSwarm s now deltaTime ;; Some (withParticles s ps)
  | _ =>
      ps <- updateForces (params s) (handControls s) rnd (particles s) ;;
      Some (withParticles s ps)
  end.

End SrcLib.

(** ** [src/unnamed/part_001]: the revision with the strict sphere constraint *)

Module Part001.

(** The body of the particle loop of [updateNeedleSphere]. *)
Definition needleSphereParticle (params : ParticleSystemConfig) (center : Vector3)
    (handDistance deltaTime time : R) (i : nat) (particle : Particle) : option Particle :=
  let targetRadiusForParticle := targetRadiusForParticle params handDistance particle in
  toSurface <- radialDirection center particle ;;
  let surfacePos := add (multiplyScalar toSurface targetRadiusForParticle) center in
  let swimSpeed := 4.0 in
  swimDirection <- swimDirection toSurface i time 0.4 swimSpeed ;;
  let currentRadial := multiplyScalar toSurface (dot (velocity particle) toSurface) in
  let tangentialVelocity := sub (velocity particle) currentRadial in
  let desiredTangentialVelocity := swimDirection in
  let velocity1 := lerp tangentialVelocity desiredTangentialVelocity (deltaTime * 3.0) in
  let position1 := add surfacePos (multiplyScalar velocity1 deltaTime) in
  let newToParticle := sub position1 center in
  position2 <-
    (if Rgt_dec (lengthSq newToParticle) 0.0001 then
       n <- normalize newToParticle ;;
       Some (add (multiplyScalar n targetRadiusForParticle) center)
     else
       d <- normalize (direction particle) ;;
       Some (add (multiplyScalar d targetRadiusForParticle) center)) ;;
  let updatedDirection := sub position2 center in
  direction1 <-
    (if Rgt_dec (lengthSq updatedDirection) 0.0001 then normalize updatedDirection
     else Some (direction particle)) ;;
  Some (withDirection (withMotion particle position2 velocity1) direction1).

Definition updateNeedleSphere (s : OptimizedParticleSystem) (now deltaTime : R)
  : option (list Particle) :=
  ch <- sphereCenter (handControls s) ;;
  let center := fst ch in
  let handDistance := snd ch in
  let time := now * 0.001 in
  forEachParticle (needleSphereParticle (params s) center handDistance deltaTime time)
                  (particles s).

(** The body of the particle loops of [updateNeedleSwarm]: the no-hands loop
    with the origin as [center], and the "Step 2" loop with the assigned palm
    as [center]; the two loops have the same text. *)
Definition swarmParticle (center : Vector3) (deltaTime time : R) (i : nat)
    (particle : Particle) : option Particle :=
  let sphereRadius := 12 in
  let shellMultiplier := 1.8 in
  let swimSpeed := 5.0 in
  let sphereFormationSpeed := 0.4 in
  let shell := if (groupIndex particle =? 0)%nat then 1 else shellMultiplier in
  let targetRadius := sphereRadius * shell in
  let toParticle := sub (position particle) center in
  currentDist <- length toParticle ;;
  toSurface <- radialDirection center particle ;;
  let surfacePos := add (multiplyScalar toSurface targetRadius) center in
  let position1 :=
    if Rgt_dec (Rabs (currentDist - targetRadius)) 0.5
    then lerp (position particle) surfacePos sphereFormationSpeed
    else surfacePos in
  let updatedToSurface := sub position1 center in
  direction1 <-
    (if Rgt_dec (lengthSq updatedToSurface) 0.0001 then normalize updatedToSurface
     else Some (direction particle)) ;;
  swimDirection <- swimDirection toSurface i time 0.5 swimSpeed ;;
  let currentRadial := multiplyScalar toSurface (dot (velocity particle) toSurface) in
  let tangentialVelocity := sub (velocity particle) currentRadial in
  let velocity1 := lerp tangentialVelocity swimDirection (deltaTime * 3.0) in
  let position2 := add position1 (multiplyScalar velocity1 deltaTime) in
  let newToParticle := sub position2 center in
  position3 <-
    (if Rgt_dec (lengthSq newToParticle) 0.0001 then
       n <- normalize newToParticle ;;
       Some (add (multiplyScalar n targetRadius) center)
     else
       d <- normalize direction1 ;;
       Some (add (multiplyScalar d targetRadius) center)) ;;
  Some (withDirection (withMotion particle position3 velocity1) direction1).

(** "Step 2" for one particle: the assigned center is looked up first. *)
Definition swarmFollowParticle (centers : list Vector3) (deltaTime time : R) (i : nat)
    (particle : Particle) : option Particle :=
  let centerIndex := match assignedCenterIndex particle with Some k => k | None => O end in
  center <- nth_error centers centerIndex ;;
  swarmParticle center deltaTime time i particle.

Definition updateNeedleSwarm (s : OptimizedParticleSystem) (now deltaTime : R)
  : option (list Particle) :=
  let time := now * 0.001 in
  match handControls s with
  | [] => forEachParticle (swarmParticle (vec3 0 0 0) deltaTime time) (particles s)
  | _ =>
      let centers := map palmVector (handControls s) in
      ps1 <- mapM (assignCenter centers) (particles s) ;;
      forEachParticle (swarmFollowParticle centers deltaTime time) ps1
  end.

(** [update(deltaTime)]; the leading [updateSkeletons()] only moves meshes. *)
Definition update (deltaTime now : R) (rnd : nat -> R) (s : OptimizedParticleSystem)
  : option OptimizedParticleSystem :=
  match behavior (params s) with
  | needleSphere => ps <- updateNeedleSphere s now deltaTime ;; Some (withParticles s ps)
  | needleSwarm => ps <- updateNeedleSwarm s now deltaTime ;; Some (withParticles s ps)
  | _ =>
      ps <- updateForces (params s) (handControls s) rnd (particles s) ;;
      Some (withParticles s ps)
  end.

End Part001.

(** ** [src/unnamed/part_002]: the revision with two behaviours

    Its [update] is the particle loop alone.  Its particles carry only a
    position and a velocity, which is all the loop reads and writes.  It reads
    a tunable with [!] instead of [??]: an unset radius makes the comparison
    [dist < undefined] false, and an unset strength inside the product makes
    the result undefined. *)

Module Part002.

Definition responsiveHand (params : ParticleSystemConfig) (particle : Particle)
    (totalForce : Vector3) (control : HandControl) : option Vector3 :=
  let palmPos := palmVector control in
  let toPalm := sub palmPos (position particle) in
  dist <- length toPalm ;;
  match interactionRadius params with
  | None => Some totalForce
  | Some interactionRadius =>
      if Rlt_dec dist interactionRadius then
        n <- normalize toPalm ;;
        attractionStrength <- attractionStrength params ;;
        q <- jsdiv dist interactionRadius ;;
        let force := multiplyScalar n (attractionStrength * (1 - q)) in
        Some (add totalForce force)
      else Some totalForce
  end.

Definition handleResponsiveBehavior (params : ParticleSystemConfig)
    (handControls : list HandControl) (rnd : nat -> R) (k : nat)
    (particle : Particle) (totalForce : Vector3) : option Vector3 :=
  totalForce' <- foldM (responsiveHand params particle) handControls totalForce ;;
  Some (add totalForce' (jitter rnd k)).

Definition cohesiveOther (params : ParticleSystemConfig) (particles : list Particle)
    (particle : Particle) (index : nat) (totalForce : Vector3) (i : nat)
  : option Vector3 :=
  if (i =? index)%nat then Some totalForce
  else
    other <- nth_error particles i ;;
    let dir := sub (position other) (position particle) in
    dist <- length dir ;;
    match cohesionRadius params with
    | None => Some totalForce
    | Some cohesionRadius =>
        if Rlt_dec dist cohesionRadius then
          n <- normalize dir ;;
          cohesionStrength <- cohesionStrength params ;;
          q <- jsdiv dist cohesionRadius ;;
          let dir' := multiplyScalar n (cohesionStrength * (1 - q)) in
          Some (add totalForce dir')
        else Some totalForce
    end.

Definition handleCohesiveBehavior (params : ParticleSystemConfig)
    (particles : list Particle) (particle : Particle) (index : nat)
    (totalForce : Vector3) : option Vector3 :=
  let toCenter := multiplyScalar (position particle) (-0.01) in
  let totalForce1 := add totalForce toCenter in
  let checkStep := 10%nat in
  foldM (cohesiveOther params particles particle index)
        (strideIndices checkStep (List.length particles)) totalForce1.

Definition forceOn (params : ParticleSystemConfig) (handControls : list HandControl)
    (rnd : nat -> R) (ps : list Particle) (i : nat) (particle : Particle)
  : option Vector3 :=
  let totalForce := vec3 0 0 0 in
  match behavior params with
  | responsive => handleResponsiveBehavior params handControls rnd (3 * i) particle totalForce
  | _ => handleCohesiveBehavior params ps particle i totalForce
  end.

Definition update (deltaTime : R) (rnd : nat -> R) (s : OptimizedParticleSystem)
  : option OptimizedParticleSystem :=
  ps <- updateLoop (forceOn (params s) (handControls s) rnd) (params s) (particles s) ;;
  Some (withParticles s ps).

End Part002.

(** ** Values of the defined operations

    The values that the fallible operations return when they are defined;
    the properties below show that they always are. *)

(** The Euclidean norm, the value [length] always returns. *)
Definition norm (v : Vector3) : R := sqrt (lengthSq v).

(** The Euclidean distance, the value [distanceTo] always returns. *)
Definition dist (a b : Vector3) : R := sqrt (distanceToSquared a b).

(** The value [normalize] always returns: the vector scaled by the inverse
    of its norm, and unchanged (zero) when the norm is zero. *)
Definition normalized (v : Vector3) : Vector3 :=
  multiplyScalar v (1 / orElse (norm v) 1).

Definition radial (center : Vector3) (particle : Particle) : Vector3 :=
  if Rgt_dec (norm (sub (position particle) center)) 0.01
  then normalized (sub (position particle) center)
  else normalized (direction particle).

Definition tangent1Of (u : Vector3) : Vector3 :=
  normalized (if Rlt_dec (lengthSq (crossVectors u up)) 0.01
              then crossVectors u (vec3 1 0 0)
              else crossVectors u up).

Definition tangent2Of (u : Vector3) : Vector3 :=
  normalized (crossVectors u (tangent1Of u)).

Definition swimOf (u : Vector3) (i : nat) (time freq swimSpeed : R) : Vector3 :=
  add (multiplyScalar (tangent1Of u) (cos (INR i * 0.01 + time * freq) * swimSpeed))
      (multiplyScalar (tangent2Of u) (sin (INR i * 0.01 + time * freq) * swimSpeed)).

(** The store as the loop sees it when it reaches index [j]: the particles
    before [j] have already moved, the others have not. *)
Definition storeAt (j : nat) (final initial : list Particle) : list Particle :=
  firstn j final ++ skipn j initial.


(** ** The four instances of [OptimizedLiquidSimulation]

    The configurations passed by the constructor of
    [OptimizedLiquidSimulation]; they are the same in
    [src/lib/optimized-particle-system.ts] and [src/unnamed/part_001]. *)

Definition responsiveConfig : ParticleSystemConfig :=
  {| color := 65535%N; count := 1000; size := 0.4; boundary := 25; viscosity := 0.85;
     behavior := responsive; geometry := Some sphere;
     attractionStrength := Some 1.5; interactionRadius := Some 15;
     cohesionStrength := None; cohesionRadius := None;
     baseRadius := None; radiusHandScale := None; outerRadiusMultiplier := None;
     needleLength := None |}.

Definition cohesiveConfig : ParticleSystemConfig :=
  {| color := 16711935%N; count := 800; size := 0.6; boundary := 20; viscosity := 0.95;
     behavior := cohesive; geometry := Some sphere;
     attractionStrength := None; interactionRadius := None;
     cohesionStrength := Some 0.3; cohesionRadius := Some 5;
     baseRadius := None; radiusHandScale := None; outerRadiusMultiplier := None;
     needleLength := None |}.

Definition needleConfig : ParticleSystemConfig :=
  {| color := 16777062%N; count := 2000; size := 0.5; boundary := 60; viscosity := 0.9;
     behavior := needleSphere; geometry := Some needle;
     attractionStrength := None; interactionRadius := None;
     cohesionStrength := None; cohesionRadius := None;
     baseRadius := Some 8; radiusHandScale := Some 1.2; outerRadiusMultiplier := Some 1.9;
     needleLength := Some 4 |}.

Definition swarmConfig : ParticleSystemConfig :=
  {| color := 65416%N; count := 1500; size := 0.4; boundary := 30; viscosity := 0.88;
     behavior := needleSwarm; geometry := Some needle;
     attractionStrength := None; interactionRadius := None;
     cohesionStrength := None; cohesionRadius := None;
     baseRadius := None; radiusHandScale := None; outerRadiusMultiplier := None;
     needleLength := Some 3.5 |}.

(** ** Sample states *)

Definition particleAt (pos vel dir : Vector3) (group : nat) : Particle :=
  {| position := pos; velocity := vel; direction := dir; groupIndex := group;
     assignedCenterIndex := None; targetPosition := None |}.

Definition handAt (p : Vector3) (index : nat) : HandControl :=
  {| palm := p; fingers := []; handIndex := index |}.

Definition systemOf (params : ParticleSystemConfig) (ps : list Particle)
    (hc : list HandControl) : OptimizedParticleSystem :=
  {| params := params; particles := ps; handControls := hc |}.

(** ** Forces of the responsive and cohesive behaviours, as values *)

(** The force that one hand adds to [totalForce] in
    [handleResponsiveBehavior]. *)
Definition handAttraction (params : ParticleSystemConfig) (particle : Particle)
    (control : HandControl) : Vector3 :=
  let toPalm := sub (palmVector control) (position particle) in
  if Rlt_dec (norm toPalm) (nullish (interactionRadius params) 0)
  then multiplyScalar (normalized toPalm)
         (nullish (attractionStrength params) 0
          * (1 - norm toPalm / nullish (interactionRadius params) 1))
  else vec3 0 0 0.

(** The sum of the attractions of all hands. *)
Definition attraction (params : ParticleSystemConfig) (handControls : list HandControl)
    (particle : Particle) : Vector3 :=
  fold_left (fun acc control => add acc (handAttraction params particle control))
            handControls (vec3 0 0 0).



(** ** The responsive scenario of the specification *)

(** A responsive instance with [count = 4], [boundary = 10],
    [interactionRadius = 5] and [attractionStrength = 2]; the other fields
    are those of the responsive instance of [OptimizedLiquidSimulation]. *)
Definition scenarioConfig : ParticleSystemConfig :=
  {| color := 65535%N; count := 4; size := 0.4; boundary := 10; viscosity := 0.85;
     behavior := responsive; geometry := Some sphere;
     attractionStrength := Some 2; interactionRadius := Some 5;
     cohesionStrength := None; cohesionRadius := None;
     baseRadius := None; radiusHandScale := None; outerRadiusMultiplier := None;
     needleLength := None |}.

(** Draws of [Math.random()] for the constructor: the first particle is put
    at (4.8, 0, 0) with velocity (0.3, 0, 0); every other draw is 0.5. *)
Definition scenarioDraws (n : nat) : R :=
  match n with
  | 0%nat => 0.74
  | 3%nat => 0.875
  | 6%nat => 0.75
  | _ => 0.5
  end.

(** ** Sample states of the needle sphere *)

(** One needle of the inner shell on the x axis of the idle sphere (radius
    20), with a velocity left over from a long frame. *)
Definition strandedNeedle : OptimizedParticleSystem :=
  systemOf needleConfig [particleAt (vec3 20 0 0) (vec3 10 0 6) (vec3 1 0 0) 0] [].

(** The same needle swimming at its cruising velocity. *)
Definition cruisingNeedle : OptimizedParticleSystem :=
  systemOf needleConfig [particleAt (vec3 20 0 0) (vec3 0 0 4) (vec3 1 0 0) 0] [].

(** The needle configuration with a shell of radius zero. *)
Definition zeroRadiusConfig : ParticleSystemConfig :=
  {| color := 16777062%N; count := 2000; size := 0.5; boundary := 60; viscosity := 0.9;
     behavior := needleSphere; geometry := Some needle;
     attractionStrength := None; interactionRadius := None;
     cohesionStrength := None; cohesionRadius := None;
     baseRadius := Some 0; radiusHandScale := Some 0; outerRadiusMultiplier := Some 1.9;
     needleLength := Some 4 |}.

(** A needle swimming at its cruising velocity toward a shell of radius zero. *)
Definition collapsingNeedle : OptimizedParticleSystem :=
  systemOf zeroRadiusConfig [particleAt (vec3 5 0 0) (vec3 0 0 4) (vec3 1 0 0) 0] [].

(** The swim direction of particle 0 on the x axis of a shell at clock
    [now], for the needle sphere (swim speed 4, phase [time * 0.4]). *)
Definition cruisingVelocity (now : R) : Vector3 :=
  let phase := INR 0 * 0.01 + now * 0.001 * 0.4 in
  vec3 0 (- (sin phase * 4)) (cos phase * 4).

(** The needle on the x axis of the idle shell, cruising at clock [now]. *)
Definition cruisingNeedleAt (now : R) : OptimizedParticleSystem :=
  systemOf needleConfig [particleAt (vec3 20 0 0) (cruisingVelocity now) (vec3 1 0 0) 0] [].

(** The needle on the x axis of the idle shell whose velocity, blended by a
    one-second frame at clock [now], points at the center with length 20. *)
Definition strandedNeedleAt (now : R) : OptimizedParticleSystem :=
  let phase := INR 0 * 0.01 + now * 0.001 * 0.4 in
  systemOf needleConfig
    [particleAt (vec3 20 0 0) (vec3 10 (- (sin phase * 6)) (cos phase * 6)) (vec3 1 0 0) 0] [].

(** * Rendering, geometry, hand tracking and skeletons

    The parts of the repository around the particle physics: the instance
    matrices written by the needle sphere, the merge of the sword geometry,
    the conversion of hand landmarks into control snapshots, the fan-out of
    a snapshot to the simulation instances, and the meditation skeletons of
    [src/unnamed/part_001]. *)

(** ** THREE.Quaternion and THREE.Matrix4

    The two classes of the three.js library behind the instance matrices,
    with the methods the engine calls. *)

Module Quaternion.

Record Quaternion : Type := quat { qx : R; qy : R; qz : R; qw : R }.

(** [Number.EPSILON], the threshold of [setFromUnitVectors] in some releases
    of the library; others use [1e-8]. *)
Definition EPSILON : R := / 2 ^ 52.

Definition identity : Quaternion := quat 0 0 0 1.

Definition length (q : Quaternion) : option R :=
  jssqrt (qx q * qx q + qy q * qy q + qz q * qz q + qw q * qw q).

Definition normalize (q : Quaternion) : option Quaternion :=
  l <- length q ;;
  if Req_dec_T l 0 then Some (quat 0 0 0 1)
  else
    l' <- jsdiv 1 l ;;
    Some (quat (qx q * l') (qy q * l') (qz q * l') (qw q * l')).

(** The rotation that takes the unit vector [vFrom] to the unit vector
    [vTo].  The library is not part of the repository, and the constant
    below which [r] makes the two vectors count as opposite differs between
    its releases: it is the parameter [threshold]. *)
Definition setFromUnitVectors (threshold : R) (vFrom vTo : Vector3) : option Quaternion :=
  let r := dot vFrom vTo + 1 in
  if Rlt_dec r threshold then
    let r := 0 in
    if Rgt_dec (Rabs (x vFrom)) (Rabs (z vFrom))
    then normalize (quat (- y vFrom) (x vFrom) 0 r)
    else normalize (quat 0 (- z vFrom) (y vFrom) r)
  else
    normalize (quat (y vFrom * z vTo - z vFrom * y vTo)
                    (z vFrom * x vTo - x vFrom * z vTo)
                    (x vFrom * y vTo - y vFrom * x vTo)
                    r).

End Quaternion.

Module Matrix4.

(** [elements] holds the sixteen entries in column-major order. *)
Record Matrix4 : Type := { elements : list R }.

Definition compose (position : Vector3) (quaternion : Quaternion.Quaternion)
    (scale : Vector3) : Matrix4 :=
  let x := Quaternion.qx quaternion in
  let y := Quaternion.qy quaternion in
  let z := Quaternion.qz quaternion in
  let w := Quaternion.qw quaternion in
  let x2 := x + x in let y2 := y + y in let z2 := z + z in
  let xx := x * x2 in let xy := x * y2 in let xz := x * z2 in
  let yy := y * y2 in let yz := y * z2 in let zz := z * z2 in
  let wx := w * x2 in let wy := w * y2 in let wz := w * z2 in
  let sx := THREE.x scale in let sy := THREE.y scale in let sz := THREE.z scale in
  {| elements :=
       [ (1 - (yy + zz)) * sx; (xy + wz) * sx; (xz - wy) * sx; 0;
         (xy - wz) * sy; (1 - (xx + zz)) * sy; (yz + wx) * sy; 0;
         (xz + wy) * sz; (yz - wx) * sz; (1 - (xx + yy)) * sz; 0;
         THREE.x position; THREE.y position; THREE.z position; 1 ] |}.

(** The image of the local x, y and z axes and of the local origin: the
    four columns of the matrix. *)
Definition column (m : Matrix4) (k : nat) : Vector3 :=
  vec3 (nth (4 * k) (elements m) 0) (nth (4 * k + 1) (elements m) 0)
       (nth (4 * k + 2) (elements m) 0).

End Matrix4.

(** ** The instance matrices of the needle sphere

    Each iteration of the particle loop of [updateNeedleSphere] ends by
    composing the instance matrix of its particle from the position the
    iteration has just computed, and stores it with [setMatrixAt(i, ...)].
    The matrix of a particle depends on that particle and on the center
    alone, so the matrices are computed here from the store the loop
    returns, in the order of the indices. *)

Module SrcLibMesh.

(** "Orient needle so its local +Y axis points back to the center", in
    [src/lib/optimized-particle-system.ts]. *)
Definition needleSphereMatrix (threshold : R) (params : ParticleSystemConfig)
    (center : Vector3) (particle : Particle) : option Matrix4.Matrix4 :=
  let upAxis := vec3 0 1 0 in
  let needleLength := nullish (needleLength params) (size params * 4) in
  let tmpScale := vec3 1 needleLength 1 in
  toCenter <- normalize (sub center (position particle)) ;;
  tmpQuaternion <- Quaternion.setFromUnitVectors threshold upAxis toCenter ;;
  Some (Matrix4.compose (position particle) tmpQuaternion tmpScale).

(** [updateNeedleSphere] with the instance matrices it writes; [threshold]
    is the constant of [setFromUnitVectors] in the release of the library
    the page loads. *)
Definition updateNeedleSphere (threshold : R) (s : OptimizedParticleSystem)
    (now deltaTime : R) : option (list Particle * list Matrix4.Matrix4) :=
  ch <- sphereCenter (handControls s) ;;
  ps <- SrcLib.updateNeedleSphere s now deltaTime ;;
  ms <- mapM (needleSphereMatrix threshold (params s) (fst ch)) ps ;;
  Some (ps, ms).

End SrcLibMesh.

Module Part001Mesh.

(** The same block in [src/unnamed/part_001], which falls back to the
    identity rotation at the center. *)
Definition needleSphereMatrix (threshold : R) (params : ParticleSystemConfig)
    (center : Vector3) (particle : Particle) : option Matrix4.Matrix4 :=
  let upAxis := vec3 0 1 0 in
  let needleLength := nullish (needleLength params) (size params * 4) in
  let tmpScale := vec3 1 needleLength 1 in
  let toCenter := sub center (position particle) in
  tmpQuaternion <-
    (if Rgt_dec (lengthSq toCenter) 0.0001 then
       toCenter <- normalize toCenter ;;
       Quaternion.setFromUnitVectors threshold upAxis toCenter
     else Some Quaternion.identity) ;;
  Some (Matrix4.compose (position particle) tmpQuaternion tmpScale).

Definition updateNeedleSphere (threshold : R) (s : OptimizedParticleSystem)
    (now deltaTime : R) : option (list Particle * list Matrix4.Matrix4) :=
  ch <- sphereCenter (handControls s) ;;
  ps <- Part001.updateNeedleSphere s now deltaTime ;;
  ms <- mapM (needleSphereMatrix threshold (params s) (fst ch)) ps ;;
  Some (ps, ms).

End Part001Mesh.

(** ** [mergeGeometries]

    A [THREE.BufferGeometry] as [mergeGeometries] reads and builds it: the
    position attribute, the optional normal attribute and the optional
    index.  A typed array is a list; [Float32Array.set] refuses a source
    that does not fit, a write past the end of a typed array is ignored,
    and a [Uint32Array] stores its values modulo 2^32. *)

Module BufferGeometry.

Record Float32BufferAttribute : Type := { array : list R; count : nat }.

Record IndexBufferAttribute : Type := { indices : list N; indexCount : nat }.

Record BufferGeometry : Type := {
  position : Float32BufferAttribute;
  normal : option Float32BufferAttribute;
  index : option IndexBufferAttribute
}.

(** [target.set(source, offset)]. *)
Definition set {A : Type} (target source : list A) (offset : nat) : option (list A) :=
  if (offset + List.length source <=? List.length target)%nat
  then Some (firstn offset target ++ source ++ skipn (offset + List.length source) target)
  else None.

(** [new THREE.BufferAttribute(array, 3)]. *)
Definition attribute3 (array : list R) : Float32BufferAttribute :=
  {| array := array; count := (List.length array / 3)%nat |}.

(** [new THREE.BufferAttribute(array, 1)]. *)
Definition attribute1 (indices : list N) : IndexBufferAttribute :=
  {| indices := indices; indexCount := List.length indices |}.

(** The first [forEach]: the totals. *)
Definition totals (geometries : list BufferGeometry) : nat * nat :=
  fold_left
    (fun t geo =>
       let totalVertices := (fst t + count (position geo))%nat in
       let totalIndices :=
         match index geo with
         | Some index => (snd t + indexCount index)%nat
         | None => snd t
         end in
       (totalVertices, totalIndices))
    geometries (0%nat, 0%nat).

(** The arrays and offsets threaded through the second [forEach]. *)
Record Merge : Type := {
  positionArray : list R;
  normalArray : list R;
  indexArray : option (list N);
  vertexOffset : nat;
  indexOffset : nat
}.

(** [indexArray[indexOffset + i] = index.getX(i) + vertexOffset]. *)
Definition writeIndex (index : IndexBufferAttribute) (vertexOffset indexOffset : nat)
    (indexArray : list N) (i : nat) : option (list N) :=
  v <- nth_error (indices index) i ;;
  Some (replaceAt (indexOffset + i) ((v + N.of_nat vertexOffset) mod 2 ^ 32)%N indexArray).

(** The body of the second [forEach]. *)
Definition mergeStep (m : Merge) (geo : BufferGeometry) : option Merge :=
  let pos := position geo in
  let norm := normal geo in
  let index := index geo in
  positionArray1 <- set (positionArray m) (array pos) (vertexOffset m * 3) ;;
  normalArray1 <-
    match norm with
    | Some norm => set (normalArray m) (array norm) (vertexOffset m * 3)
    | None => Some (normalArray m)
    end ;;
  io <-
    match index, indexArray m with
    | Some index, Some indexArray =>
        indexArray1 <- foldM (writeIndex index (vertexOffset m) (indexOffset m))
                             (seq 0 (indexCount index)) indexArray ;;
        Some (Some indexArray1, (indexOffset m + indexCount index)%nat)
    | _, _ => Some (indexArray m, indexOffset m)
    end ;;
  Some {| positionArray := positionArray1; normalArray := normalArray1;
          indexArray := fst io; vertexOffset := (vertexOffset m + count pos)%nat;
          indexOffset := snd io |}.

Definition mergeGeometries (geometries : list BufferGeometry) : option BufferGeometry :=
  let totalVertices := fst (totals geometries) in
  let totalIndices := snd (totals geometries) in
  m <- foldM mergeStep geometries
         {| positionArray := repeat 0 (totalVertices * 3);
            normalArray := repeat 0 (totalVertices * 3);
            indexArray := if (0 <? totalIndices)%nat
                          then Some (repeat 0%N totalIndices) else None;
            vertexOffset := 0%nat; indexOffset := 0%nat |} ;;
  Some {| position := attribute3 (positionArray m);
          normal := Some (attribute3 (normalArray m));
          index := option_map attribute1 (indexArray m) |}.

End BufferGeometry.

(** ** [MediaPipeHandler] ([src/unnamed/part_003])

    The hand tracker.  A landmark is a point with coordinates [x], [y], [z];
    the landmarks of one hand are a list, and reading a landmark that the
    list does not hold and then one of its coordinates throws (the result
    is [threw]).  Drawing on the canvas and the text of the label do not
    feed back.  The effect of the registered callback is a function on the
    state [W] of whoever listens. *)

Module MediaPipeHandler.

Module Partial.

(** [interface HandDetectionConfig]: every key is optional. *)
Record HandDetectionConfig : Type := {
  maxNumHands : option R;
  modelComplexity : option R;
  minDetectionConfidence : option R;
  minTrackingConfidence : option R;
  targetFPS : option R
}.

End Partial.

(** [Required<HandDetectionConfig>]. *)
Record HandDetectionConfig : Type := {
  maxNumHands : R;
  modelComplexity : R;
  minDetectionConfidence : R;
  minTrackingConfidence : R;
  targetFPS : R
}.

Record MediaPipeResults : Type := {
  multiHandLandmarks : option (list (list Vector3))
}.

Record MediaPipeHandler (W : Type) : Type := {
  lastFrameTime : R;
  frameThrottle : R;
  isProcessing : bool;
  config : HandDetectionConfig;
  handControlsCallback : option (list HandControl -> W -> W)
}.

Arguments lastFrameTime {W} _.
Arguments frameThrottle {W} _.
Arguments isProcessing {W} _.
Arguments config {W} _.
Arguments handControlsCallback {W} _.

Definition constructor (W : Type) (config : Partial.HandDetectionConfig)
  : option (MediaPipeHandler W) :=
  let config :=
    {| maxNumHands := nullish (Partial.maxNumHands config) 2;
       modelComplexity := nullish (Partial.modelComplexity config) 1;
       minDetectionConfidence := nullish (Partial.minDetectionConfidence config) 0.7;
       minTrackingConfidence := nullish (Partial.minTrackingConfidence config) 0.7;
       targetFPS := nullish (Partial.targetFPS config) 30 |} in
  frameThrottle <- jsdiv 1000 (targetFPS config) ;;
  Some {| lastFrameTime := 0; frameThrottle := frameThrottle; isProcessing := false;
          config := config; handControlsCallback := None |}.

(** [onHandControls(callback)]. *)
Definition onHandControls {W : Type} (h : MediaPipeHandler W)
    (callback : list HandControl -> W -> W) : MediaPipeHandler W :=
  {| lastFrameTime := lastFrameTime h; frameThrottle := frameThrottle h;
     isProcessing := isProcessing h; config := config h;
     handControlsCallback := Some callback |}.

(** [Object.assign(this.config, config)] for keys that are absent or carry
    a number. *)
Definition assign (target : HandDetectionConfig) (source : Partial.HandDetectionConfig)
  : HandDetectionConfig :=
  {| maxNumHands := nullish (Partial.maxNumHands source) (maxNumHands target);
     modelComplexity := nullish (Partial.modelComplexity source) (modelComplexity target);
     minDetectionConfidence :=
       nullish (Partial.minDetectionConfidence source) (minDetectionConfidence target);
     minTrackingConfidence :=
       nullish (Partial.minTrackingConfidence source) (minTrackingConfidence target);
     targetFPS := nullish (Partial.targetFPS source) (targetFPS target) |}.

Definition updateConfig {W : Type} (h : MediaPipeHandler W)
    (config : Partial.HandDetectionConfig) : option (MediaPipeHandler W) :=
  let config1 := assign (MediaPipeHandler.config h) config in
  frameThrottle <- jsdiv 1000 (targetFPS config1) ;;
  Some {| lastFrameTime := lastFrameTime h; frameThrottle := frameThrottle;
          isProcessing := isProcessing h; config := config1;
          handControlsCallback := handControlsCallback h |}.

(** [keyPoints.reduce((sum, idx) => sum + handLandmarks[idx].c, 0) /
    keyPoints.length] for a coordinate [c]. *)
Definition average (coordinate : Vector3 -> R) (handLandmarks : list Vector3)
    (keyPoints : list nat) : option R :=
  total <- foldM (fun sum idx =>
                    landmark <- nth_error handLandmarks idx ;;
                    Some (sum + coordinate landmark))
                 keyPoints 0 ;;
  jsdiv total (INR (List.length keyPoints)).

(** [.filter((landmark) => Boolean(landmark))] on the landmarks read. *)
Fixpoint filterDefined {A : Type} (l : list (option A)) : list A :=
  match l with
  | [] => []
  | Some a :: l' => a :: filterDefined l'
  | None :: l' => filterDefined l'
  end.

(** The body of the loop over the detected hands. *)
Definition handControlOf (handLandmarks : list Vector3) (index : nat) : option HandControl :=
  let keyPoints := [0; 5; 9; 13; 17]%nat in
  palmX <- average x handLandmarks keyPoints ;;
  palmY <- average y handLandmarks keyPoints ;;
  palmZ <- average z handLandmarks keyPoints ;;
  let fingertipIndices := [4; 8; 12; 16; 20]%nat in
  let fingers :=
    map (fun landmark => vec3 ((x landmark - 0.5) * 50) ((y landmark - 0.5) * 50)
                              (z landmark * 50))
        (filterDefined (map (fun tipIndex => nth_error handLandmarks tipIndex)
                            fingertipIndices)) in
  Some {| palm := vec3 ((palmX - 0.5) * 50) ((palmY - 0.5) * 50) (palmZ * 50);
          fingers := fingers; handIndex := index |}.

(** "Process detected hands": the snapshot built from one result. *)
Definition handControlsOf (results : MediaPipeResults) : option (list HandControl) :=
  match multiHandLandmarks results with
  | Some hands =>
      if (0 <? List.length hands)%nat
      then mapM (fun ih => handControlOf (snd ih) (fst ih))
                (combine (seq 0 (List.length hands)) hands)
      else Some []
  | None => Some []
  end.

(** What became of a result. *)
Inductive Outcome : Type :=
| busy
| throttled
| threw
| processed (handControls : list HandControl).

(** [processResults(results)]; [now] is the value of [performance.now()]. *)
Definition processResults {W : Type} (h : MediaPipeHandler W) (now : R)
    (results : MediaPipeResults) (w : W) : MediaPipeHandler W * W * Outcome :=
  if Rlt_dec (now - lastFrameTime h) (frameThrottle h) then (h, w, throttled)
  else
    let finally :=
      {| lastFrameTime := now; frameThrottle := frameThrottle h; isProcessing := false;
         config := config h; handControlsCallback := handControlsCallback h |} in
    match handControlsOf results with
    | None => (finally, w, threw)
    | Some handControls =>
        let w' :=
          match handControlsCallback h with
          | Some callback => callback handControls w
          | None => w
          end in
        (finally, w', processed handControls)
    end.

(** The listener installed by [hands.onResults]. *)
Definition onResults {W : Type} (h : MediaPipeHandler W) (now : R)
    (results : MediaPipeResults) (w : W) : MediaPipeHandler W * W * Outcome :=
  if isProcessing h then (h, w, busy) else processResults h now results w.

(** A sequence of results, each with the clock value at which it arrives. *)
Fixpoint onResultsAll {W : Type} (h : MediaPipeHandler W)
    (events : list (R * MediaPipeResults)) (w : W)
  : MediaPipeHandler W * W * list Outcome :=
  match events with
  | [] => (h, w, [])
  | (now, results) :: events' =>
      let '(h1, w1, o) := onResults h now results w in
      let '(h2, w2, os) := onResultsAll h1 events' w1 in
      (h2, w2, o :: os)
  end.

End MediaPipeHandler.

(** ** [OptimizedLiquidSimulation] and its wiring to the hand tracker *)

Module OptimizedLiquidSimulation.

Record OptimizedLiquidSimulation : Type := {
  systems : list OptimizedParticleSystem
}.

(** [setHandControls]: the snapshot is handed to every instance. *)
Definition setHandControls (sim : OptimizedLiquidSimulation)
    (handControls : list HandControl) : OptimizedLiquidSimulation :=
  {| systems := map (fun system => setHandControls system handControls) (systems sim) |}.

End OptimizedLiquidSimulation.

Module OptimizedHandDetection.

(** The callback that [OptimizedHandDetection] ([src/unnamed/part_000])
    passes to [onHandControls]; the state of the listener is the content of
    [liquidSimRef]. *)
Definition subscriber (controls : list HandControl)
    (liquidSimRef : option OptimizedLiquidSimulation.OptimizedLiquidSimulation)
  : option OptimizedLiquidSimulation.OptimizedLiquidSimulation :=
  match liquidSimRef with
  | Some current => Some (OptimizedLiquidSimulation.setHandControls current controls)
  | None => None
  end.

End OptimizedHandDetection.

(** ** The meditation skeletons of [src/unnamed/part_001]

    A skeleton is a [THREE.Group] of meshes.  The identity of a group, which
    [scene.remove] compares, is a number taken from a counter when the group
    is created.  The scene holds the two lights and the instanced mesh that
    the constructor adds, and the groups of the skeletons. *)

Module Skeleton.

(** A joint (a sphere) or a bone (a cylinder), with its local position. *)
Inductive Mesh : Type :=
| sphereMesh (radius : R) (position : Vector3)
| cylinderMesh (radius height : R) (position : Vector3).

Definition meshPosition (m : Mesh) : Vector3 :=
  match m with
  | sphereMesh _ p => p
  | cylinderMesh _ _ p => p
  end.

Record Group : Type := {
  id : nat;
  children : list Mesh;
  position : Vector3;
  rotationY : R
}.

Inductive Object3D : Type :=
| ambientLight
| pointLight
| instancedMesh
| group (id : nat).

Definition scale : R := 3.0.
Definition jointSize : R := 0.3 * scale.
Definition boneRadius : R := 0.08 * scale.

Definition createJoint (x y z : R) : Mesh :=
  sphereMesh jointSize (vec3 (x * scale) (y * scale) (z * scale)).

Definition createBone (from to : Mesh) : option Mesh :=
  let from := meshPosition from in
  let to := meshPosition to in
  let direction := sub to from in
  length <- length direction ;;
  Some (cylinderMesh boneRadius length (multiplyScalar (add from to) 0.5)).

(** [createMeditationSkeleton()]: the children in the order of the calls of
    [skeleton.add]. *)
Definition createMeditationSkeleton (id : nat) : option Group :=
  let head := createJoint 0 4.5 0 in
  let neck := createJoint 0 3.8 0 in
  b1 <- createBone head neck ;;
  let chest := createJoint 0 3.0 0 in
  let waist := createJoint 0 1.5 0 in
  let pelvis := createJoint 0 0.5 0 in
  b2 <- createBone neck chest ;;
  b3 <- createBone chest waist ;;
  b4 <- createBone waist pelvis ;;
  let leftShoulder := createJoint (-0.8) 2.8 0 in
  let leftElbow := createJoint (-1.2) 1.8 0.3 in
  let leftWrist := createJoint (-1.0) 0.8 0.5 in
  let leftHand := createJoint (-0.9) 0.5 0.6 in
  b5 <- createBone chest leftShoulder ;;
  b6 <- createBone leftShoulder leftElbow ;;
  b7 <- createBone leftElbow leftWrist ;;
  b8 <- createBone leftWrist leftHand ;;
  let rightShoulder := createJoint 0.8 2.8 0 in
  let rightElbow := createJoint 1.2 1.8 0.3 in
  let rightWrist := createJoint 1.0 0.8 0.5 in
  let rightHand := createJoint 0.9 0.5 0.6 in
  b9 <- createBone chest rightShoulder ;;
  b10 <- createBone rightShoulder rightElbow ;;
  b11 <- createBone rightElbow rightWrist ;;
  b12 <- createBone rightWrist rightHand ;;
  let leftHip := createJoint (-0.3) 0.2 0 in
  let leftKnee := createJoint (-0.2) (-0.2) 0.4 in
  let leftAnkle := createJoint 0.3 0.1 0.5 in
  let leftFoot := createJoint 0.5 0.3 0.4 in
  b13 <- createBone pelvis leftHip ;;
  b14 <- createBone leftHip leftKnee ;;
  b15 <- createBone leftKnee leftAnkle ;;
  b16 <- createBone leftAnkle leftFoot ;;
  let rightHip := createJoint 0.3 0.2 0 in
  let rightKnee := createJoint 0.4 0.0 0.3 in
  let rightAnkle := createJoint 0.2 0.4 0.2 in
  let rightFoot := createJoint (-0.3) 0.5 0.1 in
  b17 <- createBone pelvis rightHip ;;
  b18 <- createBone rightHip rightKnee ;;
  b19 <- createBone rightKnee rightAnkle ;;
  b20 <- createBone rightAnkle rightFoot ;;
  Some {| id := id;
          children :=
            [head; neck; b1; chest; waist; pelvis; b2; b3; b4;
             leftShoulder; leftElbow; leftWrist; leftHand; b5; b6; b7; b8;
             rightShoulder; rightElbow; rightWrist; rightHand; b9; b10; b11; b12;
             leftHip; leftKnee; leftAnkle; leftFoot; b13; b14; b15; b16;
             rightHip; rightKnee; rightAnkle; rightFoot; b17; b18; b19; b20];
          position := vec3 0 0 0;
          rotationY := 0 |}.

(** The pelvis joint is the child of index 5. *)
Definition pelvisOf (skeleton : Group) : option Mesh := nth_error (children skeleton) 5.

(** The world position of a child of a group that is not rotated. *)
Definition worldPosition (skeleton : Group) (child : Mesh) : Vector3 :=
  add (position skeleton) (meshPosition child).

(** The particle system of [src/unnamed/part_001] with its scene graph. *)
Record System : Type := {
  physics : OptimizedParticleSystem;
  scene : list Object3D;
  skeletons : list Group;
  nextId : nat
}.

(** [scene.remove(object)]. *)
Fixpoint remove (object : nat) (scene : list Object3D) : list Object3D :=
  match scene with
  | [] => []
  | group k :: scene' =>
      if (k =? object)%nat then scene' else group k :: remove object scene'
  | o :: scene' => o :: remove object scene'
  end.

(** [scene.add(object)]. *)
Definition add (object : nat) (scene : list Object3D) : list Object3D :=
  remove object scene ++ [group object].

(** [this.skeletons.forEach(skeleton => this.scene.remove(skeleton) ...)]. *)
Definition removeAll (skeletons : list Group) (scene : list Object3D) : list Object3D :=
  fold_left (fun scene skeleton => remove (id skeleton) scene) skeletons scene.

(** "Remove excess skeletons if we have fewer hands": the [while] loop runs
    [fuel] times at most, and [fuel] is the excess. *)
Fixpoint popExcess (fuel n : nat) (skeletons : list Group) (scene : list Object3D)
  : list Group * list Object3D :=
  match fuel with
  | O => (skeletons, scene)
  | S fuel' =>
      if (n <? List.length skeletons)%nat then
        match rev skeletons with
        | skeleton :: rest => popExcess fuel' n (rev rest) (remove (id skeleton) scene)
        | [] => popExcess fuel' n [] scene
        end
      else (skeletons, scene)
  end.

(** "Add skeletons if we have more hands". *)
Fixpoint pushMissing (fuel n : nat) (skeletons : list Group) (scene : list Object3D)
    (nextId : nat) : option (list Group * list Object3D * nat) :=
  match fuel with
  | O => Some (skeletons, scene, nextId)
  | S fuel' =>
      if (List.length skeletons <? n)%nat then
        skeleton <- createMeditationSkeleton nextId ;;
        pushMissing fuel' n (skeletons ++ [skeleton]) (add (id skeleton) scene) (S nextId)
      else Some (skeletons, scene, nextId)
  end.

(** "Update skeleton positions to match hand centers": one iteration. *)
Definition place (centers : list Vector3) (skeletons : list Group) (i : nat)
  : option (list Group) :=
  skeleton <- nth_error skeletons i ;;
  center <- nth_error centers i ;;
  Some (replaceAt i {| id := id skeleton; children := children skeleton;
                       position := vec3 (x center) (y center - 1.5) (z center);
                       rotationY := 0 |}
                  skeletons).

Definition updateSkeletons (sys : System) : option System :=
  match behavior (params (physics sys)) with
  | needleSwarm =>
      let centers := map palmVector (handControls (physics sys)) in
      let n := List.length centers in
      let '(skeletons1, scene1) :=
        popExcess (List.length (skeletons sys) - n) n (skeletons sys) (scene sys) in
      r <- pushMissing (n - List.length skeletons1) n skeletons1 scene1 (nextId sys) ;;
      let '(skeletons2, scene2, nextId2) := r in
      skeletons3 <- foldM (place centers) (seq 0 n) skeletons2 ;;
      Some {| physics := physics sys; scene := scene2; skeletons := skeletons3;
              nextId := nextId2 |}
  | _ =>
      Some {| physics := physics sys; scene := removeAll (skeletons sys) (scene sys);
              skeletons := []; nextId := nextId sys |}
  end.

(** [setHandControls] of [src/unnamed/part_001]. *)
Definition setHandControls (sys : System) (handControls : list HandControl)
  : option System :=
  updateSkeletons {| physics := setHandControls (physics sys) handControls;
                     scene := scene sys; skeletons := skeletons sys;
                     nextId := nextId sys |}.

(** [update(deltaTime)] of [src/unnamed/part_001], skeletons included. *)
Definition update (deltaTime now : R) (rnd : nat -> R) (sys : System) : option System :=
  sys1 <- updateSkeletons sys ;;
  physics1 <- Part001.update deltaTime now rnd (physics sys1) ;;
  Some {| physics := physics1; scene := scene sys1; skeletons := skeletons sys1;
          nextId := nextId sys1 |}.

(** The state the constructor leaves, for a store of particles. *)
Definition constructor (physics : OptimizedParticleSystem) (nextId : nat) : System :=
  {| physics := physics; scene := [ambientLight; pointLight; instancedMesh];
     skeletons := []; nextId := nextId |}.

End Skeleton.

(** ** Clients of the engine

    A client of a particle system calls its two public methods,
    [setHandControls] and [update], in any order: the hand tracker calls the
    first whenever it has processed a frame, the animation loop the second
    on every animation frame. *)

Inductive Call : Type :=
| callSetHandControls (handControls : list HandControl)
| callUpdate (deltaTime now : R) (rnd : nat -> R).

Definition call (update : R -> R -> (nat -> R) -> OptimizedParticleSystem
                          -> option OptimizedParticleSystem)
    (s : OptimizedParticleSystem) (c : Call) : option OptimizedParticleSystem :=
  match c with
  | callSetHandControls handControls => Some (setHandControls s handControls)
  | callUpdate deltaTime now rnd => update deltaTime now rnd s
  end.

Definition calls (update : R -> R -> (nat -> R) -> OptimizedParticleSystem
                           -> option OptimizedParticleSystem)
    (cs : list Call) (s : OptimizedParticleSystem) : option OptimizedParticleSystem :=
  foldM (call update) cs s.

(** ** Sample states of the swarm *)

(** One needle of the swarm instance of the repository, off its shell, with
    one hand in view. *)
Definition swarmNeedle : OptimizedParticleSystem :=
  systemOf swarmConfig [particleAt (vec3 1 2 3) (vec3 0 1 0) (vec3 1 0 0) 0]
           [handAt (vec3 5 0 0) 0].

(** The same needle at rest on the inner shell of the idle swarm, with no
    hand in view. *)
Definition idleSwarmNeedle : OptimizedParticleSystem :=
  systemOf swarmConfig [particleAt (vec3 12 0 0) (vec3 0 0 0) (vec3 1 0 0) 0] [].

(** ** The merged geometry, as values

    What [mergeGeometries] builds from well-formed pieces. *)

(** The number of vertices of a list of geometries. *)
Definition vertexTotal (geometries : list BufferGeometry.BufferGeometry) : nat :=
  list_sum (map (fun geo => BufferGeometry.count (BufferGeometry.position geo)) geometries).

(** The number of index entries of the indexed geometries of a list. *)
Definition indexTotal (geometries : list BufferGeometry.BufferGeometry) : nat :=
  list_sum (map (fun geo => match BufferGeometry.index geo with
                            | Some index => BufferGeometry.indexCount index
                            | None => 0%nat
                            end) geometries).

(** The normals of a geometry, or zeros when it has none. *)
Definition normalsOrZeros (geo : BufferGeometry.BufferGeometry) : list R :=
  match BufferGeometry.normal geo with
  | Some norm => BufferGeometry.array norm
  | None => repeat 0 (3 * BufferGeometry.count (BufferGeometry.position geo))
  end.

(** The index entries of the geometries, each shifted by the number of
    vertices of the geometries before it, starting from [vertexOffset]. *)
Fixpoint shiftedIndices (geometries : list BufferGeometry.BufferGeometry)
    (vertexOffset : nat) : list N :=
  match geometries with
  | [] => []
  | geo :: geometries' =>
      match BufferGeometry.index geo with
      | Some index => map (fun v => (v + N.of_nat vertexOffset)%N) (BufferGeometry.indices index)
      | None => []
      end
      ++ shiftedIndices geometries'
           (vertexOffset + BufferGeometry.count (BufferGeometry.position geo))
  end.

(** A geometry whose typed arrays have the lengths its counts announce. *)
Definition wellFormed (geo : BufferGeometry.BufferGeometry) : Prop :=
  List.length (BufferGeometry.array (BufferGeometry.position geo))
  = (3 * BufferGeometry.count (BufferGeometry.position geo))%nat
  /\ (forall norm, BufferGeometry.normal geo = Some norm ->
        List.length (BufferGeometry.array norm)
        = (3 * BufferGeometry.count (BufferGeometry.position geo))%nat)
  /\ (forall index, BufferGeometry.index geo = Some index ->
        List.length (BufferGeometry.indices index) = BufferGeometry.indexCount index).

(** Two triangles, the second without normals. *)
Definition triangleA : BufferGeometry.BufferGeometry :=
  {| BufferGeometry.position :=
       {| BufferGeometry.array := [0; 0; 0; 1; 0; 0; 0; 1; 0]; BufferGeometry.count := 3 |};
     BufferGeometry.normal :=
       Some {| BufferGeometry.array := [0; 0; 1; 0; 0; 1; 0; 0; 1];
               BufferGeometry.count := 3 |};
     BufferGeometry.index :=
       Some {| BufferGeometry.indices := [0; 1; 2]%N; BufferGeometry.indexCount := 3 |} |}.

Definition triangleB : BufferGeometry.BufferGeometry :=
  {| BufferGeometry.position :=
       {| BufferGeometry.array := [0; 0; 1; 1; 0; 1; 0; 1; 1]; BufferGeometry.count := 3 |};
     BufferGeometry.normal := None;
     BufferGeometry.index :=
       Some {| BufferGeometry.indices := [0; 2; 1]%N; BufferGeometry.indexCount := 3 |} |}.

(** ** The hand tracker, as values *)

(** The clock values of the results that were not dropped. *)
Fixpoint accepted (events : list (R * MediaPipeHandler.MediaPipeResults))
    (outcomes : list MediaPipeHandler.Outcome) : list R :=
  match events, outcomes with
  | (now, _) :: events', outcome :: outcomes' =>
      match outcome with
      | MediaPipeHandler.busy | MediaPipeHandler.throttled => accepted events' outcomes'
      | _ => now :: accepted events' outcomes'
      end
  | _, _ => []
  end.

(** Successive clock values, starting after [last], at least [gap] apart. *)
Fixpoint spaced (gap last : R) (times : list R) : Prop :=
  match times with
  | [] => True
  | t :: times' => gap <= t - last /\ spaced gap t times'
  end.

(** What the listener has seen after a list of outcomes. *)
Definition delivered {W : Type} (callback : list HandControl -> W -> W)
    (outcomes : list MediaPipeHandler.Outcome) (w : W) : W :=
  fold_left (fun w outcome =>
               match outcome with
               | MediaPipeHandler.processed handControls => callback handControls w
               | _ => w
               end)
            outcomes w.

(** Image coordinates to simulation coordinates. *)
Definition toSimulation (landmark : Vector3) : Vector3 :=
  vec3 ((x landmark - 0.5) * 50) ((y landmark - 0.5) * 50) (z landmark * 50).

(** The mean of the wrist and the four finger bases (landmarks 0, 5, 9, 13
    and 17) of a hand, in image coordinates. *)
Definition palmCentroid (handLandmarks : list Vector3) : Vector3 :=
  let l := fun k => nth k handLandmarks (vec3 0 0 0) in
  vec3 ((x (l 0%nat) + x (l 5%nat) + x (l 9%nat) + x (l 13%nat) + x (l 17%nat)) / 5)
       ((y (l 0%nat) + y (l 5%nat) + y (l 9%nat) + y (l 13%nat) + y (l 17%nat)) / 5)
       ((z (l 0%nat) + z (l 5%nat) + z (l 9%nat) + z (l 13%nat) + z (l 17%nat)) / 5).

(** A configuration object without keys. *)
Definition noKeys : MediaPipeHandler.Partial.HandDetectionConfig :=
  {| MediaPipeHandler.Partial.maxNumHands := None;
     MediaPipeHandler.Partial.modelComplexity := None;
     MediaPipeHandler.Partial.minDetectionConfidence := None;
     MediaPipeHandler.Partial.minTrackingConfidence := None;
     MediaPipeHandler.Partial.targetFPS := None |}.

(** A configuration object with the single key [targetFPS: 10]. *)
Definition tenPerSecond : MediaPipeHandler.Partial.HandDetectionConfig :=
  {| MediaPipeHandler.Partial.maxNumHands := None;
     MediaPipeHandler.Partial.modelComplexity := None;
     MediaPipeHandler.Partial.minDetectionConfidence := None;
     MediaPipeHandler.Partial.minTrackingConfidence := None;
     MediaPipeHandler.Partial.targetFPS := Some 10 |}.

(** A handler with the default configuration whose subscriber appends the
    snapshots it receives to a log. *)
Definition recordingTracker : MediaPipeHandler.MediaPipeHandler (list (list HandControl)) :=
  {| MediaPipeHandler.lastFrameTime := 0;
     MediaPipeHandler.frameThrottle := 1000 / 30;
     MediaPipeHandler.isProcessing := false;
     MediaPipeHandler.config :=
       {| MediaPipeHandler.maxNumHands := 2; MediaPipeHandler.modelComplexity := 1;
          MediaPipeHandler.minDetectionConfidence := 0.7;
          MediaPipeHandler.minTrackingConfidence := 0.7;
          MediaPipeHandler.targetFPS := 30 |};
     MediaPipeHandler.handControlsCallback := Some (fun controls log => log ++ [controls]) |}.

(** A result without hands. *)
Definition noHands : MediaPipeHandler.MediaPipeResults :=
  {| MediaPipeHandler.multiHandLandmarks := None |}.

(** A handler with the default configuration, wired to the simulation as
    [OptimizedHandDetection] does. *)
Definition wiredTracker
  : MediaPipeHandler.MediaPipeHandler
      (option OptimizedLiquidSimulation.OptimizedLiquidSimulation) :=
  {| MediaPipeHandler.lastFrameTime := 0;
     MediaPipeHandler.frameThrottle := 1000 / 30;
     MediaPipeHandler.isProcessing := false;
     MediaPipeHandler.config :=
       {| MediaPipeHandler.maxNumHands := 2; MediaPipeHandler.modelComplexity := 1;
          MediaPipeHandler.minDetectionConfidence := 0.7;
          MediaPipeHandler.minTrackingConfidence := 0.7;
          MediaPipeHandler.targetFPS := 30 |};
     MediaPipeHandler.handControlsCallback := Some OptimizedHandDetection.subscriber |}.

(** A simulation with one needle-sphere instance and one swarm instance. *)
Definition needleSimulation : OptimizedLiquidSimulation.OptimizedLiquidSimulation :=
  {| OptimizedLiquidSimulation.systems := [cruisingNeedle; swarmNeedle] |}.

(** ** The scene graph, as values *)

(** The identities of the skeleton groups of a scene, in order. *)
Fixpoint groupIds (scene : list Skeleton.Object3D) : list nat :=
  match scene with
  | [] => []
  | Skeleton.group k :: scene' => k :: groupIds scene'
  | _ :: scene' => groupIds scene'
  end.

(** The other objects of a scene, in order. *)
Fixpoint fixtures (scene : list Skeleton.Object3D) : list Skeleton.Object3D :=
  match scene with
  | [] => []
  | Skeleton.group _ :: scene' => fixtures scene'
  | o :: scene' => o :: fixtures scene'
  end.

(** A state in which the scene holds exactly the groups of the skeletons of
    the system, every skeleton is a distinct object made by
    [createMeditationSkeleton], and the counter is ahead of every identity
    in use. *)
Definition consistent (sys : Skeleton.System) : Prop :=
  groupIds (Skeleton.scene sys) = map Skeleton.id (Skeleton.skeletons sys)
  /\ NoDup (map Skeleton.id (Skeleton.skeletons sys))
  /\ forall skeleton, In skeleton (Skeleton.skeletons sys) ->
       (Skeleton.id skeleton < Skeleton.nextId sys)%nat
       /\ exists made, Skeleton.createMeditationSkeleton (Skeleton.id skeleton) = Some made
                       /\ Skeleton.children skeleton = Skeleton.children made.

(** A call of a client on the system of [src/unnamed/part_001], scene graph
    included. *)
Definition sceneCall (sys : Skeleton.System) (c : Call) : option Skeleton.System :=
  match c with
  | callSetHandControls handControls => Skeleton.setHandControls sys handControls
  | callUpdate deltaTime now rnd => Skeleton.update deltaTime now rnd sys
  end.

Definition sceneCalls (cs : list Call) (sys : Skeleton.System) : option Skeleton.System :=
  foldM sceneCall cs sys.

(** The number of skeletons the behaviour asks for: one per tracked hand in
    the swarm, none otherwise. *)
Definition skeletonsWanted (s : OptimizedParticleSystem) : nat :=
  match behavior (params s) with
  | needleSwarm => List.length (handControls s)
  | _ => 0%nat
  end.

(** The swarm instance just after construction. *)
Definition swarmScene : Skeleton.System := Skeleton.constructor swarmNeedle 0.

(** ** The two revisions of the responsive and cohesive behaviours *)

(** The strength that the behaviour of a configuration reads is set. *)
Definition strengthSet (params : ParticleSystemConfig) : Prop :=
  match behavior params with
  | responsive => attractionStrength params <> None
  | _ => cohesionStrength params <> None
  end.

(** The responsive configuration without its attraction strength. *)
Definition noStrengthConfig : ParticleSystemConfig :=
  {| color := 65535%N; count := 1000; size := 0.4; boundary := 25; viscosity := 0.85;
     behavior := responsive; geometry := Some sphere;
     attractionStrength := None; interactionRadius := Some 15;
     cohesionStrength := None; cohesionRadius := None;
     baseRadius := None; radiusHandScale := None; outerRadiusMultiplier := None;
     needleLength := None |}.

(** One particle at rest, one unit away from a hand at the origin. *)
Definition heldParticle (params : ParticleSystemConfig) : OptimizedParticleSystem :=
  systemOf params [particleAt (vec3 1 0 0) (vec3 0 0 0) (vec3 1 0 0) 0]
           [handAt (vec3 0 0 0) 0].

(** ** Sample states at the center *)

(** A needle of the swarm instance that has drifted onto the origin, the
    center of the idle swarm; its stored direction is the x axis. *)
Definition centerParticle : Particle :=
  particleAt (vec3 0 0 0) (vec3 0 0 4) (vec3 1 0 0) 0.

Definition centeredSwarmNeedle : OptimizedParticleSystem :=
  systemOf swarmConfig [centerParticle] [].
(** * Properties *)

(** ** Arithmetic of the vector class *)

Lemma sum_squares_nonneg (a b c : R) : 0 <= a * a + b * b + c * c.
Proof. nra. Qed.

Lemma lengthSq_nonneg (v : Vector3) : 0 <= lengthSq v.
Proof. apply sum_squares_nonneg. Qed.

Lemma distanceToSquared_nonneg (a b : Vector3) : 0 <= distanceToSquared a b.
Proof. apply sum_squares_nonneg. Qed.

Lemma jssqrt_nonneg (a : R) : 0 <= a -> jssqrt a = Some (sqrt a).
Proof. intros Ha. unfold jssqrt. destruct (Rlt_dec a 0); [lra | reflexivity]. Qed.

Lemma jsdiv_nonzero (a b : R) : b <> 0 -> jsdiv a b = Some (a / b).
Proof. intros Hb. unfold jsdiv. destruct (Req_dec_T b 0); [contradiction | reflexivity]. Qed.

Lemma length_Some (v : Vector3) : length v = Some (norm v).
Proof. apply jssqrt_nonneg, lengthSq_nonneg. Qed.

Lemma distanceTo_Some (a b : Vector3) : distanceTo a b = Some (dist a b).
Proof. apply jssqrt_nonneg, distanceToSquared_nonneg. Qed.

Lemma norm_nonneg (v : Vector3) : 0 <= norm v.
Proof. apply sqrt_pos. Qed.

Lemma dist_nonneg (a b : Vector3) : 0 <= dist a b.
Proof. apply sqrt_pos. Qed.

Lemma norm_sq (v : Vector3) : norm v * norm v = lengthSq v.
Proof. apply sqrt_sqrt, lengthSq_nonneg. Qed.

Lemma orElse_nonzero (a : R) : orElse a 1 <> 0.
Proof. unfold orElse. destruct (Req_dec_T a 0); lra. Qed.

Lemma normalize_Some (v : Vector3) : normalize v = Some (normalized v).
Proof.
  unfold normalize, divideScalar. rewrite length_Some. cbn [bind].
  rewrite jsdiv_nonzero by apply orElse_nonzero. reflexivity.
Qed.

Lemma vec3_eta (v : Vector3) : v = vec3 (x v) (y v) (z v).
Proof. destruct v; reflexivity. Qed.

Lemma vec3_ext (a b : Vector3) : x a = x b -> y a = y b -> z a = z b -> a = b.
Proof. destruct a, b; simpl; intros; subst; reflexivity. Qed.

Lemma norm_zero_iff (v : Vector3) : norm v = 0 <-> lengthSq v = 0.
Proof.
  split; intros H.
  - rewrite <- norm_sq, H. ring.
  - unfold norm. rewrite H. apply sqrt_0.
Qed.

Lemma lengthSq_zero_vec (v : Vector3) : lengthSq v = 0 -> v = vec3 0 0 0.
Proof.
  unfold lengthSq. intros H. apply vec3_ext; simpl; nra.
Qed.

Lemma lengthSq_multiplyScalar (v : Vector3) (s : R) :
  lengthSq (multiplyScalar v s) = s * s * lengthSq v.
Proof. unfold lengthSq, multiplyScalar; simpl. ring. Qed.

(** A non-zero vector is normalised to a unit vector. *)
Lemma lengthSq_normalized (v : Vector3) : lengthSq v <> 0 -> lengthSq (normalized v) = 1.
Proof.
  intros Hv. unfold normalized. rewrite lengthSq_multiplyScalar.
  assert (Hn : norm v <> 0) by (rewrite norm_zero_iff; exact Hv).
  unfold orElse. destruct (Req_dec_T (norm v) 0); [contradiction|].
  rewrite <- norm_sq. field. exact Hn.
Qed.

(** The zero vector is normalised to itself. *)
Lemma normalized_zero (v : Vector3) : lengthSq v = 0 -> normalized v = vec3 0 0 0.
Proof.
  intros Hv. apply lengthSq_zero_vec in Hv. subst v.
  unfold normalized, multiplyScalar; simpl. f_equal; ring.
Qed.

(** The normalised vector is always zero or unit. *)
Lemma lengthSq_normalized_cases (v : Vector3) :
  lengthSq (normalized v) = 1 \/ normalized v = vec3 0 0 0.
Proof.
  destruct (Req_dec_T (lengthSq v) 0) as [H|H].
  - right. apply normalized_zero, H.
  - left. apply lengthSq_normalized, H.
Qed.

Lemma dot_cross_left (a b : Vector3) : dot (crossVectors a b) a = 0.
Proof. unfold dot, crossVectors; simpl. ring. Qed.

Lemma dot_multiplyScalar_l (a b : Vector3) (s : R) :
  dot (multiplyScalar a s) b = s * dot a b.
Proof. unfold dot, multiplyScalar; simpl. ring. Qed.

Lemma dot_add_l (a b c : Vector3) : dot (add a b) c = dot a c + dot b c.
Proof. unfold dot, add; simpl. ring. Qed.

Lemma dot_sub_l (a b c : Vector3) : dot (sub a b) c = dot a c - dot b c.
Proof. unfold dot, sub; simpl. ring. Qed.

Lemma dot_lerp_l (a b c : Vector3) (t : R) :
  dot (lerp a b t) c = dot a c + (dot b c - dot a c) * t.
Proof. unfold dot, lerp; simpl. ring. Qed.

Lemma dot_normalized_l (a b : Vector3) :
  dot (normalized a) b = (1 / orElse (norm a) 1) * dot a b.
Proof. unfold normalized. apply dot_multiplyScalar_l. Qed.

Lemma dot_self (a : Vector3) : dot a a = lengthSq a.
Proof. reflexivity. Qed.

Lemma dist_norm_sub (a b : Vector3) : dist a b = norm (sub a b).
Proof. reflexivity. Qed.

Lemma sub_add_cancel (a c : Vector3) : sub (add a c) c = a.
Proof. apply vec3_ext; simpl; ring. Qed.

Lemma norm_multiplyScalar (v : Vector3) (s : R) :
  0 <= s -> norm (multiplyScalar v s) = s * norm v.
Proof.
  intros Hs. unfold norm. rewrite lengthSq_multiplyScalar.
  rewrite sqrt_mult by (try apply lengthSq_nonneg; nra).
  rewrite sqrt_square by exact Hs. reflexivity.
Qed.

Lemma norm_unit (v : Vector3) : lengthSq v = 1 -> norm v = 1.
Proof. intros H. unfold norm. rewrite H. apply sqrt_1. Qed.

(** ** The active center and the shell radius of the needle sphere *)



(** ** Loops over the store *)

Lemma mapM_total {A B : Type} (f : A -> option B) (l : list A) :
  (forall a, In a l -> exists b, f a = Some b) -> exists bs, mapM f l = Some bs.
Proof.
  induction l as [|a l IH]; intros H; simpl.
  - eexists; reflexivity.
  - destruct (H a (or_introl eq_refl)) as [b Hb]. rewrite Hb. cbn [bind].
    destruct IH as [bs Hbs]; [intros c Hc; apply H; right; exact Hc|].
    rewrite Hbs. eexists; reflexivity.
Qed.

Lemma mapM_nth {A B : Type} (f : A -> option B) (l : list A) (bs : list B) :
  mapM f l = Some bs ->
  List.length bs = List.length l /\
  forall i a, nth_error l i = Some a ->
              exists b, nth_error bs i = Some b /\ f a = Some b.
Proof.
  revert bs. induction l as [|a l IH]; intros bs H; simpl in H.
  - injection H as <-. split; [reflexivity|]. intros [|i] a' Hi; discriminate.
  - destruct (f a) as [b|] eqn:Hfa; [|discriminate]. cbn [bind] in H.
    destruct (mapM f l) as [bs'|] eqn:Hm; [|discriminate]. cbn [bind] in H.
    injection H as <-. destruct (IH bs' eq_refl) as [Hlen Hnth].
    split; [simpl; congruence|].
    intros [|i] a' Hi; simpl in Hi.
    + injection Hi as <-. exists b. split; [reflexivity | exact Hfa].
    + apply Hnth, Hi.
Qed.

Lemma nth_error_combine_seq {A : Type} (l : list A) (k i : nat) (a : A) :
  nth_error l i = Some a ->
  nth_error (combine (seq k (List.length l)) l) i = Some ((k + i)%nat, a).
Proof.
  revert k i. induction l as [|b l IH]; intros k [|i] H; simpl in *; try discriminate.
  - injection H as <-. rewrite Nat.add_0_r. reflexivity.
  - rewrite (IH (S k) i H). do 2 f_equal. lia.
Qed.

Lemma In_combine_seq {A : Type} (l : list A) (k : nat) (ia : nat * A) :
  In ia (combine (seq k (List.length l)) l) ->
  exists i, nth_error l i = Some (snd ia) /\ fst ia = (k + i)%nat.
Proof.
  revert k. induction l as [|b l IH]; intros k H; simpl in H.
  - contradiction.
  - destruct H as [<-|H].
    + exists 0%nat. simpl. split; [reflexivity | lia].
    + destruct (IH (S k) H) as [i [Hi Hk]]. exists (S i). simpl. split; [exact Hi | lia].
Qed.

(** A total loop body makes the loop total. *)
Lemma forEachParticle_total (f : nat -> Particle -> option Particle) (ps : list Particle) :
  (forall i p, nth_error ps i = Some p -> exists p', f i p = Some p') ->
  exists ps', forEachParticle f ps = Some ps'.
Proof.
  intros H. unfold forEachParticle. apply mapM_total.
  intros [i p] Hin. apply In_combine_seq in Hin. destruct Hin as [j [Hj Hi]].
  simpl in *. subst i. apply H. exact Hj.
Qed.

(** The result of the loop at index [i] is the body run on particle [i]. *)
Lemma forEachParticle_nth (f : nat -> Particle -> option Particle) (ps ps' : list Particle) :
  forEachParticle f ps = Some ps' ->
  List.length ps' = List.length ps /\
  forall i p, nth_error ps i = Some p ->
              exists p', nth_error ps' i = Some p' /\ f i p = Some p'.
Proof.
  intros H. unfold forEachParticle in H. apply mapM_nth in H. destruct H as [Hlen Hnth].
  split.
  - rewrite Hlen, length_combine, length_seq. apply Nat.min_id.
  - intros i p Hi. destruct (Hnth i (i, p)) as [p' [Hp' Hf]].
    + rewrite (nth_error_combine_seq ps 0 i p Hi). reflexivity.
    + exists p'. split; [exact Hp' | exact Hf].
Qed.

Lemma nth_error_replaceAt_same {A : Type} (l : list A) (i : nat) (v : A) :
  (i < List.length l)%nat -> nth_error (replaceAt i v l) i = Some v.
Proof.
  revert i. induction l as [|a l IH]; intros [|i] H; simpl in *; try lia.
  - reflexivity.
  - apply IH. lia.
Qed.

Lemma nth_error_replaceAt_other {A : Type} (l : list A) (i j : nat) (v : A) :
  i <> j -> nth_error (replaceAt i v l) j = nth_error l j.
Proof.
  revert i j. induction l as [|a l IH]; intros [|i] [|j] H; simpl; try reflexivity; try lia.
  apply IH. lia.
Qed.

Lemma length_replaceAt {A : Type} (l : list A) (i : nat) (v : A) :
  List.length (replaceAt i v l) = List.length l.
Proof.
  revert i. induction l as [|a l IH]; intros [|i]; simpl; try reflexivity.
  f_equal. apply IH.
Qed.

(** ** Closed forms of the shared needle blocks

    None of the shared blocks can produce an undefined number: each returns
    the value given here. *)

Lemma radialDirection_Some (center : Vector3) (particle : Particle) :
  radialDirection center particle = Some (radial center particle).
Proof.
  unfold radialDirection, radial. rewrite length_Some. cbn [bind].
  destruct (Rgt_dec _ _); apply normalize_Some.
Qed.

Lemma swimDirection_Some (u : Vector3) (i : nat) (time freq swimSpeed : R) :
  swimDirection u i time freq swimSpeed = Some (swimOf u i time freq swimSpeed).
Proof.
  unfold swimDirection. rewrite normalize_Some. cbn [bind].
  fold (tangent1Of u). rewrite normalize_Some. cbn [bind]. reflexivity.
Qed.

(** Both tangents, and hence the swim direction, are orthogonal to the radial
    direction they are built from. *)
Lemma dot_tangent1Of (u : Vector3) : dot (tangent1Of u) u = 0.
Proof.
  unfold tangent1Of. rewrite dot_normalized_l.
  destruct (Rlt_dec _ _); rewrite dot_cross_left; ring.
Qed.

Lemma dot_tangent2Of (u : Vector3) : dot (tangent2Of u) u = 0.
Proof.
  unfold tangent2Of. rewrite dot_normalized_l, dot_cross_left. ring.
Qed.

Lemma dot_swimOf (u : Vector3) (i : nat) (time freq swimSpeed : R) :
  dot (swimOf u i time freq swimSpeed) u = 0.
Proof.
  unfold swimOf. rewrite dot_add_l, !dot_multiplyScalar_l, dot_tangent1Of, dot_tangent2Of.
  ring.
Qed.

(** The radial direction is a unit vector whenever the stored direction is
    not the zero vector. *)
Lemma lengthSq_radial (center : Vector3) (particle : Particle) :
  lengthSq (direction particle) <> 0 -> lengthSq (radial center particle) = 1.
Proof.
  intros Hd. unfold radial. destruct (Rgt_dec _ _) as [Hgt|Hle].
  - apply lengthSq_normalized. intros H0. apply norm_zero_iff in H0. lra.
  - apply lengthSq_normalized, Hd.
Qed.

Lemma lengthSq_radial_cases (center : Vector3) (particle : Particle) :
  lengthSq (radial center particle) = 1 \/ radial center particle = vec3 0 0 0.
Proof.
  unfold radial. destruct (Rgt_dec _ _); apply lengthSq_normalized_cases.
Qed.

(** ** The assignment step of the swarm *)

Lemma reassignFrom_spec (pos : Vector3) (k : nat) (currentDist : R) (all : list Vector3) :
  forall (cs : list Vector3) (j : nat),
    (forall i, nth_error cs i = nth_error all (j + i)) ->
    exists r, reassignFrom pos cs j k currentDist = Some r /\
      match r with
      | Some n => n <> k /\ (j <= n)%nat /\
                  exists c, nth_error all n = Some c /\ dist pos c < currentDist * 0.8
      | None => forall i c, (j <= i)%nat -> i <> k -> nth_error all i = Some c ->
                            ~ dist pos c < currentDist * 0.8
      end.
Proof.
  induction cs as [|c cs IH]; intros j Hsuf; simpl.
  - exists None. split; [reflexivity|]. intros i c Hji _ Hi.
    specialize (Hsuf (i - j)%nat). replace (j + (i - j))%nat with i in Hsuf by lia.
    rewrite Hi in Hsuf. destruct (i - j)%nat; discriminate.
  - assert (Hsuf' : forall i, nth_error cs i = nth_error all (S j + i)).
    { intros i. specialize (Hsuf (S i)). simpl in Hsuf. rewrite Hsuf. f_equal. lia. }
    assert (Hc : nth_error all j = Some c).
    { specialize (Hsuf 0%nat). simpl in Hsuf. rewrite Nat.add_0_r in Hsuf. congruence. }
    destruct (Nat.eqb_spec j k) as [Hjk|Hjk].
    + destruct (IH (S j) Hsuf') as [r [Hr Hspec]]. exists r. split; [exact Hr|].
      destruct r as [n|].
      * destruct Hspec as [Hn [Hle Hex]]. repeat split; [exact Hn | lia | exact Hex].
      * intros i ci Hji Hik Hi. apply (Hspec i ci); [lia | exact Hik | exact Hi].
    + rewrite distanceTo_Some. cbn [bind].
      destruct (Rlt_dec (dist pos c) (currentDist * 0.8)) as [Hlt|Hnlt].
      * exists (Some j). split; [reflexivity|].
        repeat split; [exact Hjk | lia |]. exists c. split; [exact Hc | exact Hlt].
      * destruct (IH (S j) Hsuf') as [r [Hr Hspec]]. exists r. split; [exact Hr|].
        destruct r as [n|].
        -- destruct Hspec as [Hn [Hle Hex]]. repeat split; [exact Hn | lia | exact Hex].
        -- intros i ci Hji Hik Hi.
           destruct (Nat.eq_dec i j) as [->|Hij].
           ++ rewrite Hc in Hi. injection Hi as <-. exact Hnlt.
           ++ apply (Hspec i ci); [lia | exact Hik | exact Hi].
Qed.

Lemma nearestFrom_spec (pos : Vector3) (all : list Vector3) :
  forall (cs : list Vector3) (j nearestIndex : nat) (minDist : option R),
    (forall i, nth_error cs i = nth_error all (j + i)) ->
    match minDist with
    | None => j = 0%nat /\ cs <> []
    | Some m => exists c, nth_error all nearestIndex = Some c /\ m = dist pos c /\
                          forall i ci, (i < j)%nat -> nth_error all i = Some ci -> m <= dist pos ci
    end ->
    exists n c, nearestFrom pos cs j nearestIndex minDist = Some n /\
                nth_error all n = Some c /\
                forall i ci, nth_error all i = Some ci -> dist pos c <= dist pos ci.
Proof.
  induction cs as [|c cs IH]; intros j ni md Hsuf Hinv; simpl.
  - destruct md as [m|]; [|destruct Hinv as [_ Hne]; contradiction].
    destruct Hinv as [c [Hc [Hm Hmin]]]. exists ni, c. repeat split; [exact Hc|].
    intros i ci Hi. rewrite <- Hm. apply (Hmin i ci); [|exact Hi].
    destruct (Nat.lt_ge_cases i j) as [Hlt|Hge]; [exact Hlt|].
    specialize (Hsuf (i - j)%nat). replace (j + (i - j))%nat with i in Hsuf by lia.
    rewrite Hi in Hsuf. destruct (i - j)%nat; discriminate.
  - assert (Hsuf' : forall i, nth_error cs i = nth_error all (S j + i)).
    { intros i. specialize (Hsuf (S i)). simpl in Hsuf. rewrite Hsuf. f_equal. lia. }
    assert (Hc : nth_error all j = Some c).
    { specialize (Hsuf 0%nat). simpl in Hsuf. rewrite Nat.add_0_r in Hsuf. congruence. }
    rewrite distanceTo_Some. cbn [bind].
    destruct md as [m|].
    + destruct Hinv as [c0 [Hc0 [Hm Hmin]]].
      destruct (Rlt_dec (dist pos c) m) as [Hlt|Hnlt].
      * apply (IH (S j) j (Some (dist pos c)) Hsuf').
        exists c. repeat split; [exact Hc|]. intros i ci Hi Hci.
        destruct (Nat.eq_dec i j) as [->|Hij].
        -- rewrite Hc in Hci. injection Hci as <-. lra.
        -- assert (m <= dist pos ci) by (apply (Hmin i ci); [lia | exact Hci]). lra.
      * apply (IH (S j) ni (Some m) Hsuf').
        exists c0. repeat split; [exact Hc0 | exact Hm |]. intros i ci Hi Hci.
        destruct (Nat.eq_dec i j) as [->|Hij].
        -- rewrite Hc in Hci. injection Hci as <-. lra.
        -- apply (Hmin i ci); [lia | exact Hci].
    + destruct Hinv as [-> _].
      apply (IH 1%nat 0%nat (Some (dist pos c)) Hsuf').
      exists c. repeat split; [exact Hc|]. intros i ci Hi Hci.
      assert (i = 0%nat) by lia. subst i. rewrite Hc in Hci. injection Hci as <-. lra.
Qed.

Lemma nth_error_Some_lt {A : Type} (l : list A) (i : nat) (a : A) :
  nth_error l i = Some a -> (i < List.length l)%nat.
Proof. intros H. apply nth_error_Some. congruence. Qed.

Lemma nth_error_lt_Some {A : Type} (l : list A) (i : nat) :
  (i < List.length l)%nat -> exists a, nth_error l i = Some a.
Proof.
  intros H. destruct (nth_error l i) as [a|] eqn:E; [eexists; reflexivity|].
  apply nth_error_None in E. lia.
Qed.

(** With at least one center the assignment step returns, and leaves the
    particle with a valid center index and otherwise unchanged. *)
Lemma assignCenter_valid (centers : list Vector3) (particle : Particle) :
  centers <> [] ->
  exists k', (k' < List.length centers)%nat /\
             assignCenter centers particle = Some (withAssignedCenterIndex particle k').
Proof.
  intros Hne.
  assert (Hnear : exists k', (k' < List.length centers)%nat /\
            assignNearest centers particle = Some (withAssignedCenterIndex particle k')).
  { unfold assignNearest.
    destruct (nearestFrom_spec (position particle) centers centers 0 0 None) as [n [c [Hn [Hc _]]]].
    - intros i. reflexivity.
    - split; [reflexivity | exact Hne].
    - rewrite Hn. cbn [bind]. exists n. split; [|reflexivity].
      eapply nth_error_Some_lt, Hc. }
  unfold assignCenter. destruct (assignedCenterIndex particle) as [k|] eqn:Hk; [|exact Hnear].
  destruct (Nat.leb_spec (List.length centers) k) as [Hle|Hlt]; [exact Hnear|].
  destruct (nth_error_lt_Some centers k Hlt) as [ck Hck]. rewrite Hck. cbn [bind].
  rewrite distanceTo_Some. cbn [bind].
  destruct (reassignFrom_spec (position particle) k (dist (position particle) ck) centers centers 0)
    as [r [Hr Hspec]]; [intros i; reflexivity|].
  rewrite Hr. cbn [bind]. destruct r as [n|].
  - destruct Hspec as [_ [_ [c [Hc _]]]]. exists n. split; [|reflexivity].
    eapply nth_error_Some_lt, Hc.
  - exists k. split; [exact Hlt|]. f_equal.
    destruct particle; simpl in *. rewrite Hk. reflexivity.
Qed.

(** ** The particle steps of the needle modes always return *)

(** Evaluate the defined operations of a particle step and split on its
    comparisons. *)
Ltac step_eval :=
  repeat first
    [ rewrite length_Some
    | rewrite normalize_Some
    | rewrite radialDirection_Some
    | rewrite swimDirection_Some
    | rewrite distanceTo_Some
    | progress cbn [bind]
    | match goal with
      | |- context [if Rgt_dec ?a ?b then _ else _] => destruct (Rgt_dec a b)
      | |- context [if Rlt_dec ?a ?b then _ else _] => destruct (Rlt_dec a b)
      end ].

Lemma SrcLib_needleSphereParticle_total (params : ParticleSystemConfig) (center : Vector3)
    (handDistance deltaTime time : R) (i : nat) (particle : Particle) :
  exists p', SrcLib.needleSphereParticle params center handDistance deltaTime time i particle
             = Some p'
             /\ direction p' = direction particle
             /\ groupIndex p' = groupIndex particle
             /\ assignedCenterIndex p' = assignedCenterIndex particle.
Proof.
  unfold SrcLib.needleSphereParticle. cbv zeta. step_eval;
    (eexists; split; [reflexivity | repeat split]).
Qed.

Lemma SrcLib_swarmIdleParticle_total (deltaTime time : R) (i : nat) (particle : Particle) :
  exists p', SrcLib.swarmIdleParticle deltaTime time i particle = Some p'
             /\ direction p' = direction particle
             /\ groupIndex p' = groupIndex particle
             /\ assignedCenterIndex p' = assignedCenterIndex particle.
Proof.
  unfold SrcLib.swarmIdleParticle. cbv zeta. step_eval;
    (eexists; split; [reflexivity | repeat split]).
Qed.

Lemma Rmax_pos_l (a b : R) : 0 < a -> Rmax a b <> 0.
Proof. intros Ha. pose proof (Rmax_l a b). lra. Qed.

(** Every division of the gravitational pull is guarded by the comparisons
    that select its branch. *)
Lemma SrcLib_gravitationalForce_total (toCenter : Vector3) (distToCenter targetRadius : R) :
  exists f, SrcLib.gravitationalForce toCenter distToCenter targetRadius = Some f.
Proof.
  unfold SrcLib.gravitationalForce. cbv zeta.
  destruct (Rgt_dec distToCenter 0.01) as [H1|H1]; [|eexists; reflexivity].
  rewrite normalize_Some. cbn [bind].
  destruct (Rgt_dec distToCenter targetRadius) as [H2|H2].
  - rewrite jsdiv_nonzero by (apply Rmax_pos_l; lra). eexists; reflexivity.
  - destruct (Rlt_dec distToCenter (targetRadius * 0.3)) as [H3|H3].
    + rewrite jsdiv_nonzero by lra. eexists; reflexivity.
    + rewrite jsdiv_nonzero by lra. eexists; reflexivity.
Qed.

Lemma SrcLib_swarmFollowParticle_total (centers : list Vector3)
    (sphereRadius deltaTime time : R) (i : nat) (particle : Particle) (k : nat) :
  assignedCenterIndex particle = Some k -> (k < List.length centers)%nat ->
  exists p', SrcLib.swarmFollowParticle centers sphereRadius deltaTime time i particle = Some p'
             /\ direction p' = direction particle
             /\ groupIndex p' = groupIndex particle
             /\ assignedCenterIndex p' = Some k.
Proof.
  intros Hk Hlt. unfold SrcLib.swarmFollowParticle. cbv zeta. rewrite Hk.
  destruct (nth_error_lt_Some centers k Hlt) as [c Hc]. rewrite Hc. cbn [bind].
  rewrite length_Some. cbn [bind].
  destruct (SrcLib_gravitationalForce_total (sub c (position particle))
              (norm (sub c (position particle)))
              (sphereRadius * (if (groupIndex particle =? 0)%nat then 1 else 1.8)))
    as [f Hf].
  rewrite Hf. cbn [bind]. step_eval;
    (eexists; split; [reflexivity | repeat split; simpl; exact Hk]).
Qed.

Lemma SrcLib_swarmSphereRadius_total (centers : list Vector3) :
  exists r, SrcLib.swarmSphereRadius centers = Some r.
Proof.
  unfold SrcLib.swarmSphereRadius. destruct centers as [|c0 [|c1 cs]];
    try (eexists; reflexivity).
  rewrite distanceTo_Some. eexists; reflexivity.
Qed.

Lemma Part001_needleSphereParticle_total (params : ParticleSystemConfig) (center : Vector3)
    (handDistance deltaTime time : R) (i : nat) (particle : Particle) :
  exists p', Part001.needleSphereParticle params center handDistance deltaTime time i particle
             = Some p'
             /\ groupIndex p' = groupIndex particle
             /\ assignedCenterIndex p' = assignedCenterIndex particle.
Proof.
  unfold Part001.needleSphereParticle. cbv zeta. step_eval;
    (eexists; split; [reflexivity | repeat split]).
Qed.

Lemma Part001_swarmParticle_total (center : Vector3) (deltaTime time : R) (i : nat)
    (particle : Particle) :
  exists p', Part001.swarmParticle center deltaTime time i particle = Some p'
             /\ groupIndex p' = groupIndex particle
             /\ assignedCenterIndex p' = assignedCenterIndex particle.
Proof.
  unfold Part001.swarmParticle. cbv zeta. step_eval;
    (eexists; split; [reflexivity | repeat split]).
Qed.

Lemma Part001_swarmFollowParticle_total (centers : list Vector3) (deltaTime time : R)
    (i : nat) (particle : Particle) (k : nat) :
  assignedCenterIndex particle = Some k -> (k < List.length centers)%nat ->
  exists p', Part001.swarmFollowParticle centers deltaTime time i particle = Some p'
             /\ groupIndex p' = groupIndex particle
             /\ assignedCenterIndex p' = Some k.
Proof.
  intros Hk Hlt. unfold Part001.swarmFollowParticle. rewrite Hk.
  destruct (nth_error_lt_Some centers k Hlt) as [c Hc]. rewrite Hc. cbn [bind].
  destruct (Part001_swarmParticle_total c deltaTime time i particle) as [p' [Hp' [Hg Ha]]].
  exists p'. repeat split; [exact Hp' | exact Hg | congruence].
Qed.

Lemma sphereCenter_total (handControls : list HandControl) :
  exists center handDistance,
    sphereCenter handControls = Some (center, handDistance) /\ 0 <= handDistance.
Proof.
  unfold sphereCenter. destruct handControls as [|c0 [|c1 [|c2 cs]]].
  - do 2 eexists. split; [reflexivity | lra].
  - do 2 eexists. split; [reflexivity | lra].
  - rewrite distanceTo_Some. do 2 eexists. split; [reflexivity | apply dist_nonneg].
  - do 2 eexists. split; [reflexivity | lra].
Qed.

(** An assigned particle changes its center exactly when some other center
    is closer than 0.8 times the distance to its current center. *)
Lemma assignCenter_hysteresis (centers : list Vector3) (particle : Particle)
    (k k' : nat) (ck : Vector3) :
  assignedCenterIndex particle = Some k ->
  nth_error centers k = Some ck ->
  assignCenter centers particle = Some (withAssignedCenterIndex particle k') ->
  (k' <> k <->
   exists j cj, j <> k /\ nth_error centers j = Some cj /\
                dist (position particle) cj < dist (position particle) ck * 0.8).
Proof.
  intros Hk Hck Hassign. unfold assignCenter in Hassign. rewrite Hk in Hassign.
  pose proof (nth_error_Some_lt _ _ _ Hck) as Hlt.
  destruct (Nat.leb_spec (List.length centers) k) as [Hle|_]; [lia|].
  rewrite Hck in Hassign. cbn [bind] in Hassign.
  rewrite distanceTo_Some in Hassign. cbn [bind] in Hassign.
  destruct (reassignFrom_spec (position particle) k (dist (position particle) ck) centers centers 0)
    as [r [Hr Hspec]]; [intros i; reflexivity|].
  rewrite Hr in Hassign. cbn [bind] in Hassign. destruct r as [n|].
  - injection Hassign as Hn. destruct Hspec as [Hnk [_ [c [Hc Hd]]]]. subst k'.
    split; [|intros _; exact Hnk]. intros _. exists n, c. repeat split; assumption.
  - injection Hassign as Hp.
    assert (Hkk : k' = k).
    { apply (f_equal assignedCenterIndex) in Hp. simpl in Hp. congruence. }
    split; [intros H; contradiction|].
    intros [j [cj [Hj [Hcj Hd]]]]. exfalso. apply (Hspec j cj); [lia | exact Hj | exact Hcj | exact Hd].
Qed.

(** An unassigned particle, or one whose index is out of range, gets a
    nearest center. *)
Lemma assignCenter_nearest (centers : list Vector3) (particle : Particle) (k' : nat) :
  centers <> [] ->
  (assignedCenterIndex particle = None \/
   exists k, assignedCenterIndex particle = Some k /\ (List.length centers <= k)%nat) ->
  assignCenter centers particle = Some (withAssignedCenterIndex particle k') ->
  exists c', nth_error centers k' = Some c' /\
             forall j cj, nth_error centers j = Some cj ->
                          dist (position particle) c' <= dist (position particle) cj.
Proof.
  intros Hne Hun Hassign.
  assert (Hnear : assignNearest centers particle = Some (withAssignedCenterIndex particle k')).
  { unfold assignCenter in Hassign. destruct Hun as [Hn | [k [Hk Hle]]].
    - rewrite Hn in Hassign. exact Hassign.
    - rewrite Hk in Hassign.
      destruct (Nat.leb_spec (List.length centers) k) as [_|Hlt]; [exact Hassign | lia]. }
  unfold assignNearest in Hnear.
  destruct (nearestFrom_spec (position particle) centers centers 0 0 None) as [n [c [Hn [Hc Hmin]]]].
  - intros i. reflexivity.
  - split; [reflexivity | exact Hne].
  - rewrite Hn in Hnear. cbn [bind] in Hnear. injection Hnear as Hnk.
    subst k'. exists c. split; [exact Hc | exact Hmin].
Qed.

(** With at least one hand a swarm tick of either revision returns: the
    assignment step gives every particle a valid center index, which the
    following loop keeps. *)
Lemma swarm_tick_hands (s : OptimizedParticleSystem) (now deltaTime : R) :
  handControls s <> [] ->
  let centers := map palmVector (handControls s) in
  exists psL psP,
    SrcLib.updateNeedleSwarm s now deltaTime = Some psL /\
    Part001.updateNeedleSwarm s now deltaTime = Some psP /\
    forall i p, nth_error (particles s) i = Some p ->
      exists pL pP k',
        nth_error psL i = Some pL /\ nth_error psP i = Some pP /\
        assignedCenterIndex pL = Some k' /\ assignedCenterIndex pP = Some k' /\
        (k' < List.length centers)%nat /\
        assignCenter centers p = Some (withAssignedCenterIndex p k').
Proof.
  intros Hhands centers.
  assert (Hne : centers <> []).
  { unfold centers. destruct (handControls s); [contradiction | discriminate]. }
  destruct (mapM_total (assignCenter centers) (particles s)) as [ps1 Hps1].
  { intros p _. destruct (assignCenter_valid centers p Hne) as [k' [_ H]]. eexists; exact H. }
  destruct (mapM_nth _ _ _ Hps1) as [Hlen1 Hnth1].
  assert (Hvalid : forall i p1, nth_error ps1 i = Some p1 ->
            exists k', assignedCenterIndex p1 = Some k' /\ (k' < List.length centers)%nat).
  { intros i p1 Hi. destruct (nth_error_lt_Some (particles s) i) as [p Hp].
    - rewrite <- Hlen1. eapply nth_error_Some_lt, Hi.
    - destruct (Hnth1 i p Hp) as [q [Hq Hfq]]. rewrite Hi in Hq. injection Hq as <-.
      destruct (assignCenter_valid centers p Hne) as [k' [Hk' H]]. rewrite H in Hfq.
      injection Hfq as <-. exists k'. split; [reflexivity | exact Hk']. }
  destruct (SrcLib_swarmSphereRadius_total centers) as [radius Hradius].
  destruct (forEachParticle_total
              (SrcLib.swarmFollowParticle centers radius deltaTime (now * 0.001)) ps1)
    as [psL HpsL].
  { intros i p1 Hi. destruct (Hvalid i p1 Hi) as [k' [Hk' Hlt]].
    destruct (SrcLib_swarmFollowParticle_total centers radius deltaTime (now * 0.001) i p1 k' Hk' Hlt)
      as [p' [Hp' _]]. eexists; exact Hp'. }
  destruct (forEachParticle_total
              (Part001.swarmFollowParticle centers deltaTime (now * 0.001)) ps1)
    as [psP HpsP].
  { intros i p1 Hi. destruct (Hvalid i p1 Hi) as [k' [Hk' Hlt]].
    destruct (Part001_swarmFollowParticle_total centers deltaTime (now * 0.001) i p1 k' Hk' Hlt)
      as [p' [Hp' _]]. eexists; exact Hp'. }
  exists psL, psP. split; [|split].
  - unfold SrcLib.updateNeedleSwarm. cbv zeta. fold centers.
    destruct (handControls s) as [|c cs] eqn:Hhc; [contradiction|].
    rewrite Hradius. cbn [bind]. rewrite Hps1. cbn [bind]. exact HpsL.
  - unfold Part001.updateNeedleSwarm. cbv zeta. fold centers.
    destruct (handControls s) as [|c cs] eqn:Hhc; [contradiction|].
    rewrite Hps1. cbn [bind]. exact HpsP.
  - intros i p Hp.
    destruct (Hnth1 i p Hp) as [p1 [Hp1 Hassign]].
    destruct (assignCenter_valid centers p Hne) as [k' [Hk' Hassign']].
    assert (Hp1eq : p1 = withAssignedCenterIndex p k') by congruence.
    assert (Hk1 : assignedCenterIndex p1 = Some k') by (rewrite Hp1eq; reflexivity).
    destruct (forEachParticle_nth _ _ _ HpsL) as [_ HnthL].
    destruct (forEachParticle_nth _ _ _ HpsP) as [_ HnthP].
    destruct (HnthL i p1 Hp1) as [pL [HpL HfL]].
    destruct (HnthP i p1 Hp1) as [pP [HpP HfP]].
    destruct (SrcLib_swarmFollowParticle_total centers radius deltaTime (now * 0.001) i p1 k' Hk1 Hk')
      as [pL' [HpL' [_ [_ HaL]]]].
    destruct (Part001_swarmFollowParticle_total centers deltaTime (now * 0.001) i p1 k' Hk1 Hk')
      as [pP' [HpP' [_ HaP]]].
    assert (pL' = pL) by congruence. assert (pP' = pP) by congruence. subst pL' pP'.
    exists pL, pP, k'. repeat split; assumption.
Qed.

(** C4: in needle-swarm mode with at least one hand, a tick of either
    revision returns and leaves every particle with a valid center index; a
    particle that had a valid index [k] ends the tick with another index
    exactly when some other center is closer than 0.8 times the distance to
    center [k] (so centers that are at most 5 percent closer never reassign
    it); a particle without a valid index ends the tick assigned to a
    nearest center. *)
Theorem swarm_assignment_hysteresis
    (s : OptimizedParticleSystem) (deltaTime now : R) (rnd : nat -> R) :
  behavior (params s) = needleSwarm ->
  handControls s <> [] ->
  let centers := map palmVector (handControls s) in
  exists sL sP,
    SrcLib.update deltaTime now rnd s = Some sL /\
    Part001.update deltaTime now rnd s = Some sP /\
    forall i p, nth_error (particles s) i = Some p ->
      exists pL pP k',
        nth_error (particles sL) i = Some pL /\
        nth_error (particles sP) i = Some pP /\
        assignedCenterIndex pL = Some k' /\ assignedCenterIndex pP = Some k' /\
        (k' < List.length centers)%nat /\
        (forall k ck,
            assignedCenterIndex p = Some k -> nth_error centers k = Some ck ->
            (k' <> k <->
             exists j cj, j <> k /\ nth_error centers j = Some cj /\
                          dist (position p) cj < dist (position p) ck * 0.8)
            /\ ((forall j cj, j <> k -> nth_error centers j = Some cj ->
                              dist (position p) ck * 0.95 <= dist (position p) cj) ->
                k' = k)) /\
        ((assignedCenterIndex p = None \/
          exists k, assignedCenterIndex p = Some k /\ (List.length centers <= k)%nat) ->
         exists c', nth_error centers k' = Some c' /\
                    forall j cj, nth_error centers j = Some cj ->
                                 dist (position p) c' <= dist (position p) cj).
Proof.
  intros Hmode Hhands centers.
  assert (Hne : centers <> []).
  { unfold centers. destruct (handControls s); [contradiction | discriminate]. }
  destruct (swarm_tick_hands s now deltaTime Hhands) as [psL [psP [HL [HP Hall]]]].
  exists (withParticles s psL), (withParticles s psP).
  split; [unfold SrcLib.update; rewrite Hmode, HL; reflexivity|].
  split; [unfold Part001.update; rewrite Hmode, HP; reflexivity|].
  intros i p Hp. fold centers in Hall.
  destruct (Hall i p Hp) as [pL [pP [k' [HpL [HpP [HaL [HaP [Hk' Hassign']]]]]]]].
  exists pL, pP, k'.
  split; [exact HpL|]. split; [exact HpP|]. split; [exact HaL|]. split; [exact HaP|].
  split; [exact Hk'|]. split.
  - intros k ck Hk Hck. split.
    + apply (assignCenter_hysteresis centers p k k' ck); assumption.
    + intros Hfar. destruct (Nat.eq_dec k' k) as [Heq|Hneq]; [exact Heq|].
      exfalso.
      apply (assignCenter_hysteresis centers p k k' ck) in Hneq; try assumption.
      destruct Hneq as [j [cj [Hj [Hcj Hd]]]].
      pose proof (Hfar j cj Hj Hcj) as Hf.
      pose proof (dist_nonneg (position p) ck). lra.
  - intros Hun. apply (assignCenter_nearest centers p k' Hne Hun Hassign').
Qed.

(** ** The particle loop of the responsive and cohesive behaviours *)

Lemma nth_error_storeAt (j : nat) (final initial : list Particle) (n : nat) :
  (j <= List.length final)%nat ->
  nth_error (storeAt j final initial) n =
  if (n <? j)%nat then nth_error final n else nth_error initial n.
Proof.
  intros Hj. unfold storeAt. rewrite nth_error_app, length_firstn, Nat.min_l by exact Hj.
  destruct (Nat.ltb_spec n j) as [Hlt|Hge].
  - rewrite nth_error_firstn. destruct (Nat.ltb_spec n j); [reflexivity | lia].
  - rewrite nth_error_skipn. f_equal. lia.
Qed.

Section UpdateLoop.

Variable force : list Particle -> nat -> Particle -> option Vector3.
Variable params : ParticleSystemConfig.

Lemma updateLoop_from :
  forall (m k : nat) (cur ps' : list Particle),
    (k + m)%nat = List.length cur ->
    foldM (updateParticle force params) (seq k m) cur = Some ps' ->
    List.length ps' = List.length cur /\
    (forall j, (j < k)%nat -> nth_error ps' j = nth_error cur j) /\
    (forall j p, (k <= j)%nat -> nth_error cur j = Some p ->
       exists f, force (storeAt j ps' cur) j p = Some f /\
                 nth_error ps' j = Some (applyBoundaries params (integrate params p f))).
Proof.
  induction m as [|m IH]; intros k cur ps' Hlen Hfold; simpl in Hfold.
  - injection Hfold as <-. repeat split.
    intros j p Hkj Hj. apply nth_error_Some_lt in Hj. lia.
  - unfold updateParticle at 1 in Hfold.
    destruct (nth_error cur k) as [pk|] eqn:Hpk; [|discriminate]. cbn [bind] in Hfold.
    destruct (force cur k pk) as [fk|] eqn:Hfk; [|discriminate]. cbn [bind] in Hfold.
    set (v := applyBoundaries params (integrate params pk fk)) in *.
    destruct (IH (S k) (replaceAt k v cur) ps') as [Hl [Hlow Hhigh]].
    + rewrite length_replaceAt. lia.
    + exact Hfold.
    + rewrite length_replaceAt in Hl.
      assert (Hbelow : forall j, (j < k)%nat -> nth_error ps' j = nth_error cur j).
      { intros j Hj. rewrite Hlow by lia. apply nth_error_replaceAt_other. lia. }
      repeat split; [exact Hl | exact Hbelow |].
      intros j p Hkj Hj. destruct (Nat.eq_dec j k) as [->|Hjk].
      * assert (p = pk) by congruence. subst p. exists fk. split.
        -- replace (storeAt k ps' cur) with cur; [exact Hfk|].
           apply nth_error_ext. intros n. rewrite nth_error_storeAt by lia.
           destruct (Nat.ltb_spec n k); [symmetry; apply Hbelow; assumption | reflexivity].
        -- rewrite Hlow by lia. apply nth_error_replaceAt_same. lia.
      * destruct (Hhigh j p) as [f [Hf Hres]]; [lia | |].
        -- rewrite nth_error_replaceAt_other by lia. exact Hj.
        -- exists f. split; [|exact Hres].
           replace (storeAt j ps' cur) with (storeAt j ps' (replaceAt k v cur)); [exact Hf|].
           apply nth_error_ext. intros n.
           assert (Hjl : (j <= List.length ps')%nat).
           { apply nth_error_Some_lt in Hj. lia. }
           rewrite !nth_error_storeAt by exact Hjl.
           destruct (Nat.ltb_spec n j); [reflexivity|].
           apply nth_error_replaceAt_other. lia.
Qed.

(** What a tick of the loop does to each particle: it is integrated with the
    force computed on the store as the loop finds it, then clamped. *)
Lemma updateLoop_spec (ps ps' : list Particle) :
  updateLoop force params ps = Some ps' ->
  List.length ps' = List.length ps /\
  forall j p, nth_error ps j = Some p ->
    exists f, force (storeAt j ps' ps) j p = Some f /\
              nth_error ps' j = Some (applyBoundaries params (integrate params p f)).
Proof.
  intros H. unfold updateLoop in H.
  destruct (updateLoop_from (List.length ps) 0 ps ps' eq_refl H) as [Hl [_ Hh]].
  split; [exact Hl|]. intros j p Hj. apply Hh; [lia | exact Hj].
Qed.

(** A force that is always defined makes the loop return. *)
Hypothesis force_total : forall store i p, exists f, force store i p = Some f.

Lemma updateLoop_total (ps : list Particle) :
  exists ps', updateLoop force params ps = Some ps'.
Proof.
  unfold updateLoop.
  assert (H : forall m k cur, (k + m)%nat = List.length cur ->
            exists ps', foldM (updateParticle force params) (seq k m) cur = Some ps').
  { induction m as [|m IH]; intros k cur Hlen; simpl.
    - eexists; reflexivity.
    - unfold updateParticle at 1.
      destruct (nth_error_lt_Some cur k) as [pk Hpk]; [lia|]. rewrite Hpk. cbn [bind].
      destruct (force_total cur k pk) as [f Hf]. rewrite Hf. cbn [bind].
      apply IH. rewrite length_replaceAt. lia. }
  apply (H (List.length ps) 0%nat ps). reflexivity.
Qed.

End UpdateLoop.

Lemma foldM_total {A S : Type} (f : S -> A -> option S) (l : list A) (s : S) :
  (forall s a, exists s', f s a = Some s') -> exists s', foldM f l s = Some s'.
Proof.
  intros H. revert s. induction l as [|a l IH]; intros s; simpl.
  - eexists; reflexivity.
  - destruct (H s a) as [s' Hs']. rewrite Hs'. cbn [bind]. apply IH.
Qed.

(** The attraction of one hand is always defined: the division by the
    interaction radius only happens below a positive radius. *)
Lemma responsiveHand_total (params : ParticleSystemConfig) (particle : Particle)
    (totalForce : Vector3) (control : HandControl) :
  exists f, responsiveHand params particle totalForce control = Some f.
Proof.
  unfold responsiveHand. cbv zeta. rewrite length_Some. cbn [bind].
  destruct (Rlt_dec _ _) as [Hlt|Hge]; [|eexists; reflexivity].
  rewrite normalize_Some. cbn [bind].
  pose proof (norm_nonneg (sub (palmVector control) (position particle))) as Hn.
  destruct (interactionRadius params) as [r|]; simpl in *; [|lra].
  rewrite jsdiv_nonzero by lra. eexists; reflexivity.
Qed.

Lemma handleResponsiveBehavior_total (params : ParticleSystemConfig)
    (handControls : list HandControl) (rnd : nat -> R) (k : nat) (particle : Particle)
    (totalForce : Vector3) :
  exists f, handleResponsiveBehavior params handControls rnd k particle totalForce = Some f.
Proof.
  unfold handleResponsiveBehavior.
  destruct (foldM_total (responsiveHand params particle) handControls totalForce) as [f Hf].
  - intros s a. apply responsiveHand_total.
  - rewrite Hf. eexists; reflexivity.
Qed.

Lemma strideFrom_lt (fuel i n step : nat) (j : nat) :
  In j (strideFrom fuel i n step) -> (j < n)%nat.
Proof.
  revert i. induction fuel as [|fuel IH]; intros i H; simpl in H; [contradiction|].
  destruct (Nat.ltb_spec i n) as [Hlt|Hge]; [|contradiction].
  destruct H as [<-|H]; [exact Hlt | apply (IH _ H)].
Qed.

Lemma cohesiveOther_total (params : ParticleSystemConfig) (particles : list Particle)
    (particle : Particle) (index : nat) (totalForce : Vector3) (i : nat) :
  (i < List.length particles)%nat ->
  exists f, cohesiveOther params particles particle index totalForce i = Some f.
Proof.
  intros Hi. unfold cohesiveOther. destruct (i =? index)%nat; [eexists; reflexivity|].
  destruct (nth_error_lt_Some particles i Hi) as [other Ho]. rewrite Ho. cbn [bind]. cbv zeta.
  rewrite length_Some. cbn [bind].
  destruct (Rlt_dec _ _) as [Hlt|Hge]; [|eexists; reflexivity].
  rewrite normalize_Some. cbn [bind].
  pose proof (norm_nonneg (sub (position other) (position particle))) as Hn.
  destruct (cohesionRadius params) as [r|]; simpl in *; [|lra].
  rewrite jsdiv_nonzero by lra. eexists; reflexivity.
Qed.

Lemma foldM_total_In {A S : Type} (f : S -> A -> option S) (l : list A) (s : S) :
  (forall s a, In a l -> exists s', f s a = Some s') -> exists s', foldM f l s = Some s'.
Proof.
  revert s. induction l as [|a l IH]; intros s H; simpl.
  - eexists; reflexivity.
  - destruct (H s a (or_introl eq_refl)) as [s' Hs']. rewrite Hs'. cbn [bind].
    apply IH. intros s0 b Hb. apply H. right. exact Hb.
Qed.

Lemma handleCohesiveBehavior_total (params : ParticleSystemConfig)
    (particles : list Particle) (particle : Particle) (index : nat) (totalForce : Vector3) :
  exists f, handleCohesiveBehavior params particles particle index totalForce = Some f.
Proof.
  unfold handleCohesiveBehavior. cbv zeta. apply foldM_total_In.
  intros s i Hi. apply cohesiveOther_total. eapply strideFrom_lt, Hi.
Qed.

Lemma forceOn_total (params : ParticleSystemConfig) (handControls : list HandControl)
    (rnd : nat -> R) (store : list Particle) (i : nat) (particle : Particle) :
  exists f, forceOn params handControls rnd store i particle = Some f.
Proof.
  unfold forceOn. cbv zeta. destruct (behavior params);
    first [apply handleResponsiveBehavior_total | apply handleCohesiveBehavior_total].
Qed.

Lemma updateForces_total (params : ParticleSystemConfig) (handControls : list HandControl)
    (rnd : nat -> R) (ps : list Particle) :
  exists ps', updateForces params handControls rnd ps = Some ps'.
Proof.
  unfold updateForces. apply updateLoop_total. intros store i p. apply forceOn_total.
Qed.

Lemma dist_along_x (a b : R) : b <= a -> dist (vec3 a 0 0) (vec3 b 0 0) = a - b.
Proof.
  intros H. unfold dist, distanceToSquared; simpl. apply sqrt_lem_1; nra.
Qed.

Lemma dist_along_x_rev (a b : R) : a <= b -> dist (vec3 a 0 0) (vec3 b 0 0) = b - a.
Proof.
  intros H. unfold dist, distanceToSquared; simpl. apply sqrt_lem_1; nra.
Qed.

(** The hysteresis theorem at a swarm with two hands and one particle that
    is assigned to the first palm, at distance 20, while the second palm is
    5 percent closer, at distance 19: the particle keeps its center. *)
Lemma swarm_assignment_hysteresis_witness :
  let s := systemOf swarmConfig
             [withAssignedCenterIndex
                (particleAt (vec3 1 0 0) (vec3 0 0 0) (vec3 1 0 0) 0) 0]
             [handAt (vec3 (-19) 0 0) 0; handAt (vec3 20 0 0) 1] in
  behavior (params s) = needleSwarm /\
  handControls s <> [] /\
  exists sL sP pL pP,
    SrcLib.update (1 / 60) 0 (fun _ => 0.5) s = Some sL /\
    Part001.update (1 / 60) 0 (fun _ => 0.5) s = Some sP /\
    nth_error (particles sL) 0 = Some pL /\ assignedCenterIndex pL = Some 0%nat /\
    nth_error (particles sP) 0 = Some pP /\ assignedCenterIndex pP = Some 0%nat.
Proof.
  intros s.
  assert (Hm : behavior (params s) = needleSwarm) by reflexivity.
  assert (H : handControls s <> []) by discriminate.
  split; [exact Hm|]. split; [exact H|].
  destruct (swarm_assignment_hysteresis s (1 / 60) 0 (fun _ => 0.5) Hm H)
    as [sL [sP [HL [HP Hall]]]].
  destruct (Hall 0%nat _ eq_refl) as [pL [pP [k' [HpL [HpP [HaL [HaP [_ [Hhyst _]]]]]]]]].
  destruct (Hhyst 0%nat (vec3 (-19) 0 0) eq_refl eq_refl) as [_ Hkeep].
  assert (Hk : k' = 0%nat).
  { apply Hkeep. intros j cj Hj Hcj.
    destruct j as [|[|j]]; [contradiction | | destruct j; discriminate].
    injection Hcj as <-.
    change (dist (vec3 1 0 0) (vec3 (-19) 0 0) * 0.95 <= dist (vec3 1 0 0) (vec3 20 0 0)).
    rewrite (dist_along_x 1 (-19)), (dist_along_x_rev 1 20) by lra. lra. }
  subst k'. exists sL, sP, pL, pP. repeat split; assumption.
Defined.

(** ** Boundary reflection *)

Lemma applyAxis_outside (b p v : R) :
  Rabs p > b -> applyAxis b p v = (sign p * b, v * -0.8).
Proof. intros H. unfold applyAxis. destruct (Rgt_dec (Rabs p) b); [reflexivity | contradiction]. Qed.

Lemma applyAxis_inside (b p v : R) :
  Rabs p <= b -> applyAxis b p v = (p, v).
Proof. intros H. unfold applyAxis. destruct (Rgt_dec (Rabs p) b); [lra | reflexivity]. Qed.

Lemma Rabs_sign_mult (p b : R) : p <> 0 -> 0 <= b -> Rabs (sign p * b) = b.
Proof.
  intros Hp Hb. unfold sign.
  destruct (Rlt_dec 0 p); [|destruct (Rlt_dec p 0); [|lra]].
  - rewrite Rmult_1_l. apply Rabs_pos_eq, Hb.
  - replace (-1 * b) with (- b) by ring. rewrite Rabs_Ropp. apply Rabs_pos_eq, Hb.
Qed.

Lemma applyAxis_bound (b p v : R) : 0 <= b -> Rabs (fst (applyAxis b p v)) <= b.
Proof.
  intros Hb. unfold applyAxis. destruct (Rgt_dec (Rabs p) b) as [Hgt|Hle]; simpl; [|lra].
  rewrite Rabs_sign_mult; [lra | | exact Hb].
  intros ->. rewrite Rabs_R0 in Hgt. lra.
Qed.

Lemma applyBoundaries_axes (params : ParticleSystemConfig) (particle : Particle) :
  let b := boundary params in
  let q := applyBoundaries params particle in
  (x (position q), x (velocity q)) = applyAxis b (x (position particle)) (x (velocity particle))
  /\ (y (position q), y (velocity q)) = applyAxis b (y (position particle)) (y (velocity particle))
  /\ (z (position q), z (velocity q)) = applyAxis b (z (position particle)) (z (velocity particle)).
Proof.
  cbv zeta. unfold applyBoundaries. cbv zeta.
  destruct (applyAxis _ (x _) _), (applyAxis _ (y _) _), (applyAxis _ (z _) _).
  simpl. repeat split.
Qed.

Lemma applyBoundaries_bound (params : ParticleSystemConfig) (particle : Particle) :
  0 <= boundary params ->
  let q := applyBoundaries params particle in
  Rabs (x (position q)) <= boundary params
  /\ Rabs (y (position q)) <= boundary params
  /\ Rabs (z (position q)) <= boundary params.
Proof.
  intros Hb q. destruct (applyBoundaries_axes params particle) as [Hx [Hy Hz]].
  fold q in Hx, Hy, Hz.
  pose proof (applyAxis_bound (boundary params) (x (position particle)) (x (velocity particle)) Hb) as Bx.
  pose proof (applyAxis_bound (boundary params) (y (position particle)) (y (velocity particle)) Hb) as By.
  pose proof (applyAxis_bound (boundary params) (z (position particle)) (z (velocity particle)) Hb) as Bz.
  rewrite <- Hx in Bx. rewrite <- Hy in By. rewrite <- Hz in Bz. simpl in Bx, By, Bz.
  repeat split; assumption.
Qed.

(** In the responsive and cohesive behaviours the two four-behaviour
    revisions run the same loop. *)
Lemma update_forces_modes (deltaTime now : R) (rnd : nat -> R) (s : OptimizedParticleSystem) :
  behavior (params s) = responsive \/ behavior (params s) = cohesive ->
  SrcLib.update deltaTime now rnd s =
    (ps <- updateForces (params s) (handControls s) rnd (particles s) ;; Some (withParticles s ps))
  /\ Part001.update deltaTime now rnd s =
    (ps <- updateForces (params s) (handControls s) rnd (particles s) ;; Some (withParticles s ps)).
Proof.
  intros [H|H]; unfold SrcLib.update, Part001.update; rewrite H; split; reflexivity.
Qed.

(** C5: [applyBoundaries] treats the three axes independently: a coordinate
    whose absolute value exceeds the boundary becomes [sign * boundary] and
    its velocity component is multiplied by -0.8, any other coordinate and
    component is left alone; for a non-negative boundary every coordinate is
    within the boundary afterwards, hence after every tick of the responsive
    and cohesive behaviours. *)
Theorem boundaries_reflect_each_axis :
  (forall (params : ParticleSystemConfig) (particle : Particle),
      let b := boundary params in
      let q := applyBoundaries params particle in
      (x (position q), x (velocity q)) = applyAxis b (x (position particle)) (x (velocity particle))
      /\ (y (position q), y (velocity q)) = applyAxis b (y (position particle)) (y (velocity particle))
      /\ (z (position q), z (velocity q)) = applyAxis b (z (position particle)) (z (velocity particle)))
  /\ (forall b p v : R,
        (Rabs p > b -> applyAxis b p v = (sign p * b, v * -0.8))
        /\ (Rabs p <= b -> applyAxis b p v = (p, v)))
  /\ (forall (params : ParticleSystemConfig) (particle : Particle),
        0 <= boundary params ->
        let q := applyBoundaries params particle in
        Rabs (x (position q)) <= boundary params
        /\ Rabs (y (position q)) <= boundary params
        /\ Rabs (z (position q)) <= boundary params)
  /\ (forall (s : OptimizedParticleSystem) (deltaTime now : R) (rnd : nat -> R),
        0 <= boundary (params s) ->
        behavior (params s) = responsive \/ behavior (params s) = cohesive ->
        exists s',
          SrcLib.update deltaTime now rnd s = Some s' /\
          Part001.update deltaTime now rnd s = Some s' /\
          List.length (particles s') = List.length (particles s) /\
          forall i q, nth_error (particles s') i = Some q ->
            Rabs (x (position q)) <= boundary (params s)
            /\ Rabs (y (position q)) <= boundary (params s)
            /\ Rabs (z (position q)) <= boundary (params s)).
Proof.
  split; [exact applyBoundaries_axes|].
  split; [intros b p v; split; [apply applyAxis_outside | apply applyAxis_inside]|].
  split; [exact applyBoundaries_bound|].
  intros s deltaTime now rnd Hb Hmode.
  destruct (update_forces_modes deltaTime now rnd s Hmode) as [HL HP].
  destruct (updateForces_total (params s) (handControls s) rnd (particles s)) as [ps' Hps'].
  exists (withParticles s ps'). rewrite HL, HP, Hps'. cbn [bind].
  destruct (updateLoop_spec _ _ _ _ Hps') as [Hlen Hnth].
  split; [reflexivity|]. split; [reflexivity|]. split; [exact Hlen|].
  intros i q Hq. simpl in Hq.
  destruct (nth_error_lt_Some (particles s) i) as [p Hp].
  { rewrite <- Hlen. eapply nth_error_Some_lt, Hq. }
  destruct (Hnth i p Hp) as [f [_ Hres]].
  rewrite Hq in Hres. injection Hres as ->.
  apply (applyBoundaries_bound (params s) (integrate (params s) p f) Hb).
Qed.

(** The boundary theorem at a responsive instance with a particle that
    starts outside the cube. *)
Lemma boundaries_reflect_each_axis_witness :
  let s := systemOf responsiveConfig
             [particleAt (vec3 30 0 (-40)) (vec3 1 0 0) (vec3 1 0 0) 0] [] in
  0 <= boundary (params s) /\
  (behavior (params s) = responsive \/ behavior (params s) = cohesive) /\
  exists s', SrcLib.update (1 / 60) 0 (fun _ => 0.5) s = Some s' /\
             forall i q, nth_error (particles s') i = Some q ->
                         Rabs (x (position q)) <= 25
                         /\ Rabs (y (position q)) <= 25
                         /\ Rabs (z (position q)) <= 25.
Proof.
  intros s.
  assert (Hb : 0 <= boundary (params s)) by (simpl; lra).
  assert (Hm : behavior (params s) = responsive \/ behavior (params s) = cohesive)
    by (left; reflexivity).
  split; [exact Hb|]. split; [exact Hm|].
  destruct boundaries_reflect_each_axis as [_ [_ [_ Htick]]].
  destruct (Htick s (1 / 60) 0 (fun _ => 0.5) Hb Hm) as [s' [HL [_ [_ Hall]]]].
  exists s'. split; [exact HL | exact Hall].
Defined.

(** ** The update does not read [deltaTime] in the force-driven behaviours *)

(** C10: in the responsive and cohesive behaviours the state after
    [update(deltaTime)] is the same for any two values of [deltaTime] (and of
    the clock), given the same particles, hands and random draws; the tick
    returns in the two four-behaviour revisions. *)
Theorem update_independent_of_deltaTime
    (s : OptimizedParticleSystem) (rnd : nat -> R) (d1 d2 now1 now2 : R) :
  behavior (params s) = responsive \/ behavior (params s) = cohesive ->
  SrcLib.update d1 now1 rnd s = SrcLib.update d2 now2 rnd s
  /\ Part001.update d1 now1 rnd s = Part001.update d2 now2 rnd s
  /\ Part002.update d1 rnd s = Part002.update d2 rnd s
  /\ exists s', SrcLib.update d1 now1 rnd s = Some s'
                /\ Part001.update d1 now1 rnd s = Some s'.
Proof.
  intros Hmode.
  destruct (update_forces_modes d1 now1 rnd s Hmode) as [HL1 HP1].
  destruct (update_forces_modes d2 now2 rnd s Hmode) as [HL2 HP2].
  split; [congruence|]. split; [congruence|]. split; [reflexivity|].
  destruct (updateForces_total (params s) (handControls s) rnd (particles s)) as [ps' Hps'].
  exists (withParticles s ps'). rewrite HL1, HP1, Hps'. split; reflexivity.
Qed.

(** The independence theorem at a cohesive instance, for a frame of 1/60 s
    and a frame of 5 s. *)
Lemma update_independent_of_deltaTime_witness :
  let s := systemOf cohesiveConfig
             [particleAt (vec3 1 2 3) (vec3 0 0 0) (vec3 1 0 0) 0;
              particleAt (vec3 0 0 0) (vec3 0 0 0) (vec3 1 0 0) 1] [] in
  (behavior (params s) = responsive \/ behavior (params s) = cohesive) /\
  SrcLib.update (1 / 60) 0 (fun _ => 0.5) s = SrcLib.update 5 1000 (fun _ => 0.5) s.
Proof.
  intros s.
  assert (Hm : behavior (params s) = responsive \/ behavior (params s) = cohesive)
    by (right; reflexivity).
  split; [exact Hm|].
  exact (proj1 (update_independent_of_deltaTime s (fun _ => 0.5) (1 / 60) 5 0 1000 Hm)).
Defined.

(** ** The responsive behaviour *)

Lemma add_zero_r (a : Vector3) : add a (vec3 0 0 0) = a.
Proof. apply vec3_ext; simpl; ring. Qed.

Lemma add_zero_l (a : Vector3) : add (vec3 0 0 0) a = a.
Proof. apply vec3_ext; simpl; ring. Qed.

Lemma responsiveHand_Some (params : ParticleSystemConfig) (particle : Particle)
    (totalForce : Vector3) (control : HandControl) :
  responsiveHand params particle totalForce control
  = Some (add totalForce (handAttraction params particle control)).
Proof.
  unfold responsiveHand, handAttraction. cbv zeta. rewrite length_Some. cbn [bind].
  destruct (Rlt_dec _ _) as [Hlt|Hge]; [|rewrite add_zero_r; reflexivity].
  rewrite normalize_Some. cbn [bind].
  pose proof (norm_nonneg (sub (palmVector control) (position particle))) as Hn.
  destruct (interactionRadius params) as [r|]; simpl in *; [|lra].
  rewrite jsdiv_nonzero by lra. reflexivity.
Qed.

Lemma foldM_Some {A S : Type} (f : S -> A -> option S) (g : S -> A -> S) (l : list A) (s : S) :
  (forall s a, In a l -> f s a = Some (g s a)) -> foldM f l s = Some (fold_left g l s).
Proof.
  revert s. induction l as [|a l IH]; intros s H; simpl.
  - reflexivity.
  - rewrite (H s a (or_introl eq_refl)). cbn [bind]. apply IH.
    intros s0 b Hb. apply H. right. exact Hb.
Qed.

Lemma handleResponsiveBehavior_Some (params : ParticleSystemConfig)
    (handControls : list HandControl) (rnd : nat -> R) (k : nat) (particle : Particle) :
  handleResponsiveBehavior params handControls rnd k particle (vec3 0 0 0)
  = Some (add (attraction params handControls particle) (jitter rnd k)).
Proof.
  unfold handleResponsiveBehavior, attraction.
  rewrite (foldM_Some _ (fun acc control => add acc (handAttraction params particle control))).
  - reflexivity.
  - intros s a _. apply responsiveHand_Some.
Qed.

(** The attraction of one hand: zero from the interaction radius on, and
    inside it the unit vector toward the palm scaled by
    [attractionStrength * (1 - dist / interactionRadius)]. *)
Lemma handAttraction_outside (params : ParticleSystemConfig) (particle : Particle)
    (control : HandControl) :
  nullish (interactionRadius params) 0 <= dist (palm control) (position particle) ->
  handAttraction params particle control = vec3 0 0 0.
Proof.
  intros H. unfold handAttraction. cbv zeta.
  replace (palmVector control) with (palm control) by apply vec3_eta.
  rewrite <- dist_norm_sub. destruct (Rlt_dec _ _); [lra | reflexivity].
Qed.

Lemma normalized_nonzero (v : Vector3) :
  norm v <> 0 -> normalized v = multiplyScalar v (1 / norm v).
Proof.
  intros H. unfold normalized, orElse. destruct (Req_dec_T (norm v) 0); [contradiction | reflexivity].
Qed.

Lemma handAttraction_inside (params : ParticleSystemConfig) (particle : Particle)
    (control : HandControl) (r : R) :
  interactionRadius params = Some r ->
  let d := dist (palm control) (position particle) in
  let magnitude := nullish (attractionStrength params) 0 * (1 - d / r) in
  0 < d < r ->
  handAttraction params particle control
  = multiplyScalar (multiplyScalar (sub (palm control) (position particle)) (1 / d)) magnitude
  /\ lengthSq (multiplyScalar (sub (palm control) (position particle)) (1 / d)) = 1
  /\ norm (handAttraction params particle control) = Rabs magnitude.
Proof.
  intros Hr d magnitude Hd. unfold handAttraction. cbv zeta.
  replace (palmVector control) with (palm control) by apply vec3_eta.
  rewrite <- dist_norm_sub. fold d. rewrite Hr. simpl nullish.
  destruct (Rlt_dec d r) as [_|Hn]; [|lra].
  assert (Hd0 : norm (sub (palm control) (position particle)) <> 0).
  { rewrite <- dist_norm_sub. fold d. lra. }
  rewrite (normalized_nonzero _ Hd0). rewrite <- dist_norm_sub. fold d.
  assert (Hunit : lengthSq (multiplyScalar (sub (palm control) (position particle)) (1 / d)) = 1).
  { rewrite lengthSq_multiplyScalar. rewrite <- norm_sq, <- dist_norm_sub. fold d. field. lra. }
  split; [reflexivity|]. split; [exact Hunit|].
  fold magnitude. unfold norm. rewrite lengthSq_multiplyScalar, Hunit, Rmult_1_r.
  apply sqrt_Rsqr_abs.
Qed.

(** At distance zero the unit vector toward the palm is the zero vector of
    [normalize], and so is the attraction. *)
Lemma handAttraction_at_palm (params : ParticleSystemConfig) (particle : Particle)
    (control : HandControl) :
  palm control = position particle ->
  handAttraction params particle control = vec3 0 0 0.
Proof.
  intros H. unfold handAttraction. cbv zeta.
  replace (palmVector control) with (palm control) by apply vec3_eta. rewrite H.
  destruct (Rlt_dec _ _); [|reflexivity].
  rewrite normalized_zero.
  - apply vec3_ext; simpl; ring.
  - unfold lengthSq, sub; simpl. ring.
Qed.

Lemma jitter_range (rnd : nat -> R) (k : nat) :
  (forall n, 0 <= rnd n < 1) ->
  -0.025 <= x (jitter rnd k) <= 0.025
  /\ -0.025 <= y (jitter rnd k) <= 0.025
  /\ -0.025 <= z (jitter rnd k) <= 0.025.
Proof.
  intros H. unfold jitter; simpl.
  pose proof (H k). pose proof (H (k + 1)%nat). pose proof (H (k + 2)%nat). lra.
Qed.

(** C6 as stated fails at distance zero: a palm exactly at the position of
    a particle is strictly within the interaction radius of the responsive
    instance, where the claim gives the force its largest magnitude,
    [1.5 * (1 - 0 / 15) = 1.5]; the code adds the zero vector, because
    [normalize] leaves the zero offset as it is.  With draws of 0.5 (no
    jitter) a particle at rest under the palm stays where it is, at rest. *)
Lemma responsive_force_at_palm_counterexample :
  let p := particleAt (vec3 3 4 0) (vec3 0 0 0) (vec3 1 0 0) 0 in
  let hand := handAt (vec3 3 4 0) 0 in
  let s := systemOf responsiveConfig [p] [hand] in
  dist (palm hand) (position p) = 0
  /\ dist (palm hand) (position p) < nullish (interactionRadius (params s)) 0
  /\ nullish (attractionStrength (params s)) 0
     * (1 - dist (palm hand) (position p) / nullish (interactionRadius (params s)) 1) = 1.5
  /\ (exists force,
        responsiveHand (params s) p (vec3 0 0 0) hand = Some force
        /\ force = vec3 0 0 0
        /\ norm force
           <> nullish (attractionStrength (params s)) 0
              * (1 - dist (palm hand) (position p)
                     / nullish (interactionRadius (params s)) 1))
  /\ SrcLib.update (1 / 60) 0 (fun _ => 0.5) s = Some s.
Proof.
  intros p hand s.
  assert (Hd : dist (palm hand) (position p) = 0).
  { unfold dist, distanceToSquared, hand, p, handAt, particleAt. cbn [palm position x y z].
    replace ((3 - 3) * (3 - 3) + (4 - 4) * (4 - 4) + (0 - 0) * (0 - 0)) with 0 by ring.
    apply sqrt_0. }
  assert (Hatt : handAttraction responsiveConfig p hand = vec3 0 0 0)
    by (apply handAttraction_at_palm; reflexivity).
  split; [exact Hd|]. rewrite Hd.
  split; [simpl; lra|]. split; [simpl; lra|].
  split.
  { exists (vec3 0 0 0). split; [|split; [reflexivity|]].
    - change (params s) with responsiveConfig.
      rewrite responsiveHand_Some, Hatt, add_zero_r. reflexivity.
    - unfold norm, lengthSq. cbn [x y z].
      replace (0 * 0 + 0 * 0 + 0 * 0) with 0 by ring. rewrite sqrt_0. simpl. lra. }
  assert (Hmode : behavior (params s) = responsive) by reflexivity.
  destruct (update_forces_modes (1 / 60) 0 (fun _ => 0.5) s (or_introl Hmode)) as [HL _].
  destruct (updateForces_total (params s) (handControls s) (fun _ => 0.5) (particles s))
    as [ps' Hps'].
  rewrite HL, Hps'. cbn [bind]. f_equal.
  destruct (updateLoop_spec _ _ _ _ Hps') as [Hlen _].
  destruct (updateLoop_spec _ _ _ _ Hps') as [_ Hnth].
  destruct (Hnth 0%nat p eq_refl) as [f [Hf Hres]].
  unfold forceOn in Hf. cbv zeta in Hf. rewrite Hmode in Hf.
  rewrite handleResponsiveBehavior_Some in Hf. injection Hf as <-.
  change (params s) with responsiveConfig in Hres.
  change (handControls s) with [hand] in Hres.
  assert (Hforce : add (attraction responsiveConfig [hand] p)
                       (jitter (fun _ : nat => 0.5) 0) = vec3 0 0 0).
  { unfold attraction. cbn [fold_left]. rewrite Hatt.
    unfold jitter. apply vec3_ext; simpl; lra. }
  rewrite Hforce in Hres.
  assert (Hrest : applyBoundaries responsiveConfig (integrate responsiveConfig p (vec3 0 0 0))
                  = p).
  { assert (Hint : integrate responsiveConfig p (vec3 0 0 0) = p).
    { unfold integrate, withMotion, p, particleAt. cbn. f_equal; apply vec3_ext; simpl; lra. }
    rewrite Hint. unfold applyBoundaries, applyAxis, p, particleAt.
    cbn [position velocity x y z boundary responsiveConfig].
    repeat match goal with
           | |- context [Rgt_dec (Rabs ?a) 25] =>
               destruct (Rgt_dec (Rabs a) 25) as [Hgt|_];
               [exfalso; revert Hgt; unfold Rabs; destruct (Rcase_abs a); lra|]
           end.
    reflexivity. }
  rewrite Hrest in Hres.
  unfold withParticles. change (particles s) with [p] in Hlen.
  destruct ps' as [|q [|q' ps']]; simpl in Hlen; try discriminate.
  simpl in Hres. injection Hres as ->. reflexivity.
Qed.

(** C6, amended: a tick of the responsive behaviour returns, and moves
    every particle by the rule [velocity' = (velocity + totalForce) *
    viscosity], [position' = position + velocity'] (followed by the boundary
    reflection), where [totalForce] is the sum over the hands of the
    attraction plus the jitter of the particle.  The attraction of a hand is
    zero from the interaction radius on; strictly inside it and off the
    palm it is the unit vector toward the palm times
    [attractionStrength * (1 - dist / interactionRadius)], a magnitude
    between zero and the strength; a palm exactly at the position of the
    particle adds no force.  The jitter of particle [i] is made of three
    separate draws of [Math.random()], the draws [3 i], [3 i + 1] and
    [3 i + 2] of the tick, one per axis, each mapped to [(u - 0.5) * 0.05],
    which lies in [-0.025, 0.025]. *)
Theorem responsive_tick
    (s : OptimizedParticleSystem) (deltaTime now : R) (rnd : nat -> R) :
  behavior (params s) = responsive ->
  (exists s',
      SrcLib.update deltaTime now rnd s = Some s' /\
      Part001.update deltaTime now rnd s = Some s' /\
      List.length (particles s') = List.length (particles s) /\
      forall i p, nth_error (particles s) i = Some p ->
        let jitter := vec3 ((rnd (3 * i)%nat - 0.5) * 0.05)
                           ((rnd (3 * i + 1)%nat - 0.5) * 0.05)
                           ((rnd (3 * i + 2)%nat - 0.5) * 0.05) in
        let totalForce := add (attraction (params s) (handControls s) p) jitter in
        let velocity' := multiplyScalar (add (velocity p) totalForce) (viscosity (params s)) in
        let position' := add (position p) velocity' in
        nth_error (particles s') i
        = Some (applyBoundaries (params s) (withMotion p position' velocity'))
        /\ ((forall n, 0 <= rnd n < 1) ->
            -0.025 <= x jitter <= 0.025 /\ -0.025 <= y jitter <= 0.025
            /\ -0.025 <= z jitter <= 0.025))
  /\ (forall p : Particle, attraction (params s) [] p = vec3 0 0 0)
  /\ (forall (hc : list HandControl) (c : HandControl) (p : Particle),
        attraction (params s) (hc ++ [c]) p
        = add (attraction (params s) hc p) (handAttraction (params s) p c))
  /\ (forall (c : HandControl) (p : Particle),
        nullish (interactionRadius (params s)) 0 <= dist (palm c) (position p) ->
        handAttraction (params s) p c = vec3 0 0 0)
  /\ (forall (c : HandControl) (p : Particle) (r : R),
        interactionRadius (params s) = Some r ->
        let d := dist (palm c) (position p) in
        let strength := nullish (attractionStrength (params s)) 0 in
        let magnitude := strength * (1 - d / r) in
        0 < d < r ->
        handAttraction (params s) p c
        = multiplyScalar (multiplyScalar (sub (palm c) (position p)) (1 / d)) magnitude
        /\ lengthSq (multiplyScalar (sub (palm c) (position p)) (1 / d)) = 1
        /\ norm (handAttraction (params s) p c) = Rabs magnitude
        /\ (0 <= strength ->
            norm (handAttraction (params s) p c) = magnitude /\ 0 <= magnitude <= strength))
  /\ (forall (c : HandControl) (p : Particle),
        palm c = position p ->
        dist (palm c) (position p) = 0 /\ handAttraction (params s) p c = vec3 0 0 0).
Proof.
  intros Hmode.
  split; [|split; [|split; [|split; [|split]]]].
  - destruct (update_forces_modes deltaTime now rnd s (or_introl Hmode)) as [HL HP].
    destruct (updateForces_total (params s) (handControls s) rnd (particles s)) as [ps' Hps'].
    exists (withParticles s ps'). rewrite HL, HP, Hps'. cbn [bind].
    destruct (updateLoop_spec _ _ _ _ Hps') as [Hlen Hnth].
    split; [reflexivity|]. split; [reflexivity|]. split; [exact Hlen|].
    intros i p Hp. cbv zeta. simpl particles.
    split.
    + destruct (Hnth i p Hp) as [f [Hf Hres]]. rewrite Hres.
      unfold forceOn in Hf. cbv zeta in Hf. rewrite Hmode in Hf.
      rewrite handleResponsiveBehavior_Some in Hf. injection Hf as <-. reflexivity.
    + intros Hr. apply (jitter_range rnd (3 * i) Hr).
  - intros p. reflexivity.
  - intros hc c p. unfold attraction. rewrite fold_left_app. reflexivity.
  - intros c p. apply handAttraction_outside.
  - intros c p r Hr d strength magnitude Hd.
    destruct (handAttraction_inside (params s) p c r Hr Hd) as [H1 [H2 H3]].
    fold d in H1, H2. fold strength in H1, H3. fold magnitude in H1, H3.
    split; [exact H1|]. split; [exact H2|]. split; [exact H3|].
    intros Hs.
    assert (Hq : 0 < d / r < 1).
    { split; [apply Rdiv_lt_0_compat; lra|].
      apply (Rmult_lt_reg_r r); [lra|]. unfold Rdiv. rewrite Rmult_assoc, Rinv_l by lra. lra. }
    assert (Hm : 0 <= magnitude <= strength) by (unfold magnitude; nra).
    split; [|exact Hm]. rewrite H3. apply Rabs_pos_eq. lra.
  - intros c p Hc. split; [|apply handAttraction_at_palm; exact Hc].
    rewrite Hc. unfold dist, distanceToSquared. cbv zeta.
    replace ((x (position p) - x (position p)) * (x (position p) - x (position p))
             + (y (position p) - y (position p)) * (y (position p) - y (position p))
             + (z (position p) - z (position p)) * (z (position p) - z (position p)))
      with 0 by ring.
    apply sqrt_0.
Qed.

(** The responsive theorem at the responsive instance with one hand. *)
Lemma responsive_tick_witness :
  let s := systemOf responsiveConfig
             [particleAt (vec3 3 4 0) (vec3 0 0 0) (vec3 1 0 0) 0]
             [handAt (vec3 0 0 0) 0] in
  behavior (params s) = responsive /\
  exists s', SrcLib.update (1 / 60) 0 (fun _ => 0.5) s = Some s'
             /\ List.length (particles s') = 1%nat.
Proof.
  intros s.
  assert (Hm : behavior (params s) = responsive) by reflexivity.
  split; [exact Hm|].
  destruct (responsive_tick s (1 / 60) 0 (fun _ => 0.5) Hm) as [[s' [HL [_ [Hlen _]]]] _].
  exists s'. split; [exact HL | exact Hlen].
Defined.

(** ** The cohesive behaviour *)













(** ** The responsive scenario *)

(** The state of every particle after a responsive tick. *)
Lemma updateForces_responsive (params : ParticleSystemConfig)
    (handControls : list HandControl) (rnd : nat -> R) (ps ps' : list Particle) :
  behavior params = responsive ->
  updateForces params handControls rnd ps = Some ps' ->
  forall i p, nth_error ps i = Some p ->
    nth_error ps' i
    = Some (applyBoundaries params
              (integrate params p (add (attraction params handControls p)
                                       (jitter rnd (3 * i))))).
Proof.
  intros Hmode Hps' i p Hp.
  destruct (updateLoop_spec _ _ _ _ Hps') as [_ Hnth].
  destruct (Hnth i p Hp) as [f [Hf Hres]]. rewrite Hres.
  unfold forceOn in Hf. cbv zeta in Hf. rewrite Hmode in Hf.
  rewrite handleResponsiveBehavior_Some in Hf. injection Hf as <-. reflexivity.
Qed.

Lemma initParticle_Some (params : ParticleSystemConfig) (rnd : nat -> R) (i : nat) :
  initParticle params rnd i =
  Some {| position := vec3 ((rnd (9 * i)%nat - 0.5) * boundary params * 2)
                           ((rnd (9 * i + 1)%nat - 0.5) * boundary params * 2)
                           ((rnd (9 * i + 2)%nat - 0.5) * boundary params * 2);
          velocity := vec3 ((rnd (9 * i + 3)%nat - 0.5) * 0.8)
                           ((rnd (9 * i + 4)%nat - 0.5) * 0.8)
                           ((rnd (9 * i + 5)%nat - 0.5) * 0.8);
          direction := normalized (vec3 (rnd (9 * i + 6)%nat - 0.5)
                                        (rnd (9 * i + 7)%nat - 0.5)
                                        (rnd (9 * i + 8)%nat - 0.5));
          groupIndex := i mod 2; assignedCenterIndex := None; targetPosition := None |}.
Proof.
  unfold initParticle. cbv zeta. rewrite normalize_Some. reflexivity.
Qed.

(** The constructor always returns, with [count] particles. *)
Lemma construct_Some (config : ParticleSystemConfig) (rnd : nat -> R) :
  exists s0, construct config rnd = Some s0
             /\ params s0 = config /\ handControls s0 = []
             /\ List.length (particles s0) = count config
             /\ forall i p, nth_error (particles s0) i = Some p ->
                            initParticle config rnd i = Some p.
Proof.
  unfold construct, initParticles.
  destruct (mapM_total (initParticle config rnd) (seq 0 (count config))) as [ps Hps].
  { intros i _. rewrite initParticle_Some. eexists; reflexivity. }
  rewrite Hps. cbn [bind]. eexists. split; [reflexivity|]. simpl.
  destruct (mapM_nth _ _ _ Hps) as [Hlen Hnth].
  split; [reflexivity|]. split; [reflexivity|]. split; [rewrite Hlen; apply length_seq|].
  intros i p Hp.
  assert (Hi : (i < count config)%nat).
  { apply nth_error_Some_lt in Hp. rewrite Hlen, length_seq in Hp. exact Hp. }
  destruct (Hnth i i) as [q [Hq Hinit]].
  { rewrite nth_error_nth' with (d := 0%nat) by (rewrite length_seq; exact Hi).
    rewrite seq_nth by exact Hi. reflexivity. }
  congruence.
Qed.

Lemma applyBoundaries_inside (params : ParticleSystemConfig) (q : Particle) :
  Rabs (x (position q)) <= boundary params ->
  Rabs (y (position q)) <= boundary params ->
  Rabs (z (position q)) <= boundary params ->
  position (applyBoundaries params q) = position q
  /\ velocity (applyBoundaries params q) = velocity q.
Proof.
  intros Hx Hy Hz. unfold applyBoundaries. cbv zeta.
  rewrite !applyAxis_inside by assumption. simpl.
  split; symmetry; apply vec3_eta.
Qed.

Lemma dist_axis_x (a : R) : 0 <= a -> dist (vec3 0 0 0) (vec3 a 0 0) = a.
Proof.
  intros Ha. unfold dist, distanceToSquared; simpl. apply sqrt_lem_1; nra.
Qed.

Lemma dist_sym (a b : Vector3) : dist a b = dist b a.
Proof. unfold dist, distanceToSquared. cbv zeta. f_equal. ring. Qed.

(** The scenario of C9 run on explicit draws: the first particle starts at
    distance 4.8 from the palm with an outward velocity of 0.3, the
    attraction there is only 0.08, and after the tick the velocity still
    points away from the origin. *)
Lemma responsive_scenario_counterexample :
  exists s0 s1 p p',
    construct scenarioConfig scenarioDraws = Some s0 /\
    SrcLib.update (1 / 60) 0 (fun _ => 0.5)
      (setHandControls s0 [handAt (vec3 0 0 0) 0]) = Some s1 /\
    nth_error (particles s0) 0 = Some p /\
    nth_error (particles s1) 0 = Some p' /\
    position p = vec3 4.8 0 0 /\
    dist (position p) (vec3 0 0 0) < 5 /\
    velocity p' = vec3 0.187 0 0 /\
    dot (velocity p') (sub (vec3 0 0 0) (position p)) < 0 /\
    dot (velocity p') (sub (vec3 0 0 0) (position p')) < 0.
Proof.
  destruct (construct_Some scenarioConfig scenarioDraws) as [s0 [Hs0 [Hpar [Hhc [Hlen Hinit]]]]].
  destruct (nth_error_lt_Some (particles s0) 0) as [p Hp]; [rewrite Hlen; simpl; lia|].
  pose proof (Hinit 0%nat p Hp) as Hp0. rewrite initParticle_Some in Hp0.
  injection Hp0 as Hp0. cbn [Nat.mul Nat.add scenarioDraws] in Hp0. simpl boundary in Hp0.
  assert (Hpos : position p = vec3 4.8 0 0).
  { rewrite <- Hp0. simpl. apply vec3_ext; simpl; lra. }
  assert (Hvel : velocity p = vec3 0.3 0 0).
  { rewrite <- Hp0. simpl. apply vec3_ext; simpl; lra. }
  clear Hp0.
  set (s := setHandControls s0 [handAt (vec3 0 0 0) 0]).
  assert (Hparams : params s = scenarioConfig) by exact Hpar.
  assert (Hmode : behavior (params s) = responsive) by (rewrite Hparams; reflexivity).
  destruct (update_forces_modes (1 / 60) 0 (fun _ => 0.5) s (or_introl Hmode)) as [HL _].
  destruct (updateForces_total (params s) (handControls s) (fun _ => 0.5) (particles s))
    as [ps' Hps'].
  pose proof (updateForces_responsive _ _ _ _ _ Hmode Hps' 0%nat p Hp) as Hres.
  rewrite Hparams in Hres. simpl handControls in Hres.
  set (hand := handAt (vec3 0 0 0) 0) in *.
  assert (Hd : dist (palm hand) (position p) = 4.8).
  { rewrite Hpos. simpl. apply dist_axis_x. lra. }
  assert (Hatt : attraction scenarioConfig [hand] p = vec3 (-0.08) 0 0).
  { unfold attraction. simpl fold_left. rewrite add_zero_l.
    destruct (handAttraction_inside scenarioConfig p hand 5 eq_refl) as [Heq _].
    - rewrite Hd. lra.
    - rewrite Heq, Hd, Hpos. apply vec3_ext; simpl; lra. }
  assert (Hjit : jitter (fun _ : nat => 0.5) (3 * 0) = vec3 0 0 0).
  { unfold jitter. apply vec3_ext; simpl; lra. }
  rewrite Hatt, Hjit in Hres.
  set (q := integrate scenarioConfig p (add (vec3 (-0.08) 0 0) (vec3 0 0 0))) in *.
  assert (Hqv : velocity q = vec3 0.187 0 0).
  { unfold q, integrate. simpl. rewrite Hvel. apply vec3_ext; simpl; lra. }
  assert (Hqp : position q = vec3 4.987 0 0).
  { unfold q, integrate. simpl. rewrite Hvel, Hpos. apply vec3_ext; simpl; lra. }
  destruct (applyBoundaries_inside scenarioConfig q) as [Hbp Hbv].
  { rewrite Hqp. simpl. rewrite Rabs_pos_eq; lra. }
  { rewrite Hqp. simpl. rewrite Rabs_R0. lra. }
  { rewrite Hqp. simpl. rewrite Rabs_R0. lra. }
  exists s0, (withParticles s ps'), p, (applyBoundaries scenarioConfig q).
  split; [exact Hs0|].
  split.
  { change (SrcLib.update (1 / 60) 0 (fun _ => 0.5) s = Some (withParticles s ps')).
    rewrite HL, Hps'. reflexivity. }
  split; [exact Hp|]. split; [exact Hres|]. split; [exact Hpos|].
  split.
  { rewrite dist_sym. change (dist (palm hand) (position p) < 5). rewrite Hd. lra. }
  rewrite Hbv, Hbp, Hqv, Hqp, Hpos.
  split; [reflexivity|]. unfold dot, sub; simpl. split; lra.
Qed.

Lemma sq_sum_bound (a b c : R) : a * a + b * b + c * c = 1 -> -1 <= a <= 1.
Proof.
  intros H. assert (0 <= b * b) by nra. assert (0 <= c * c) by nra.
  split; nra.
Qed.

Lemma unit_components (u : Vector3) :
  lengthSq u = 1 -> (-1 <= x u <= 1) /\ (-1 <= y u <= 1) /\ (-1 <= z u <= 1).
Proof.
  unfold lengthSq. intros H. split; [|split].
  - apply (sq_sum_bound (x u) (y u) (z u)). lra.
  - apply (sq_sum_bound (y u) (x u) (z u)). lra.
  - apply (sq_sum_bound (z u) (x u) (y u)). lra.
Qed.

Lemma initParticle_velocity (config : ParticleSystemConfig) (rnd : nat -> R) (i : nat)
    (p : Particle) :
  (forall n, 0 <= rnd n < 1) -> initParticle config rnd i = Some p ->
  (-0.4 <= x (velocity p) <= 0.4) /\ (-0.4 <= y (velocity p) <= 0.4)
  /\ (-0.4 <= z (velocity p) <= 0.4).
Proof.
  intros Hr Hp. rewrite initParticle_Some in Hp.
  assert (Hv : velocity p = vec3 ((rnd (9 * i + 3)%nat - 0.5) * 0.8)
                                 ((rnd (9 * i + 4)%nat - 0.5) * 0.8)
                                 ((rnd (9 * i + 5)%nat - 0.5) * 0.8))
    by (injection Hp as <-; reflexivity).
  rewrite Hv. cbn [x y z].
  pose proof (Hr (9 * i + 3)%nat). pose proof (Hr (9 * i + 4)%nat).
  pose proof (Hr (9 * i + 5)%nat). lra.
Qed.

Lemma dist_origin_sq (p : Vector3) :
  dist p (vec3 0 0 0) * dist p (vec3 0 0 0) = lengthSq p.
Proof.
  unfold dist. rewrite sqrt_sqrt by apply distanceToSquared_nonneg.
  unfold distanceToSquared, lengthSq; simpl. ring.
Qed.

(** C9, amended: in the scenario (count 4, boundary 10, interaction radius 5,
    attraction strength 2, one palm at the origin, a damping factor in
    (0, 1], one tick after construction) every particle at a distance [d]
    with [0 < d < 5] from the origin is pulled toward the origin with
    strength [2 * (1 - d / 5)], no boundary is hit, and its velocity after
    the tick is the damping factor times the sum of its previous velocity,
    the pull and the jitter; that velocity has a positive component toward
    the origin exactly when the outward radial component of the previous
    velocity plus jitter is below the strength of the pull. *)
Theorem responsive_scenario_pull
    (config : ParticleSystemConfig) (rnd0 rnd1 : nat -> R) (hand : HandControl) (now : R) :
  count config = 4%nat -> boundary config = 10 ->
  interactionRadius config = Some 5 -> attractionStrength config = Some 2 ->
  behavior config = responsive -> 0 < viscosity config <= 1 ->
  (forall n, 0 <= rnd0 n < 1) -> (forall n, 0 <= rnd1 n < 1) ->
  palm hand = vec3 0 0 0 ->
  exists s0 s1,
    construct config rnd0 = Some s0 /\
    SrcLib.update (1 / 60) now rnd1 (setHandControls s0 [hand]) = Some s1 /\
    Part001.update (1 / 60) now rnd1 (setHandControls s0 [hand]) = Some s1 /\
    List.length (particles s0) = 4%nat /\
    forall i p, nth_error (particles s0) i = Some p ->
      let d := dist (position p) (vec3 0 0 0) in
      let pull := multiplyScalar
                    (multiplyScalar (sub (vec3 0 0 0) (position p)) (1 / d))
                    (2 * (1 - d / 5)) in
      0 < d < 5 ->
      exists p',
        nth_error (particles s1) i = Some p' /\
        velocity p' = multiplyScalar (add (velocity p) (add pull (jitter rnd1 (3 * i))))
                                     (viscosity config) /\
        position p' = add (position p) (velocity p') /\
        dot pull (sub (vec3 0 0 0) (position p)) = 2 * (1 - d / 5) * d /\
        0 < 2 * (1 - d / 5) * d /\
        (0 < dot (velocity p') (sub (vec3 0 0 0) (position p)) <->
         dot (add (velocity p) (jitter rnd1 (3 * i))) (multiplyScalar (position p) (1 / d))
         < 2 * (1 - d / 5)).
Proof.
  intros Hcount Hb Hir Has Hmode Hvisc Hr0 Hr1 Hpalm.
  destruct (construct_Some config rnd0) as [s0 [Hs0 [Hpar [Hhc [Hlen Hinit]]]]].
  set (s := setHandControls s0 [hand]).
  assert (Hparams : params s = config) by exact Hpar.
  assert (Hmode' : behavior (params s) = responsive) by (rewrite Hparams; exact Hmode).
  destruct (update_forces_modes (1 / 60) now rnd1 s (or_introl Hmode')) as [HL HP].
  destruct (updateForces_total (params s) (handControls s) rnd1 (particles s)) as [ps' Hps'].
  exists s0, (withParticles s ps').
  split; [exact Hs0|].
  split.
  { change (SrcLib.update (1 / 60) now rnd1 s = Some (withParticles s ps')).
    rewrite HL, Hps'. reflexivity. }
  split.
  { change (Part001.update (1 / 60) now rnd1 s = Some (withParticles s ps')).
    rewrite HP, Hps'. reflexivity. }
  split; [congruence|].
  intros i p Hp d pull Hd.
  pose proof (updateForces_responsive _ _ _ _ _ Hmode' Hps' i p Hp) as Hres.
  rewrite Hparams in Hres. simpl handControls in Hres.
  assert (Hd' : dist (palm hand) (position p) = d) by (rewrite Hpalm; apply dist_sym).
  destruct (handAttraction_inside config p hand 5 Hir) as [Heq [Hunit _]];
    [rewrite Hd'; exact Hd|].
  rewrite Hd', Has, Hpalm in Heq. simpl nullish in Heq. fold pull in Heq.
  rewrite Hd', Hpalm in Hunit.
  assert (Hatt : attraction config [hand] p = pull).
  { unfold attraction. simpl fold_left. rewrite add_zero_l. exact Heq. }
  rewrite Hatt in Hres.
  set (u := multiplyScalar (sub (vec3 0 0 0) (position p)) (1 / d)) in *.
  destruct (unit_components u Hunit) as [Hux [Huy Huz]].
  destruct (initParticle_velocity config rnd0 i p Hr0 (Hinit i p Hp)) as [Hvx [Hvy Hvz]].
  destruct (jitter_range rnd1 (3 * i) Hr1) as [Hjx [Hjy Hjz]].
  set (j := jitter rnd1 (3 * i)) in *.
  set (m := 2 * (1 - d / 5)) in *.
  assert (Hm : 0 < m <= 2).
  { unfold m. assert (0 < d / 5 < 1) by (split; [apply Rdiv_lt_0_compat; lra | lra]). lra. }
  assert (Hdd : d * d = lengthSq (position p)) by apply dist_origin_sq.
  assert (Hpx : x (position p) = - (d * x u)) by (unfold u; simpl; field; lra).
  assert (Hpy : y (position p) = - (d * y u)) by (unfold u; simpl; field; lra).
  assert (Hpz : z (position p) = - (d * z u)) by (unfold u; simpl; field; lra).
  set (q := integrate config p (add pull j)) in *.
  assert (Hqv : velocity q = multiplyScalar (add (velocity p) (add pull j)) (viscosity config))
    by reflexivity.
  assert (Hqp : position q = add (position p) (velocity q)) by reflexivity.
  assert (Hbound : forall pc uc vc jc : R,
             pc = - (d * uc) -> -1 <= uc <= 1 -> -0.4 <= vc <= 0.4 -> -0.025 <= jc <= 0.025 ->
             Rabs (pc + (vc + (uc * m + jc)) * viscosity config) <= boundary config).
  { intros pc uc vc jc Hpc Huc Hvc Hjc. rewrite Hb. apply Rabs_le.
    assert (-5 <= pc <= 5) by (subst pc; split; nra).
    assert (-2 <= uc * m <= 2) by (split; nra).
    assert (-2.425 <= (vc + (uc * m + jc)) * viscosity config <= 2.425) by (split; nra).
    lra. }
  destruct (applyBoundaries_inside config q) as [Hbp Hbv].
  { rewrite Hqp, Hqv. simpl. apply Hbound; assumption. }
  { rewrite Hqp, Hqv. simpl. apply Hbound; assumption. }
  { rewrite Hqp, Hqv. simpl. apply Hbound; assumption. }
  exists (applyBoundaries config q).
  split; [exact Hres|]. split; [rewrite Hbv; exact Hqv|].
  split; [rewrite Hbp, Hbv; exact Hqp|].
  assert (Hpulldef : pull = multiplyScalar u m) by reflexivity.
  assert (Hdotu : forall a : Vector3,
             dot a (sub (vec3 0 0 0) (position p)) = d * dot a u).
  { intros a. unfold dot, sub. cbn [x y z]. rewrite Hpx, Hpy, Hpz. ring. }
  assert (Huu : dot u u = 1) by exact Hunit.
  clearbody q u pull m j. clear Heq Hatt. rewrite Hpulldef in *. clear Hpulldef pull.
  assert (Hpull : dot (multiplyScalar u m) (sub (vec3 0 0 0) (position p)) = m * d).
  { rewrite Hdotu, dot_multiplyScalar_l, Huu. ring. }
  split; [exact Hpull|]. split; [nra|].
  rewrite Hbv, Hqv, Hdotu, dot_multiplyScalar_l, !dot_add_l, dot_multiplyScalar_l, Huu.
  assert (Hw : forall a : Vector3,
             dot a (multiplyScalar (position p) (1 / d)) = - dot a u).
  { intros a. unfold dot, multiplyScalar. cbn [x y z]. rewrite Hpx, Hpy, Hpz. field. lra. }
  rewrite !Hw.
  set (a := dot (velocity p) u). set (b := dot j u).
  split; intros H.
  - assert (0 < viscosity config * (a + (m * 1 + b))) by nra.
    assert (0 < a + (m * 1 + b)) by nra. lra.
  - assert (0 < a + (m * 1 + b)) by lra.
    assert (0 < viscosity config * (a + (m * 1 + b))) by (apply Rmult_lt_0_compat; lra).
    nra.
Qed.

(** The scenario theorem on the draws of the counterexample. *)
Lemma responsive_scenario_pull_witness :
  exists s0 s1,
    construct scenarioConfig scenarioDraws = Some s0 /\
    SrcLib.update (1 / 60) 0 (fun _ => 0.5)
      (setHandControls s0 [handAt (vec3 0 0 0) 0]) = Some s1 /\
    List.length (particles s0) = 4%nat.
Proof.
  assert (Hdraws : forall n, 0 <= scenarioDraws n < 1).
  { intros n. unfold scenarioDraws.
    destruct n as [|[|[|[|[|[|[|n]]]]]]]; lra. }
  assert (Hhalf : forall n : nat, 0 <= (fun _ : nat => 0.5) n < 1) by (intros n; lra).
  assert (Hvisc : 0 < viscosity scenarioConfig <= 1) by (simpl; lra).
  destruct (responsive_scenario_pull scenarioConfig scenarioDraws (fun _ => 0.5)
              (handAt (vec3 0 0 0) 0) 0
              eq_refl eq_refl eq_refl eq_refl eq_refl Hvisc Hdraws Hhalf eq_refl)
    as [s0 [s1 [H0 [H1 [_ [Hlen _]]]]]].
  exists s0, s1. repeat split; assumption.
Defined.

(** ** The shell of the needle sphere *)

Lemma norm_eq (v : Vector3) (l : R) : 0 <= l -> lengthSq v = l * l -> norm v = l.
Proof.
  intros Hl H. unfold norm. apply sqrt_lem_1; [apply lengthSq_nonneg | exact Hl | lra].
Qed.

Lemma normalized_eq (v : Vector3) (l : R) :
  0 < l -> lengthSq v = l * l -> normalized v = multiplyScalar v (1 / l).
Proof.
  intros Hl H. assert (Hn : norm v = l) by (apply norm_eq; lra).
  rewrite normalized_nonzero; rewrite Hn; [reflexivity | lra].
Qed.

(** A point at [radius] times a unit vector from the center is at distance
    [radius] from it. *)
Lemma dist_on_shell (n center : Vector3) (radius : R) :
  lengthSq n = 1 -> 0 <= radius ->
  dist (add (multiplyScalar n radius) center) center = radius.
Proof.
  intros Hn Hr. rewrite dist_norm_sub, sub_add_cancel, norm_multiplyScalar by exact Hr.
  rewrite norm_unit by exact Hn. ring.
Qed.

(** The value returned by the particle step of [updateNeedleSphere] in
    [src/unnamed/part_001]. *)
Lemma Part001_needleSphereParticle_Some (params : ParticleSystemConfig) (center : Vector3)
    (handDistance deltaTime time : R) (i : nat) (particle : Particle) :
  let radius := targetRadiusForParticle params handDistance particle in
  let u := radial center particle in
  let v1 := lerp (sub (velocity particle) (multiplyScalar u (dot (velocity particle) u)))
                 (swimOf u i time 0.4 4.0) (deltaTime * 3.0) in
  let w := sub (add (add (multiplyScalar u radius) center) (multiplyScalar v1 deltaTime))
               center in
  let n := if Rgt_dec (lengthSq w) 0.0001 then normalized w
           else normalized (direction particle) in
  let position2 := add (multiplyScalar n radius) center in
  let direction1 := if Rgt_dec (lengthSq (sub position2 center)) 0.0001
                    then normalized (sub position2 center)
                    else direction particle in
  Part001.needleSphereParticle params center handDistance deltaTime time i particle
  = Some (withDirection (withMotion particle position2 v1) direction1).
Proof.
  cbv zeta. unfold Part001.needleSphereParticle. cbv zeta.
  rewrite radialDirection_Some. cbn [bind]. rewrite swimDirection_Some. cbn [bind].
  destruct (Rgt_dec _ 0.0001) as [H1|H1]; rewrite normalize_Some; cbn [bind];
    (destruct (Rgt_dec _ 0.0001) as [H2|H2]; [rewrite normalize_Some|]; reflexivity).
Qed.

(** In [src/unnamed/part_001] a particle with a non-zero stored direction
    and a non-negative shell radius ends the step exactly on its shell, and
    its stored direction stays non-zero. *)
Lemma Part001_needleSphereParticle_shell (params : ParticleSystemConfig) (center : Vector3)
    (handDistance deltaTime time : R) (i : nat) (particle : Particle) :
  lengthSq (direction particle) <> 0 ->
  0 <= targetRadiusForParticle params handDistance particle ->
  exists p',
    Part001.needleSphereParticle params center handDistance deltaTime time i particle = Some p'
    /\ dist (position p') center = targetRadiusForParticle params handDistance particle
    /\ groupIndex p' = groupIndex particle
    /\ lengthSq (direction p') <> 0.
Proof.
  intros Hdir Hr.
  pose proof (Part001_needleSphereParticle_Some params center handDistance deltaTime time i
                particle) as Hstep.
  cbv zeta in Hstep. eexists. split; [exact Hstep|]. cbn [position withDirection withMotion
    groupIndex direction].
  split; [|split; [reflexivity|]].
  - apply dist_on_shell; [|exact Hr].
    destruct (Rgt_dec _ 0.0001) as [H|H].
    + apply lengthSq_normalized. lra.
    + apply lengthSq_normalized, Hdir.
  - match goal with
    | |- lengthSq (if ?c then _ else _) <> 0 => destruct c as [H|H]; [|exact Hdir]
    end.
    rewrite lengthSq_normalized; lra.
Qed.

Lemma targetRadiusForParticle_group (params : ParticleSystemConfig) (handDistance : R)
    (p p' : Particle) :
  groupIndex p' = groupIndex p ->
  targetRadiusForParticle params handDistance p' = targetRadiusForParticle params handDistance p.
Proof. intros H. unfold targetRadiusForParticle. rewrite H. reflexivity. Qed.

Lemma targetRadiusForParticle_nonneg (params : ParticleSystemConfig) (handDistance : R)
    (p : Particle) :
  0 <= nullish (baseRadius params) 8 -> 0 <= nullish (radiusHandScale params) 1.2 ->
  0 <= nullish (outerRadiusMultiplier params) 1.8 -> 0 <= handDistance ->
  0 <= targetRadiusForParticle params handDistance p.
Proof.
  intros Hb Hs Ho Hd. unfold targetRadiusForParticle, effectiveRadius. cbv zeta.
  apply Rmult_le_pos.
  - apply Rplus_le_le_0_compat; [exact Hb | apply Rmult_le_pos; assumption].
  - destruct (groupIndex p =? 0)%nat; [lra | exact Ho].
Qed.

(** The shell invariant of [src/unnamed/part_001]: with non-negative radius
    parameters and non-zero stored directions, a needle-sphere tick returns
    and leaves every particle at distance [targetRadiusForParticle] from the
    active center, for any hands, time step and clock. *)
Lemma Part001_needle_sphere_shell (s : OptimizedParticleSystem) (deltaTime now : R)
    (rnd : nat -> R) :
  behavior (params s) = needleSphere ->
  (forall i p, nth_error (particles s) i = Some p -> lengthSq (direction p) <> 0) ->
  0 <= nullish (baseRadius (params s)) 8 ->
  0 <= nullish (radiusHandScale (params s)) 1.2 ->
  0 <= nullish (outerRadiusMultiplier (params s)) 1.8 ->
  exists s' center handDistance,
    sphereCenter (handControls s) = Some (center, handDistance) /\
    Part001.update deltaTime now rnd s = Some s' /\
    List.length (particles s') = List.length (particles s) /\
    forall i p, nth_error (particles s) i = Some p ->
      exists p',
        nth_error (particles s') i = Some p' /\
        groupIndex p' = groupIndex p /\
        dist (position p') center = targetRadiusForParticle (params s) handDistance p' /\
        lengthSq (direction p') <> 0.
Proof.
  intros Hmode Hdir Hb Hs Ho.
  destruct (sphereCenter_total (handControls s)) as [center [hd [Hc Hhd]]].
  destruct (forEachParticle_total
              (Part001.needleSphereParticle (params s) center hd deltaTime (now * 0.001))
              (particles s)) as [ps' Hps'].
  { intros i p Hp.
    destruct (Part001_needleSphereParticle_total (params s) center hd deltaTime (now * 0.001) i p)
      as [p' [Hp' _]]. eexists; exact Hp'. }
  exists (withParticles s ps'), center, hd.
  destruct (forEachParticle_nth _ _ _ Hps') as [Hlen Hnth].
  split; [exact Hc|]. split; [|split; [exact Hlen|]].
  - unfold Part001.update. rewrite Hmode. unfold Part001.updateNeedleSphere.
    rewrite Hc. cbn [bind fst snd]. rewrite Hps'. reflexivity.
  - intros i p Hp.
    destruct (Hnth i p Hp) as [p' [Hp' Hstep]].
    destruct (Part001_needleSphereParticle_shell (params s) center hd deltaTime (now * 0.001) i p)
      as [q [Hq' [Hdist [Hg Hd]]]].
    + apply (Hdir i p Hp).
    + apply targetRadiusForParticle_nonneg; assumption.
    + assert (q = p') by congruence. subst q. exists p'.
      split; [exact Hp'|]. split; [exact Hg|].
      rewrite (targetRadiusForParticle_group _ _ p p' Hg). split; assumption.
Qed.

(** *** The step of [src/lib/optimized-particle-system.ts] *)

(** The value returned by the particle step of [updateNeedleSphere] in
    [src/lib/optimized-particle-system.ts]. *)
Lemma SrcLib_needleSphereParticle_Some (params : ParticleSystemConfig) (center : Vector3)
    (handDistance deltaTime time : R) (i : nat) (particle : Particle) :
  let radius := targetRadiusForParticle params handDistance particle in
  let u := radial center particle in
  let v1 := lerp (velocity particle) (swimOf u i time 0.4 4.0) (deltaTime * 3.0) in
  let position1 := add (add (multiplyScalar u radius) center) (multiplyScalar v1 deltaTime) in
  let position2 := if Rgt_dec (lengthSq (sub position1 center)) 0.01
                   then add (multiplyScalar (normalized (sub position1 center)) radius) center
                   else position1 in
  SrcLib.needleSphereParticle params center handDistance deltaTime time i particle
  = Some (withMotion particle position2 v1).
Proof.
  cbv zeta. unfold SrcLib.needleSphereParticle. cbv zeta.
  rewrite radialDirection_Some. cbn [bind]. rewrite swimDirection_Some. cbn [bind].
  destruct (Rgt_dec _ 0.01) as [H1|H1]; [rewrite normalize_Some|]; reflexivity.
Qed.

Lemma radial_far (center : Vector3) (particle : Particle) (l : R) :
  0.01 < l -> lengthSq (sub (position particle) center) = l * l ->
  radial center particle = multiplyScalar (sub (position particle) center) (1 / l).
Proof.
  intros Hl H. unfold radial. rewrite (norm_eq _ l) by (lra || exact H).
  destruct (Rgt_dec l 0.01); [|lra]. apply normalized_eq; [lra | exact H].
Qed.

Lemma tangent1Of_x : tangent1Of (vec3 1 0 0) = vec3 0 0 1.
Proof.
  unfold tangent1Of.
  assert (Hc : crossVectors (vec3 1 0 0) up = vec3 0 0 1).
  { unfold crossVectors, up. apply vec3_ext; simpl; ring. }
  rewrite Hc.
  assert (Hl : lengthSq (vec3 0 0 1) = 1 * 1) by (unfold lengthSq; simpl; ring).
  destruct (Rlt_dec (lengthSq (vec3 0 0 1)) 0.01) as [H|_]; [rewrite Hl in H; lra|].
  rewrite (normalized_eq _ 1) by (lra || exact Hl).
  apply vec3_ext; simpl; lra.
Qed.

Lemma tangent2Of_x : tangent2Of (vec3 1 0 0) = vec3 0 (-1) 0.
Proof.
  unfold tangent2Of. rewrite tangent1Of_x.
  assert (Hc : crossVectors (vec3 1 0 0) (vec3 0 0 1) = vec3 0 (-1) 0).
  { unfold crossVectors. apply vec3_ext; simpl; ring. }
  rewrite Hc.
  assert (Hl : lengthSq (vec3 0 (-1) 0) = 1 * 1) by (unfold lengthSq; simpl; ring).
  rewrite (normalized_eq _ 1) by (lra || exact Hl).
  apply vec3_ext; simpl; lra.
Qed.

(** The swim direction on the x axis of the shell. *)
Lemma swimOf_x (i : nat) (time freq swimSpeed : R) :
  swimOf (vec3 1 0 0) i time freq swimSpeed
  = vec3 0 (- (sin (INR i * 0.01 + time * freq) * swimSpeed))
           (cos (INR i * 0.01 + time * freq) * swimSpeed).
Proof.
  unfold swimOf. rewrite tangent1Of_x, tangent2Of_x. apply vec3_ext; simpl; ring.
Qed.

(** The swim direction of particle 0 at clock 0 on the x axis of the shell. *)
Lemma swimOf_x_start (freq swimSpeed : R) :
  swimOf (vec3 1 0 0) 0 (0 * 0.001) freq swimSpeed = vec3 0 0 swimSpeed.
Proof.
  rewrite swimOf_x.
  replace (INR 0 * 0.01 + 0 * 0.001 * freq) with 0 by (simpl; ring).
  rewrite cos_0, sin_0. apply vec3_ext; simpl; ring.
Qed.

Lemma forEachParticle_single (f : nat -> Particle -> option Particle) (p p' : Particle) :
  f 0%nat p = Some p' -> forEachParticle f [p] = Some [p'].
Proof. intros H. unfold forEachParticle. simpl. rewrite H. reflexivity. Qed.

(** C1 on [src/lib/optimized-particle-system.ts]: a needle of the idle
    sphere (center at the origin, shell radius 20) that enters a one-second
    frame at (20, 0, 0) with velocity (10, 0, 6) is moved to the center
    itself, where the re-projection is skipped: after the tick its distance
    to the active center is 0, not 20. *)
Theorem SrcLib_needle_sphere_misses_shell :
  exists s' p',
    SrcLib.update 1 0 (fun _ => 0.5) strandedNeedle = Some s' /\
    sphereCenter (handControls strandedNeedle) = Some (vec3 0 0 0, 10) /\
    nth_error (particles s') 0 = Some p' /\
    targetRadiusForParticle (params strandedNeedle) 10 p' = 20 /\
    position p' = vec3 0 0 0 /\
    dist (position p') (vec3 0 0 0) = 0.
Proof.
  set (p := particleAt (vec3 20 0 0) (vec3 10 0 6) (vec3 1 0 0) 0).
  set (center := vec3 0 0 0).
  assert (Hradius : targetRadiusForParticle needleConfig 10 p = 20).
  { unfold targetRadiusForParticle, effectiveRadius. simpl. lra. }
  assert (Hu : radial center p = vec3 1 0 0).
  { rewrite (radial_far center p 20); [apply vec3_ext; simpl; lra | lra |].
    unfold lengthSq; simpl. lra. }
  pose proof (SrcLib_needleSphereParticle_Some needleConfig center 10 1 (0 * 0.001) 0 p)
    as Hstep.
  cbv zeta in Hstep. rewrite Hradius, Hu, swimOf_x_start in Hstep.
  assert (Hv1 : lerp (velocity p) (vec3 0 0 4.0) (1 * 3.0) = vec3 (-20) 0 0).
  { apply vec3_ext; simpl; lra. }
  rewrite Hv1 in Hstep.
  assert (Hp1 : add (add (multiplyScalar (vec3 1 0 0) 20) center)
                    (multiplyScalar (vec3 (-20) 0 0) 1) = vec3 0 0 0).
  { apply vec3_ext; simpl; lra. }
  rewrite Hp1 in Hstep.
  destruct (Rgt_dec (lengthSq (sub (vec3 0 0 0) center)) 0.01) as [H|_].
  { exfalso. unfold lengthSq in H; simpl in H. lra. }
  exists (withParticles strandedNeedle [withMotion p (vec3 0 0 0) (vec3 (-20) 0 0)]),
         (withMotion p (vec3 0 0 0) (vec3 (-20) 0 0)).
  split.
  { assert (Hupd : SrcLib.update 1 0 (fun _ => 0.5) strandedNeedle
                     = (ps <- forEachParticle
                                (SrcLib.needleSphereParticle needleConfig center 10 1 (0 * 0.001))
                                [p] ;;
                        Some (withParticles strandedNeedle ps))) by reflexivity.
    rewrite Hupd, (forEachParticle_single _ p _ Hstep). reflexivity. }
  split; [reflexivity|]. split; [reflexivity|].
  split; [exact Hradius|]. split; [reflexivity|].
  unfold dist, distanceToSquared; simpl.
  replace ((0 - 0) * (0 - 0) + (0 - 0) * (0 - 0) + (0 - 0) * (0 - 0)) with 0 by ring.
  apply sqrt_0.
Qed.

(** In [src/lib/optimized-particle-system.ts] the step ends on the shell
    when the moved particle is farther than 0.1 from the center, and leaves
    the particle where the move put it otherwise. *)
Lemma SrcLib_needleSphereParticle_shell_or_skip (params : ParticleSystemConfig)
    (center : Vector3) (handDistance deltaTime time : R) (i : nat) (particle : Particle) :
  0 <= targetRadiusForParticle params handDistance particle ->
  exists p',
    SrcLib.needleSphereParticle params center handDistance deltaTime time i particle = Some p'
    /\ (dist (position p') center = targetRadiusForParticle params handDistance particle
        \/ lengthSq (sub (position p') center) <= 0.01).
Proof.
  intros Hr.
  pose proof (SrcLib_needleSphereParticle_Some params center handDistance deltaTime time i
                particle) as Hstep.
  cbv zeta in Hstep. eexists. split; [exact Hstep|]. cbn [position withMotion].
  destruct (Rgt_dec _ 0.01) as [H|H].
  - left. apply dist_on_shell; [|exact Hr]. apply lengthSq_normalized. lra.
  - right. lra.
Qed.

(** The same happens at every clock value, for the velocity that the frame
    blends into (-20, 0, 0). *)
Lemma SrcLib_needle_sphere_misses_shell_any_clock (now : R) :
  exists s' p',
    SrcLib.update 1 now (fun _ => 0.5) (strandedNeedleAt now) = Some s' /\
    nth_error (particles s') 0 = Some p' /\
    targetRadiusForParticle (params (strandedNeedleAt now)) 10 p' = 20 /\
    position p' = vec3 0 0 0.
Proof.
  set (phase := INR 0 * 0.01 + now * 0.001 * 0.4).
  set (p := particleAt (vec3 20 0 0) (vec3 10 (- (sin phase * 6)) (cos phase * 6))
              (vec3 1 0 0) 0).
  set (center := vec3 0 0 0).
  assert (Hradius : targetRadiusForParticle needleConfig 10 p = 20).
  { unfold targetRadiusForParticle, effectiveRadius. simpl. lra. }
  assert (Hu : radial center p = vec3 1 0 0).
  { rewrite (radial_far center p 20); [apply vec3_ext; simpl; lra | lra |].
    unfold lengthSq; simpl. lra. }
  pose proof (SrcLib_needleSphereParticle_Some needleConfig center 10 1 (now * 0.001) 0 p)
    as Hstep.
  cbv zeta in Hstep. rewrite Hradius, Hu, swimOf_x in Hstep. fold phase in Hstep.
  assert (Hv1 : lerp (velocity p) (vec3 0 (- (sin phase * 4.0)) (cos phase * 4.0)) (1 * 3.0)
                = vec3 (-20) 0 0).
  { apply vec3_ext; simpl; lra. }
  rewrite Hv1 in Hstep.
  assert (Hp1 : add (add (multiplyScalar (vec3 1 0 0) 20) center)
                    (multiplyScalar (vec3 (-20) 0 0) 1) = vec3 0 0 0).
  { apply vec3_ext; simpl; lra. }
  rewrite Hp1 in Hstep.
  destruct (Rgt_dec (lengthSq (sub (vec3 0 0 0) center)) 0.01) as [H|_].
  { exfalso. unfold lengthSq in H; simpl in H. lra. }
  exists (withParticles (strandedNeedleAt now) [withMotion p (vec3 0 0 0) (vec3 (-20) 0 0)]),
         (withMotion p (vec3 0 0 0) (vec3 (-20) 0 0)).
  split.
  { assert (Hupd : SrcLib.update 1 now (fun _ => 0.5) (strandedNeedleAt now)
                     = (ps <- forEachParticle
                                (SrcLib.needleSphereParticle needleConfig center 10 1
                                   (now * 0.001)) [p] ;;
                        Some (withParticles (strandedNeedleAt now) ps))) by reflexivity.
    rewrite Hupd, (forEachParticle_single _ p _ Hstep). reflexivity. }
  split; [reflexivity|]. split; [exact Hradius | reflexivity].
Qed.

(** *** Normal operation of [src/lib/optimized-particle-system.ts]

    The missing branch is out of reach as long as frames are short and the
    shell is not tiny: velocities then stay within the swim speed. *)

Lemma dot_cross_right (a b : Vector3) : dot (crossVectors a b) b = 0.
Proof. unfold dot, crossVectors; simpl. ring. Qed.

(** Lagrange's identity, which gives the Cauchy-Schwarz inequality. *)
Lemma lagrange_identity (a b : Vector3) :
  lengthSq a * lengthSq b - dot a b * dot a b = lengthSq (crossVectors a b).
Proof. unfold lengthSq, dot, crossVectors; simpl. ring. Qed.

Lemma cauchy_schwarz (a b : Vector3) : dot a b * dot a b <= lengthSq a * lengthSq b.
Proof.
  pose proof (lagrange_identity a b) as H.
  pose proof (lengthSq_nonneg (crossVectors a b)). lra.
Qed.

Lemma dot_bound (a b : Vector3) (m n : R) :
  0 <= m -> 0 <= n -> lengthSq a <= m * m -> lengthSq b <= n * n ->
  - (m * n) <= dot a b <= m * n.
Proof.
  intros Hm Hn Ha Hb. pose proof (cauchy_schwarz a b) as Hcs.
  pose proof (lengthSq_nonneg a). pose proof (lengthSq_nonneg b).
  assert (Hsq : dot a b * dot a b <= (m * n) * (m * n)).
  { apply Rle_trans with (lengthSq a * lengthSq b); [exact Hcs|].
    replace (m * n * (m * n)) with ((m * m) * (n * n)) by ring.
    apply Rmult_le_compat; assumption. }
  assert (0 <= m * n) by (apply Rmult_le_pos; assumption).
  split; nra.
Qed.

Lemma lengthSq_normalized_le (v : Vector3) : lengthSq (normalized v) <= 1.
Proof.
  destruct (lengthSq_normalized_cases v) as [H | H]; rewrite H; [lra|].
  unfold lengthSq; simpl. lra.
Qed.

(** The swim direction is never faster than the swim speed. *)
Lemma lengthSq_swimOf (u : Vector3) (i : nat) (time freq swimSpeed : R) :
  lengthSq (swimOf u i time freq swimSpeed) <= swimSpeed * swimSpeed.
Proof.
  unfold swimOf.
  set (phase := INR i * 0.01 + time * freq).
  set (t1 := tangent1Of u). set (t2 := tangent2Of u).
  assert (H12 : dot t2 t1 = 0).
  { unfold t2, tangent2Of. rewrite dot_normalized_l. fold t1. rewrite dot_cross_right. ring. }
  assert (H1 : lengthSq t1 <= 1) by apply lengthSq_normalized_le.
  assert (H2 : lengthSq t2 <= 1) by apply lengthSq_normalized_le.
  pose proof (lengthSq_nonneg t1) as H1'. pose proof (lengthSq_nonneg t2) as H2'.
  assert (Heq : lengthSq (add (multiplyScalar t1 (cos phase * swimSpeed))
                              (multiplyScalar t2 (sin phase * swimSpeed)))
                = swimSpeed * swimSpeed
                  * (cos phase * cos phase * lengthSq t1 + sin phase * sin phase * lengthSq t2)
                  + 2 * (cos phase * swimSpeed) * (sin phase * swimSpeed) * dot t2 t1).
  { unfold lengthSq, dot, add, multiplyScalar; simpl. ring. }
  rewrite Heq, H12.
  pose proof (sin2_cos2 phase) as Hsc. unfold Rsqr in Hsc.
  assert (Hc : 0 <= cos phase * cos phase) by nra.
  assert (Hs : 0 <= sin phase * sin phase) by nra.
  assert (Hsum : cos phase * cos phase * lengthSq t1 + sin phase * sin phase * lengthSq t2 <= 1)
    by nra.
  assert (0 <= swimSpeed * swimSpeed) by nra.
  nra.
Qed.

(** Blending two vectors of length at most [m] gives a vector of length at
    most [m]. *)
Lemma lengthSq_lerp_le (a b : Vector3) (alpha m : R) :
  0 <= m -> 0 <= alpha <= 1 -> lengthSq a <= m * m -> lengthSq b <= m * m ->
  lengthSq (lerp a b alpha) <= m * m.
Proof.
  intros Hm Halpha Ha Hb.
  destruct (dot_bound a b m m Hm Hm Ha Hb) as [_ Hab].
  assert (Heq : lengthSq (lerp a b alpha)
                = (1 - alpha) * (1 - alpha) * lengthSq a
                  + 2 * alpha * (1 - alpha) * dot a b
                  + alpha * alpha * lengthSq b).
  { unfold lengthSq, dot, lerp; simpl. ring. }
  rewrite Heq.
  assert (H1 : (1 - alpha) * (1 - alpha) * lengthSq a <= (1 - alpha) * (1 - alpha) * (m * m))
    by (apply Rmult_le_compat_l; nra).
  assert (H2 : 2 * alpha * (1 - alpha) * dot a b <= 2 * alpha * (1 - alpha) * (m * m))
    by (apply Rmult_le_compat_l; nra).
  assert (H3 : alpha * alpha * lengthSq b <= alpha * alpha * (m * m))
    by (apply Rmult_le_compat_l; nra).
  nra.
Qed.

(** With frames of at most a third of a second, a velocity within the swim
    speed 4 and a shell radius of at least 3, the step of
    [src/lib/optimized-particle-system.ts] ends on the shell and keeps the
    velocity within the swim speed. *)
Lemma SrcLib_needleSphereParticle_shell_bounded (params : ParticleSystemConfig)
    (center : Vector3) (handDistance deltaTime time : R) (i : nat) (particle : Particle) :
  lengthSq (direction particle) <> 0 ->
  0 <= deltaTime <= 1 / 3 ->
  lengthSq (velocity particle) <= 4 * 4 ->
  3 <= targetRadiusForParticle params handDistance particle ->
  exists p',
    SrcLib.needleSphereParticle params center handDistance deltaTime time i particle = Some p'
    /\ dist (position p') center = targetRadiusForParticle params handDistance particle
    /\ lengthSq (velocity p') <= 4 * 4
    /\ direction p' = direction particle
    /\ groupIndex p' = groupIndex particle.
Proof.
  intros Hdir Hdt Hv Hr.
  pose proof (SrcLib_needleSphereParticle_Some params center handDistance deltaTime time i
                particle) as Hstep.
  cbv zeta in Hstep.
  set (radius := targetRadiusForParticle params handDistance particle) in *.
  set (u := radial center particle) in *.
  assert (Hu : lengthSq u = 1) by (apply lengthSq_radial, Hdir).
  assert (Hswim : lengthSq (swimOf u i time 0.4 4.0) <= 4 * 4).
  { apply Rle_trans with (4.0 * 4.0); [apply lengthSq_swimOf | lra]. }
  set (v1 := lerp (velocity particle) (swimOf u i time 0.4 4.0) (deltaTime * 3.0)) in *.
  assert (Hv1 : lengthSq v1 <= 4 * 4).
  { apply lengthSq_lerp_le; [lra | lra | exact Hv | exact Hswim]. }
  assert (Huv : - (1 * 4) <= dot u v1 <= 1 * 4).
  { apply dot_bound; [lra | lra | lra | exact Hv1]. }
  set (w := sub (add (add (multiplyScalar u radius) center) (multiplyScalar v1 deltaTime))
                center) in *.
  assert (Hw : lengthSq w = radius * radius * lengthSq u
                            + 2 * radius * deltaTime * dot u v1
                            + deltaTime * deltaTime * lengthSq v1).
  { unfold w, lengthSq, dot, sub, add, multiplyScalar; simpl. ring. }
  pose proof (lengthSq_nonneg v1) as Hv1pos.
  assert (Hfar : lengthSq w > 0.01).
  { rewrite Hw, Hu.
    assert (0 <= deltaTime * deltaTime * lengthSq v1) by (apply Rmult_le_pos; nra).
    assert (Hrd : 0 <= 2 * radius * deltaTime) by (apply Rmult_le_pos; lra).
    assert (0 <= 2 * radius * deltaTime * (dot u v1 + 4)) by (apply Rmult_le_pos; lra).
    assert (0 <= (radius - 3) * (radius - 8 * deltaTime)) by (apply Rmult_le_pos; lra).
    nra. }
  destruct (Rgt_dec (lengthSq w) 0.01) as [_|H]; [|contradiction].
  eexists. split; [exact Hstep|]. cbn [position velocity direction groupIndex withMotion].
  split; [|split; [exact Hv1 | split; reflexivity]].
  apply dist_on_shell; [|lra]. apply lengthSq_normalized. lra.
Qed.

(** With a shell of radius zero the same revision leaves a cruising needle
    1/15 away from the center after a 1/60 s tick. *)
Lemma SrcLib_zero_radius_off_shell :
  exists s' p',
    SrcLib.update (1 / 60) 0 (fun _ => 0.5) collapsingNeedle = Some s' /\
    nth_error (particles s') 0 = Some p' /\
    targetRadiusForParticle (params collapsingNeedle) 10 p' = 0 /\
    position p' = vec3 0 0 (1 / 15) /\
    dist (position p') (vec3 0 0 0) = 1 / 15.
Proof.
  set (p := particleAt (vec3 5 0 0) (vec3 0 0 4) (vec3 1 0 0) 0).
  set (center := vec3 0 0 0).
  assert (Hradius : targetRadiusForParticle zeroRadiusConfig 10 p = 0).
  { unfold targetRadiusForParticle, effectiveRadius. simpl. lra. }
  assert (Hu : radial center p = vec3 1 0 0).
  { rewrite (radial_far center p 5); [apply vec3_ext; simpl; lra | lra |].
    unfold lengthSq; simpl. lra. }
  pose proof (SrcLib_needleSphereParticle_Some zeroRadiusConfig center 10 (1 / 60) (0 * 0.001) 0 p)
    as Hstep.
  cbv zeta in Hstep. rewrite Hradius, Hu, swimOf_x_start in Hstep.
  assert (Hv1 : lerp (velocity p) (vec3 0 0 4.0) (1 / 60 * 3.0) = vec3 0 0 4).
  { apply vec3_ext; simpl; lra. }
  rewrite Hv1 in Hstep.
  assert (Hp1 : add (add (multiplyScalar (vec3 1 0 0) 0) center)
                    (multiplyScalar (vec3 0 0 4) (1 / 60)) = vec3 0 0 (1 / 15)).
  { apply vec3_ext; simpl; lra. }
  rewrite Hp1 in Hstep.
  destruct (Rgt_dec (lengthSq (sub (vec3 0 0 (1 / 15)) center)) 0.01) as [H|_].
  { exfalso. unfold lengthSq in H; simpl in H. lra. }
  exists (withParticles collapsingNeedle [withMotion p (vec3 0 0 (1 / 15)) (vec3 0 0 4)]),
         (withMotion p (vec3 0 0 (1 / 15)) (vec3 0 0 4)).
  split.
  { assert (Hupd : SrcLib.update (1 / 60) 0 (fun _ => 0.5) collapsingNeedle
                     = (ps <- forEachParticle
                                (SrcLib.needleSphereParticle zeroRadiusConfig center 10 (1 / 60)
                                   (0 * 0.001)) [p] ;;
                        Some (withParticles collapsingNeedle ps))) by reflexivity.
    rewrite Hupd, (forEachParticle_single _ p _ Hstep). reflexivity. }
  split; [reflexivity|]. split; [exact Hradius|]. split; [reflexivity|].
  unfold dist, distanceToSquared; simpl. apply sqrt_lem_1; lra.
Qed.

(** The shell invariant of the strict revision applies to the stranded
    needle: after the same one-second frame it is on its shell. *)
Lemma Part001_stranded_needle_on_shell :
  exists s' p',
    Part001.update 1 0 (fun _ => 0.5) strandedNeedle = Some s' /\
    nth_error (particles s') 0 = Some p' /\
    dist (position p') (vec3 0 0 0) = 20.
Proof.
  destruct (Part001_needle_sphere_shell strandedNeedle 1 0 (fun _ => 0.5))
    as [s' [center [hd [Hc [Hs' [Hlen Hall]]]]]].
  - reflexivity.
  - intros [|i] p Hp; simpl in Hp; [|destruct i; discriminate].
    injection Hp as <-. unfold lengthSq; simpl. lra.
  - simpl. lra.
  - simpl. lra.
  - simpl. lra.
  - injection Hc as <- <-.
    destruct (Hall 0%nat _ eq_refl) as [p' [Hp' [Hg [Hdist _]]]].
    exists s', p'. split; [exact Hs'|]. split; [exact Hp'|]. rewrite Hdist.
    unfold targetRadiusForParticle, effectiveRadius. rewrite Hg. simpl. lra.
Qed.

(** ** The velocity of the needle sphere *)

Lemma dot_comm (a b : Vector3) : dot a b = dot b a.
Proof. unfold dot. ring. Qed.

(** Stripping the radial component and blending toward the swim direction
    leaves a velocity orthogonal to the radial direction of the step. *)
Lemma dot_stripped_velocity (v u swim : Vector3) (alpha : R) :
  lengthSq u = 1 \/ u = vec3 0 0 0 ->
  dot swim u = 0 ->
  dot (lerp (sub v (multiplyScalar u (dot v u))) swim alpha) u = 0.
Proof.
  intros Hu Hs. rewrite dot_lerp_l, dot_sub_l, dot_multiplyScalar_l, Hs, dot_self.
  destruct Hu as [Hu | ->].
  - rewrite Hu. ring.
  - unfold dot, lengthSq; simpl. ring.
Qed.

(** In [src/lib/optimized-particle-system.ts] the velocity is only blended:
    its component along the radial direction of the step is scaled by
    [1 - 3 * deltaTime], not removed. *)
Lemma SrcLib_needleSphereParticle_radial_velocity (params : ParticleSystemConfig)
    (center : Vector3) (handDistance deltaTime time : R) (i : nat) (particle : Particle) :
  exists p',
    SrcLib.needleSphereParticle params center handDistance deltaTime time i particle = Some p'
    /\ dot (velocity p') (radial center particle)
       = (1 - 3 * deltaTime) * dot (velocity particle) (radial center particle).
Proof.
  pose proof (SrcLib_needleSphereParticle_Some params center handDistance deltaTime time i
                particle) as Hstep.
  cbv zeta in Hstep. eexists. split; [exact Hstep|].
  cbn [velocity withMotion]. rewrite dot_lerp_l, dot_swimOf. nra.
Qed.

(** C2, amended: after every needle-sphere tick of [src/unnamed/part_001]
    the velocity of every particle has no component along the radial
    direction that the tick used for that particle, that is the unit vector
    from the active center to the position the particle had when the tick
    began (or its stored direction within 0.01 of the center). *)
Theorem Part001_velocity_tangent_to_tick_radial
    (s : OptimizedParticleSystem) (deltaTime now : R) (rnd : nat -> R) :
  behavior (params s) = needleSphere ->
  exists s' center handDistance,
    sphereCenter (handControls s) = Some (center, handDistance) /\
    Part001.update deltaTime now rnd s = Some s' /\
    forall i p, nth_error (particles s) i = Some p ->
      exists p',
        nth_error (particles s') i = Some p' /\
        radialDirection center p = Some (radial center p) /\
        (lengthSq (radial center p) = 1 \/ radial center p = vec3 0 0 0) /\
        dot (velocity p') (radial center p) = 0.
Proof.
  intros Hmode.
  destruct (sphereCenter_total (handControls s)) as [center [hd [Hc _]]].
  destruct (forEachParticle_total
              (Part001.needleSphereParticle (params s) center hd deltaTime (now * 0.001))
              (particles s)) as [ps' Hps'].
  { intros i p Hp.
    destruct (Part001_needleSphereParticle_total (params s) center hd deltaTime (now * 0.001) i p)
      as [p' [Hp' _]]. eexists; exact Hp'. }
  exists (withParticles s ps'), center, hd.
  destruct (forEachParticle_nth _ _ _ Hps') as [_ Hnth].
  split; [exact Hc|]. split.
  - unfold Part001.update. rewrite Hmode. unfold Part001.updateNeedleSphere.
    rewrite Hc. cbn [bind fst snd]. rewrite Hps'. reflexivity.
  - intros i p Hp. destruct (Hnth i p Hp) as [p' [Hp' Hstep]].
    exists p'. split; [exact Hp'|]. split; [apply radialDirection_Some|].
    split; [apply lengthSq_radial_cases|].
    rewrite Part001_needleSphereParticle_Some in Hstep. injection Hstep as <-.
    cbn [velocity withDirection withMotion].
    apply dot_stripped_velocity; [apply lengthSq_radial_cases | apply dot_swimOf].
Qed.

(** The tangency theorem at the cruising needle. *)
Lemma Part001_velocity_tangent_to_tick_radial_witness :
  behavior (params cruisingNeedle) = needleSphere /\
  exists s', Part001.update (1 / 60) 0 (fun _ => 0.5) cruisingNeedle = Some s'.
Proof.
  assert (Hm : behavior (params cruisingNeedle) = needleSphere) by reflexivity.
  split; [exact Hm|].
  destruct (Part001_velocity_tangent_to_tick_radial cruisingNeedle (1 / 60) 0 (fun _ => 0.5) Hm)
    as [s' [_ [_ [_ [Hs' _]]]]].
  exists s'. exact Hs'.
Defined.

Lemma normalized_scaled_unit (n : Vector3) (r : R) :
  lengthSq n = 1 -> 0 < r -> normalized (multiplyScalar n r) = n.
Proof.
  intros Hn Hr. rewrite (normalized_eq _ r).
  - apply vec3_ext; simpl; field; lra.
  - exact Hr.
  - rewrite lengthSq_multiplyScalar, Hn. ring.
Qed.

(** A needle cruising at its swim velocity on the idle shell of
    [src/unnamed/part_001]: after a tick of any length the velocity is
    unchanged, and its component along the unit vector from the center to the
    new position is [16 * deltaTime / sqrt (400 + 16 * deltaTime^2)]. *)
Lemma Part001_cruising_tick (deltaTime : R) :
  exists s' p' n,
    Part001.update deltaTime 0 (fun _ => 0.5) cruisingNeedle = Some s' /\
    sphereCenter (handControls cruisingNeedle) = Some (vec3 0 0 0, 10) /\
    nth_error (particles s') 0 = Some p' /\
    normalize (sub (position p') (vec3 0 0 0)) = Some n /\
    lengthSq n = 1 /\
    velocity p' = vec3 0 0 4 /\
    dot (velocity p') n
    = 16 * deltaTime / sqrt (400 + 16 * (deltaTime * deltaTime)).
Proof.
  set (p := particleAt (vec3 20 0 0) (vec3 0 0 4) (vec3 1 0 0) 0).
  set (center := vec3 0 0 0).
  assert (Hradius : targetRadiusForParticle needleConfig 10 p = 20).
  { unfold targetRadiusForParticle, effectiveRadius. simpl. lra. }
  assert (Hu : radial center p = vec3 1 0 0).
  { rewrite (radial_far center p 20); [apply vec3_ext; simpl; lra | lra |].
    unfold lengthSq; simpl. lra. }
  pose proof (Part001_needleSphereParticle_Some needleConfig center 10 deltaTime (0 * 0.001) 0 p)
    as Hstep.
  cbv zeta in Hstep. rewrite Hradius, Hu, swimOf_x_start in Hstep.
  assert (Hv1 : lerp (sub (velocity p) (multiplyScalar (vec3 1 0 0) (dot (velocity p) (vec3 1 0 0))))
                     (vec3 0 0 4.0) (deltaTime * 3.0) = vec3 0 0 4).
  { apply vec3_ext; unfold dot; simpl; nra. }
  rewrite Hv1 in Hstep.
  set (w := sub (add (add (multiplyScalar (vec3 1 0 0) 20) center)
                     (multiplyScalar (vec3 0 0 4) deltaTime)) center) in *.
  assert (Hw : lengthSq w = 400 + 16 * (deltaTime * deltaTime)).
  { unfold w, lengthSq; simpl. nra. }
  assert (Hwpos : 400 <= lengthSq w) by nra.
  destruct (Rgt_dec (lengthSq w) 0.0001) as [_|H]; [|exfalso; lra].
  assert (Hn : lengthSq (normalized w) = 1) by (apply lengthSq_normalized; lra).
  set (n := normalized w) in *.
  rewrite sub_add_cancel in Hstep.
  assert (Hnn : normalized (multiplyScalar n 20) = n)
    by (apply normalized_scaled_unit; [exact Hn | lra]).
  rewrite Hnn in Hstep.
  set (q := withDirection (withMotion p (add (multiplyScalar n 20) center) (vec3 0 0 4))
              (if Rgt_dec (lengthSq (multiplyScalar n 20)) 0.0001 then n else direction p)) in *.
  assert (Hupd : Part001.update deltaTime 0 (fun _ => 0.5) cruisingNeedle
                 = Some (withParticles cruisingNeedle [q])).
  { assert (Hunf : Part001.update deltaTime 0 (fun _ => 0.5) cruisingNeedle
                   = (ps <- forEachParticle
                              (Part001.needleSphereParticle needleConfig center 10 deltaTime
                                 (0 * 0.001)) [p] ;;
                      Some (withParticles cruisingNeedle ps))) by reflexivity.
    rewrite Hunf, (forEachParticle_single _ p _ Hstep). reflexivity. }
  assert (Hpos : sub (position q) (vec3 0 0 0) = multiplyScalar n 20).
  { unfold q. cbn [position withDirection withMotion]. apply sub_add_cancel. }
  assert (Hproj : normalize (sub (position q) (vec3 0 0 0)) = Some n).
  { rewrite Hpos, normalize_Some, Hnn. reflexivity. }
  assert (Hvel : velocity q = vec3 0 0 4) by reflexivity.
  assert (Hradial : dot (velocity q) n
                    = 16 * deltaTime / sqrt (400 + 16 * (deltaTime * deltaTime))).
  { rewrite Hvel, dot_comm. unfold n. rewrite dot_normalized_l.
    assert (HL : norm w * norm w = lengthSq w) by apply norm_sq.
    pose proof (norm_nonneg w) as HL0.
    assert (HLpos : 0 < norm w) by nra.
    unfold orElse. destruct (Req_dec_T (norm w) 0) as [H0|_]; [lra|].
    assert (Hdot : dot w (vec3 0 0 4) = 16 * deltaTime) by (unfold w, dot; simpl; lra).
    rewrite Hdot. unfold norm. rewrite Hw. field.
    unfold norm in HLpos. rewrite Hw in HLpos. lra. }
  exists (withParticles cruisingNeedle [q]), q, n.
  split; [exact Hupd|]. split; [reflexivity|]. split; [reflexivity|].
  split; [exact Hproj|]. split; [exact Hn|]. split; [exact Hvel | exact Hradial].
Qed.

(** C2 as stated fails on the strict revision too: a needle cruising at its
    swim velocity of 4 on the idle shell (radius 20) ends a 1/60 s tick with
    a velocity whose component along the unit vector from the center to its
    new position exceeds 0.01, ten times the tolerance of 1e-3. *)
Lemma needle_sphere_radial_velocity_counterexample :
  exists s' p' n,
    Part001.update (1 / 60) 0 (fun _ => 0.5) cruisingNeedle = Some s' /\
    sphereCenter (handControls cruisingNeedle) = Some (vec3 0 0 0, 10) /\
    nth_error (particles s') 0 = Some p' /\
    normalize (sub (position p') (vec3 0 0 0)) = Some n /\
    lengthSq n = 1 /\
    dot (velocity p') n > 0.01.
Proof.
  destruct (Part001_cruising_tick (1 / 60)) as [s' [p' [n [Hs' [Hc [Hp' [Hn [Hu [_ Hdot]]]]]]]]].
  exists s', p', n. repeat split; try assumption. rewrite Hdot.
  set (L := sqrt (400 + 16 * (1 / 60 * (1 / 60)))).
  assert (HL : L * L = 400 + 16 * (1 / 60 * (1 / 60))) by (apply sqrt_sqrt; lra).
  assert (HL0 : 0 <= L) by apply sqrt_pos.
  assert (HLpos : 0 < L) by nra.
  assert (HL21 : L < 21) by nra.
  assert (Hk : 0 < 1 / L) by (apply Rdiv_lt_0_compat; lra).
  assert (Hk1 : 1 / L * L = 1) by (field; lra).
  replace (16 * (1 / 60) / L) with (4 / 15 * (1 / L)) by (field; lra).
  nra.
Qed.

(** After a frame of two seconds the same component exceeds 1. *)
Lemma needle_sphere_radial_velocity_long_frame :
  exists s' p' n,
    Part001.update 2 0 (fun _ => 0.5) cruisingNeedle = Some s' /\
    nth_error (particles s') 0 = Some p' /\
    normalize (sub (position p') (vec3 0 0 0)) = Some n /\
    lengthSq n = 1 /\
    dot (velocity p') n > 1.
Proof.
  destruct (Part001_cruising_tick 2) as [s' [p' [n [Hs' [Hc [Hp' [Hn [Hu [_ Hdot]]]]]]]]].
  exists s', p', n. repeat split; try assumption. rewrite Hdot.
  set (L := sqrt (400 + 16 * (2 * 2))).
  assert (HL : L * L = 400 + 16 * (2 * 2)) by (apply sqrt_sqrt; lra).
  assert (HL0 : 0 <= L) by apply sqrt_pos.
  assert (HLpos : 0 < L) by nra.
  assert (HL22 : L < 22) by nra.
  assert (Hk : 0 < 1 / L) by (apply Rdiv_lt_0_compat; lra).
  assert (Hk1 : 1 / L * L = 1) by (field; lra).
  replace (16 * 2 / L) with (32 * (1 / L)) by (field; lra).
  nra.
Qed.

(** The component is the same at every clock value, for a needle that
    enters the tick with the swim velocity of that clock value. *)
Lemma Part001_cruising_tick_any_clock (now deltaTime : R) :
  exists s' p' n,
    Part001.update deltaTime now (fun _ => 0.5) (cruisingNeedleAt now) = Some s' /\
    nth_error (particles s') 0 = Some p' /\
    normalize (sub (position p') (vec3 0 0 0)) = Some n /\
    lengthSq n = 1 /\
    velocity p' = cruisingVelocity now /\
    dot (velocity p') n
    = 16 * deltaTime / sqrt (400 + 16 * (deltaTime * deltaTime)).
Proof.
  set (phase := INR 0 * 0.01 + now * 0.001 * 0.4).
  set (v := vec3 0 (- (sin phase * 4)) (cos phase * 4)).
  assert (Hcv : cruisingVelocity now = v) by reflexivity.
  set (p := particleAt (vec3 20 0 0) v (vec3 1 0 0) 0).
  set (center := vec3 0 0 0).
  pose proof (sin2_cos2 phase) as Hsc. unfold Rsqr in Hsc.
  assert (Hradius : targetRadiusForParticle needleConfig 10 p = 20).
  { unfold targetRadiusForParticle, effectiveRadius. simpl. lra. }
  assert (Hu : radial center p = vec3 1 0 0).
  { rewrite (radial_far center p 20); [apply vec3_ext; simpl; lra | lra |].
    unfold lengthSq; simpl. lra. }
  pose proof (Part001_needleSphereParticle_Some needleConfig center 10 deltaTime (now * 0.001) 0 p)
    as Hstep.
  cbv zeta in Hstep. rewrite Hradius, Hu, swimOf_x in Hstep. fold phase in Hstep.
  assert (Hv1 : lerp (sub (velocity p) (multiplyScalar (vec3 1 0 0) (dot (velocity p) (vec3 1 0 0))))
                     (vec3 0 (- (sin phase * 4.0)) (cos phase * 4.0)) (deltaTime * 3.0) = v).
  { apply vec3_ext; unfold dot; simpl; nra. }
  rewrite Hv1 in Hstep.
  set (w := sub (add (add (multiplyScalar (vec3 1 0 0) 20) center)
                     (multiplyScalar v deltaTime)) center) in *.
  assert (Hw : lengthSq w = 400 + 16 * (deltaTime * deltaTime)).
  { unfold w, lengthSq; simpl.
    replace ((1 * 20 + 0 + 0 * deltaTime - 0) * (1 * 20 + 0 + 0 * deltaTime - 0) +
             (0 * 20 + 0 + - (sin phase * 4) * deltaTime - 0) *
             (0 * 20 + 0 + - (sin phase * 4) * deltaTime - 0) +
             (0 * 20 + 0 + cos phase * 4 * deltaTime - 0) *
             (0 * 20 + 0 + cos phase * 4 * deltaTime - 0))
      with (400 + 16 * (deltaTime * deltaTime) * (sin phase * sin phase + cos phase * cos phase))
      by ring.
    rewrite Hsc. ring. }
  assert (Hwpos : 400 <= lengthSq w) by nra.
  destruct (Rgt_dec (lengthSq w) 0.0001) as [_|H]; [|exfalso; lra].
  assert (Hn : lengthSq (normalized w) = 1) by (apply lengthSq_normalized; lra).
  set (n := normalized w) in *.
  rewrite sub_add_cancel in Hstep.
  assert (Hnn : normalized (multiplyScalar n 20) = n)
    by (apply normalized_scaled_unit; [exact Hn | lra]).
  rewrite Hnn in Hstep.
  set (q := withDirection (withMotion p (add (multiplyScalar n 20) center) v)
              (if Rgt_dec (lengthSq (multiplyScalar n 20)) 0.0001 then n else direction p)) in *.
  assert (Hupd : Part001.update deltaTime now (fun _ => 0.5) (cruisingNeedleAt now)
                 = Some (withParticles (cruisingNeedleAt now) [q])).
  { assert (Hunf : Part001.update deltaTime now (fun _ => 0.5) (cruisingNeedleAt now)
                   = (ps <- forEachParticle
                              (Part001.needleSphereParticle needleConfig center 10 deltaTime
                                 (now * 0.001)) [p] ;;
                      Some (withParticles (cruisingNeedleAt now) ps))) by reflexivity.
    rewrite Hunf, (forEachParticle_single _ p _ Hstep). reflexivity. }
  assert (Hpos : sub (position q) (vec3 0 0 0) = multiplyScalar n 20).
  { unfold q. cbn [position withDirection withMotion]. apply sub_add_cancel. }
  assert (Hproj : normalize (sub (position q) (vec3 0 0 0)) = Some n).
  { rewrite Hpos, normalize_Some, Hnn. reflexivity. }
  assert (Hvel : velocity q = v) by reflexivity.
  assert (Hradial : dot (velocity q) n
                    = 16 * deltaTime / sqrt (400 + 16 * (deltaTime * deltaTime))).
  { rewrite Hvel, dot_comm. unfold n. rewrite dot_normalized_l.
    assert (HL : norm w * norm w = lengthSq w) by apply norm_sq.
    pose proof (norm_nonneg w) as HL0.
    assert (HLpos : 0 < norm w) by nra.
    unfold orElse. destruct (Req_dec_T (norm w) 0) as [H0|_]; [lra|].
    assert (Hdot : dot w v = 16 * deltaTime).
    { unfold w, v, dot; simpl.
      replace ((1 * 20 + 0 + 0 * deltaTime - 0) * 0 +
               (0 * 20 + 0 + - (sin phase * 4) * deltaTime - 0) * - (sin phase * 4) +
               (0 * 20 + 0 + cos phase * 4 * deltaTime - 0) * (cos phase * 4))
        with (16 * deltaTime * (sin phase * sin phase + cos phase * cos phase)) by ring.
      rewrite Hsc. ring. }
    rewrite Hdot. unfold norm. rewrite Hw. field.
    unfold norm in HLpos. rewrite Hw in HLpos. lra. }
  exists (withParticles (cruisingNeedleAt now) [q]), q, n.
  split; [exact Hupd|]. split; [reflexivity|].
  split; [exact Hproj|]. split; [exact Hn|]. split; [rewrite Hcv; exact Hvel | exact Hradial].
Qed.

(** ** Degenerate geometry in the sphere-constrained updates *)

Lemma radial_at_center (center : Vector3) (particle : Particle) :
  dist (position particle) center <= 0.01 ->
  radial center particle = normalized (direction particle).
Proof.
  intros H. unfold radial. rewrite <- dist_norm_sub.
  destruct (Rgt_dec _ _); [lra | reflexivity].
Qed.

Lemma radial_off_center (center : Vector3) (particle : Particle) :
  dist (position particle) center > 0.01 ->
  radial center particle = normalized (sub (position particle) center).
Proof.
  intros H. unfold radial. rewrite <- dist_norm_sub.
  destruct (Rgt_dec _ _); [reflexivity | contradiction].
Qed.

(** Every tick of the two sphere-constrained behaviours returns, in both
    revisions. *)
Lemma sphere_updates_total (s : OptimizedParticleSystem) (deltaTime now : R)
    (rnd : nat -> R) :
  behavior (params s) = needleSphere \/ behavior (params s) = needleSwarm ->
  exists sL sP,
    SrcLib.update deltaTime now rnd s = Some sL /\
    Part001.update deltaTime now rnd s = Some sP /\
    List.length (particles sL) = List.length (particles s) /\
    List.length (particles sP) = List.length (particles s).
Proof.
  intros [Hmode|Hmode].
  - destruct (sphereCenter_total (handControls s)) as [center [hd [Hc _]]].
    destruct (forEachParticle_total
                (SrcLib.needleSphereParticle (params s) center hd deltaTime (now * 0.001))
                (particles s)) as [psL HpsL].
    { intros i p _.
      destruct (SrcLib_needleSphereParticle_total (params s) center hd deltaTime (now * 0.001) i p)
        as [p' [Hp' _]]. eexists; exact Hp'. }
    destruct (forEachParticle_total
                (Part001.needleSphereParticle (params s) center hd deltaTime (now * 0.001))
                (particles s)) as [psP HpsP].
    { intros i p _.
      destruct (Part001_needleSphereParticle_total (params s) center hd deltaTime (now * 0.001) i p)
        as [p' [Hp' _]]. eexists; exact Hp'. }
    exists (withParticles s psL), (withParticles s psP).
    unfold SrcLib.update, Part001.update. rewrite Hmode.
    unfold SrcLib.updateNeedleSphere, Part001.updateNeedleSphere.
    rewrite Hc. cbn [bind fst snd]. rewrite HpsL, HpsP. cbn [bind].
    split; [reflexivity|]. split; [reflexivity|].
    split; [apply (forEachParticle_nth _ _ _ HpsL) | apply (forEachParticle_nth _ _ _ HpsP)].
  - destruct (handControls s) as [|c cs] eqn:Hhc.
    + destruct (forEachParticle_total
                  (SrcLib.swarmIdleParticle deltaTime (now * 0.001)) (particles s))
        as [psL HpsL].
      { intros i p _.
        destruct (SrcLib_swarmIdleParticle_total deltaTime (now * 0.001) i p)
          as [p' [Hp' _]]. eexists; exact Hp'. }
      destruct (forEachParticle_total
                  (Part001.swarmParticle (vec3 0 0 0) deltaTime (now * 0.001)) (particles s))
        as [psP HpsP].
      { intros i p _.
        destruct (Part001_swarmParticle_total (vec3 0 0 0) deltaTime (now * 0.001) i p)
          as [p' [Hp' _]]. eexists; exact Hp'. }
      exists (withParticles s psL), (withParticles s psP).
      unfold SrcLib.update, Part001.update. rewrite Hmode.
      unfold SrcLib.updateNeedleSwarm, Part001.updateNeedleSwarm. cbv zeta.
      rewrite Hhc, HpsL, HpsP. cbn [bind].
      split; [reflexivity|]. split; [reflexivity|].
      split; [apply (forEachParticle_nth _ _ _ HpsL) | apply (forEachParticle_nth _ _ _ HpsP)].
    + assert (Hne : handControls s <> []) by (rewrite Hhc; discriminate).
      destruct (swarm_tick_hands s now deltaTime Hne) as [psL [psP [HL [HP Hall]]]].
      exists (withParticles s psL), (withParticles s psP).
      unfold SrcLib.update, Part001.update. rewrite Hmode, HL, HP. cbn [bind].
      split; [reflexivity|]. split; [reflexivity|].
      unfold SrcLib.updateNeedleSwarm, Part001.updateNeedleSwarm in HL, HP. cbv zeta in HL, HP.
      rewrite Hhc in HL, HP.
      destruct (SrcLib.swarmSphereRadius _) as [radius|]; [|discriminate]. cbn [bind] in HL.
      destruct (mapM _ (particles s)) as [ps1|] eqn:Hps1; [|discriminate]. cbn [bind] in HL, HP.
      destruct (mapM_nth _ _ _ Hps1) as [Hl1 _].
      destruct (forEachParticle_nth _ _ _ HL) as [HlL _].
      destruct (forEachParticle_nth _ _ _ HP) as [HlP _].
      simpl. split; congruence.
Qed.

(** * Further properties *)

(** ** The particle store: construction and shape *)

Lemma square_nonneg (a : R) : 0 <= a * a.
Proof. apply Rle_0_sqr. Qed.

Lemma applyBoundaries_fields (params : ParticleSystemConfig) (q : Particle) :
  groupIndex (applyBoundaries params q) = groupIndex q
  /\ direction (applyBoundaries params q) = direction q
  /\ assignedCenterIndex (applyBoundaries params q) = assignedCenterIndex q
  /\ targetPosition (applyBoundaries params q) = targetPosition q.
Proof.
  unfold applyBoundaries. cbv zeta.
  destruct (applyAxis _ (x _) _), (applyAxis _ (y _) _), (applyAxis _ (z _) _).
  repeat split.
Qed.

Lemma assignCenter_fields (centers : list Vector3) (p p1 : Particle) :
  assignCenter centers p = Some p1 ->
  groupIndex p1 = groupIndex p /\ direction p1 = direction p
  /\ position p1 = position p /\ velocity p1 = velocity p
  /\ targetPosition p1 = targetPosition p.
Proof.
  unfold assignCenter, assignNearest. intros H.
  destruct (assignedCenterIndex p) as [k|].
  - destruct (List.length centers <=? k)%nat.
    + destruct (nearestFrom _ _ _ _ _); [|discriminate]. injection H as <-. repeat split.
    + destruct (nth_error centers k); [|discriminate]. cbn [bind] in H.
      destruct (distanceTo _ _); [|discriminate]. cbn [bind] in H.
      destruct (reassignFrom _ _ _ _ _) as [[j|]|]; [| |discriminate];
        injection H as <-; repeat split.
  - destruct (nearestFrom _ _ _ _ _); [|discriminate]. injection H as <-. repeat split.
Qed.

Lemma SrcLib_swarmFollowParticle_fields (centers : list Vector3)
    (sphereRadius deltaTime time : R) (i : nat) (p p' : Particle) :
  SrcLib.swarmFollowParticle centers sphereRadius deltaTime time i p = Some p' ->
  groupIndex p' = groupIndex p /\ direction p' = direction p
  /\ assignedCenterIndex p' = assignedCenterIndex p
  /\ targetPosition p' <> None.
Proof.
  unfold SrcLib.swarmFollowParticle. cbv zeta. intros H.
  destruct (nth_error centers _) as [c|]; [|discriminate]. cbn [bind] in H.
  rewrite length_Some in H. cbn [bind] in H.
  destruct (SrcLib.gravitationalForce _ _ _) as [g|]; [|discriminate]. cbn [bind] in H.
  rewrite radialDirection_Some in H. cbn [bind] in H.
  repeat first [ rewrite length_Some in H | rewrite normalize_Some in H
               | rewrite swimDirection_Some in H | progress cbn [bind] in H ].
  repeat match type of H with
         | context [if ?c then _ else _] => destruct c
         | _ => first [ rewrite length_Some in H | rewrite normalize_Some in H
                      | rewrite swimDirection_Some in H | progress cbn [bind] in H ]
         end;
    injection H as <-; repeat split; discriminate.
Qed.

Lemma integrate_fields (params : ParticleSystemConfig) (p : Particle) (f : Vector3) :
  groupIndex (integrate params p f) = groupIndex p
  /\ direction (integrate params p f) = direction p
  /\ assignedCenterIndex (integrate params p f) = assignedCenterIndex p
  /\ targetPosition (integrate params p f) = targetPosition p.
Proof. repeat split. Qed.

(** What a tick of [src/lib/optimized-particle-system.ts] leaves alone. *)
Lemma SrcLib_update_shape (s s' : OptimizedParticleSystem) (deltaTime now : R)
    (rnd : nat -> R) :
  SrcLib.update deltaTime now rnd s = Some s' ->
  params s' = params s /\ handControls s' = handControls s
  /\ List.length (particles s') = List.length (particles s)
  /\ forall i p, nth_error (particles s) i = Some p ->
       exists p', nth_error (particles s') i = Some p'
                  /\ groupIndex p' = groupIndex p /\ direction p' = direction p.
Proof.
  intros H. unfold SrcLib.update in H.
  assert (Hforces : forall ps,
            updateForces (params s) (handControls s) rnd (particles s) = Some ps ->
            List.length ps = List.length (particles s)
            /\ forall i p, nth_error (particles s) i = Some p ->
                 exists p', nth_error ps i = Some p'
                            /\ groupIndex p' = groupIndex p /\ direction p' = direction p).
  { intros ps Hps. destruct (updateLoop_spec _ _ _ _ Hps) as [Hlen Hnth].
    split; [exact Hlen|]. intros i p Hp. destruct (Hnth i p Hp) as [f [_ Hres]].
    eexists. split; [exact Hres|].
    destruct (applyBoundaries_fields (params s) (integrate (params s) p f)) as [Hg [Hd _]].
    rewrite Hg, Hd. split; reflexivity. }
  destruct (behavior (params s)) eqn:Hmode.
  - destruct (updateForces _ _ _ _) as [ps|] eqn:Hps; [|discriminate]. injection H as <-.
    destruct (Hforces ps eq_refl) as [Hlen Hnth]. repeat split; assumption.
  - destruct (updateForces _ _ _ _) as [ps|] eqn:Hps; [|discriminate]. injection H as <-.
    destruct (Hforces ps eq_refl) as [Hlen Hnth]. repeat split; assumption.
  - destruct (SrcLib.updateNeedleSphere s now deltaTime) as [ps|] eqn:Hps; [|discriminate].
    injection H as <-. unfold SrcLib.updateNeedleSphere in Hps.
    destruct (sphereCenter (handControls s)) as [[center hd]|]; [|discriminate].
    cbn [bind fst snd] in Hps. destruct (forEachParticle_nth _ _ _ Hps) as [Hlen Hnth].
    split; [reflexivity|]. split; [reflexivity|]. split; [exact Hlen|].
    intros i p Hp. destruct (Hnth i p Hp) as [p' [Hp' Hstep]].
    destruct (SrcLib_needleSphereParticle_total (params s) center hd deltaTime (now * 0.001) i p)
      as [q [Hq [Hd [Hg _]]]].
    assert (q = p') by congruence. subst q. exists p'. repeat split; assumption.
  - destruct (SrcLib.updateNeedleSwarm s now deltaTime) as [ps|] eqn:Hps; [|discriminate].
    injection H as <-. unfold SrcLib.updateNeedleSwarm in Hps. cbv zeta in Hps.
    split; [reflexivity|]. split; [reflexivity|].
    destruct (handControls s) as [|c cs].
    + destruct (forEachParticle_nth _ _ _ Hps) as [Hlen Hnth]. split; [exact Hlen|].
      intros i p Hp. destruct (Hnth i p Hp) as [p' [Hp' Hstep]].
      destruct (SrcLib_swarmIdleParticle_total deltaTime (now * 0.001) i p)
        as [q [Hq [Hd [Hg _]]]].
      assert (q = p') by congruence. subst q. exists p'. repeat split; assumption.
    + destruct (SrcLib.swarmSphereRadius _) as [radius|]; [|discriminate]. cbn [bind] in Hps.
      destruct (mapM _ (particles s)) as [ps1|] eqn:Hps1; [|discriminate]. cbn [bind] in Hps.
      destruct (mapM_nth _ _ _ Hps1) as [Hlen1 Hnth1].
      destruct (forEachParticle_nth _ _ _ Hps) as [Hlen Hnth].
      split; [simpl; congruence|].
      intros i p Hp. destruct (Hnth1 i p Hp) as [p1 [Hp1 Hassign]].
      destruct (Hnth i p1 Hp1) as [p' [Hp' Hstep]].
      destruct (assignCenter_fields _ _ _ Hassign) as [Hg1 [Hd1 _]].
      destruct (SrcLib_swarmFollowParticle_fields _ _ _ _ _ _ _ Hstep) as [Hg [Hd _]].
      exists p'. split; [exact Hp'|]. split; congruence.
Qed.

Lemma SrcLib_update_total (s : OptimizedParticleSystem) (deltaTime now : R)
    (rnd : nat -> R) :
  exists s', SrcLib.update deltaTime now rnd s = Some s'.
Proof.
  destruct (behavior (params s)) eqn:Hmode.
  - unfold SrcLib.update. rewrite Hmode.
    destruct (updateForces_total (params s) (handControls s) rnd (particles s)) as [ps Hps].
    rewrite Hps. eexists; reflexivity.
  - unfold SrcLib.update. rewrite Hmode.
    destruct (updateForces_total (params s) (handControls s) rnd (particles s)) as [ps Hps].
    rewrite Hps. eexists; reflexivity.
  - destruct (sphere_updates_total s deltaTime now rnd (or_introl Hmode)) as [sL [_ [H _]]].
    exists sL. exact H.
  - destruct (sphere_updates_total s deltaTime now rnd (or_intror Hmode)) as [sL [_ [H _]]].
    exists sL. exact H.
Qed.

Lemma Part001_update_total (s : OptimizedParticleSystem) (deltaTime now : R)
    (rnd : nat -> R) :
  exists s', Part001.update deltaTime now rnd s = Some s'.
Proof.
  destruct (behavior (params s)) eqn:Hmode.
  - unfold Part001.update. rewrite Hmode.
    destruct (updateForces_total (params s) (handControls s) rnd (particles s)) as [ps Hps].
    rewrite Hps. eexists; reflexivity.
  - unfold Part001.update. rewrite Hmode.
    destruct (updateForces_total (params s) (handControls s) rnd (particles s)) as [ps Hps].
    rewrite Hps. eexists; reflexivity.
  - destruct (sphere_updates_total s deltaTime now rnd (or_introl Hmode)) as [_ [sP [_ [H _]]]].
    exists sP. exact H.
  - destruct (sphere_updates_total s deltaTime now rnd (or_intror Hmode)) as [_ [sP [_ [H _]]]].
    exists sP. exact H.
Qed.

(** X1: the constructor fills the store with [count] particles; with draws
    in [0, 1) and a non-negative boundary every coordinate of a position is
    within the boundary, every component of a velocity within 0.4, the group
    of particle [i] is [i mod 2], no center and no target are assigned, and
    the stored direction is a unit vector, or the zero vector when the three
    draws for it are all exactly 0.5. *)
Theorem construct_fills_store (config : ParticleSystemConfig) (rnd : nat -> R) :
  (forall n, 0 <= rnd n < 1) -> 0 <= boundary config ->
  exists s0,
    construct config rnd = Some s0 /\
    params s0 = config /\ handControls s0 = [] /\
    List.length (particles s0) = count config /\
    forall i p, nth_error (particles s0) i = Some p ->
      groupIndex p = (i mod 2)%nat /\
      assignedCenterIndex p = None /\ targetPosition p = None /\
      (Rabs (x (position p)) <= boundary config
       /\ Rabs (y (position p)) <= boundary config
       /\ Rabs (z (position p)) <= boundary config) /\
      (Rabs (x (velocity p)) <= 0.4 /\ Rabs (y (velocity p)) <= 0.4
       /\ Rabs (z (velocity p)) <= 0.4) /\
      ((rnd (9 * i + 6)%nat = 0.5 /\ rnd (9 * i + 7)%nat = 0.5 /\ rnd (9 * i + 8)%nat = 0.5
        -> direction p = vec3 0 0 0)
       /\ (~ (rnd (9 * i + 6)%nat = 0.5 /\ rnd (9 * i + 7)%nat = 0.5
              /\ rnd (9 * i + 8)%nat = 0.5)
           -> lengthSq (direction p) = 1)).
Proof.
  intros Hr Hb.
  destruct (construct_Some config rnd) as [s0 [Hs0 [Hp0 [Hh0 [Hlen Hnth]]]]].
  exists s0. split; [exact Hs0|]. split; [exact Hp0|]. split; [exact Hh0|].
  split; [exact Hlen|].
  intros i p Hp. specialize (Hnth i p Hp). rewrite initParticle_Some in Hnth.
  remember (9 * i)%nat as k eqn:Hk.
  injection Hnth as <-. cbn [groupIndex assignedCenterIndex targetPosition position velocity
                               direction x y z].
  pose proof (Hr k). pose proof (Hr (k + 1)%nat). pose proof (Hr (k + 2)%nat).
  pose proof (Hr (k + 3)%nat). pose proof (Hr (k + 4)%nat). pose proof (Hr (k + 5)%nat).
  assert (Hpos : forall r, 0 <= r < 1 -> Rabs ((r - 0.5) * boundary config * 2) <= boundary config).
  { intros r Hr0. apply Rabs_le. split; nra. }
  assert (Hvel : forall r, 0 <= r < 1 -> Rabs ((r - 0.5) * 0.8) <= 0.4).
  { intros r Hr0. apply Rabs_le. split; lra. }
  split; [reflexivity|]. split; [reflexivity|]. split; [reflexivity|].
  split; [repeat split; apply Hpos; assumption|].
  split; [repeat split; apply Hvel; assumption|].
  split.
  - intros [H6 [H7 H8]]. rewrite H6, H7, H8. apply normalized_zero.
    unfold lengthSq; simpl. lra.
  - intros Hne. apply lengthSq_normalized. unfold lengthSq; cbn [x y z]. intros Hzero.
    apply Hne.
    pose proof (square_nonneg (rnd (k + 6)%nat - 0.5)) as Ha.
    pose proof (square_nonneg (rnd (k + 7)%nat - 0.5)) as Hb'.
    pose proof (square_nonneg (rnd (k + 8)%nat - 0.5)) as Hc.
    repeat split; nra.
Qed.

(** The constructor theorem at the responsive instance of the repository,
    with every draw equal to 0.25. *)
Lemma construct_fills_store_witness :
  (forall n : nat, 0 <= (fun _ : nat => 0.25) n < 1) /\ 0 <= boundary responsiveConfig /\
  exists s0, construct responsiveConfig (fun _ => 0.25) = Some s0
             /\ List.length (particles s0) = 1000%nat.
Proof.
  assert (Hr : forall n : nat, 0 <= (fun _ : nat => 0.25) n < 1) by (intros n; simpl; lra).
  assert (Hb : 0 <= boundary responsiveConfig) by (simpl; lra).
  split; [exact Hr|]. split; [exact Hb|].
  destruct (construct_fills_store responsiveConfig (fun _ => 0.25) Hr Hb)
    as [s0 [Hs0 [_ [_ [Hlen _]]]]].
  exists s0. split; [exact Hs0 | exact Hlen].
Defined.

Lemma calls_total (update : R -> R -> (nat -> R) -> OptimizedParticleSystem
                            -> option OptimizedParticleSystem) :
  (forall deltaTime now rnd s, exists s', update deltaTime now rnd s = Some s') ->
  forall cs s, exists s', calls update cs s = Some s'.
Proof.
  intros Htotal cs s. unfold calls. apply foldM_total.
  intros s1 [hc | deltaTime now rnd]; simpl; [eexists; reflexivity | apply Htotal].
Qed.

(** X2: whatever sequence of [setHandControls] and [update] calls a client
    makes on a system of [src/lib/optimized-particle-system.ts], in any of
    the four behaviours, every call returns, and the configuration, the
    number of particles, the group of every particle and its stored
    direction are the ones the sequence started with. *)
Theorem SrcLib_calls_keep_store_shape (cs : list Call) (s : OptimizedParticleSystem) :
  exists s',
    calls SrcLib.update cs s = Some s' /\
    params s' = params s /\
    List.length (particles s') = List.length (particles s) /\
    forall i p, nth_error (particles s) i = Some p ->
      exists p', nth_error (particles s') i = Some p'
                 /\ groupIndex p' = groupIndex p /\ direction p' = direction p.
Proof.
  revert s. induction cs as [|c cs IH]; intros s.
  - exists s. split; [reflexivity|]. split; [reflexivity|]. split; [reflexivity|].
    intros i p Hp. exists p. repeat split. exact Hp.
  - assert (Hstep : exists s1, call SrcLib.update s c = Some s1
                               /\ params s1 = params s
                               /\ List.length (particles s1) = List.length (particles s)
                               /\ forall i p, nth_error (particles s) i = Some p ->
                                    exists p', nth_error (particles s1) i = Some p'
                                               /\ groupIndex p' = groupIndex p
                                               /\ direction p' = direction p).
    { destruct c as [hc | deltaTime now rnd]; simpl.
      - eexists. split; [reflexivity|]. split; [reflexivity|]. split; [reflexivity|].
        intros i p Hp. exists p. repeat split. exact Hp.
      - destruct (SrcLib_update_total s deltaTime now rnd) as [s1 Hs1].
        destruct (SrcLib_update_shape _ _ _ _ _ Hs1) as [Hp1 [_ [Hl1 Hn1]]].
        exists s1. repeat split; assumption. }
    destruct Hstep as [s1 [Hs1 [Hp1 [Hl1 Hn1]]]].
    destruct (IH s1) as [s' [Hs' [Hp' [Hl' Hn']]]].
    exists s'. split; [unfold calls in *; simpl; rewrite Hs1; exact Hs'|].
    split; [congruence|]. split; [congruence|].
    intros i p Hp. destruct (Hn1 i p Hp) as [p1 [Hq1 [Hg1 Hd1]]].
    destruct (Hn' i p1 Hq1) as [p' [Hq' [Hg' Hd']]].
    exists p'. split; [exact Hq'|]. split; congruence.
Qed.

(** ** The swarm of [src/unnamed/part_001] *)

(** The shell radius of a particle in the swarm of [src/unnamed/part_001]. *)
Lemma swarm_radius_nonneg (p : Particle) :
  0 <= 12 * (if (groupIndex p =? 0)%nat then 1 else 1.8).
Proof. destruct (groupIndex p =? 0)%nat; lra. Qed.

(** The value returned by the particle step of [updateNeedleSwarm] in
    [src/unnamed/part_001]. *)
Lemma Part001_swarmParticle_Some (center : Vector3) (deltaTime time : R) (i : nat)
    (particle : Particle) :
  let radius := 12 * (if (groupIndex particle =? 0)%nat then 1 else 1.8) in
  let u := radial center particle in
  let surfacePos := add (multiplyScalar u radius) center in
  let position1 :=
    if Rgt_dec (Rabs (norm (sub (position particle) center) - radius)) 0.5
    then lerp (position particle) surfacePos 0.4 else surfacePos in
  let direction1 := if Rgt_dec (lengthSq (sub position1 center)) 0.0001
                    then normalized (sub position1 center)
                    else direction particle in
  let v1 := lerp (sub (velocity particle) (multiplyScalar u (dot (velocity particle) u)))
                 (swimOf u i time 0.5 5.0) (deltaTime * 3.0) in
  let w := sub (add position1 (multiplyScalar v1 deltaTime)) center in
  let n := if Rgt_dec (lengthSq w) 0.0001 then normalized w else normalized direction1 in
  Part001.swarmParticle center deltaTime time i particle
  = Some (withDirection (withMotion particle (add (multiplyScalar n radius) center) v1)
                        direction1).
Proof.
  cbv zeta. unfold Part001.swarmParticle. cbv zeta.
  rewrite length_Some. cbn [bind]. rewrite radialDirection_Some. cbn [bind].
  destruct (Rgt_dec (Rabs _) 0.5) as [H0|H0];
    (destruct (Rgt_dec _ 0.0001) as [H1|H1]; [rewrite normalize_Some|]; cbn [bind];
     rewrite swimDirection_Some; cbn [bind];
     destruct (Rgt_dec _ 0.0001) as [H2|H2]; rewrite normalize_Some; reflexivity).
Qed.

(** The step ends on the shell of the particle, with a velocity that has no
    component along the radial direction it used, and keeps a stored
    direction that is not the zero vector. *)
Lemma Part001_swarmParticle_shell (center : Vector3) (deltaTime time : R) (i : nat)
    (particle : Particle) :
  lengthSq (direction particle) <> 0 ->
  exists p',
    Part001.swarmParticle center deltaTime time i particle = Some p'
    /\ dist (position p') center = 12 * (if (groupIndex p' =? 0)%nat then 1 else 1.8)
    /\ dot (velocity p') (radial center particle) = 0
    /\ groupIndex p' = groupIndex particle
    /\ assignedCenterIndex p' = assignedCenterIndex particle
    /\ lengthSq (direction p') <> 0
    /\ (lengthSq (direction particle) = 1 -> lengthSq (direction p') = 1).
Proof.
  intros Hdir.
  pose proof (Part001_swarmParticle_Some center deltaTime time i particle) as Hstep.
  cbv zeta in Hstep. eexists. split; [exact Hstep|].
  cbn [position velocity direction groupIndex assignedCenterIndex withDirection withMotion].
  split; [|split; [|split; [reflexivity | split; [reflexivity|]]]].
  - apply dist_on_shell; [|apply swarm_radius_nonneg].
    match goal with
    | |- lengthSq (if ?c then _ else _) = 1 => destruct c as [H|H]
    end.
    + apply lengthSq_normalized. lra.
    + apply lengthSq_normalized.
      match goal with
      | |- lengthSq (if ?c then _ else _) <> 0 => destruct c as [H'|H']; [|exact Hdir]
      end.
      rewrite lengthSq_normalized; lra.
  - apply dot_stripped_velocity; [apply lengthSq_radial_cases | apply dot_swimOf].
  - split.
    + match goal with
      | |- lengthSq (if ?c then _ else _) <> 0 => destruct c as [H'|H']; [|exact Hdir]
      end.
      rewrite lengthSq_normalized; lra.
    + intros Hunit.
      match goal with
      | |- lengthSq (if ?c then _ else _) = 1 => destruct c as [H'|H']; [|exact Hunit]
      end.
      apply lengthSq_normalized; lra.
Qed.

(** A swarm tick of [src/unnamed/part_001] runs the particle step on every
    particle, around the origin without hands and around the palm of the
    assigned hand otherwise; the assignment changes no other field. *)
Lemma Part001_swarm_tick (s : OptimizedParticleSystem) (now deltaTime : R) :
  exists ps',
    Part001.updateNeedleSwarm s now deltaTime = Some ps' /\
    List.length ps' = List.length (particles s) /\
    forall i p, nth_error (particles s) i = Some p ->
      exists p1 p' center,
        nth_error ps' i = Some p' /\
        position p1 = position p /\ velocity p1 = velocity p /\
        direction p1 = direction p /\ groupIndex p1 = groupIndex p /\
        Part001.swarmParticle center deltaTime (now * 0.001) i p1 = Some p' /\
        match handControls s with
        | [] => center = vec3 0 0 0
        | _ => exists k, assignedCenterIndex p1 = Some k
                         /\ nth_error (map palmVector (handControls s)) k = Some center
        end.
Proof.
  destruct (handControls s) as [|c cs] eqn:Hhc.
  - destruct (forEachParticle_total
                (Part001.swarmParticle (vec3 0 0 0) deltaTime (now * 0.001)) (particles s))
      as [ps' Hps'].
    { intros i p _.
      destruct (Part001_swarmParticle_total (vec3 0 0 0) deltaTime (now * 0.001) i p)
        as [p' [Hp' _]]. eexists; exact Hp'. }
    exists ps'. destruct (forEachParticle_nth _ _ _ Hps') as [Hlen Hnth].
    split; [unfold Part001.updateNeedleSwarm; cbv zeta; rewrite Hhc; exact Hps'|].
    split; [exact Hlen|].
    intros i p Hp. destruct (Hnth i p Hp) as [p' [Hp' Hstep]].
    exists p, p', (vec3 0 0 0). repeat split; assumption.
  - assert (Hne : handControls s <> []) by (rewrite Hhc; discriminate).
    destruct (swarm_tick_hands s now deltaTime Hne) as [psL [psP [_ [HP Hall]]]].
    exists psP. split; [exact HP|].
    unfold Part001.updateNeedleSwarm in HP. cbv zeta in HP. rewrite Hhc in HP.
    rewrite <- Hhc in HP.
    destruct (mapM _ (particles s)) as [ps1|] eqn:Hps1; [|discriminate]. cbn [bind] in HP.
    destruct (mapM_nth _ _ _ Hps1) as [Hlen1 Hnth1].
    destruct (forEachParticle_nth _ _ _ HP) as [Hlen Hnth].
    split; [congruence|].
    intros i p Hp. destruct (Hnth1 i p Hp) as [p1 [Hp1 Hassign]].
    destruct (Hnth i p1 Hp1) as [p' [Hp' Hstep]].
    destruct (assignCenter_fields _ _ _ Hassign) as [Hg [Hd [Hpos [Hvel _]]]].
    unfold Part001.swarmFollowParticle in Hstep.
    destruct (Hall i p Hp) as [_ [_ [k' [_ [_ [_ [_ [Hk' Hassign']]]]]]]].
    assert (Hp1eq : p1 = withAssignedCenterIndex p k') by congruence.
    assert (Hk1 : assignedCenterIndex p1 = Some k') by (rewrite Hp1eq; reflexivity).
    rewrite Hk1 in Hstep.
    destruct (nth_error (map palmVector (handControls s)) k') as [center|] eqn:Hc;
      [|discriminate].
    cbn [bind] in Hstep.
    exists p1, p', center. rewrite <- Hhc.
    repeat split; try assumption.
    destruct (handControls s); [contradiction|].
    exists k'. split; [exact Hk1 | exact Hc].
Qed.

Lemma radial_same (center : Vector3) (p q : Particle) :
  position q = position p -> direction q = direction p ->
  radial center q = radial center p.
Proof. intros Hp Hd. unfold radial. rewrite Hp, Hd. reflexivity. Qed.

(** X3: a swarm tick of [src/unnamed/part_001] returns and leaves every
    particle exactly on its shell: at distance 12 (group 0) or 12 * 1.8 (the
    other group) from the origin when there are no hands, and from the palm
    of the hand it is assigned to otherwise, whatever its position before,
    the elapsed time and the clock; the stored direction stays different
    from the zero vector, which is all the tick assumes. *)
Theorem Part001_swarm_tick_on_shell (s : OptimizedParticleSystem) (deltaTime now : R)
    (rnd : nat -> R) :
  behavior (params s) = needleSwarm ->
  (forall i p, nth_error (particles s) i = Some p -> lengthSq (direction p) <> 0) ->
  exists s',
    Part001.update deltaTime now rnd s = Some s' /\
    List.length (particles s') = List.length (particles s) /\
    forall i p, nth_error (particles s) i = Some p ->
      exists p' center,
        nth_error (particles s') i = Some p' /\
        match handControls s with
        | [] => center = vec3 0 0 0
        | _ => exists k, assignedCenterIndex p' = Some k
                         /\ nth_error (map palm (handControls s)) k = Some center
        end /\
        groupIndex p' = groupIndex p /\
        dist (position p') center = 12 * (if (groupIndex p =? 0)%nat then 1 else 1.8) /\
        lengthSq (direction p') <> 0.
Proof.
  intros Hmode Hdir.
  destruct (Part001_swarm_tick s now deltaTime) as [ps' [Hps' [Hlen Hall]]].
  exists (withParticles s ps'). split; [|split; [exact Hlen|]].
  - unfold Part001.update. rewrite Hmode, Hps'. reflexivity.
  - intros i p Hp.
    destruct (Hall i p Hp) as [p1 [p' [center [Hp' [Hpos [Hvel [Hd [Hg [Hstep Hc]]]]]]]]].
    destruct (Part001_swarmParticle_shell center deltaTime (now * 0.001) i p1)
      as [q [Hq [Hdist [_ [Hgq [Haq [Hdq _]]]]]]].
    { rewrite Hd. apply (Hdir i p Hp). }
    assert (q = p') by congruence. subst q.
    exists p', center. split; [exact Hp'|]. split.
    + destruct (handControls s) as [|c cs]; [exact Hc|].
      destruct Hc as [k [Hk Hck]]. exists k. split; [congruence|].
      rewrite <- Hck. clear. generalize (c :: cs). intros l. revert k.
      induction l as [|h l IH]; intros [|k]; simpl; try reflexivity.
      * destruct h as [[px py pz] f hi]. reflexivity.
      * apply IH.
    + split; [congruence|]. split; [|exact Hdq].
      rewrite Hdist. rewrite Hgq, Hg. reflexivity.
Qed.

Lemma swarmNeedle_directions :
  forall i p, nth_error (particles swarmNeedle) i = Some p -> lengthSq (direction p) <> 0.
Proof.
  intros [|[|i]] p Hp; simpl in Hp; try discriminate.
  injection Hp as <-. unfold lengthSq; simpl. lra.
Qed.

(** The shell theorem at a needle of the swarm instance with one hand. *)
Lemma Part001_swarm_tick_on_shell_witness :
  behavior (params swarmNeedle) = needleSwarm /\
  (forall i p, nth_error (particles swarmNeedle) i = Some p -> lengthSq (direction p) <> 0) /\
  exists s', Part001.update (1 / 60) 0 (fun _ => 0.5) swarmNeedle = Some s'
             /\ List.length (particles s') = 1%nat.
Proof.
  split; [reflexivity|]. split; [exact swarmNeedle_directions|].
  destruct (Part001_swarm_tick_on_shell swarmNeedle (1 / 60) 0 (fun _ => 0.5) eq_refl
              swarmNeedle_directions) as [s' [Hs' [Hlen _]]].
  exists s'. split; [exact Hs' | exact Hlen].
Defined.

(** X4: after a swarm tick of [src/unnamed/part_001] the velocity of every
    particle has no component along the radial direction the tick used for
    it: the unit vector from its center (the origin without hands, the palm
    of its assigned hand otherwise) to the position it had when the tick
    began, or its stored direction within 0.01 of that center. *)
Theorem Part001_swarm_velocity_tangent (s : OptimizedParticleSystem) (deltaTime now : R)
    (rnd : nat -> R) :
  behavior (params s) = needleSwarm ->
  exists s',
    Part001.update deltaTime now rnd s = Some s' /\
    forall i p, nth_error (particles s) i = Some p ->
      exists p' center,
        nth_error (particles s') i = Some p' /\
        match handControls s with
        | [] => center = vec3 0 0 0
        | _ => exists k, assignedCenterIndex p' = Some k
                         /\ nth_error (map palmVector (handControls s)) k = Some center
        end /\
        radialDirection center p = Some (radial center p) /\
        (lengthSq (radial center p) = 1 \/ radial center p = vec3 0 0 0) /\
        dot (velocity p') (radial center p) = 0.
Proof.
  intros Hmode.
  destruct (Part001_swarm_tick s now deltaTime) as [ps' [Hps' [Hlen Hall]]].
  exists (withParticles s ps'). split.
  - unfold Part001.update. rewrite Hmode, Hps'. reflexivity.
  - intros i p Hp.
    destruct (Hall i p Hp) as [p1 [p' [center [Hp' [Hpos [Hvel [Hd [Hg [Hstep Hc]]]]]]]]].
    pose proof (Part001_swarmParticle_Some center deltaTime (now * 0.001) i p1) as Hsome.
    cbv zeta in Hsome. rewrite Hsome in Hstep. injection Hstep as Hp'eq.
    exists p', center. split; [exact Hp'|]. split.
    + destruct (handControls s) as [|c cs]; [exact Hc|].
      destruct Hc as [k [Hk Hck]]. exists k. split; [|exact Hck].
      rewrite <- Hp'eq. exact Hk.
    + split; [apply radialDirection_Some|]. split; [apply lengthSq_radial_cases|].
      rewrite <- Hp'eq. cbn [velocity withDirection withMotion].
      rewrite <- (radial_same center p p1 Hpos Hd).
      apply dot_stripped_velocity; [apply lengthSq_radial_cases | apply dot_swimOf].
Qed.

(** The tangency theorem at a needle of the swarm instance with one hand. *)
Lemma Part001_swarm_velocity_tangent_witness :
  behavior (params swarmNeedle) = needleSwarm /\
  exists s', Part001.update (1 / 60) 0 (fun _ => 0.5) swarmNeedle = Some s'.
Proof.
  split; [reflexivity|].
  destruct (Part001_swarm_velocity_tangent swarmNeedle (1 / 60) 0 (fun _ => 0.5) eq_refl)
    as [s' [Hs' _]].
  exists s'. exact Hs'.
Defined.

(** ** The stored direction in [src/unnamed/part_001] *)

Lemma Part001_needleSphereParticle_direction (params : ParticleSystemConfig)
    (center : Vector3) (handDistance deltaTime time : R) (i : nat) (p p' : Particle) :
  Part001.needleSphereParticle params center handDistance deltaTime time i p = Some p' ->
  groupIndex p' = groupIndex p
  /\ (lengthSq (direction p) <> 0 -> lengthSq (direction p') <> 0)
  /\ (lengthSq (direction p) = 1 -> lengthSq (direction p') = 1).
Proof.
  intros H.
  pose proof (Part001_needleSphereParticle_Some params center handDistance deltaTime time i p)
    as Hsome.
  cbv zeta in Hsome. rewrite Hsome in H. injection H as <-.
  cbn [groupIndex direction withDirection withMotion].
  split; [reflexivity|]. split; intros Hd.
  - match goal with
    | |- lengthSq (if ?c then _ else _) <> 0 => destruct c as [H'|H']; [|exact Hd]
    end.
    rewrite lengthSq_normalized; lra.
  - match goal with
    | |- lengthSq (if ?c then _ else _) = 1 => destruct c as [H'|H']; [|exact Hd]
    end.
    apply lengthSq_normalized; lra.
Qed.

Lemma Part001_swarmParticle_direction (center : Vector3) (deltaTime time : R) (i : nat)
    (p p' : Particle) :
  Part001.swarmParticle center deltaTime time i p = Some p' ->
  groupIndex p' = groupIndex p
  /\ (lengthSq (direction p) <> 0 -> lengthSq (direction p') <> 0)
  /\ (lengthSq (direction p) = 1 -> lengthSq (direction p') = 1).
Proof.
  intros H.
  pose proof (Part001_swarmParticle_Some center deltaTime time i p) as Hsome.
  cbv zeta in Hsome. rewrite Hsome in H. injection H as <-.
  cbn [groupIndex direction withDirection withMotion].
  split; [reflexivity|]. split; intros Hd.
  - match goal with
    | |- lengthSq (if ?c then _ else _) <> 0 => destruct c as [H'|H']; [|exact Hd]
    end.
    rewrite lengthSq_normalized; lra.
  - match goal with
    | |- lengthSq (if ?c then _ else _) = 1 => destruct c as [H'|H']; [|exact Hd]
    end.
    apply lengthSq_normalized; lra.
Qed.

(** What a tick of [src/unnamed/part_001] leaves alone. *)
Lemma Part001_update_shape (s s' : OptimizedParticleSystem) (deltaTime now : R)
    (rnd : nat -> R) :
  Part001.update deltaTime now rnd s = Some s' ->
  params s' = params s /\ handControls s' = handControls s
  /\ List.length (particles s') = List.length (particles s)
  /\ forall i p, nth_error (particles s) i = Some p ->
       exists p', nth_error (particles s') i = Some p'
                  /\ groupIndex p' = groupIndex p
                  /\ (lengthSq (direction p) <> 0 -> lengthSq (direction p') <> 0)
                  /\ (lengthSq (direction p) = 1 -> lengthSq (direction p') = 1).
Proof.
  intros H. unfold Part001.update in H.
  assert (Hforces : forall ps,
            updateForces (params s) (handControls s) rnd (particles s) = Some ps ->
            List.length ps = List.length (particles s)
            /\ forall i p, nth_error (particles s) i = Some p ->
                 exists p', nth_error ps i = Some p'
                            /\ groupIndex p' = groupIndex p
                            /\ (lengthSq (direction p) <> 0 -> lengthSq (direction p') <> 0)
                            /\ (lengthSq (direction p) = 1 -> lengthSq (direction p') = 1)).
  { intros ps Hps. destruct (updateLoop_spec _ _ _ _ Hps) as [Hlen Hnth].
    split; [exact Hlen|]. intros i p Hp. destruct (Hnth i p Hp) as [f [_ Hres]].
    eexists. split; [exact Hres|].
    destruct (applyBoundaries_fields (params s) (integrate (params s) p f)) as [Hg [Hd _]].
    rewrite Hg, Hd. repeat split; intros Hx; exact Hx. }
  destruct (behavior (params s)) eqn:Hmode.
  - destruct (updateForces _ _ _ _) as [ps|] eqn:Hps; [|discriminate]. injection H as <-.
    destruct (Hforces ps eq_refl) as [Hlen Hnth]. repeat split; assumption.
  - destruct (updateForces _ _ _ _) as [ps|] eqn:Hps; [|discriminate]. injection H as <-.
    destruct (Hforces ps eq_refl) as [Hlen Hnth]. repeat split; assumption.
  - destruct (Part001.updateNeedleSphere s now deltaTime) as [ps|] eqn:Hps; [|discriminate].
    injection H as <-. unfold Part001.updateNeedleSphere in Hps.
    destruct (sphereCenter (handControls s)) as [[center hd]|]; [|discriminate].
    cbn [bind fst snd] in Hps. destruct (forEachParticle_nth _ _ _ Hps) as [Hlen Hnth].
    split; [reflexivity|]. split; [reflexivity|]. split; [exact Hlen|].
    intros i p Hp. destruct (Hnth i p Hp) as [p' [Hp' Hstep]].
    exists p'. split; [exact Hp'|].
    apply (Part001_needleSphereParticle_direction _ _ _ _ _ _ _ _ Hstep).
  - destruct (Part001.updateNeedleSwarm s now deltaTime) as [ps|] eqn:Hps; [|discriminate].
    injection H as <-.
    split; [reflexivity|]. split; [reflexivity|].
    destruct (Part001_swarm_tick s now deltaTime) as [ps' [Hps' [Hlen Hall]]].
    assert (ps' = ps) by congruence. subst ps'.
    split; [exact Hlen|].
    intros i p Hp.
    destruct (Hall i p Hp) as [p1 [p' [center [Hp' [_ [_ [Hd [Hg [Hstep _]]]]]]]]].
    exists p'. split; [exact Hp'|].
    destruct (Part001_swarmParticle_direction _ _ _ _ _ _ Hstep) as [Hg' [Hnz Hunit]].
    rewrite Hd in Hnz, Hunit. split; [congruence|]. split; assumption.
Qed.

(** X5: whatever sequence of [setHandControls] and [update] calls a client
    makes on a system of [src/unnamed/part_001], in any of the four
    behaviours, every call returns, the configuration, the number of
    particles and the group of every particle stay what they were, and a
    stored direction that is a unit vector is a unit vector again after the
    sequence, although the needle behaviours overwrite it on every tick. *)
Theorem Part001_calls_keep_unit_directions (cs : list Call) (s : OptimizedParticleSystem) :
  exists s',
    calls Part001.update cs s = Some s' /\
    params s' = params s /\
    List.length (particles s') = List.length (particles s) /\
    forall i p, nth_error (particles s) i = Some p ->
      exists p', nth_error (particles s') i = Some p'
                 /\ groupIndex p' = groupIndex p
                 /\ (lengthSq (direction p) = 1 -> lengthSq (direction p') = 1).
Proof.
  revert s. induction cs as [|c cs IH]; intros s.
  - exists s. split; [reflexivity|]. split; [reflexivity|]. split; [reflexivity|].
    intros i p Hp. exists p. repeat split; [exact Hp | intros H; exact H].
  - assert (Hstep : exists s1, call Part001.update s c = Some s1
                               /\ params s1 = params s
                               /\ List.length (particles s1) = List.length (particles s)
                               /\ forall i p, nth_error (particles s) i = Some p ->
                                    exists p', nth_error (particles s1) i = Some p'
                                               /\ groupIndex p' = groupIndex p
                                               /\ (lengthSq (direction p) = 1 ->
                                                   lengthSq (direction p') = 1)).
    { destruct c as [hc | deltaTime now rnd]; simpl.
      - eexists. split; [reflexivity|]. split; [reflexivity|]. split; [reflexivity|].
        intros i p Hp. exists p. repeat split; [exact Hp | intros H; exact H].
      - destruct (Part001_update_total s deltaTime now rnd) as [s1 Hs1].
        destruct (Part001_update_shape _ _ _ _ _ Hs1) as [Hp1 [_ [Hl1 Hn1]]].
        exists s1. split; [exact Hs1|]. split; [exact Hp1|]. split; [exact Hl1|].
        intros i p Hp. destruct (Hn1 i p Hp) as [p' [Hq [Hg [_ Hu]]]].
        exists p'. repeat split; assumption. }
    destruct Hstep as [s1 [Hs1 [Hp1 [Hl1 Hn1]]]].
    destruct (IH s1) as [s' [Hs' [Hp' [Hl' Hn']]]].
    exists s'. split; [unfold calls in *; simpl; rewrite Hs1; exact Hs'|].
    split; [congruence|]. split; [congruence|].
    intros i p Hp. destruct (Hn1 i p Hp) as [p1 [Hq1 [Hg1 Hd1]]].
    destruct (Hn' i p1 Hq1) as [p' [Hq' [Hg' Hd']]].
    exists p'. split; [exact Hq'|]. split; [congruence|]. intros Hu. apply Hd', Hd1, Hu.
Qed.

(** ** The swarm of [src/lib/optimized-particle-system.ts] *)

(** X6: the sphere radius of the swarm with hands.  One hand gives 12.  Two
    hands at distance [d] (further hands are not read) give 6 up to
    [d = 200/11], then [0.33 * d] up to [d = 75], then [6 + 0.25 * d]; the
    radius is never below 6, the inner shells around the two palms are
    disjoint exactly when the palms are more than 12 apart, and the outer
    shells (1.8 times the radius) exactly when they are more than 216
    apart. *)
Theorem swarm_sphere_radius_by_hand_distance :
  (forall c0 : Vector3, SrcLib.swarmSphereRadius [c0] = Some 12)
  /\ (forall (c0 c1 : Vector3) (rest : list Vector3),
        let d := dist c0 c1 in
        exists radius,
          SrcLib.swarmSphereRadius (c0 :: c1 :: rest) = Some radius
          /\ (d <= 200 / 11 -> radius = 6)
          /\ (200 / 11 <= d <= 75 -> radius = 0.33 * d)
          /\ (75 <= d -> radius = 6 + 0.25 * d)
          /\ 6 <= radius
          /\ (2 * radius < d <-> 12 < d)
          /\ (2 * (radius * 1.8) < d <-> 216 < d)).
Proof.
  split; [reflexivity|].
  intros c0 c1 rest d. unfold SrcLib.swarmSphereRadius.
  rewrite distanceTo_Some. cbn [bind]. fold d. cbv zeta.
  eexists. split; [reflexivity|].
  pose proof (dist_nonneg c0 c1) as Hd. fold d in Hd.
  unfold Rmax, Rmin.
  destruct (Rle_dec (6 + d * 0.25) (d * 0.33)) as [H1|H1];
    match goal with
    | |- context [Rle_dec 6 ?a] => destruct (Rle_dec 6 a) as [H2|H2]
    end;
    repeat split; intros; lra.
Qed.

(** The gravitational pull, as a signed strength along the unit vector
    toward the center. *)
Lemma SrcLib_gravitationalForce_Some (toCenter : Vector3) (targetRadius : R) :
  let d := norm toCenter in
  let strength :=
    if Rgt_dec d 0.01 then
      if Rgt_dec d targetRadius then 37.5 * (1 - targetRadius / d)
      else if Rlt_dec d (targetRadius * 0.3)
           then - (12.5 * (1 - d / (targetRadius * 0.3)))
           else 7.5 * (1 - (d - targetRadius * 0.3) / (targetRadius - targetRadius * 0.3))
    else 0 in
  0 < targetRadius ->
  SrcLib.gravitationalForce toCenter d targetRadius
  = Some (multiplyScalar (normalized toCenter) strength).
Proof.
  cbv zeta. intros HR. unfold SrcLib.gravitationalForce. cbv zeta.
  destruct (Rgt_dec (norm toCenter) 0.01) as [H1|H1].
  - rewrite normalize_Some. cbn [bind].
    destruct (Rgt_dec (norm toCenter) targetRadius) as [H2|H2].
    + rewrite jsdiv_nonzero by (apply Rmax_pos_l; lra). cbn [bind].
      rewrite Rmax_left by lra. do 2 f_equal. lra.
    + destruct (Rlt_dec (norm toCenter) (targetRadius * 0.3)) as [H3|H3].
      * rewrite jsdiv_nonzero by lra. cbn [bind]. do 2 f_equal. lra.
      * rewrite jsdiv_nonzero by lra. cbn [bind]. do 2 f_equal. lra.
  - f_equal. apply vec3_ext; simpl; ring.
Qed.

Lemma div_lt_one (a b : R) : 0 < b -> a < b -> a / b < 1.
Proof.
  intros Hb Hab. apply Rmult_lt_reg_r with b; [exact Hb|].
  unfold Rdiv. rewrite Rmult_assoc, Rinv_l by lra. lra.
Qed.

Lemma div_le_one (a b : R) : 0 < b -> a <= b -> a / b <= 1.
Proof.
  intros Hb Hab. apply Rmult_le_reg_r with b; [exact Hb|].
  unfold Rdiv. rewrite Rmult_assoc, Rinv_l by lra. lra.
Qed.

Lemma div_pos (a b : R) : 0 < a -> 0 < b -> 0 < a / b.
Proof. intros Ha Hb. apply Rdiv_lt_0_compat; assumption. Qed.

Lemma dot_normalized_self (v : Vector3) : dot (normalized v) v = norm v.
Proof.
  rewrite dot_normalized_l, dot_self, <- norm_sq. unfold orElse.
  destruct (Req_dec_T (norm v) 0) as [H0|H0]; [rewrite H0; ring | field; exact H0].
Qed.

(** X7: the gravitational pull of the swarm with hands, for a positive shell
    radius: it is the unit vector toward the center times a signed
    strength.  Within 0.01 of the center it is zero; beyond the shell it
    pulls with [37.5 * (1 - radius / d)], less than 37.5; inside the core
    (below 0.3 of the radius) it pushes away with
    [12.5 * (1 - d / (0.3 * radius))], less than 12.5; between core and shell
    it still pulls toward the center, with [7.5 * (radius - d) / (0.7 *
    radius)], which vanishes on the shell and reaches 7.5 at the core. *)
Theorem gravitational_force_zones (toCenter : Vector3) (targetRadius : R) :
  0 < targetRadius ->
  let d := norm toCenter in
  exists force strength,
    SrcLib.gravitationalForce toCenter d targetRadius = Some force /\
    force = multiplyScalar (normalized toCenter) strength /\
    dot force toCenter = strength * d /\
    (d <= 0.01 -> force = vec3 0 0 0) /\
    (0.01 < d -> targetRadius < d ->
     strength = 37.5 * (1 - targetRadius / d) /\ 0 < strength < 37.5) /\
    (0.01 < d -> d < 0.3 * targetRadius ->
     strength = - (12.5 * (1 - d / (0.3 * targetRadius))) /\ -12.5 < strength < 0) /\
    (0.01 < d -> 0.3 * targetRadius <= d <= targetRadius ->
     strength = 7.5 * (targetRadius - d) / (0.7 * targetRadius) /\ 0 <= strength <= 7.5).
Proof.
  intros HR d.
  pose proof (SrcLib_gravitationalForce_Some toCenter targetRadius) as Hsome.
  cbv zeta in Hsome. specialize (Hsome HR). fold d in Hsome.
  eexists. eexists. split; [exact Hsome|]. split; [reflexivity|].
  split; [rewrite dot_multiplyScalar_l, dot_normalized_self; reflexivity|].
  destruct (Rgt_dec d 0.01) as [H1|H1].
  - split; [intros; lra|].
    destruct (Rgt_dec d targetRadius) as [H2|H2].
    + split; [|split; intros; lra].
      intros _ _. split; [reflexivity|].
      assert (0 < targetRadius / d) by (apply div_pos; lra).
      assert (targetRadius / d < 1) by (apply div_lt_one; lra).
      lra.
    + split; [intros; lra|].
      destruct (Rlt_dec d (targetRadius * 0.3)) as [H3|H3].
      * split; [|intros; lra].
        intros _ _.
        assert (0 < d / (targetRadius * 0.3)) by (apply div_pos; lra).
        assert (d / (targetRadius * 0.3) < 1) by (apply div_lt_one; lra).
        split; [|lra]. replace (0.3 * targetRadius) with (targetRadius * 0.3) by ring.
        reflexivity.
      * split; [intros; lra|].
        intros _ _.
        assert (Heq : 7.5 * (1 - (d - targetRadius * 0.3) / (targetRadius - targetRadius * 0.3))
                      = 7.5 * (targetRadius - d) / (0.7 * targetRadius)).
        { replace (targetRadius - targetRadius * 0.3) with (0.7 * targetRadius) by lra.
          unfold Rdiv.
          assert (HI : 0.7 * targetRadius * / (0.7 * targetRadius) = 1)
            by (apply Rinv_r; lra).
          set (I := / (0.7 * targetRadius)) in *. nra. }
        rewrite Heq. split; [reflexivity|].
        assert (Hq : (targetRadius - d) / (0.7 * targetRadius) <= 1)
          by (apply div_le_one; lra).
        assert (Hq0 : 0 <= (targetRadius - d) / (0.7 * targetRadius)).
        { unfold Rdiv. apply Rmult_le_pos; [lra|].
          left. apply Rinv_0_lt_compat. lra. }
        unfold Rdiv in *. split; nra.
  - split; [|split; [|split]]; intros; try lra.
    apply vec3_ext; simpl; ring.
Qed.

(** The force theorem in the three zones of a shell of radius 12. *)
Lemma gravitational_force_zones_witness :
  0 < 12 /\
  exists force strength,
    SrcLib.gravitationalForce (vec3 24 0 0) (norm (vec3 24 0 0)) 12 = Some force /\
    force = multiplyScalar (normalized (vec3 24 0 0)) strength.
Proof.
  assert (H12 : 0 < 12) by lra.
  split; [exact H12|].
  destruct (gravitational_force_zones (vec3 24 0 0) 12 H12) as [force [strength [H1 [H2 _]]]].
  exists force, strength. split; assumption.
Defined.

Lemma norm_le_of_lengthSq (v : Vector3) (m : R) :
  0 <= m -> lengthSq v <= m * m -> norm v <= m.
Proof.
  intros Hm H. unfold norm. rewrite <- (sqrt_square m Hm).
  apply sqrt_le_1; [apply lengthSq_nonneg | nra | exact H].
Qed.

Lemma lengthSq_le_of_norm (v : Vector3) (m : R) :
  0 <= m -> norm v <= m -> lengthSq v <= m * m.
Proof.
  intros Hm H. rewrite <- norm_sq. pose proof (norm_nonneg v). nra.
Qed.

(** The value returned by the particle step of the swarm with hands in
    [src/lib/optimized-particle-system.ts], given the center the particle is
    assigned to and the gravitational pull toward it. *)
Lemma SrcLib_swarmFollowParticle_Some (centers : list Vector3)
    (sphereRadius deltaTime time : R) (i : nat) (p : Particle) (center g : Vector3) :
  let radius := sphereRadius * (if (groupIndex p =? 0)%nat then 1 else 1.8) in
  let v1 := add (velocity p) (multiplyScalar g deltaTime) in
  let targetPos := add (multiplyScalar (radial center p) radius) center in
  let target1 := match targetPosition p with
                 | None => targetPos
                 | Some t => lerp t targetPos 0.3
                 end in
  let position2 := lerp (add (position p) (multiplyScalar v1 deltaTime)) target1 (0.3 * 1.5) in
  let position3 :=
    if Rgt_dec (lengthSq (sub position2 center)) 0.01 then
      if Rgt_dec (Rabs (norm (sub position2 center) - radius)) 2.0
      then lerp position2
                (add (multiplyScalar (normalized (sub position2 center)) radius) center) 0.1
      else position2
    else position2 in
  let v2 := lerp v1 (swimOf (normalized (sub position3 center)) i time 0.5 8.0)
                 (deltaTime * 4.0) in
  let v3 := multiplyScalar v2 0.96 in
  let v4 := if Rgt_dec (norm v3) 25.0 then multiplyScalar (normalized v3) 25.0 else v3 in
  let position4 := add position3 (multiplyScalar v4 deltaTime) in
  let pt :=
    if Rgt_dec (lengthSq (sub position4 center)) 0.01 then
      if Rgt_dec (Rabs (norm (sub position4 center) - radius)) 0.5
      then (lerp position4
                 (add (multiplyScalar (normalized (sub position4 center)) radius) center) 0.2,
            lerp position4
                 (add (multiplyScalar (normalized (sub position4 center)) radius) center) 0.2)
      else (position4, target1)
    else (position4, target1) in
  nth_error centers (match assignedCenterIndex p with Some k => k | None => 0%nat end)
  = Some center ->
  SrcLib.gravitationalForce (sub center (position p)) (norm (sub center (position p))) radius
  = Some g ->
  SrcLib.swarmFollowParticle centers sphereRadius deltaTime time i p
  = Some (withTargetPosition (withMotion p (fst pt) v4) (snd pt)).
Proof.
  cbv zeta. intros Hc Hg. unfold SrcLib.swarmFollowParticle. cbv zeta.
  rewrite Hc. cbn [bind]. rewrite length_Some. cbn [bind]. rewrite Hg. cbn [bind].
  step_eval; reflexivity.
Qed.

(** The speed clamp of the swarm with hands: a successful step leaves a
    velocity of length at most 25. *)
Lemma SrcLib_swarmFollowParticle_speed (centers : list Vector3)
    (sphereRadius deltaTime time : R) (i : nat) (p p' : Particle) :
  SrcLib.swarmFollowParticle centers sphereRadius deltaTime time i p = Some p' ->
  norm (velocity p') <= 25.
Proof.
  intros H.
  destruct (nth_error centers (match assignedCenterIndex p with Some k => k | None => 0%nat end))
    as [center|] eqn:Hc.
  2:{ unfold SrcLib.swarmFollowParticle in H. cbv zeta in H. rewrite Hc in H. discriminate. }
  destruct (SrcLib_gravitationalForce_total (sub center (position p))
              (norm (sub center (position p)))
              (sphereRadius * (if (groupIndex p =? 0)%nat then 1 else 1.8))) as [g Hg].
  pose proof (SrcLib_swarmFollowParticle_Some centers sphereRadius deltaTime time i p center g)
    as Hsome.
  cbv zeta in Hsome. rewrite (Hsome Hc Hg) in H. injection H as <-.
  cbn [velocity withTargetPosition withMotion].
  match goal with
  | |- norm (if Rgt_dec (norm ?v) _ then _ else _) <= _ =>
      destruct (Rgt_dec (norm v) 25.0) as [Hfast|Hslow]; [|lra];
        apply norm_le_of_lengthSq; [lra|];
        rewrite lengthSq_multiplyScalar;
        pose proof (lengthSq_normalized_le v); nra
  end.
Qed.

(** X8: in [src/lib/optimized-particle-system.ts] a swarm tick with at least
    one hand returns and leaves every particle with a speed of at most 25
    and with a target position, whatever the elapsed time and the state
    before. *)
Theorem SrcLib_swarm_speed_limit (s : OptimizedParticleSystem) (deltaTime now : R)
    (rnd : nat -> R) :
  behavior (params s) = needleSwarm -> handControls s <> [] ->
  exists s',
    SrcLib.update deltaTime now rnd s = Some s' /\
    List.length (particles s') = List.length (particles s) /\
    forall i p, nth_error (particles s) i = Some p ->
      exists p', nth_error (particles s') i = Some p'
                 /\ norm (velocity p') <= 25
                 /\ targetPosition p' <> None.
Proof.
  intros Hmode Hhands.
  destruct (swarm_tick_hands s now deltaTime Hhands) as [psL [_ [HL _]]].
  exists (withParticles s psL). split; [unfold SrcLib.update; rewrite Hmode, HL; reflexivity|].
  unfold SrcLib.updateNeedleSwarm in HL. cbv zeta in HL.
  destruct (handControls s) as [|c cs] eqn:Hhc; [contradiction|].
  destruct (SrcLib.swarmSphereRadius _) as [radius|]; [|discriminate]. cbn [bind] in HL.
  destruct (mapM _ (particles s)) as [ps1|] eqn:Hps1; [|discriminate]. cbn [bind] in HL.
  destruct (mapM_nth _ _ _ Hps1) as [Hlen1 Hnth1].
  destruct (forEachParticle_nth _ _ _ HL) as [Hlen Hnth].
  split; [simpl; congruence|].
  intros i p Hp. destruct (Hnth1 i p Hp) as [p1 [Hp1 _]].
  destruct (Hnth i p1 Hp1) as [p' [Hp' Hstep]].
  exists p'. split; [exact Hp'|]. split.
  - apply (SrcLib_swarmFollowParticle_speed _ _ _ _ _ _ _ Hstep).
  - apply (SrcLib_swarmFollowParticle_fields _ _ _ _ _ _ _ Hstep).
Qed.

(** The speed limit at a needle of the swarm instance with one hand. *)
Lemma SrcLib_swarm_speed_limit_witness :
  behavior (params swarmNeedle) = needleSwarm /\ handControls swarmNeedle <> [] /\
  exists s', SrcLib.update (1 / 60) 0 (fun _ => 0.5) swarmNeedle = Some s'
             /\ List.length (particles s') = 1%nat.
Proof.
  assert (Hh : handControls swarmNeedle <> []) by discriminate.
  split; [reflexivity|]. split; [exact Hh|].
  destruct (SrcLib_swarm_speed_limit swarmNeedle (1 / 60) 0 (fun _ => 0.5) eq_refl Hh)
    as [s' [Hs' [Hlen _]]].
  exists s'. split; [exact Hs' | exact Hlen].
Defined.

(** The value returned by the particle step of the idle swarm in
    [src/lib/optimized-particle-system.ts]. *)
Lemma SrcLib_swarmIdleParticle_Some (deltaTime time : R) (i : nat) (particle : Particle) :
  let center := vec3 0 0 0 in
  let radius := 12 * (if (groupIndex particle =? 0)%nat then 1 else 1.8) in
  let u := radial center particle in
  let v1 := lerp (velocity particle) (swimOf u i time 0.5 5.0) (deltaTime * 3.0) in
  let position1 := add (add (multiplyScalar u radius) center) (multiplyScalar v1 deltaTime) in
  let position2 := if Rgt_dec (lengthSq (sub position1 center)) 0.01
                   then add (multiplyScalar (normalized (sub position1 center)) radius) center
                   else position1 in
  SrcLib.swarmIdleParticle deltaTime time i particle = Some (withMotion particle position2 v1).
Proof.
  cbv zeta. unfold SrcLib.swarmIdleParticle. cbv zeta.
  rewrite radialDirection_Some. cbn [bind]. rewrite swimDirection_Some. cbn [bind].
  destruct (Rgt_dec _ 0.01) as [H1|H1]; [rewrite normalize_Some|]; reflexivity.
Qed.

(** With frames of at most a third of a second and a speed of at most 5,
    the step of the idle swarm ends on the shell and keeps the speed within
    5. *)
Lemma SrcLib_swarmIdleParticle_shell_bounded (deltaTime time : R) (i : nat)
    (particle : Particle) :
  lengthSq (direction particle) <> 0 ->
  0 <= deltaTime <= 1 / 3 ->
  lengthSq (velocity particle) <= 5 * 5 ->
  exists p',
    SrcLib.swarmIdleParticle deltaTime time i particle = Some p'
    /\ dist (position p') (vec3 0 0 0)
       = 12 * (if (groupIndex particle =? 0)%nat then 1 else 1.8)
    /\ lengthSq (velocity p') <= 5 * 5
    /\ direction p' = direction particle
    /\ groupIndex p' = groupIndex particle.
Proof.
  intros Hdir Hdt Hv.
  pose proof (SrcLib_swarmIdleParticle_Some deltaTime time i particle) as Hstep.
  cbv zeta in Hstep.
  set (center := vec3 0 0 0) in *.
  set (radius := 12 * (if (groupIndex particle =? 0)%nat then 1 else 1.8)) in *.
  assert (Hr : 12 <= radius) by (unfold radius; destruct (groupIndex particle =? 0)%nat; lra).
  set (u := radial center particle) in *.
  assert (Hu : lengthSq u = 1) by (apply lengthSq_radial, Hdir).
  assert (Hswim : lengthSq (swimOf u i time 0.5 5.0) <= 5 * 5).
  { apply Rle_trans with (5.0 * 5.0); [apply lengthSq_swimOf | lra]. }
  set (v1 := lerp (velocity particle) (swimOf u i time 0.5 5.0) (deltaTime * 3.0)) in *.
  assert (Hv1 : lengthSq v1 <= 5 * 5).
  { apply lengthSq_lerp_le; [lra | lra | exact Hv | exact Hswim]. }
  assert (Huv : - (1 * 5) <= dot u v1 <= 1 * 5).
  { apply dot_bound; [lra | lra | lra | exact Hv1]. }
  set (w := sub (add (add (multiplyScalar u radius) center) (multiplyScalar v1 deltaTime))
                center) in *.
  assert (Hw : lengthSq w = radius * radius * lengthSq u
                            + 2 * radius * deltaTime * dot u v1
                            + deltaTime * deltaTime * lengthSq v1).
  { unfold w, lengthSq, dot, sub, add, multiplyScalar; simpl. ring. }
  pose proof (lengthSq_nonneg v1) as Hv1pos.
  assert (Hfar : lengthSq w > 0.01).
  { rewrite Hw, Hu.
    assert (0 <= deltaTime * deltaTime * lengthSq v1) by (apply Rmult_le_pos; nra).
    assert (Hrd : 0 <= 2 * radius * deltaTime) by (apply Rmult_le_pos; lra).
    assert (0 <= 2 * radius * deltaTime * (dot u v1 + 5)) by (apply Rmult_le_pos; lra).
    assert (0 <= (radius - 12) * (radius - 10 * deltaTime)) by (apply Rmult_le_pos; lra).
    nra. }
  destruct (Rgt_dec (lengthSq w) 0.01) as [_|H]; [|contradiction].
  eexists. split; [exact Hstep|]. cbn [position velocity direction groupIndex withMotion].
  split; [|split; [exact Hv1 | split; reflexivity]].
  apply dist_on_shell; [|lra]. apply lengthSq_normalized. lra.
Qed.

(** X9: in [src/lib/optimized-particle-system.ts] the idle swarm (no hand in
    view) keeps its shells as long as frames are short: with an elapsed
    time of at most a third of a second, speeds of at most 5 and stored
    directions that are not the zero vector, a tick returns and leaves
    every particle at distance 12 (group 0) or 12 * 1.8 (the other group)
    from the origin, again with a speed of at most 5 and with the same
    stored direction, so the same holds for the next tick. *)
Theorem SrcLib_idle_swarm_on_shell (s : OptimizedParticleSystem) (deltaTime now : R)
    (rnd : nat -> R) :
  behavior (params s) = needleSwarm -> handControls s = [] ->
  0 <= deltaTime <= 1 / 3 ->
  (forall i p, nth_error (particles s) i = Some p ->
               lengthSq (direction p) <> 0 /\ norm (velocity p) <= 5) ->
  exists s',
    SrcLib.update deltaTime now rnd s = Some s' /\
    handControls s' = [] /\
    List.length (particles s') = List.length (particles s) /\
    forall i p, nth_error (particles s) i = Some p ->
      exists p',
        nth_error (particles s') i = Some p' /\
        dist (position p') (vec3 0 0 0) = 12 * (if (groupIndex p =? 0)%nat then 1 else 1.8) /\
        groupIndex p' = groupIndex p /\
        lengthSq (direction p') <> 0 /\ norm (velocity p') <= 5.
Proof.
  intros Hmode Hhands Hdt Hall.
  destruct (forEachParticle_total
              (SrcLib.swarmIdleParticle deltaTime (now * 0.001)) (particles s)) as [ps' Hps'].
  { intros i p _.
    destruct (SrcLib_swarmIdleParticle_total deltaTime (now * 0.001) i p) as [p' [Hp' _]].
    eexists; exact Hp'. }
  destruct (forEachParticle_nth _ _ _ Hps') as [Hlen Hnth].
  exists (withParticles s ps'). split; [|split; [exact Hhands | split; [exact Hlen|]]].
  - unfold SrcLib.update. rewrite Hmode. unfold SrcLib.updateNeedleSwarm. cbv zeta.
    rewrite Hhands, Hps'. reflexivity.
  - intros i p Hp. destruct (Hnth i p Hp) as [p' [Hp' Hstep]].
    destruct (Hall i p Hp) as [Hd Hv].
    destruct (SrcLib_swarmIdleParticle_shell_bounded deltaTime (now * 0.001) i p Hd Hdt)
      as [q [Hq [Hdist [Hvq [Hdq Hgq]]]]].
    { apply lengthSq_le_of_norm; [lra | exact Hv]. }
    assert (q = p') by congruence. subst q.
    exists p'. split; [exact Hp'|]. split; [exact Hdist|]. split; [exact Hgq|].
    split; [rewrite Hdq; exact Hd|]. apply norm_le_of_lengthSq; [lra | exact Hvq].
Qed.

Lemma idleSwarmNeedle_bounds :
  forall i p, nth_error (particles idleSwarmNeedle) i = Some p ->
              lengthSq (direction p) <> 0 /\ norm (velocity p) <= 5.
Proof.
  intros [|[|i]] p Hp; simpl in Hp; try discriminate.
  injection Hp as <-. split.
  - unfold lengthSq; simpl. lra.
  - apply norm_le_of_lengthSq; [lra|]. unfold lengthSq; simpl. lra.
Qed.

(** The idle-swarm theorem at a needle at rest, for a frame of 1/60 s. *)
Lemma SrcLib_idle_swarm_on_shell_witness :
  behavior (params idleSwarmNeedle) = needleSwarm /\ handControls idleSwarmNeedle = [] /\
  0 <= 1 / 60 <= 1 / 3 /\
  exists s', SrcLib.update (1 / 60) 0 (fun _ => 0.5) idleSwarmNeedle = Some s'
             /\ List.length (particles s') = 1%nat.
Proof.
  assert (Hdt : 0 <= 1 / 60 <= 1 / 3) by lra.
  split; [reflexivity|]. split; [reflexivity|]. split; [exact Hdt|].
  destruct (SrcLib_idle_swarm_on_shell idleSwarmNeedle (1 / 60) 0 (fun _ => 0.5) eq_refl eq_refl
              Hdt idleSwarmNeedle_bounds) as [s' [Hs' [_ [Hlen _]]]].
  exists s'. split; [exact Hs' | exact Hlen].
Defined.

(** ** The instance matrices of the needle sphere *)

Lemma EPSILON_pos : 0 < Quaternion.EPSILON.
Proof. unfold Quaternion.EPSILON. apply Rinv_0_lt_compat, pow_lt. lra. Qed.

Lemma Quaternion_normalize_Some (q : Quaternion.Quaternion) :
  let l := sqrt (Quaternion.qx q * Quaternion.qx q + Quaternion.qy q * Quaternion.qy q
                 + Quaternion.qz q * Quaternion.qz q + Quaternion.qw q * Quaternion.qw q) in
  Quaternion.normalize q
  = Some (if Req_dec_T l 0 then Quaternion.quat 0 0 0 1
          else Quaternion.quat (Quaternion.qx q * (1 / l)) (Quaternion.qy q * (1 / l))
                               (Quaternion.qz q * (1 / l)) (Quaternion.qw q * (1 / l))).
Proof.
  cbv zeta. unfold Quaternion.normalize, Quaternion.length.
  rewrite jssqrt_nonneg.
  - cbn [bind]. destruct (Req_dec_T _ 0) as [H0|H0]; [reflexivity|].
    rewrite jsdiv_nonzero by exact H0. reflexivity.
  - pose proof (square_nonneg (Quaternion.qx q)). pose proof (square_nonneg (Quaternion.qy q)).
    pose proof (square_nonneg (Quaternion.qz q)). pose proof (square_nonneg (Quaternion.qw q)).
    lra.
Qed.

Section InstanceMatrices.

(** The constant of [setFromUnitVectors]: positive and at most 1, as
    [Number.EPSILON] and [1e-8] both are. *)
Variable threshold : R.
Hypothesis threshold_pos : 0 < threshold.
Hypothesis threshold_le_one : threshold <= 1.

(** The rotation from the up axis to a unit vector that is not straight
    down takes the local y axis to that vector: the second column of the
    composed matrix is the vector, scaled by the needle length. *)
Lemma compose_up_to_unit (position b : Vector3) (needleLength : R) :
  lengthSq b = 1 -> threshold <= 1 + y b ->
  exists q,
    Quaternion.setFromUnitVectors threshold (vec3 0 1 0) b = Some q /\
    Matrix4.column (Matrix4.compose position q (vec3 1 needleLength 1)) 1
    = multiplyScalar b needleLength /\
    Matrix4.column (Matrix4.compose position q (vec3 1 needleLength 1)) 3 = position.
Proof.
  intros Hunit Hr. pose proof threshold_pos as Heps.
  destruct b as [bx by_ bz]. unfold lengthSq in Hunit. cbn [x y z] in *.
  unfold Quaternion.setFromUnitVectors. cbv zeta. unfold dot. cbn [x y z].
  destruct (Rlt_dec (0 * bx + 1 * by_ + 0 * bz + 1) threshold) as [Hlt|_]; [lra|].
  rewrite Quaternion_normalize_Some. cbv zeta. cbn [Quaternion.qx Quaternion.qy Quaternion.qz
                                                     Quaternion.qw].
  set (r := 0 * bx + 1 * by_ + 0 * bz + 1).
  assert (Hr' : r = 1 + by_) by (unfold r; ring).
  set (n2 := (1 * bz - 0 * by_) * (1 * bz - 0 * by_) + (0 * bx - 0 * bz) * (0 * bx - 0 * bz)
             + (0 * by_ - 1 * bx) * (0 * by_ - 1 * bx) + r * r).
  assert (Hn2 : n2 = 2 * r) by (unfold n2; rewrite Hr'; nra).
  assert (Hn2pos : 0 < n2) by lra.
  assert (Hl : sqrt n2 * sqrt n2 = n2) by (apply sqrt_sqrt; lra).
  assert (Hlpos : 0 < sqrt n2) by (apply sqrt_lt_R0; exact Hn2pos).
  destruct (Req_dec_T (sqrt n2) 0) as [H0|H0]; [lra|].
  set (k := 1 / sqrt n2).
  assert (Hk : k * k * (2 * r) = 1).
  { unfold k. rewrite <- Hn2. set (l := sqrt n2) in *. rewrite <- Hl. field. exact H0. }
  eexists. split; [reflexivity|].
  unfold Matrix4.compose, Matrix4.column. cbv zeta.
  cbn [Matrix4.elements nth Nat.mul Nat.add Quaternion.qx Quaternion.qy Quaternion.qz
       Quaternion.qw x y z].
  split; [|destruct position; reflexivity].
  unfold multiplyScalar. cbn [x y z]. f_equal.
  - transitivity (k * k * (2 * r) * bx * needleLength); [ring | rewrite Hk; ring].
  - transitivity ((1 - 2 * (k * k) * (bx * bx + bz * bz)) * needleLength); [ring|].
    replace (bx * bx + bz * bz) with ((1 - by_) * r) by (rewrite Hr'; nra).
    replace (2 * (k * k) * ((1 - by_) * r)) with ((1 - by_) * (k * k * (2 * r))) by ring.
    rewrite Hk. ring.
  - transitivity (k * k * (2 * r) * bz * needleLength); [ring | rewrite Hk; ring].
Qed.

(** Toward a vector that is straight down (within the threshold) the rotation
    is the half turn about the z axis, and toward the zero vector it is the
    identity. *)
Lemma compose_up_fallbacks (position b : Vector3) (needleLength : R) :
  (1 + y b < threshold ->
   exists q,
     Quaternion.setFromUnitVectors threshold (vec3 0 1 0) b = Some q /\
     Matrix4.column (Matrix4.compose position q (vec3 1 needleLength 1)) 1
     = vec3 0 (- needleLength) 0)
  /\ (b = vec3 0 0 0 ->
      exists q,
        Quaternion.setFromUnitVectors threshold (vec3 0 1 0) b = Some q /\
        Matrix4.column (Matrix4.compose position q (vec3 1 needleLength 1)) 1
        = vec3 0 needleLength 0).
Proof.
  pose proof threshold_pos as Heps. split.
  - intros Hdown. unfold Quaternion.setFromUnitVectors. cbv zeta. unfold dot. cbn [x y z].
    destruct (Rlt_dec (0 * x b + 1 * y b + 0 * z b + 1) threshold) as [_|Hge]; [|lra].
    destruct (Rgt_dec (Rabs 0) (Rabs 0)) as [Hgt|_]; [lra|].
    rewrite Quaternion_normalize_Some. cbv zeta.
    cbn [Quaternion.qx Quaternion.qy Quaternion.qz Quaternion.qw].
    replace (0 * 0 + - 0 * - 0 + 1 * 1 + 0 * 0) with 1 by ring. rewrite sqrt_1.
    destruct (Req_dec_T 1 0) as [H0|_]; [lra|].
    eexists. split; [reflexivity|].
    unfold Matrix4.compose, Matrix4.column. cbv zeta.
    cbn [Matrix4.elements nth Nat.mul Nat.add Quaternion.qx Quaternion.qy Quaternion.qz
         Quaternion.qw x y z].
    f_equal; field.
  - intros ->. unfold Quaternion.setFromUnitVectors. cbv zeta. unfold dot. cbn [x y z].
    destruct (Rlt_dec (0 * 0 + 1 * 0 + 0 * 0 + 1) threshold) as [Hlt|_].
    { exfalso. pose proof threshold_le_one. lra. }
    rewrite Quaternion_normalize_Some. cbv zeta.
    cbn [Quaternion.qx Quaternion.qy Quaternion.qz Quaternion.qw].
    replace ((1 * 0 - 0 * 0) * (1 * 0 - 0 * 0) + (0 * 0 - 0 * 0) * (0 * 0 - 0 * 0)
             + (0 * 0 - 1 * 0) * (0 * 0 - 1 * 0)
             + (0 * 0 + 1 * 0 + 0 * 0 + 1) * (0 * 0 + 1 * 0 + 0 * 0 + 1)) with 1 by ring.
    rewrite sqrt_1. destruct (Req_dec_T 1 0) as [H0|_]; [lra|].
    eexists. split; [reflexivity|].
    unfold Matrix4.compose, Matrix4.column. cbv zeta.
    cbn [Matrix4.elements nth Nat.mul Nat.add Quaternion.qx Quaternion.qy Quaternion.qz
         Quaternion.qw x y z].
    f_equal; field.
Qed.

Lemma compose_translation (position : Vector3) (q : Quaternion.Quaternion) (scale : Vector3) :
  Matrix4.column (Matrix4.compose position q scale) 3 = position.
Proof. destruct position. reflexivity. Qed.

(** What the needle sphere writes for a particle, in both revisions: the
    matrix exists, its translation is the position of the particle, and its
    second column is as the orientation lemmas say. *)
Lemma needleSphereMatrix_spec (params : ParticleSystemConfig) (center : Vector3)
    (p : Particle) :
  let toCenter := normalized (sub center (position p)) in
  let needleLength := nullish (needleLength params) (size params * 4) in
  forall f, f = SrcLibMesh.needleSphereMatrix threshold
            \/ f = Part001Mesh.needleSphereMatrix threshold ->
  exists m,
    f params center p = Some m /\
    Matrix4.column m 3 = position p /\
    (0.0001 < lengthSq (sub center (position p)) ->
     lengthSq toCenter = 1 /\
     (threshold <= 1 + y toCenter ->
      Matrix4.column m 1 = multiplyScalar toCenter needleLength) /\
     (1 + y toCenter < threshold ->
      Matrix4.column m 1 = vec3 0 (- needleLength) 0)) /\
    (position p = center -> Matrix4.column m 1 = vec3 0 needleLength 0).
Proof.
  cbv zeta. intros f Hf.
  set (t := sub center (position p)).
  set (L := nullish (needleLength params) (size params * 4)).
  assert (Hzero : position p = center -> t = vec3 0 0 0).
  { intros He. unfold t. rewrite He. apply vec3_ext; simpl; ring. }
  assert (Hnz : position p = center -> normalized t = vec3 0 0 0).
  { intros He. rewrite (Hzero He). apply normalized_zero. unfold lengthSq; simpl. ring. }
  assert (Hidentity : Matrix4.column (Matrix4.compose (position p) Quaternion.identity
                                                      (vec3 1 L 1)) 1 = vec3 0 L 0).
  { unfold Matrix4.compose, Matrix4.column, Quaternion.identity. cbv zeta.
    cbn [Matrix4.elements nth Nat.mul Nat.add Quaternion.qx Quaternion.qy Quaternion.qz
         Quaternion.qw x y z]. f_equal; ring. }
  (* the rotation toward the normalised offset, in its three cases *)
  assert (Hrot : exists q,
            Quaternion.setFromUnitVectors threshold (vec3 0 1 0) (normalized t) = Some q /\
            (lengthSq t <> 0 ->
             lengthSq (normalized t) = 1 /\
             (threshold <= 1 + y (normalized t) ->
              Matrix4.column (Matrix4.compose (position p) q (vec3 1 L 1)) 1
              = multiplyScalar (normalized t) L) /\
             (1 + y (normalized t) < threshold ->
              Matrix4.column (Matrix4.compose (position p) q (vec3 1 L 1)) 1
              = vec3 0 (- L) 0)) /\
            (position p = center ->
             Matrix4.column (Matrix4.compose (position p) q (vec3 1 L 1)) 1 = vec3 0 L 0)).
  { destruct (Req_dec_T (lengthSq t) 0) as [H0|H0].
    - destruct (compose_up_fallbacks (position p) (normalized t) L) as [_ Hz].
      destruct (Hz (normalized_zero t H0)) as [q [Hq Hcol]].
      exists q. split; [exact Hq|]. split; [intros; contradiction | intros _; exact Hcol].
    - assert (Hunit : lengthSq (normalized t) = 1) by (apply lengthSq_normalized, H0).
      assert (Hne : position p <> center).
      { intros He. apply H0. rewrite (Hzero He). unfold lengthSq; simpl. ring. }
      destruct (Rlt_dec (1 + y (normalized t)) threshold) as [Hdown|Hup].
      + destruct (compose_up_fallbacks (position p) (normalized t) L) as [Hd _].
        destruct (Hd Hdown) as [q [Hq Hcol]].
        exists q. split; [exact Hq|]. split; [|intros; contradiction].
        intros _. split; [exact Hunit|]. split; [intros; lra | intros _; exact Hcol].
      + destruct (compose_up_to_unit (position p) (normalized t) L Hunit) as [q [Hq [Hcol _]]];
          [lra|].
        exists q. split; [exact Hq|]. split; [|intros; contradiction].
        intros _. split; [exact Hunit|]. split; [intros _; exact Hcol | intros; lra]. }
  destruct Hrot as [q [Hq [Hfar Hat]]].
  destruct Hf as [-> | ->].
  - unfold SrcLibMesh.needleSphereMatrix. cbv zeta. fold t. fold L.
    rewrite normalize_Some. cbn [bind]. rewrite Hq. cbn [bind].
    eexists. split; [reflexivity|]. split; [apply compose_translation|].
    split; [intros Hgt; apply Hfar; lra | exact Hat].
  - unfold Part001Mesh.needleSphereMatrix. cbv zeta. fold t. fold L.
    destruct (Rgt_dec (lengthSq t) 0.0001) as [Hgt|Hle].
    + rewrite normalize_Some. cbn [bind]. rewrite Hq. cbn [bind].
      eexists. split; [reflexivity|]. split; [apply compose_translation|].
      split; [intros _; apply Hfar; lra | exact Hat].
    + cbn [bind]. eexists. split; [reflexivity|]. split; [apply compose_translation|].
      split; [intros; lra | intros _; exact Hidentity].
Qed.

End InstanceMatrices.

(** X10: a needle-sphere tick writes one instance matrix per particle, in
    both revisions, whatever constant between 0 and 1 the release of the
    library uses as the threshold of [setFromUnitVectors].  The matrix
    places the instance at the position the tick gave the particle, and
    turns the needle toward the center: when the particle is more than 0.01
    from the center, the image of the local y axis (the second column) is
    the unit vector from the particle toward the center times the needle
    length ([needleLength], or four times [size] when that is unset),
    unless that vector is within the threshold of straight down (the
    particle is straight above the center), where it is the needle length
    straight down; for a particle at the center the needle points straight
    up. *)
Theorem needle_sphere_needles_point_to_center (threshold : R)
    (s : OptimizedParticleSystem) (now deltaTime : R) :
  0 < threshold <= 1 ->
  exists center handDistance psL msL psP msP,
    sphereCenter (handControls s) = Some (center, handDistance) /\
    SrcLibMesh.updateNeedleSphere threshold s now deltaTime = Some (psL, msL) /\
    Part001Mesh.updateNeedleSphere threshold s now deltaTime = Some (psP, msP) /\
    SrcLib.updateNeedleSphere s now deltaTime = Some psL /\
    Part001.updateNeedleSphere s now deltaTime = Some psP /\
    List.length msL = List.length (particles s) /\
    List.length msP = List.length (particles s) /\
    forall ps ms, (ps, ms) = (psL, msL) \/ (ps, ms) = (psP, msP) ->
      forall i p, nth_error ps i = Some p ->
        exists m,
          nth_error ms i = Some m /\
          let toCenter := normalized (sub center (position p)) in
          let needleLength := nullish (needleLength (params s)) (size (params s) * 4) in
          Matrix4.column m 3 = position p /\
          (0.0001 < lengthSq (sub center (position p)) ->
           lengthSq toCenter = 1 /\
           (threshold <= 1 + y toCenter ->
            Matrix4.column m 1 = multiplyScalar toCenter needleLength) /\
           (1 + y toCenter < threshold ->
            Matrix4.column m 1 = vec3 0 (- needleLength) 0)) /\
          (position p = center -> Matrix4.column m 1 = vec3 0 needleLength 0).
Proof.
  intros [Hpos Hle].
  destruct (sphereCenter_total (handControls s)) as [center [hd [Hc _]]].
  destruct (forEachParticle_total
              (SrcLib.needleSphereParticle (params s) center hd deltaTime (now * 0.001))
              (particles s)) as [psL HpsL].
  { intros i p _.
    destruct (SrcLib_needleSphereParticle_total (params s) center hd deltaTime (now * 0.001) i p)
      as [p' [Hp' _]]. eexists; exact Hp'. }
  destruct (forEachParticle_total
              (Part001.needleSphereParticle (params s) center hd deltaTime (now * 0.001))
              (particles s)) as [psP HpsP].
  { intros i p _.
    destruct (Part001_needleSphereParticle_total (params s) center hd deltaTime (now * 0.001) i p)
      as [p' [Hp' _]]. eexists; exact Hp'. }
  destruct (mapM_total (SrcLibMesh.needleSphereMatrix threshold (params s) center) psL) as [msL HmsL].
  { intros p _.
    destruct (needleSphereMatrix_spec threshold Hpos Hle (params s) center p _ (or_introl eq_refl)) as [m [Hm _]].
    exists m. exact Hm. }
  destruct (mapM_total (Part001Mesh.needleSphereMatrix threshold (params s) center) psP) as [msP HmsP].
  { intros p _.
    destruct (needleSphereMatrix_spec threshold Hpos Hle (params s) center p _ (or_intror eq_refl)) as [m [Hm _]].
    exists m. exact Hm. }
  assert (HL : SrcLib.updateNeedleSphere s now deltaTime = Some psL).
  { unfold SrcLib.updateNeedleSphere. rewrite Hc. exact HpsL. }
  assert (HP : Part001.updateNeedleSphere s now deltaTime = Some psP).
  { unfold Part001.updateNeedleSphere. rewrite Hc. exact HpsP. }
  destruct (mapM_nth _ _ _ HmsL) as [HlenL HnthL].
  destruct (mapM_nth _ _ _ HmsP) as [HlenP HnthP].
  exists center, hd, psL, msL, psP, msP.
  split; [exact Hc|].
  split; [unfold SrcLibMesh.updateNeedleSphere; rewrite Hc, HL; cbn [bind fst];
          rewrite HmsL; reflexivity|].
  split; [unfold Part001Mesh.updateNeedleSphere; rewrite Hc, HP; cbn [bind fst];
          rewrite HmsP; reflexivity|].
  split; [exact HL|]. split; [exact HP|].
  split; [rewrite HlenL; apply (forEachParticle_nth _ _ _ HpsL)|].
  split; [rewrite HlenP; apply (forEachParticle_nth _ _ _ HpsP)|].
  intros ps ms [Heq|Heq]; injection Heq as -> ->; intros i p Hp.
  - destruct (HnthL i p Hp) as [m [Hm Hfm]].
    destruct (needleSphereMatrix_spec threshold Hpos Hle (params s) center p _ (or_introl eq_refl))
      as [m' [Hm' Hspec]].
    assert (m' = m) by congruence. subst m'. exists m. split; [exact Hm | exact Hspec].
  - destruct (HnthP i p Hp) as [m [Hm Hfm]].
    destruct (needleSphereMatrix_spec threshold Hpos Hle (params s) center p _ (or_intror eq_refl))
      as [m' [Hm' Hspec]].
    assert (m' = m) by congruence. subst m'. exists m. split; [exact Hm | exact Hspec].
Qed.

(** The orientation theorem for the threshold [Number.EPSILON], at the
    needle that swims on the idle sphere. *)
Lemma needle_sphere_needles_point_to_center_witness :
  0 < Quaternion.EPSILON <= 1 /\
  exists psL msL,
    SrcLibMesh.updateNeedleSphere Quaternion.EPSILON cruisingNeedle 0 (1 / 60)
    = Some (psL, msL)
    /\ List.length msL = 1%nat.
Proof.
  assert (Heps : 0 < Quaternion.EPSILON <= 1).
  { split; [exact EPSILON_pos|].
    unfold Quaternion.EPSILON. rewrite <- Rinv_1. apply Rinv_le_contravar; [lra|].
    apply pow_R1_Rle. lra. }
  split; [exact Heps|].
  destruct (needle_sphere_needles_point_to_center Quaternion.EPSILON cruisingNeedle 0 (1 / 60)
              Heps) as [center [hd [psL [msL [psP [msP [_ [HL [_ [_ [_ [Hlen _]]]]]]]]]]]].
  exists psL, msL. split; [exact HL | exact Hlen].
Defined.

(** ** Merging geometries *)

Section MergeGeometries.

Import BufferGeometry.

Lemma set_at_end {A : Type} (done source : list A) (zero : A) (a b : nat) :
  List.length source = a ->
  set (done ++ repeat zero (a + b)) source (List.length done)
  = Some (done ++ source ++ repeat zero b).
Proof.
  intros Hlen. unfold set. rewrite length_app, repeat_length, Hlen.
  destruct (Nat.leb_spec (List.length done + a) (List.length done + (a + b))) as [_|H]; [|lia].
  f_equal. rewrite firstn_app, Nat.sub_diag, firstn_all. simpl. rewrite app_nil_r.
  f_equal. f_equal.
  rewrite skipn_app, skipn_all2 by lia. simpl.
  replace (List.length done + a - List.length done)%nat with a by lia.
  rewrite repeat_app, skipn_app, repeat_length, Nat.sub_diag.
  rewrite skipn_all2 by (rewrite repeat_length; lia). reflexivity.
Qed.

Lemma replaceAt_middle {A : Type} (done rest : list A) (old v : A) :
  replaceAt (List.length done) v (done ++ old :: rest) = done ++ v :: rest.
Proof. induction done as [|a done IH]; simpl; [reflexivity | rewrite IH; reflexivity]. Qed.

(** The inner loop writes the shifted entries of one index after the entries
    already written. *)
Lemma writeIndices_spec (index : IndexBufferAttribute) (vertexOffset : nat) (done : list N) :
  forall (k j r : nat) (written : list N),
    List.length written = j ->
    (j + k <= List.length (indices index))%nat ->
    foldM (writeIndex index vertexOffset (List.length done)) (seq j k)
          (done ++ written ++ repeat 0%N (k + r))
    = Some (done ++ written
            ++ map (fun v => ((v + N.of_nat vertexOffset) mod 2 ^ 32)%N)
                   (firstn k (skipn j (indices index)))
            ++ repeat 0%N r).
Proof.
  induction k as [|k IH]; intros j r written Hw Hjk.
  - simpl. reflexivity.
  - simpl seq. cbn [foldM]. unfold writeIndex at 1.
    destruct (nth_error (indices index) j) as [v|] eqn:Hv.
    2:{ apply nth_error_None in Hv. lia. }
    cbn [bind].
    replace (List.length done + j)%nat with (List.length (done ++ written))
      by (rewrite length_app; lia).
    replace (done ++ written ++ repeat 0%N (S k + r))
      with ((done ++ written) ++ 0%N :: repeat 0%N (k + r))
      by (rewrite <- app_assoc; reflexivity).
    rewrite replaceAt_middle.
    replace ((done ++ written) ++ ((v + N.of_nat vertexOffset) mod 2 ^ 32)%N :: repeat 0%N (k + r))
      with (done ++ (written ++ [((v + N.of_nat vertexOffset) mod 2 ^ 32)%N])
            ++ repeat 0%N (k + r))
      by (rewrite <- !app_assoc; reflexivity).
    rewrite (IH (S j) r) by (rewrite ?length_app; simpl; lia).
    f_equal. f_equal. rewrite <- app_assoc. f_equal.
    assert (Hskip : skipn j (indices index) = v :: skipn (S j) (indices index)).
    { clear - Hv. revert j Hv. induction (indices index) as [|a l IHl]; intros [|j] Hv;
        simpl in *; try discriminate.
      - injection Hv as ->. reflexivity.
      - apply IHl, Hv. }
    rewrite Hskip. reflexivity.
Qed.

Lemma totals_from (geometries : list BufferGeometry) (tv ti : nat) :
  fold_left
    (fun t geo =>
       ((fst t + count (position geo))%nat,
        match index geo with
        | Some index => (snd t + indexCount index)%nat
        | None => snd t
        end))
    geometries (tv, ti)
  = ((tv + vertexTotal geometries)%nat, (ti + indexTotal geometries)%nat).
Proof.
  revert tv ti. induction geometries as [|geo gs IH]; intros tv ti.
  - simpl. f_equal; unfold vertexTotal, indexTotal; simpl; lia.
  - simpl fold_left. cbn [fst snd]. destruct (index geo) as [ix|] eqn:Hix.
    + rewrite IH. unfold vertexTotal, indexTotal. simpl. rewrite Hix. f_equal; lia.
    + rewrite IH. unfold vertexTotal, indexTotal. simpl. rewrite Hix. f_equal; lia.
Qed.

Lemma totals_eq (geometries : list BufferGeometry) :
  totals geometries = (vertexTotal geometries, indexTotal geometries).
Proof. unfold totals. cbv zeta. rewrite totals_from. reflexivity. Qed.

End MergeGeometries.

Section MergeLoop.

Import BufferGeometry.

(** The second [forEach] of [mergeGeometries], from any point of its run:
    [positions], [normals] and [written] are what it has written so far. *)
Lemma mergeLoop (rest : list BufferGeometry) :
  forall (positions normals : list R) (written : list N) (vo io : nat) (indexed : bool),
    (forall geo, In geo rest -> wellFormed geo) ->
    List.length positions = (vo * 3)%nat -> List.length normals = (vo * 3)%nat ->
    (indexed = true -> io = List.length written) ->
    foldM mergeStep rest
      {| positionArray := positions ++ repeat 0 (vertexTotal rest * 3);
         normalArray := normals ++ repeat 0 (vertexTotal rest * 3);
         indexArray := if indexed then Some (written ++ repeat 0%N (indexTotal rest)) else None;
         vertexOffset := vo; indexOffset := io |}
    = Some {| positionArray := positions ++ concat (map (fun geo => array (position geo)) rest);
              normalArray := normals ++ concat (map normalsOrZeros rest);
              indexArray :=
                if indexed
                then Some (written ++ map (fun v => (v mod 2 ^ 32)%N) (shiftedIndices rest vo))
                else None;
              vertexOffset := (vo + vertexTotal rest)%nat;
              indexOffset := if indexed then (io + indexTotal rest)%nat else io |}.
Proof.
  induction rest as [|geo rest IH]; intros positions normals written vo io indexed Hwf Hp Hn Hio.
  - unfold vertexTotal, indexTotal. simpl. rewrite !app_nil_r, !Nat.add_0_r.
    destruct indexed; reflexivity.
  - destruct (Hwf geo (or_introl eq_refl)) as [Hpos [Hnorm Hindex]].
    assert (Hwf' : forall g, In g rest -> wellFormed g) by (intros g Hg; apply Hwf; right; exact Hg).
    set (c := count (position geo)) in *.
    assert (Hvt : (vertexTotal (geo :: rest) * 3 = 3 * c + vertexTotal rest * 3)%nat)
      by (unfold vertexTotal, c; simpl; lia).
    cbn [foldM]. unfold mergeStep at 1. cbv zeta.
    cbn [positionArray normalArray indexArray vertexOffset indexOffset].
    rewrite Hvt. rewrite <- Hp.
    rewrite (set_at_end positions (array (position geo)) 0 (3 * c) (vertexTotal rest * 3) Hpos).
    cbn [bind].
    assert (Hnormal :
              match normal geo with
              | Some norm => set (normals ++ repeat 0 (3 * c + vertexTotal rest * 3)) (array norm)
                                 (List.length positions)
              | None => Some (normals ++ repeat 0 (3 * c + vertexTotal rest * 3))
              end
              = Some (normals ++ normalsOrZeros geo ++ repeat 0 (vertexTotal rest * 3))).
    { unfold normalsOrZeros. destruct (normal geo) as [norm|] eqn:Hnm.
      - rewrite Hp, <- Hn. apply set_at_end. apply Hnorm. reflexivity.
      - fold c. rewrite repeat_app. reflexivity. }
    rewrite Hnormal. cbn [bind].
    assert (Hidx :
              match index geo, (if indexed
                                then Some (written ++ repeat 0%N (indexTotal (geo :: rest)))
                                else None) with
              | Some index, Some indexArray =>
                  indexArray1 <- foldM (writeIndex index vo io) (seq 0 (indexCount index))
                                       indexArray ;;
                  Some (Some indexArray1, (io + indexCount index)%nat)
              | _, _ => Some (if indexed
                              then Some (written ++ repeat 0%N (indexTotal (geo :: rest)))
                              else None, io)
              end
              = Some (if indexed
                      then Some ((written
                                  ++ match index geo with
                                     | Some index =>
                                         map (fun v => ((v + N.of_nat vo) mod 2 ^ 32)%N)
                                             (indices index)
                                     | None => []
                                     end)
                                 ++ repeat 0%N (indexTotal rest))
                      else None,
                      if indexed
                      then (io + match index geo with
                                 | Some index => indexCount index
                                 | None => 0%nat
                                 end)%nat
                      else io)).
    { destruct indexed.
      - destruct (index geo) as [ix|] eqn:Hix.
        + assert (Hit : indexTotal (geo :: rest) = (indexCount ix + indexTotal rest)%nat)
            by (unfold indexTotal; simpl; rewrite Hix; reflexivity).
          rewrite Hit. rewrite (Hio eq_refl).
          pose proof (writeIndices_spec ix vo written (indexCount ix) 0 (indexTotal rest) [] eq_refl)
            as Hw.
          rewrite (Hindex ix eq_refl) in Hw. specialize (Hw (Nat.le_refl _)).
          cbn [app] in Hw. rewrite Hw. cbn [bind]. cbn [skipn].
          rewrite <- (Hindex ix eq_refl), firstn_all. rewrite <- app_assoc. reflexivity.
        + assert (Hit : indexTotal (geo :: rest) = indexTotal rest)
            by (unfold indexTotal; simpl; rewrite Hix; reflexivity).
          rewrite Hit, app_nil_r, Nat.add_0_r. reflexivity.
      - destruct (index geo); reflexivity. }
    rewrite Hidx. cbn [bind fst snd].
    replace (positions ++ array (position geo) ++ repeat 0 (vertexTotal rest * 3))
      with ((positions ++ array (position geo)) ++ repeat 0 (vertexTotal rest * 3))
      by (rewrite <- app_assoc; reflexivity).
    replace (normals ++ normalsOrZeros geo ++ repeat 0 (vertexTotal rest * 3))
      with ((normals ++ normalsOrZeros geo) ++ repeat 0 (vertexTotal rest * 3))
      by (rewrite <- app_assoc; reflexivity).
    assert (Hnz : List.length (normalsOrZeros geo) = (3 * c)%nat).
    { unfold normalsOrZeros. destruct (normal geo) as [norm|] eqn:Hnm.
      - apply Hnorm. reflexivity.
      - apply repeat_length. }
    fold c.
    rewrite (IH (positions ++ array (position geo)) (normals ++ normalsOrZeros geo)
               (written ++ match index geo with
                           | Some index =>
                               map (fun v => ((v + N.of_nat vo) mod 2 ^ 32)%N) (indices index)
                           | None => []
                           end)
               (vo + c)%nat
               (if indexed
                then (io + match index geo with
                           | Some index => indexCount index
                           | None => 0%nat
                           end)%nat
                else io)
               indexed Hwf').
    + f_equal. unfold vertexTotal, indexTotal. cbn [map concat list_sum shiftedIndices].
      fold c. f_equal.
      * rewrite <- app_assoc. reflexivity.
      * rewrite <- app_assoc. reflexivity.
      * destruct indexed; [|reflexivity]. f_equal. rewrite <- app_assoc. f_equal.
        rewrite map_app. f_equal. destruct (index geo); [|reflexivity].
        rewrite map_map. reflexivity.
      * simpl. lia.
      * destruct indexed; [|reflexivity]. simpl. lia.
    + rewrite length_app, Hp, Hpos. lia.
    + rewrite length_app, Hn, Hnz. lia.
    + intros ->. rewrite (Hio eq_refl), length_app. f_equal.
      destruct (index geo) as [ix|] eqn:Hix; [|reflexivity].
      rewrite length_map. symmetry. apply Hindex. reflexivity.
Qed.

End MergeLoop.

Section MergeTheorems.

Import BufferGeometry.

Lemma length_merged_positions (geometries : list BufferGeometry) :
  (forall geo, In geo geometries -> wellFormed geo) ->
  List.length (concat (map (fun geo => array (position geo)) geometries))
  = (vertexTotal geometries * 3)%nat
  /\ List.length (concat (map normalsOrZeros geometries)) = (vertexTotal geometries * 3)%nat.
Proof.
  induction geometries as [|geo gs IH]; intros Hwf; [split; reflexivity|].
  destruct (Hwf geo (or_introl eq_refl)) as [Hpos [Hnorm _]].
  destruct IH as [IH1 IH2]; [intros g Hg; apply Hwf; right; exact Hg|].
  assert (Hnz : List.length (normalsOrZeros geo) = (3 * count (position geo))%nat).
  { unfold normalsOrZeros. destruct (normal geo) as [norm|] eqn:Hnm.
    - apply Hnorm. reflexivity.
    - apply repeat_length. }
  unfold vertexTotal in *. simpl. rewrite !length_app, IH1, IH2, Hpos, Hnz. split; lia.
Qed.

Lemma length_shiftedIndices (geometries : list BufferGeometry) (vertexOffset : nat) :
  (forall geo, In geo geometries -> wellFormed geo) ->
  List.length (shiftedIndices geometries vertexOffset) = indexTotal geometries.
Proof.
  revert vertexOffset. induction geometries as [|geo gs IH]; intros vo Hwf; [reflexivity|].
  destruct (Hwf geo (or_introl eq_refl)) as [_ [_ Hindex]].
  unfold indexTotal in *. simpl. rewrite length_app, IH.
  - f_equal. destruct (index geo) as [ix|]; [|reflexivity].
    rewrite length_map. apply Hindex. reflexivity.
  - intros g Hg. apply Hwf. right. exact Hg.
Qed.

Lemma shiftedIndices_bound (geometries : list BufferGeometry) (vertexOffset : nat) :
  (forall geo ix v, In geo geometries -> index geo = Some ix -> In v (indices ix) ->
                       (v < N.of_nat (count (position geo)))%N) ->
  forall w, In w (shiftedIndices geometries vertexOffset) ->
            (w < N.of_nat (vertexOffset + vertexTotal geometries))%N.
Proof.
  revert vertexOffset. induction geometries as [|geo gs IH]; intros vo Hvalid w Hw;
    [contradiction|].
  cbn [shiftedIndices] in Hw. apply in_app_or in Hw. unfold vertexTotal in *.
  simpl. destruct Hw as [Hw|Hw].
  - destruct (index geo) as [ix|] eqn:Hix; [|contradiction].
    apply in_map_iff in Hw. destruct Hw as [v [<- Hv]].
    pose proof (Hvalid geo ix v (or_introl eq_refl) Hix Hv). lia.
  - specialize (IH (vo + count (position geo))%nat).
    assert (Hvalid' : forall g ix v, In g gs -> index g = Some ix -> In v (indices ix) ->
                                        (v < N.of_nat (count (position g)))%N).
    { intros g ix v Hg. apply Hvalid. right. exact Hg. }
    pose proof (IH Hvalid' w Hw). lia.
Qed.

(** X11: [mergeGeometries] on well-formed pieces returns a geometry whose
    position array is the concatenation of the position arrays of the
    pieces, in order, whose normal array is the concatenation of their
    normal arrays, with zeros for a piece that has no normals, and whose
    vertex count is the sum of their vertex counts. *)
Theorem mergeGeometries_concatenates (geometries : list BufferGeometry) :
  (forall geo, In geo geometries -> wellFormed geo) ->
  exists merged mergedNormal,
    mergeGeometries geometries = Some merged /\
    array (position merged) = concat (map (fun geo => array (position geo)) geometries) /\
    count (position merged) = vertexTotal geometries /\
    normal merged = Some mergedNormal /\
    array mergedNormal = concat (map normalsOrZeros geometries) /\
    count mergedNormal = vertexTotal geometries.
Proof.
  intros Hwf. unfold mergeGeometries. cbv zeta. rewrite totals_eq. cbn [fst snd].
  pose proof (mergeLoop geometries [] [] [] 0 0 (0 <? indexTotal geometries)%nat Hwf
                eq_refl eq_refl (fun _ => eq_refl)) as Hloop.
  cbn [app] in Hloop. rewrite Hloop. cbn [bind positionArray normalArray indexArray].
  destruct (length_merged_positions geometries Hwf) as [Hlp Hln].
  eexists. eexists. split; [reflexivity|].
  cbn [position normal array count attribute3].
  split; [reflexivity|]. split; [rewrite Hlp; apply Nat.div_mul; lia|].
  split; [reflexivity|]. split; [reflexivity|].
  cbn [count attribute3 array]. rewrite Hln. apply Nat.div_mul. lia.
Qed.

(** X12: on well-formed pieces whose index entries are valid (below the
    vertex count of their piece), with at most 2^32 vertices in all,
    [mergeGeometries] builds the index of the merged geometry from the
    entries of the indexed pieces, in order, each shifted by the number of
    vertices of the pieces before its own; every entry is below the merged
    vertex count; a piece without an index adds vertices and no entry, and
    when no piece has an entry the merged geometry has no index. *)
Theorem mergeGeometries_shifts_indices (geometries : list BufferGeometry) :
  (forall geo, In geo geometries -> wellFormed geo) ->
  (forall geo ix v, In geo geometries -> index geo = Some ix -> In v (indices ix) ->
                       (v < N.of_nat (count (position geo)))%N) ->
  (N.of_nat (vertexTotal geometries) <= 2 ^ 32)%N ->
  exists merged,
    mergeGeometries geometries = Some merged /\
    (indexTotal geometries = 0%nat -> index merged = None) /\
    ((0 < indexTotal geometries)%nat ->
     exists mergedIndex,
       index merged = Some mergedIndex /\
       indices mergedIndex = shiftedIndices geometries 0 /\
       indexCount mergedIndex = indexTotal geometries) /\
    (forall mergedIndex v,
        index merged = Some mergedIndex -> In v (indices mergedIndex) ->
        (v < N.of_nat (count (position merged)))%N).
Proof.
  intros Hwf Hvalid Hsize. unfold mergeGeometries. cbv zeta. rewrite totals_eq. cbn [fst snd].
  pose proof (mergeLoop geometries [] [] [] 0 0 (0 <? indexTotal geometries)%nat Hwf
                eq_refl eq_refl (fun _ => eq_refl)) as Hloop.
  cbn [app] in Hloop. rewrite Hloop. cbn [bind positionArray normalArray indexArray].
  destruct (length_merged_positions geometries Hwf) as [Hlp _].
  assert (Hsmall : map (fun v => (v mod 2 ^ 32)%N) (shiftedIndices geometries 0)
                   = shiftedIndices geometries 0).
  { rewrite <- (map_id (shiftedIndices geometries 0)) at 2. apply map_ext_in.
    intros w Hw. apply N.mod_small.
    pose proof (shiftedIndices_bound geometries 0 Hvalid w Hw). simpl in H. lia. }
  eexists. split; [reflexivity|]. cbn [index position count attribute3 array].
  destruct (Nat.ltb_spec 0 (indexTotal geometries)) as [Hpos|Hzero].
  - cbn [option_map]. rewrite Hsmall. split; [intros; lia|]. split.
    + intros _. eexists. split; [reflexivity|]. cbn [indices indexCount attribute1].
      split; [reflexivity | apply length_shiftedIndices, Hwf].
    + intros mergedIndex v Heq Hv. injection Heq as <-. cbn [indices attribute1] in Hv.
      rewrite Hlp, Nat.div_mul by lia.
      apply (shiftedIndices_bound geometries 0 Hvalid v Hv).
  - cbn [option_map]. split; [reflexivity|]. split; [intros; lia|].
    intros mergedIndex v Heq. discriminate.
Qed.

End MergeTheorems.

Lemma triangles_wellFormed :
  forall geo, In geo [triangleA; triangleB] -> wellFormed geo.
Proof.
  intros geo [<-|[<-|[]]]; unfold wellFormed; simpl;
    (split; [reflexivity|]; split; intros a Ha; try discriminate;
     injection Ha as <-; reflexivity).
Qed.

Lemma triangles_valid :
  forall geo ix v,
    In geo [triangleA; triangleB] -> BufferGeometry.index geo = Some ix ->
    In v (BufferGeometry.indices ix) ->
    (v < N.of_nat (BufferGeometry.count (BufferGeometry.position geo)))%N.
Proof.
  intros geo ix v [<-|[<-|[]]] Hix Hv; simpl in Hix; injection Hix as <-; simpl in Hv;
    simpl; repeat (destruct Hv as [<-|Hv]; [lia|]); contradiction.
Qed.

(** The concatenation theorem at two triangles, the second without normals. *)
Lemma mergeGeometries_concatenates_witness :
  (forall geo, In geo [triangleA; triangleB] -> wellFormed geo) /\
  exists merged,
    BufferGeometry.mergeGeometries [triangleA; triangleB] = Some merged /\
    BufferGeometry.array (BufferGeometry.position merged)
    = [0; 0; 0; 1; 0; 0; 0; 1; 0; 0; 0; 1; 1; 0; 1; 0; 1; 1] /\
    BufferGeometry.count (BufferGeometry.position merged) = 6%nat.
Proof.
  split; [exact triangles_wellFormed|].
  destruct (mergeGeometries_concatenates [triangleA; triangleB] triangles_wellFormed)
    as [merged [mergedNormal [Hm [Hp [Hc _]]]]].
  exists merged. split; [exact Hm|]. split; [exact Hp | exact Hc].
Defined.

(** The index theorem at the same two triangles: the entries of the second
    are shifted by the three vertices of the first. *)
Lemma mergeGeometries_shifts_indices_witness :
  (forall geo, In geo [triangleA; triangleB] -> wellFormed geo) /\
  (N.of_nat (vertexTotal [triangleA; triangleB]) <= 2 ^ 32)%N /\
  exists merged mergedIndex,
    BufferGeometry.mergeGeometries [triangleA; triangleB] = Some merged /\
    BufferGeometry.index merged = Some mergedIndex /\
    BufferGeometry.indices mergedIndex = [0; 1; 2; 3; 5; 4]%N.
Proof.
  assert (Hsize : (N.of_nat (vertexTotal [triangleA; triangleB]) <= 2 ^ 32)%N)
    by (vm_compute; discriminate).
  split; [exact triangles_wellFormed|]. split; [exact Hsize|].
  destruct (mergeGeometries_shifts_indices [triangleA; triangleB] triangles_wellFormed
              triangles_valid Hsize) as [merged [Hm [_ [Hindexed _]]]].
  destruct Hindexed as [mergedIndex [Hi [Hv _]]]; [vm_compute; lia|].
  exists merged, mergedIndex. split; [exact Hm|]. split; [exact Hi | exact Hv].
Defined.

(** ** The hand tracker *)

Lemma last_cons {A : Type} (l : list A) (a d : A) : last (a :: l) d = last l a.
Proof.
  revert a d. induction l as [|b l IH]; intros a d; [reflexivity|].
  change (last (a :: b :: l) d) with (last (b :: l) d). rewrite !IH. reflexivity.
Qed.

Section Tracker.

Variable W : Type.

Import MediaPipeHandler.

Lemma processResults_state (h : MediaPipeHandler W) (now : R) (results : MediaPipeResults)
    (w : W) :
  let '(h', w', o) := processResults h now results w in
  frameThrottle h' = frameThrottle h /\ config h' = config h
  /\ handControlsCallback h' = handControlsCallback h
  /\ (isProcessing h = false -> isProcessing h' = false)
  /\ (o = throttled -> h' = h /\ w' = w /\ now - lastFrameTime h < frameThrottle h)
  /\ (o <> throttled ->
      o <> busy /\ lastFrameTime h' = now /\ frameThrottle h <= now - lastFrameTime h
      /\ isProcessing h' = false)
  /\ w' = match o, handControlsCallback h with
          | processed handControls, Some callback => callback handControls w
          | _, _ => w
          end.
Proof.
  unfold processResults.
  destruct (Rlt_dec (now - lastFrameTime h) (frameThrottle h)) as [Hlt|Hge].
  - repeat split; try reflexivity; try (intros; assumption); try (intros; congruence).
  - destruct (handControlsOf results) as [hc|]; cbn [frameThrottle config handControlsCallback
                                                     isProcessing lastFrameTime];
      repeat split; try reflexivity; try discriminate; try lra;
      destruct (handControlsCallback h); reflexivity.
Qed.

(** The run of the listener over a sequence of results. *)
Lemma onResultsAll_spec (events : list (R * MediaPipeResults)) :
  forall (h : MediaPipeHandler W) (w : W),
    isProcessing h = false ->
    let '(h', w', outcomes) := onResultsAll h events w in
    List.length outcomes = List.length events /\
    ~ In busy outcomes /\
    isProcessing h' = false /\ frameThrottle h' = frameThrottle h /\
    handControlsCallback h' = handControlsCallback h /\
    spaced (frameThrottle h) (lastFrameTime h) (accepted events outcomes) /\
    lastFrameTime h' = last (accepted events outcomes) (lastFrameTime h) /\
    w' = match handControlsCallback h with
         | Some callback => delivered callback outcomes w
         | None => w
         end.
Proof.
  induction events as [|[now results] events IH]; intros h w Hidle.
  - simpl. repeat split; try reflexivity; try tauto. destruct (handControlsCallback h); reflexivity.
  - cbn [onResultsAll]. unfold onResults at 1. rewrite Hidle.
    pose proof (processResults_state h now results w) as Hstep.
    destruct (processResults h now results w) as [[h1 w1] o].
    destruct Hstep as [Hft [Hcfg [Hcb [Hproc [Hthr [Hadm Hw1]]]]]].
    specialize (IH h1 w1 (Hproc Hidle)).
    destruct (onResultsAll h1 events w1) as [[h2 w2] os].
    destruct IH as [Hlen [Hbusy [Hidle2 [Hft2 [Hcb2 [Hsp [Hlast Hw2]]]]]]].
    split; [simpl; congruence|].
    assert (Hob : o <> busy).
    { destruct o; try discriminate. apply Hadm. discriminate. }
    split; [intros [Hin|Hin]; [apply Hob; exact Hin | exact (Hbusy Hin)]|].
    split; [exact Hidle2|]. split; [congruence|]. split; [congruence|].
    rewrite Hft in Hsp. rewrite Hcb in Hw2.
    destruct o as [| | |hc].
    + contradiction.
    + destruct (Hthr eq_refl) as [-> [-> _]]. cbn [accepted].
      split; [exact Hsp|]. split; [exact Hlast|].
      rewrite Hw2. destruct (handControlsCallback h); reflexivity.
    + destruct Hadm as [_ [Hl1 [Hgap _]]]; [discriminate|]. cbn [accepted spaced].
      rewrite Hl1 in Hsp, Hlast.
      split; [split; assumption|]. split.
      * rewrite Hlast. symmetry. apply last_cons.
      * rewrite Hw2, Hw1. destruct (handControlsCallback h); reflexivity.
    + destruct Hadm as [_ [Hl1 [Hgap _]]]; [discriminate|]. cbn [accepted spaced].
      rewrite Hl1 in Hsp, Hlast.
      split; [split; assumption|]. split.
      * rewrite Hlast. symmetry. apply last_cons.
      * rewrite Hw2, Hw1. destruct (handControlsCallback h); reflexivity.
Qed.

End Tracker.

(** X13: the listener of the hand tracker, run over any sequence of results
    from an idle handler, is never found busy, and the results it does not
    drop are at least [frameThrottle] apart on the clock, the first of them
    at least [frameThrottle] after the last frame processed before; the
    handler ends idle, with the clock value of the last accepted result,
    and the subscriber has been called once for every processed result, in
    order, and for no other. *)
Theorem tracker_accepts_spaced_frames (W : Type) (h : MediaPipeHandler.MediaPipeHandler W)
    (events : list (R * MediaPipeHandler.MediaPipeResults)) (w : W) :
  MediaPipeHandler.isProcessing h = false ->
  exists h' w' outcomes,
    MediaPipeHandler.onResultsAll h events w = (h', w', outcomes) /\
    List.length outcomes = List.length events /\
    ~ In MediaPipeHandler.busy outcomes /\
    spaced (MediaPipeHandler.frameThrottle h) (MediaPipeHandler.lastFrameTime h)
           (accepted events outcomes) /\
    MediaPipeHandler.lastFrameTime h'
    = last (accepted events outcomes) (MediaPipeHandler.lastFrameTime h) /\
    MediaPipeHandler.frameThrottle h' = MediaPipeHandler.frameThrottle h /\
    MediaPipeHandler.isProcessing h' = false /\
    (forall callback,
        MediaPipeHandler.handControlsCallback h = Some callback ->
        w' = delivered callback outcomes w) /\
    (MediaPipeHandler.handControlsCallback h = None -> w' = w).
Proof.
  intros Hidle. pose proof (onResultsAll_spec W events h w Hidle) as H.
  destruct (MediaPipeHandler.onResultsAll h events w) as [[h' w'] outcomes].
  destruct H as [Hlen [Hbusy [Hidle' [Hft [_ [Hsp [Hlast Hw]]]]]]].
  exists h', w', outcomes. split; [reflexivity|].
  split; [exact Hlen|]. split; [exact Hbusy|]. split; [exact Hsp|]. split; [exact Hlast|].
  split; [exact Hft|]. split; [exact Hidle'|]. split.
  - intros callback Hcb. rewrite Hcb in Hw. exact Hw.
  - intros Hcb. rewrite Hcb in Hw. exact Hw.
Qed.

(** The throttle theorem at the default handler, for four results that
    arrive at 10, 40, 50 and 80 ms. *)
Lemma tracker_accepts_spaced_frames_witness :
  MediaPipeHandler.isProcessing recordingTracker = false /\
  exists h' w' outcomes,
    MediaPipeHandler.onResultsAll recordingTracker
      [(10, noHands); (40, noHands); (50, noHands); (80, noHands)] []
    = (h', w', outcomes) /\
    List.length outcomes = 4%nat.
Proof.
  split; [reflexivity|].
  destruct (tracker_accepts_spaced_frames _ recordingTracker
              [(10, noHands); (40, noHands); (50, noHands); (80, noHands)] [] eq_refl)
    as [h' [w' [outcomes [Hrun [Hlen _]]]]].
  exists h', w', outcomes. split; [exact Hrun | exact Hlen].
Defined.

(** Clock values that are [gap] apart, the first of them [gap] after
    [start], and none after [T]: there are at most [(T - start) / gap] of
    them. *)
Lemma spaced_count (gap T : R) (times : list R) :
  forall start, start <= T -> (forall t, In t times -> t <= T) ->
    spaced gap start times -> INR (List.length times) * gap <= T - start.
Proof.
  induction times as [|t times IH]; intros start Hstart Hall Hsp.
  - simpl. lra.
  - destruct Hsp as [Hgap Hsp]. change (List.length (t :: times)) with (S (List.length times)).
    rewrite S_INR.
    assert (Ht : t <= T) by (apply Hall; left; reflexivity).
    pose proof (IH t Ht (fun u Hu => Hall u (or_intror Hu)) Hsp) as Hrest.
    lra.
Qed.

Lemma accepted_In (events : list (R * MediaPipeHandler.MediaPipeResults)) :
  forall (outcomes : list MediaPipeHandler.Outcome) (t : R),
    In t (accepted events outcomes) -> exists results, In (t, results) events.
Proof.
  induction events as [|[now results] events IH]; intros [|o outcomes] t Hin;
    simpl in Hin; try contradiction.
  destruct o; try (destruct (IH _ _ Hin) as [r Hr]; exists r; right; exact Hr);
    (destruct Hin as [<-|Hin];
     [exists results; left; reflexivity
     | destruct (IH _ _ Hin) as [r Hr]; exists r; right; exact Hr]).
Qed.

(** X14: the hand tracker processes at most [targetFPS] results per second.
    A handler built by the constructor (30 frames per second when the key
    is absent), given a subscriber and reconfigured by [updateConfig] to a
    positive frame rate [fps], lets at most [T * fps / 1000] results
    through among any results that arrive in the first [T] milliseconds,
    however many arrive and whenever; the others are dropped, and the
    subscriber is called for processed results only. *)
Theorem tracker_processes_at_most_targetFPS (W : Type)
    (config update : MediaPipeHandler.Partial.HandDetectionConfig)
    (callback : list HandControl -> W -> W)
    (events : list (R * MediaPipeHandler.MediaPipeResults)) (w : W) (T : R) :
  let fps0 := nullish (MediaPipeHandler.Partial.targetFPS config) 30 in
  let fps := nullish (MediaPipeHandler.Partial.targetFPS update) fps0 in
  fps0 <> 0 -> 0 < fps -> 0 <= T ->
  (forall now results, In (now, results) events -> now <= T) ->
  exists h0 h h' w' outcomes,
    MediaPipeHandler.constructor W config = Some h0 /\
    MediaPipeHandler.updateConfig (MediaPipeHandler.onHandControls h0 callback) update
    = Some h /\
    MediaPipeHandler.targetFPS (MediaPipeHandler.config h) = fps /\
    MediaPipeHandler.onResultsAll h events w = (h', w', outcomes) /\
    List.length outcomes = List.length events /\
    w' = delivered callback outcomes w /\
    INR (List.length (accepted events outcomes)) * 1000 <= T * fps.
Proof.
  intros fps0 fps Hfps0 Hfps HT Hall.
  assert (Hbuilt : exists h0,
            MediaPipeHandler.constructor W config = Some h0
            /\ MediaPipeHandler.lastFrameTime h0 = 0
            /\ MediaPipeHandler.isProcessing h0 = false
            /\ MediaPipeHandler.targetFPS (MediaPipeHandler.config h0) = fps0).
  { unfold MediaPipeHandler.constructor. cbv zeta.
    cbn [MediaPipeHandler.targetFPS]. fold fps0. rewrite jsdiv_nonzero by exact Hfps0.
    cbn [bind]. eexists. split; [reflexivity|]. repeat split. }
  destruct Hbuilt as [h0 [Hh0 [Hclock0 [Hidle0 Hrate0]]]].
  assert (Hset : exists h,
            MediaPipeHandler.updateConfig (MediaPipeHandler.onHandControls h0 callback) update
            = Some h
            /\ MediaPipeHandler.frameThrottle h = 1000 / fps
            /\ MediaPipeHandler.lastFrameTime h = 0
            /\ MediaPipeHandler.isProcessing h = false
            /\ MediaPipeHandler.handControlsCallback h = Some callback
            /\ MediaPipeHandler.targetFPS (MediaPipeHandler.config h) = fps).
  { unfold MediaPipeHandler.updateConfig, MediaPipeHandler.onHandControls. cbv zeta.
    cbn [MediaPipeHandler.config MediaPipeHandler.assign MediaPipeHandler.targetFPS
         MediaPipeHandler.lastFrameTime MediaPipeHandler.isProcessing
         MediaPipeHandler.handControlsCallback MediaPipeHandler.frameThrottle].
    rewrite Hrate0. fold fps. rewrite jsdiv_nonzero by lra. cbn [bind].
    eexists. split; [reflexivity|].
    cbn [MediaPipeHandler.config MediaPipeHandler.targetFPS
         MediaPipeHandler.lastFrameTime MediaPipeHandler.isProcessing
         MediaPipeHandler.handControlsCallback MediaPipeHandler.frameThrottle].
    repeat split; try assumption; try reflexivity.
    unfold MediaPipeHandler.assign. cbn [MediaPipeHandler.targetFPS]. rewrite Hrate0.
    reflexivity. }
  destruct Hset as [h [Hh [Hthrottle [Hclock [Hidle [Hcallback Hrate]]]]]].
  exists h0, h.
  pose proof (onResultsAll_spec W events h w Hidle) as Hrun.
  destruct (MediaPipeHandler.onResultsAll h events w) as [[h' w'] outcomes].
  destruct Hrun as [Hlen [_ [_ [_ [_ [Hsp [_ Hw]]]]]]].
  rewrite Hcallback in Hw. rewrite Hthrottle, Hclock in Hsp.
  exists h', w', outcomes. split; [exact Hh0|]. split; [exact Hh|]. split; [exact Hrate|].
  split; [reflexivity|]. split; [exact Hlen|]. split; [exact Hw|].
  pose proof (spaced_count (1000 / fps) T (accepted events outcomes) 0 HT) as Hcount.
  assert (Hbound : INR (List.length (accepted events outcomes)) * (1000 / fps) <= T - 0).
  { apply Hcount; [|exact Hsp].
    intros t Ht. destruct (accepted_In events outcomes t Ht) as [results Hin].
    exact (Hall t results Hin). }
  assert (Hmul : INR (List.length (accepted events outcomes)) * (1000 / fps) * fps
                 = INR (List.length (accepted events outcomes)) * 1000)
    by (field; lra).
  rewrite <- Hmul. apply Rmult_le_compat_r; lra.
Qed.

(** The rate limit at the default handler slowed down to 10 frames per
    second, for five results that arrive within 250 ms: at most 250 * 10 /
    1000 of them, that is two, are processed. *)
Lemma tracker_processes_at_most_targetFPS_witness :
  nullish (MediaPipeHandler.Partial.targetFPS noKeys) 30 <> 0 /\
  0 < nullish (MediaPipeHandler.Partial.targetFPS tenPerSecond)
              (nullish (MediaPipeHandler.Partial.targetFPS noKeys) 30) /\
  exists h' w' outcomes,
    MediaPipeHandler.onResultsAll
      {| MediaPipeHandler.lastFrameTime := 0;
         MediaPipeHandler.frameThrottle := 1000 / 10;
         MediaPipeHandler.isProcessing := false;
         MediaPipeHandler.config :=
           {| MediaPipeHandler.maxNumHands := 2; MediaPipeHandler.modelComplexity := 1;
              MediaPipeHandler.minDetectionConfidence := 0.7;
              MediaPipeHandler.minTrackingConfidence := 0.7;
              MediaPipeHandler.targetFPS := 10 |};
         MediaPipeHandler.handControlsCallback :=
           Some (fun controls log => log ++ [controls]) |}
      [(50, noHands); (100, noHands); (150, noHands); (200, noHands); (250, noHands)] []
    = (h', w', outcomes) /\
    INR (List.length
           (accepted [(50, noHands); (100, noHands); (150, noHands); (200, noHands);
                      (250, noHands)] outcomes)) * 1000 <= 250 * 10.
Proof.
  assert (H0 : nullish (MediaPipeHandler.Partial.targetFPS noKeys) 30 <> 0)
    by (simpl; lra).
  assert (H1 : 0 < nullish (MediaPipeHandler.Partial.targetFPS tenPerSecond)
                           (nullish (MediaPipeHandler.Partial.targetFPS noKeys) 30))
    by (simpl; lra).
  split; [exact H0|]. split; [exact H1|].
  destruct (tracker_processes_at_most_targetFPS (list (list HandControl)) noKeys tenPerSecond
              (fun controls log => log ++ [controls])
              [(50, noHands); (100, noHands); (150, noHands); (200, noHands); (250, noHands)]
              [] 250 H0 H1)
    as [h0 [h [h' [w' [outcomes [Hh0 [Hh [_ [Hrun [_ [_ Hcount]]]]]]]]]]].
  { lra. }
  { intros now results Hin. simpl in Hin.
    repeat (destruct Hin as [Hin|Hin]; [injection Hin as <- _; lra|]). contradiction. }
  exists h', w', outcomes. split; [|exact Hcount].
  unfold MediaPipeHandler.constructor in Hh0. cbv zeta in Hh0.
  cbn [MediaPipeHandler.targetFPS MediaPipeHandler.Partial.targetFPS noKeys nullish] in Hh0.
  rewrite jsdiv_nonzero in Hh0 by lra. cbn [bind] in Hh0. injection Hh0 as <-.
  unfold MediaPipeHandler.updateConfig, MediaPipeHandler.onHandControls in Hh. cbv zeta in Hh.
  cbn [MediaPipeHandler.config MediaPipeHandler.assign MediaPipeHandler.targetFPS
       MediaPipeHandler.lastFrameTime MediaPipeHandler.isProcessing
       MediaPipeHandler.handControlsCallback MediaPipeHandler.frameThrottle
       MediaPipeHandler.Partial.targetFPS MediaPipeHandler.Partial.maxNumHands
       MediaPipeHandler.Partial.modelComplexity
       MediaPipeHandler.Partial.minDetectionConfidence
       MediaPipeHandler.Partial.minTrackingConfidence noKeys tenPerSecond nullish] in Hh.
  rewrite jsdiv_nonzero in Hh by lra. cbn [bind] in Hh. injection Hh as <-.
  exact Hrun.
Defined.

(** ** From landmarks to control snapshots *)

Lemma nth_error_nth_default {A : Type} (l : list A) (k : nat) (d : A) :
  (k < List.length l)%nat -> nth_error l k = Some (nth k l d).
Proof. intros H. apply nth_error_nth', H. Qed.

Lemma average_Some (coordinate : Vector3 -> R) (handLandmarks : list Vector3) :
  (18 <= List.length handLandmarks)%nat ->
  let l := fun k => nth k handLandmarks (vec3 0 0 0) in
  MediaPipeHandler.average coordinate handLandmarks [0; 5; 9; 13; 17]%nat
  = Some ((coordinate (l 0%nat) + coordinate (l 5%nat) + coordinate (l 9%nat)
           + coordinate (l 13%nat) + coordinate (l 17%nat)) / 5).
Proof.
  intros Hlen l. unfold MediaPipeHandler.average. cbn [foldM].
  rewrite !(nth_error_nth_default handLandmarks _ (vec3 0 0 0)) by lia. cbn [bind].
  rewrite jsdiv_nonzero by (simpl; lra). f_equal. unfold l. simpl INR.
  replace (1 + 1 + 1 + 1 + 1) with 5 by lra. f_equal. ring.
Qed.

Lemma average_None (coordinate : Vector3 -> R) (handLandmarks : list Vector3) :
  (List.length handLandmarks < 18)%nat ->
  MediaPipeHandler.average coordinate handLandmarks [0; 5; 9; 13; 17]%nat = None.
Proof.
  intros Hlen. unfold MediaPipeHandler.average. cbn [foldM].
  assert (H17 : nth_error handLandmarks 17 = None) by (apply nth_error_None; lia).
  destruct (nth_error handLandmarks 0); [|reflexivity]. cbn [bind].
  destruct (nth_error handLandmarks 5); [|reflexivity]. cbn [bind].
  destruct (nth_error handLandmarks 9); [|reflexivity]. cbn [bind].
  destruct (nth_error handLandmarks 13); [|reflexivity]. cbn [bind].
  rewrite H17. reflexivity.
Qed.

Lemma filterDefined_In {A : Type} (l : list (option A)) (a : A) :
  In a (MediaPipeHandler.filterDefined l) <-> In (Some a) l.
Proof.
  induction l as [|[b|] l IH]; simpl; [tauto | |].
  - rewrite IH. split; intros [H|H]; [left; congruence | right; exact H
                                      | left; congruence | right; exact H].
  - rewrite IH. split; [intros H; right; exact H | intros [H|H]; [discriminate | exact H]].
Qed.

Lemma filterDefined_length {A : Type} (l : list (option A)) :
  (List.length (MediaPipeHandler.filterDefined l) <= List.length l)%nat.
Proof. induction l as [|[b|] l IH]; simpl; lia. Qed.

(** The snapshot entry of one hand. *)
Lemma handControlOf_Some (handLandmarks : list Vector3) (index : nat) :
  (18 <= List.length handLandmarks)%nat ->
  MediaPipeHandler.handControlOf handLandmarks index
  = Some {| palm := toSimulation (palmCentroid handLandmarks);
            fingers := map toSimulation
                           (MediaPipeHandler.filterDefined
                              (map (fun tipIndex => nth_error handLandmarks tipIndex)
                                   [4; 8; 12; 16; 20]%nat));
            handIndex := index |}.
Proof.
  intros Hlen. unfold MediaPipeHandler.handControlOf. cbv zeta.
  rewrite !average_Some by exact Hlen. cbn [bind]. reflexivity.
Qed.

Lemma handControlsOf_Some (hands : list (list Vector3)) :
  (forall handLandmarks, In handLandmarks hands -> (18 <= List.length handLandmarks)%nat) ->
  exists controls,
    MediaPipeHandler.handControlsOf {| MediaPipeHandler.multiHandLandmarks := Some hands |}
    = Some controls /\
    List.length controls = List.length hands /\
    forall i handLandmarks, nth_error hands i = Some handLandmarks ->
      exists control, nth_error controls i = Some control
                      /\ MediaPipeHandler.handControlOf handLandmarks i = Some control.
Proof.
  intros Hall. unfold MediaPipeHandler.handControlsOf.
  cbn [MediaPipeHandler.multiHandLandmarks].
  destruct (Nat.ltb_spec 0 (List.length hands)) as [Hpos|Hzero].
  - destruct (mapM_total (fun ih => MediaPipeHandler.handControlOf (snd ih) (fst ih))
                         (combine (seq 0 (List.length hands)) hands)) as [controls Hc].
    { intros [i hl] Hin. apply In_combine_seq in Hin. destruct Hin as [j [Hj _]].
      cbn [fst snd] in *. rewrite handControlOf_Some; [eexists; reflexivity|].
      apply Hall. eapply nth_error_In, Hj. }
    exists controls. split; [exact Hc|].
    destruct (mapM_nth _ _ _ Hc) as [Hlen Hnth].
    split; [rewrite Hlen, length_combine, length_seq; apply Nat.min_id|].
    intros i hl Hi. destruct (Hnth i (i, hl)) as [c [Hci Hf]].
    + rewrite (nth_error_combine_seq hands 0 i hl Hi). reflexivity.
    + exists c. split; [exact Hci | exact Hf].
  - destruct hands; [|simpl in Hzero; lia].
    exists []. split; [reflexivity|]. split; [reflexivity|].
    intros [|i] hl Hi; discriminate.
Qed.

(** X15: the snapshot entry the hand tracker builds for one hand.  With
    fewer than 18 landmarks the conversion throws.  Otherwise the palm is
    the mean of landmarks 0, 5, 9, 13 and 17 mapped from image coordinates
    to simulation coordinates ([(x - 0.5) * 50], [(y - 0.5) * 50],
    [z * 50]), the hand index is the position of the hand in the result,
    and the fingers are the landmarks 4, 8, 12, 16 and 20 that exist,
    mapped the same way: all five of them from 21 landmarks on.  For
    landmarks inside the image ([x] and [y] between 0 and 1) the palm and
    every finger lie between -25 and 25 in [x] and [y]. *)
Theorem tracker_converts_landmarks (handLandmarks : list Vector3) (index : nat) :
  ((List.length handLandmarks < 18)%nat ->
   MediaPipeHandler.handControlOf handLandmarks index = None)
  /\ ((18 <= List.length handLandmarks)%nat ->
      exists control,
        MediaPipeHandler.handControlOf handLandmarks index = Some control /\
        palm control = toSimulation (palmCentroid handLandmarks) /\
        handIndex control = index /\
        (List.length (fingers control) <= 5)%nat /\
        ((21 <= List.length handLandmarks)%nat ->
         fingers control
         = map (fun k => toSimulation (nth k handLandmarks (vec3 0 0 0)))
               [4; 8; 12; 16; 20]%nat) /\
        ((forall l, In l handLandmarks -> 0 <= x l <= 1 /\ 0 <= y l <= 1) ->
         (-25 <= x (palm control) <= 25 /\ -25 <= y (palm control) <= 25) /\
         forall finger, In finger (fingers control) ->
                        -25 <= x finger <= 25 /\ -25 <= y finger <= 25)).
Proof.
  split.
  - intros Hlen. unfold MediaPipeHandler.handControlOf. cbv zeta.
    rewrite average_None by exact Hlen. reflexivity.
  - intros Hlen. eexists. split; [apply handControlOf_Some, Hlen|].
    cbn [palm handIndex fingers]. split; [reflexivity|]. split; [reflexivity|].
    split; [|split].
    + rewrite length_map. apply (filterDefined_length
        (map (fun tipIndex => nth_error handLandmarks tipIndex) [4; 8; 12; 16; 20]%nat)).
    + intros H21. cbn [map].
      rewrite !(nth_error_nth_default handLandmarks _ (vec3 0 0 0)) by lia. reflexivity.
    + intros Hin.
      assert (Hnth : forall k, (k < List.length handLandmarks)%nat ->
                0 <= x (nth k handLandmarks (vec3 0 0 0)) <= 1
                /\ 0 <= y (nth k handLandmarks (vec3 0 0 0)) <= 1).
      { intros k Hk. apply Hin, nth_In, Hk. }
      split.
      * unfold toSimulation, palmCentroid. cbv zeta. cbn [x y z].
        destruct (Hnth 0%nat) as [? ?]; [lia|]. destruct (Hnth 5%nat) as [? ?]; [lia|].
        destruct (Hnth 9%nat) as [? ?]; [lia|]. destruct (Hnth 13%nat) as [? ?]; [lia|].
        destruct (Hnth 17%nat) as [? ?]; [lia|]. lra.
      * intros finger Hf. apply in_map_iff in Hf. destruct Hf as [l [<- Hl]].
        apply filterDefined_In in Hl. apply in_map_iff in Hl. destruct Hl as [k [Hk _]].
        apply nth_error_In in Hk. destruct (Hin l Hk) as [? ?].
        unfold toSimulation. cbn [x y z]. lra.
Qed.

(** ** From the camera to the needle sphere *)

Lemma dist_toSimulation (a b : Vector3) :
  dist (toSimulation a) (toSimulation b) = 50 * dist a b.
Proof.
  unfold dist, distanceToSquared, toSimulation. cbv zeta. cbn [x y z].
  replace (((x a - 0.5) * 50 - (x b - 0.5) * 50) * ((x a - 0.5) * 50 - (x b - 0.5) * 50)
           + ((y a - 0.5) * 50 - (y b - 0.5) * 50) * ((y a - 0.5) * 50 - (y b - 0.5) * 50)
           + (z a * 50 - z b * 50) * (z a * 50 - z b * 50))
    with (50 * 50 * ((x a - x b) * (x a - x b) + (y a - y b) * (y a - y b)
                     + (z a - z b) * (z a - z b))) by ring.
  rewrite sqrt_mult by (try apply sum_squares_nonneg; lra).
  rewrite sqrt_square by lra. reflexivity.
Qed.

Lemma setHandControls_systems (sim : OptimizedLiquidSimulation.OptimizedLiquidSimulation)
    (controls : list HandControl) :
  let sim' := OptimizedLiquidSimulation.setHandControls sim controls in
  List.length (OptimizedLiquidSimulation.systems sim')
  = List.length (OptimizedLiquidSimulation.systems sim)
  /\ forall i s, nth_error (OptimizedLiquidSimulation.systems sim) i = Some s ->
       nth_error (OptimizedLiquidSimulation.systems sim') i = Some (setHandControls s controls).
Proof.
  cbv zeta. unfold OptimizedLiquidSimulation.setHandControls.
  cbn [OptimizedLiquidSimulation.systems]. split; [apply length_map|].
  intros i s Hs. rewrite nth_error_map, Hs. reflexivity.
Qed.

(** X16: from a camera frame to the needle sphere.  A handler that is idle,
    wired to the simulation by the subscriber of [OptimizedHandDetection],
    and not throttling hands every instance of the simulation the snapshot
    of the frame and touches nothing else.  A frame without hands empties
    the snapshot, so the needle sphere returns to the origin with driving
    distance 10.  A frame with two hands of at least 18 landmarks puts the
    center of the needle sphere at the image of the midpoint of the two
    palm centroids and makes the driving distance 50 times their distance
    in image coordinates, so the inner shell has radius [baseRadius + 50 * d
    * radiusHandScale]. *)
Theorem tracked_hands_drive_the_needle_sphere
    (h : MediaPipeHandler.MediaPipeHandler
           (option OptimizedLiquidSimulation.OptimizedLiquidSimulation))
    (now : R) (sim : OptimizedLiquidSimulation.OptimizedLiquidSimulation) :
  MediaPipeHandler.isProcessing h = false ->
  MediaPipeHandler.handControlsCallback h = Some OptimizedHandDetection.subscriber ->
  MediaPipeHandler.frameThrottle h <= now - MediaPipeHandler.lastFrameTime h ->
  (forall results,
      MediaPipeHandler.multiHandLandmarks results = None
      \/ MediaPipeHandler.multiHandLandmarks results = Some [] ->
      exists h' sim',
        MediaPipeHandler.onResults h now results (Some sim)
        = (h', Some sim', MediaPipeHandler.processed []) /\
        List.length (OptimizedLiquidSimulation.systems sim')
        = List.length (OptimizedLiquidSimulation.systems sim) /\
        forall i s, nth_error (OptimizedLiquidSimulation.systems sim) i = Some s ->
          exists s', nth_error (OptimizedLiquidSimulation.systems sim') i = Some s' /\
                     params s' = params s /\ particles s' = particles s /\
                     handControls s' = [] /\
                     sphereCenter (handControls s') = Some (vec3 0 0 0, 10))
  /\ (forall hand0 hand1 : list Vector3,
        (18 <= List.length hand0)%nat -> (18 <= List.length hand1)%nat ->
        let d := dist (palmCentroid hand0) (palmCentroid hand1) in
        exists h' sim' c0 c1,
          MediaPipeHandler.onResults h now
            {| MediaPipeHandler.multiHandLandmarks := Some [hand0; hand1] |} (Some sim)
          = (h', Some sim', MediaPipeHandler.processed [c0; c1]) /\
          palm c0 = toSimulation (palmCentroid hand0) /\
          palm c1 = toSimulation (palmCentroid hand1) /\
          handIndex c0 = 0%nat /\ handIndex c1 = 1%nat /\
          List.length (OptimizedLiquidSimulation.systems sim')
          = List.length (OptimizedLiquidSimulation.systems sim) /\
          forall i s, nth_error (OptimizedLiquidSimulation.systems sim) i = Some s ->
            exists s', nth_error (OptimizedLiquidSimulation.systems sim') i = Some s' /\
                       params s' = params s /\ particles s' = particles s /\
                       handControls s' = [c0; c1] /\
                       sphereCenter (handControls s')
                       = Some (toSimulation
                                 (multiplyScalar
                                    (add (palmCentroid hand0) (palmCentroid hand1)) 0.5),
                               50 * d) /\
                       forall p, groupIndex p = 0%nat ->
                         targetRadiusForParticle (params s') (50 * d) p
                         = nullish (baseRadius (params s)) 8
                           + 50 * d * nullish (radiusHandScale (params s)) 1.2).
Proof.
  intros Hidle Hcb Hgap.
  assert (Hnot : ~ now - MediaPipeHandler.lastFrameTime h < MediaPipeHandler.frameThrottle h)
    by lra.
  split.
  - intros results Hnone.
    assert (Hhc : MediaPipeHandler.handControlsOf results = Some []).
    { unfold MediaPipeHandler.handControlsOf. destruct Hnone as [-> | ->]; reflexivity. }
    unfold MediaPipeHandler.onResults. rewrite Hidle. unfold MediaPipeHandler.processResults.
    destruct (Rlt_dec _ _) as [Hlt|_]; [contradiction|].
    rewrite Hhc, Hcb. cbn [OptimizedHandDetection.subscriber].
    eexists. eexists. split; [reflexivity|].
    destruct (setHandControls_systems sim []) as [Hlen Hnth]. cbv zeta in Hlen, Hnth.
    split; [exact Hlen|]. intros i s Hs. eexists. split; [apply Hnth, Hs|].
    repeat split.
  - intros hand0 hand1 H0 H1 d.
    assert (Hhc : MediaPipeHandler.handControlsOf
                    {| MediaPipeHandler.multiHandLandmarks := Some [hand0; hand1] |}
                  = Some [ {| palm := toSimulation (palmCentroid hand0);
                              fingers := map toSimulation
                                (MediaPipeHandler.filterDefined
                                   (map (fun tipIndex => nth_error hand0 tipIndex)
                                        [4; 8; 12; 16; 20]%nat));
                              handIndex := 0 |};
                           {| palm := toSimulation (palmCentroid hand1);
                              fingers := map toSimulation
                                (MediaPipeHandler.filterDefined
                                   (map (fun tipIndex => nth_error hand1 tipIndex)
                                        [4; 8; 12; 16; 20]%nat));
                              handIndex := 1 |} ]).
    { unfold MediaPipeHandler.handControlsOf. cbn [MediaPipeHandler.multiHandLandmarks].
      cbn [List.length Nat.ltb Nat.leb seq combine mapM fst snd].
      rewrite !handControlOf_Some by assumption. reflexivity. }
    unfold MediaPipeHandler.onResults. rewrite Hidle. unfold MediaPipeHandler.processResults.
    destruct (Rlt_dec _ _) as [Hlt|_]; [contradiction|].
    rewrite Hhc, Hcb. cbn [OptimizedHandDetection.subscriber].
    eexists. eexists. eexists. eexists. split; [reflexivity|].
    cbn [palm handIndex]. split; [reflexivity|]. split; [reflexivity|].
    split; [reflexivity|]. split; [reflexivity|].
    match goal with
    | |- context [OptimizedLiquidSimulation.setHandControls sim ?cs] =>
        destruct (setHandControls_systems sim cs) as [Hlen Hnth]
    end.
    cbv zeta in Hlen, Hnth. split; [exact Hlen|].
    intros i s Hs. eexists. split; [apply Hnth, Hs|].
    cbn [params particles handControls setHandControls].
    split; [reflexivity|]. split; [reflexivity|]. split; [reflexivity|]. split.
    + unfold sphereCenter, palmVector. cbn [palm]. rewrite distanceTo_Some. cbn [bind].
      f_equal. f_equal.
      * unfold toSimulation, multiplyScalar, addVectors, add. cbn [x y z].
        apply vec3_ext; cbn [x y z]; lra.
      * unfold d. rewrite <- dist_toSimulation. f_equal; apply vec3_ext; reflexivity.
    + intros p Hg. unfold targetRadiusForParticle, effectiveRadius. cbv zeta.
      rewrite Hg. cbn [Nat.eqb]. ring.
Qed.

(** The camera-to-sphere theorem at the default handler, 100 ms after the
    page loaded, for a frame without hands. *)
Lemma tracked_hands_drive_the_needle_sphere_witness :
  MediaPipeHandler.isProcessing wiredTracker = false /\
  MediaPipeHandler.handControlsCallback wiredTracker = Some OptimizedHandDetection.subscriber /\
  MediaPipeHandler.frameThrottle wiredTracker
  <= 100 - MediaPipeHandler.lastFrameTime wiredTracker /\
  exists h' sim',
    MediaPipeHandler.onResults wiredTracker 100 noHands (Some needleSimulation)
    = (h', Some sim', MediaPipeHandler.processed []).
Proof.
  assert (Hgap : MediaPipeHandler.frameThrottle wiredTracker
                 <= 100 - MediaPipeHandler.lastFrameTime wiredTracker) by (simpl; lra).
  split; [reflexivity|]. split; [reflexivity|]. split; [exact Hgap|].
  destruct (tracked_hands_drive_the_needle_sphere wiredTracker 100 needleSimulation
              eq_refl eq_refl Hgap) as [Hnone _].
  destruct (Hnone noHands (or_introl eq_refl)) as [h' [sim' [Hrun _]]].
  exists h', sim'. exact Hrun.
Defined.

(** ** The meditation skeletons *)

Lemma createMeditationSkeleton_Some (k : nat) :
  exists made,
    Skeleton.createMeditationSkeleton k = Some made /\
    Skeleton.id made = k /\
    Skeleton.position made = vec3 0 0 0 /\
    Skeleton.rotationY made = 0 /\
    List.length (Skeleton.children made) = 41%nat /\
    Skeleton.pelvisOf made = Some (Skeleton.createJoint 0 0.5 0).
Proof.
  unfold Skeleton.createMeditationSkeleton, Skeleton.createBone. cbv zeta.
  repeat (rewrite length_Some; cbn [bind]).
  eexists. split; [reflexivity|]. repeat split.
Qed.

Lemma createMeditationSkeleton_children (j k : nat) (a b : Skeleton.Group) :
  Skeleton.createMeditationSkeleton j = Some a ->
  Skeleton.createMeditationSkeleton k = Some b ->
  Skeleton.children a = Skeleton.children b.
Proof.
  unfold Skeleton.createMeditationSkeleton, Skeleton.createBone. cbv zeta.
  repeat (rewrite length_Some; cbn [bind]).
  intros Ha Hb. injection Ha as <-. injection Hb as <-. reflexivity.
Qed.

Lemma groupIds_app (a b : list Skeleton.Object3D) :
  groupIds (a ++ b) = groupIds a ++ groupIds b.
Proof.
  induction a as [|o a IH]; [reflexivity|]. destruct o; simpl; rewrite IH; reflexivity.
Qed.

Lemma fixtures_app (a b : list Skeleton.Object3D) :
  fixtures (a ++ b) = fixtures a ++ fixtures b.
Proof.
  induction a as [|o a IH]; [reflexivity|]. destruct o; simpl; rewrite IH; reflexivity.
Qed.

Lemma fixtures_remove (k : nat) (scene : list Skeleton.Object3D) :
  fixtures (Skeleton.remove k scene) = fixtures scene.
Proof.
  induction scene as [|o scene IH]; [reflexivity|].
  destruct o as [| | |j]; simpl; try (rewrite IH; reflexivity).
  destruct (j =? k)%nat; [reflexivity | simpl; exact IH].
Qed.

Lemma remove_absent (k : nat) (scene : list Skeleton.Object3D) :
  ~ In k (groupIds scene) -> Skeleton.remove k scene = scene.
Proof.
  induction scene as [|o scene IH]; intros Hk; [reflexivity|].
  destruct o as [| | |j]; simpl in *; try (rewrite IH by exact Hk; reflexivity).
  destruct (Nat.eqb_spec j k) as [->|Hjk]; [exfalso; apply Hk; left; reflexivity|].
  rewrite IH; [reflexivity|]. intros H. apply Hk. right. exact H.
Qed.

Lemma groupIds_remove_head (k : nat) (ids : list nat) (scene : list Skeleton.Object3D) :
  groupIds scene = k :: ids -> groupIds (Skeleton.remove k scene) = ids.
Proof.
  induction scene as [|o scene IH]; intros H; [discriminate|].
  destruct o as [| | |j]; simpl in *; try (apply IH; exact H).
  injection H as -> Hids. rewrite Nat.eqb_refl. exact Hids.
Qed.

Lemma groupIds_remove_last (k : nat) (scene : list Skeleton.Object3D) :
  forall ids, groupIds scene = ids ++ [k] -> ~ In k ids ->
              groupIds (Skeleton.remove k scene) = ids.
Proof.
  induction scene as [|o scene IH]; intros ids H Hk.
  - destruct ids; discriminate.
  - destruct o as [| | |j]; simpl in *; try (apply IH; assumption).
    destruct ids as [|i ids]; simpl in H.
    + injection H as -> Hnil. rewrite Nat.eqb_refl. exact Hnil.
    + injection H as -> Hrest.
      destruct (Nat.eqb_spec i k) as [->|Hik]; [exfalso; apply Hk; left; reflexivity|].
      simpl. f_equal. apply IH; [exact Hrest|]. intros Hin. apply Hk. right. exact Hin.
Qed.

Lemma groupIds_add (k : nat) (scene : list Skeleton.Object3D) :
  ~ In k (groupIds scene) ->
  groupIds (Skeleton.add k scene) = groupIds scene ++ [k]
  /\ fixtures (Skeleton.add k scene) = fixtures scene.
Proof.
  intros Hk. unfold Skeleton.add. rewrite remove_absent by exact Hk.
  rewrite groupIds_app, fixtures_app. simpl. rewrite app_nil_r. split; reflexivity.
Qed.

(** "Remove excess skeletons": the first [n] skeletons stay, the groups of
    the others leave the scene. *)
Lemma popExcess_spec (fuel n : nat) :
  forall (skeletons : list Skeleton.Group) (scene : list Skeleton.Object3D),
    (List.length skeletons - n <= fuel)%nat ->
    groupIds scene = map Skeleton.id skeletons ->
    NoDup (map Skeleton.id skeletons) ->
    Skeleton.popExcess fuel n skeletons scene
    = (firstn n skeletons, snd (Skeleton.popExcess fuel n skeletons scene))
    /\ groupIds (snd (Skeleton.popExcess fuel n skeletons scene))
       = map Skeleton.id (firstn n skeletons)
    /\ fixtures (snd (Skeleton.popExcess fuel n skeletons scene)) = fixtures scene.
Proof.
  induction fuel as [|fuel IH]; intros skeletons scene Hfuel Hids Hnd.
  - cbn [Skeleton.popExcess snd]. rewrite firstn_all2 by lia. repeat split. exact Hids.
  - cbn [Skeleton.popExcess].
    destruct (Nat.ltb_spec n (List.length skeletons)) as [Hlt|Hge].
    + destruct (rev skeletons) as [|lastOne rest] eqn:Hrev.
      { apply (f_equal (@List.length _)) in Hrev. rewrite length_rev in Hrev. simpl in Hrev. lia. }
      assert (Hsk : skeletons = rev rest ++ [lastOne]).
      { rewrite <- (rev_involutive skeletons), Hrev. reflexivity. }
      assert (Hlen : List.length skeletons = S (List.length (rev rest))).
      { rewrite Hsk, length_app. simpl. lia. }
      rewrite Hsk in Hids, Hnd. rewrite map_app in Hids, Hnd. simpl in Hids, Hnd.
      assert (Hnotin : ~ In (Skeleton.id lastOne) (map Skeleton.id (rev rest))).
      { apply NoDup_remove_2 in Hnd. rewrite app_nil_r in Hnd. exact Hnd. }
      assert (Hnd' : NoDup (map Skeleton.id (rev rest))).
      { apply NoDup_remove_1 in Hnd. rewrite app_nil_r in Hnd. exact Hnd. }
      destruct (IH (rev rest) (Skeleton.remove (Skeleton.id lastOne) scene)) as [H1 [H2 H3]].
      * lia.
      * apply groupIds_remove_last; assumption.
      * exact Hnd'.
      * assert (Hfirst : firstn n skeletons = firstn n (rev rest)).
        { rewrite Hsk, firstn_app.
          replace (n - List.length (rev rest))%nat with 0%nat by lia.
          simpl. apply app_nil_r. }
        rewrite Hfirst. split; [exact H1|]. split; [exact H2|].
        rewrite H3. apply fixtures_remove.
    + cbn [snd]. rewrite firstn_all2 by lia. repeat split. exact Hids.
Qed.

Lemma consistent_firstn (p : OptimizedParticleSystem) (scene : list Skeleton.Object3D)
    (skeletons : list Skeleton.Group) (next n : nat) (scene' : list Skeleton.Object3D) :
  consistent {| Skeleton.physics := p; Skeleton.scene := scene;
                Skeleton.skeletons := skeletons; Skeleton.nextId := next |} ->
  groupIds scene' = map Skeleton.id (firstn n skeletons) ->
  consistent {| Skeleton.physics := p; Skeleton.scene := scene';
                Skeleton.skeletons := firstn n skeletons; Skeleton.nextId := next |}.
Proof.
  intros [_ [Hnd Hmade]] Hids. cbn [Skeleton.scene Skeleton.skeletons Skeleton.nextId] in *.
  split; [exact Hids|]. split.
  - rewrite <- (firstn_skipn n skeletons), map_app in Hnd.
    apply NoDup_app_remove_r in Hnd. exact Hnd.
  - intros skeleton Hin. apply Hmade.
    rewrite <- (firstn_skipn n skeletons). apply in_or_app. left. exact Hin.
Qed.

(** "Add skeletons": new groups are made until there is one per hand; the
    skeletons already there stay, as the same objects, at the front. *)
Lemma pushMissing_spec (p : OptimizedParticleSystem) (fuel n : nat) :
  forall (skeletons : list Skeleton.Group) (scene : list Skeleton.Object3D) (next : nat),
    (n - List.length skeletons <= fuel)%nat ->
    consistent {| Skeleton.physics := p; Skeleton.scene := scene;
                  Skeleton.skeletons := skeletons; Skeleton.nextId := next |} ->
    exists skeletons' scene' next',
      Skeleton.pushMissing fuel n skeletons scene next = Some (skeletons', scene', next')
      /\ consistent {| Skeleton.physics := p; Skeleton.scene := scene';
                       Skeleton.skeletons := skeletons'; Skeleton.nextId := next' |}
      /\ fixtures scene' = fixtures scene
      /\ List.length skeletons' = Nat.max n (List.length skeletons)
      /\ firstn (List.length skeletons) skeletons' = skeletons
      /\ (next <= next')%nat
      /\ (forall i skeleton, nth_error skeletons' i = Some skeleton ->
            (List.length skeletons <= i)%nat -> (next <= Skeleton.id skeleton)%nat).
Proof.
  induction fuel as [|fuel IH]; intros skeletons scene next Hfuel Hcons.
  - exists skeletons, scene, next. cbn [Skeleton.pushMissing].
    split; [reflexivity|]. split; [exact Hcons|]. split; [reflexivity|].
    split; [lia|]. split; [apply firstn_all|]. split; [lia|].
    intros i skeleton Hi Hle. apply nth_error_Some_lt in Hi. lia.
  - cbn [Skeleton.pushMissing].
    destruct (Nat.ltb_spec (List.length skeletons) n) as [Hlt|Hge].
    + destruct (createMeditationSkeleton_Some next)
        as [made [Hmade [Hid [_ [_ [_ _]]]]]].
      rewrite Hmade. cbn [bind]. rewrite Hid.
      destruct Hcons as [Hids [Hnd Hall]].
      cbn [Skeleton.scene Skeleton.skeletons Skeleton.nextId] in Hids, Hnd, Hall.
      assert (Hfresh : ~ In next (map Skeleton.id skeletons)).
      { intros Hin. apply in_map_iff in Hin. destruct Hin as [skeleton [Heq Hin]].
        destruct (Hall skeleton Hin) as [Hlt' _]. lia. }
      destruct (groupIds_add next scene) as [Hadd Hfix].
      { rewrite Hids. exact Hfresh. }
      destruct (IH (skeletons ++ [made]) (Skeleton.add next scene) (S next))
        as [skeletons' [scene' [next' [Hrun [Hcons' [Hfix' [Hlen [Hfirst [Hnext Hnew]]]]]]]]].
      * rewrite length_app. simpl. lia.
      * split; [|split]; cbn [Skeleton.scene Skeleton.skeletons Skeleton.nextId].
        -- rewrite Hadd, Hids, map_app. simpl. rewrite Hid. reflexivity.
        -- rewrite map_app. simpl. rewrite Hid.
           apply NoDup_app; [exact Hnd | repeat constructor; intros [] |].
           intros a Ha [Heq|[]]. subst a. exact (Hfresh Ha).
        -- intros skeleton Hin. apply in_app_or in Hin. destruct Hin as [Hin|[Heq|[]]].
           ++ destruct (Hall skeleton Hin) as [Hlt' Hex]. split; [lia | exact Hex].
           ++ subst skeleton. rewrite Hid. split; [lia|].
              exists made. split; [exact Hmade | reflexivity].
      * exists skeletons', scene', next'.
        rewrite length_app in Hlen, Hfirst, Hnew. simpl in Hlen, Hfirst, Hnew.
        split; [exact Hrun|]. split; [exact Hcons'|].
        split; [rewrite Hfix'; exact Hfix|]. split; [lia|]. split.
        -- assert (Hmin : firstn (List.length skeletons)
                             (firstn (List.length skeletons + 1) skeletons')
                          = firstn (List.length skeletons) skeletons').
           { rewrite firstn_firstn. f_equal. lia. }
           rewrite <- Hmin, Hfirst, firstn_app, Nat.sub_diag, firstn_all. simpl.
           apply app_nil_r.
        -- split; [lia|]. intros i skeleton Hi Hle.
           destruct (Nat.eq_dec i (List.length skeletons)) as [->|Hne].
           ++ assert (Hat : nth_error (firstn (List.length skeletons + 1) skeletons')
                                      (List.length skeletons) = Some skeleton).
              { rewrite nth_error_firstn.
                destruct (Nat.ltb_spec (List.length skeletons) (List.length skeletons + 1));
                  [exact Hi | lia]. }
              rewrite Hfirst, nth_error_app2, Nat.sub_diag in Hat by lia.
              simpl in Hat. injection Hat as <-. rewrite Hid. lia.
           ++ assert (Hs : (S next <= Skeleton.id skeleton)%nat)
                by (apply (Hnew i skeleton Hi); lia).
              lia.
    + exists skeletons, scene, next.
      split; [reflexivity|]. split; [exact Hcons|]. split; [reflexivity|].
      split; [lia|]. split; [apply firstn_all|]. split; [lia|].
      intros i skeleton Hi Hle. apply nth_error_Some_lt in Hi. lia.
Qed.

(** "Update skeleton positions": every skeleton of index [k] to [k + m - 1]
    is moved below its hand centre, the others are not touched. *)
Lemma placeLoop_spec (centers : list Vector3) (m : nat) :
  forall (k : nat) (current : list Skeleton.Group),
    (k + m <= List.length current)%nat ->
    (k + m <= List.length centers)%nat ->
    exists placed,
      foldM (Skeleton.place centers) (seq k m) current = Some placed
      /\ List.length placed = List.length current
      /\ (forall j, (j < k \/ k + m <= j)%nat -> nth_error placed j = nth_error current j)
      /\ (forall j, (k <= j < k + m)%nat ->
            exists skeleton center,
              nth_error current j = Some skeleton
              /\ nth_error centers j = Some center
              /\ nth_error placed j
                 = Some {| Skeleton.id := Skeleton.id skeleton;
                           Skeleton.children := Skeleton.children skeleton;
                           Skeleton.position :=
                             vec3 (x center) (y center - 1.5) (z center);
                           Skeleton.rotationY := 0 |}).
Proof.
  induction m as [|m IH]; intros k current Hcur Hcen.
  - exists current. cbn [seq foldM]. split; [reflexivity|]. split; [reflexivity|].
    split; [reflexivity|]. intros j Hj. lia.
  - cbn [seq foldM]. unfold Skeleton.place at 1.
    destruct (nth_error_lt_Some current k) as [skeleton Hsk]; [lia|].
    destruct (nth_error_lt_Some centers k) as [center Hc]; [lia|].
    rewrite Hsk, Hc. cbn [bind].
    set (moved := {| Skeleton.id := Skeleton.id skeleton;
                     Skeleton.children := Skeleton.children skeleton;
                     Skeleton.position := vec3 (x center) (y center - 1.5) (z center);
                     Skeleton.rotationY := 0 |}).
    destruct (IH (S k) (replaceAt k moved current))
      as [placed [Hrun [Hlen [Hout Hin]]]].
    + rewrite length_replaceAt. lia.
    + lia.
    + exists placed. rewrite length_replaceAt in Hlen.
      split; [exact Hrun|]. split; [exact Hlen|]. split.
      * intros j Hj. rewrite Hout by lia. apply nth_error_replaceAt_other. lia.
      * intros j Hj. destruct (Nat.eq_dec j k) as [->|Hne].
        -- exists skeleton, center. split; [exact Hsk|]. split; [exact Hc|].
           rewrite Hout by lia. apply nth_error_replaceAt_same. lia.
        -- destruct (Hin j) as [sk [c [H1 [H2 H3]]]]; [lia|].
           exists sk, c. rewrite nth_error_replaceAt_other in H1 by lia.
           split; [exact H1|]. split; [exact H2 | exact H3].
Qed.

Lemma map_id_pointwise (a b : list Skeleton.Group) :
  List.length a = List.length b ->
  (forall j u v, nth_error a j = Some u -> nth_error b j = Some v ->
                 Skeleton.id u = Skeleton.id v) ->
  map Skeleton.id a = map Skeleton.id b.
Proof.
  revert b. induction a as [|u a IH]; intros [|v b] Hlen Hid; simpl in *; try lia.
  - reflexivity.
  - f_equal.
    + apply (Hid 0%nat); reflexivity.
    + apply IH; [lia|]. intros j u' v' Hu Hv. apply (Hid (S j)); assumption.
Qed.

Lemma removeAll_spec (skeletons : list Skeleton.Group) :
  forall scene, groupIds scene = map Skeleton.id skeletons ->
    groupIds (Skeleton.removeAll skeletons scene) = []
    /\ fixtures (Skeleton.removeAll skeletons scene) = fixtures scene.
Proof.
  unfold Skeleton.removeAll.
  induction skeletons as [|skeleton skeletons IH]; intros scene Hids; simpl in *.
  - split; [exact Hids | reflexivity].
  - destruct (IH (Skeleton.remove (Skeleton.id skeleton) scene)) as [H1 H2].
    + apply groupIds_remove_head. exact Hids.
    + split; [exact H1|]. rewrite H2. apply fixtures_remove.
Qed.

(** [updateSkeletons] when the behaviour is not the swarm. *)
Lemma updateSkeletons_other (sys : Skeleton.System) :
  consistent sys ->
  behavior (params (Skeleton.physics sys)) <> needleSwarm ->
  exists sys',
    Skeleton.updateSkeletons sys = Some sys'
    /\ Skeleton.physics sys' = Skeleton.physics sys
    /\ consistent sys'
    /\ fixtures (Skeleton.scene sys') = fixtures (Skeleton.scene sys)
    /\ Skeleton.skeletons sys' = []
    /\ groupIds (Skeleton.scene sys') = [].
Proof.
  intros [Hids _] Hmode.
  destruct (removeAll_spec (Skeleton.skeletons sys) (Skeleton.scene sys) Hids) as [H1 H2].
  exists {| Skeleton.physics := Skeleton.physics sys;
            Skeleton.scene := Skeleton.removeAll (Skeleton.skeletons sys) (Skeleton.scene sys);
            Skeleton.skeletons := []; Skeleton.nextId := Skeleton.nextId sys |}.
  split.
  - unfold Skeleton.updateSkeletons.
    destruct (behavior (params (Skeleton.physics sys))); try reflexivity.
    exfalso. apply Hmode. reflexivity.
  - cbn [Skeleton.physics Skeleton.scene Skeleton.skeletons]. split; [reflexivity|].
    split.
    + split; [|split]; cbn [Skeleton.scene Skeleton.skeletons Skeleton.nextId].
      * exact H1.
      * constructor.
      * intros skeleton [].
    + split; [exact H2|]. split; [reflexivity | exact H1].
Qed.

(** [updateSkeletons] in the swarm. *)
Lemma updateSkeletons_swarm (sys : Skeleton.System) :
  consistent sys ->
  behavior (params (Skeleton.physics sys)) = needleSwarm ->
  exists sys',
    Skeleton.updateSkeletons sys = Some sys'
    /\ Skeleton.physics sys' = Skeleton.physics sys
    /\ consistent sys'
    /\ fixtures (Skeleton.scene sys') = fixtures (Skeleton.scene sys)
    /\ List.length (Skeleton.skeletons sys')
       = List.length (handControls (Skeleton.physics sys))
    /\ (forall i hand,
          nth_error (handControls (Skeleton.physics sys)) i = Some hand ->
          exists skeleton,
            nth_error (Skeleton.skeletons sys') i = Some skeleton
            /\ Skeleton.position skeleton
               = vec3 (x (palm hand)) (y (palm hand) - 1.5) (z (palm hand))
            /\ Skeleton.rotationY skeleton = 0
            /\ (Skeleton.id skeleton < Skeleton.nextId sys')%nat
            /\ (forall old, nth_error (Skeleton.skeletons sys) i = Some old ->
                  Skeleton.id skeleton = Skeleton.id old)
            /\ ((List.length (Skeleton.skeletons sys) <= i)%nat ->
                  (Skeleton.nextId sys <= Skeleton.id skeleton)%nat)
            /\ exists made,
                 Skeleton.createMeditationSkeleton (Skeleton.id skeleton) = Some made
                 /\ Skeleton.children skeleton = Skeleton.children made).
Proof.
  intros Hcons Hmode. destruct sys as [p scene skeletons next].
  cbn [Skeleton.physics Skeleton.scene Skeleton.skeletons Skeleton.nextId] in *.
  unfold Skeleton.updateSkeletons.
  cbn [Skeleton.physics Skeleton.scene Skeleton.skeletons Skeleton.nextId].
  rewrite Hmode. rewrite length_map.
  set (centers := map palmVector (handControls p)).
  set (n := List.length (handControls p)).
  assert (Hcen : List.length centers = n) by apply length_map.
  destruct (popExcess_spec (List.length skeletons - n) n skeletons scene)
    as [Hpop [Hids1 Hfix1]].
  { lia. }
  { destruct Hcons as [H _]. exact H. }
  { destruct Hcons as [_ [H _]]. exact H. }
  rewrite Hpop.
  set (scene1 := snd (Skeleton.popExcess (List.length skeletons - n) n skeletons scene)) in *.
  cbv iota beta.
  assert (Hcons1 := consistent_firstn p scene skeletons next n scene1 Hcons Hids1).
  destruct (pushMissing_spec p (n - List.length (firstn n skeletons)) n
              (firstn n skeletons) scene1 next)
    as [skeletons2 [scene2 [next2 [Hpush [Hcons2 [Hfix2 [Hlen2 [Hfirst2 [Hnext2 Hnew2]]]]]]]]].
  { lia. }
  { exact Hcons1. }
  rewrite Hpush. cbn [bind].
  assert (Hlen1 : List.length (firstn n skeletons) = Nat.min n (List.length skeletons))
    by apply length_firstn.
  assert (Hn2 : List.length skeletons2 = n) by lia.
  destruct (placeLoop_spec centers n 0 skeletons2)
    as [skeletons3 [Hplace [Hlen3 [_ Hin3]]]].
  { simpl. lia. }
  { simpl. lia. }
  rewrite Hplace. cbn [bind].
  eexists. split; [reflexivity|].
  cbn [Skeleton.physics Skeleton.scene Skeleton.skeletons Skeleton.nextId].
  assert (Hsame : forall j u v, nth_error skeletons3 j = Some u ->
                                nth_error skeletons2 j = Some v ->
                                Skeleton.id u = Skeleton.id v
                                /\ Skeleton.children u = Skeleton.children v).
  { intros j u v Hu Hv.
    assert (Hj : (j < n)%nat) by (apply nth_error_Some_lt in Hv; lia).
    destruct (Hin3 j) as [sk [c [H1 [_ H3]]]]; [simpl; lia|].
    rewrite Hv in H1. injection H1 as <-. rewrite Hu in H3. injection H3 as ->.
    split; reflexivity. }
  destruct Hcons2 as [Hids2 [Hnd2 Hall2]].
  cbn [Skeleton.scene Skeleton.skeletons Skeleton.nextId] in Hids2, Hnd2, Hall2.
  assert (Hmap : map Skeleton.id skeletons3 = map Skeleton.id skeletons2).
  { apply map_id_pointwise; [exact Hlen3|].
    intros j u v Hu Hv. apply (Hsame j u v Hu Hv). }
  assert (Hall3 : forall j skeleton, nth_error skeletons3 j = Some skeleton ->
            (Skeleton.id skeleton < next2)%nat
            /\ exists made,
                 Skeleton.createMeditationSkeleton (Skeleton.id skeleton) = Some made
                 /\ Skeleton.children skeleton = Skeleton.children made).
  { intros j skeleton Hj.
    destruct (nth_error_lt_Some skeletons2 j) as [v Hv].
    { apply nth_error_Some_lt in Hj. lia. }
    destruct (Hsame j skeleton v Hj Hv) as [Hi Hc].
    destruct (Hall2 v (nth_error_In _ _ Hv)) as [Hlt Hex].
    rewrite Hi, Hc. split; [exact Hlt | exact Hex]. }
  split; [reflexivity|]. split.
  { split; [|split]; cbn [Skeleton.scene Skeleton.skeletons Skeleton.nextId].
    - rewrite Hmap. exact Hids2.
    - rewrite Hmap. exact Hnd2.
    - intros skeleton Hin. apply In_nth_error in Hin. destruct Hin as [j Hj].
      exact (Hall3 j skeleton Hj). }
  split; [rewrite Hfix2; exact Hfix1|]. split; [lia|].
  intros i hand Hhand.
  assert (Hi : (i < n)%nat) by (apply nth_error_Some_lt in Hhand; exact Hhand).
  destruct (Hin3 i) as [sk [c [H1 [H2 H3]]]]; [simpl; lia|].
  unfold centers in H2. rewrite nth_error_map, Hhand in H2. simpl in H2.
  injection H2 as <-.
  eexists. split; [exact H3|]. cbn [Skeleton.position Skeleton.rotationY Skeleton.id
                                     Skeleton.children palmVector x y z].
  split; [reflexivity|]. split; [reflexivity|].
  destruct (Hall3 i _ H3) as [Hlt Hex].
  cbn [Skeleton.id Skeleton.children] in Hlt, Hex.
  split; [exact Hlt|]. split; [|split; [|exact Hex]].
  - intros old Hold.
    assert (Hat : nth_error (firstn (List.length (firstn n skeletons)) skeletons2) i
                  = Some sk).
    { rewrite nth_error_firstn.
      assert (Hio : (i < List.length skeletons)%nat) by (apply nth_error_Some_lt in Hold; exact Hold).
      destruct (Nat.ltb_spec i (List.length (firstn n skeletons))); [exact H1 | lia]. }
    rewrite Hfirst2, nth_error_firstn in Hat.
    destruct (Nat.ltb_spec i n); [|lia]. rewrite Hold in Hat. injection Hat as <-.
    reflexivity.
  - intros Hle. apply (Hnew2 i sk H1). lia.
Qed.

Lemma consistent_physics (p q : OptimizedParticleSystem) (scene : list Skeleton.Object3D)
    (skeletons : list Skeleton.Group) (next : nat) :
  consistent {| Skeleton.physics := p; Skeleton.scene := scene;
                Skeleton.skeletons := skeletons; Skeleton.nextId := next |} ->
  consistent {| Skeleton.physics := q; Skeleton.scene := scene;
                Skeleton.skeletons := skeletons; Skeleton.nextId := next |}.
Proof. intros H. exact H. Qed.

Lemma consistent_constructor (p : OptimizedParticleSystem) (next : nat) :
  consistent (Skeleton.constructor p next).
Proof.
  split; [reflexivity|]. split; [constructor|]. intros skeleton [].
Qed.

Lemma pelvis_at_center (skeleton : Skeleton.Group) (center : Vector3) :
  Skeleton.position skeleton = vec3 (x center) (y center - 1.5) (z center) ->
  (exists made, Skeleton.createMeditationSkeleton (Skeleton.id skeleton) = Some made
                /\ Skeleton.children skeleton = Skeleton.children made) ->
  exists pelvis,
    Skeleton.pelvisOf skeleton = Some pelvis
    /\ Skeleton.worldPosition skeleton pelvis = vec3 (x center) (y center) (z center).
Proof.
  intros Hpos [made [Hmade Hchildren]].
  destruct (createMeditationSkeleton_Some (Skeleton.id skeleton))
    as [made' [Hmade' [_ [_ [_ [_ Hpelvis]]]]]].
  rewrite Hmade in Hmade'. injection Hmade' as <-.
  exists (Skeleton.createJoint 0 0.5 0). split.
  - unfold Skeleton.pelvisOf in *. rewrite Hchildren. exact Hpelvis.
  - unfold Skeleton.worldPosition. rewrite Hpos.
    apply vec3_ext; cbn [Skeleton.meshPosition Skeleton.createJoint add x y z];
      unfold Skeleton.scale; lra.
Qed.

(** X17 ([setHandControls] and [updateSkeletons] of [src/unnamed/part_001]).
    In the swarm, when the scene holds exactly the groups of the skeletons
    of the system, [setHandControls] returns and leaves one skeleton per
    hand: skeleton [i] stands 1.5 below palm [i], is not rotated, and its
    pelvis joint is at the palm in world coordinates.  A hand whose index
    had a skeleton keeps that object; a hand beyond the old skeletons gets
    a new object, and the scene holds the groups of the new skeletons, in
    their order. *)
Theorem skeletons_follow_the_hands (sys : Skeleton.System) (hands : list HandControl) :
  consistent sys ->
  behavior (params (Skeleton.physics sys)) = needleSwarm ->
  exists sys',
    Skeleton.setHandControls sys hands = Some sys'
    /\ handControls (Skeleton.physics sys') = hands
    /\ List.length (Skeleton.skeletons sys') = List.length hands
    /\ groupIds (Skeleton.scene sys') = map Skeleton.id (Skeleton.skeletons sys')
    /\ forall i hand,
         nth_error hands i = Some hand ->
         exists skeleton pelvis,
           nth_error (Skeleton.skeletons sys') i = Some skeleton
           /\ Skeleton.position skeleton
              = vec3 (x (palm hand)) (y (palm hand) - 1.5) (z (palm hand))
           /\ Skeleton.rotationY skeleton = 0
           /\ Skeleton.pelvisOf skeleton = Some pelvis
           /\ Skeleton.worldPosition skeleton pelvis = palmVector hand
           /\ (forall old, nth_error (Skeleton.skeletons sys) i = Some old ->
                 Skeleton.id skeleton = Skeleton.id old)
           /\ ((List.length (Skeleton.skeletons sys) <= i)%nat ->
                 (Skeleton.nextId sys <= Skeleton.id skeleton)%nat).
Proof.
  intros Hcons Hmode. destruct sys as [p scene skeletons next].
  unfold Skeleton.setHandControls.
  cbn [Skeleton.physics Skeleton.scene Skeleton.skeletons Skeleton.nextId] in *.
  destruct (updateSkeletons_swarm
              {| Skeleton.physics := setHandControls p hands; Skeleton.scene := scene;
                 Skeleton.skeletons := skeletons; Skeleton.nextId := next |})
    as [sys' [Hrun [Hphys [Hcons' [_ [Hlen Hall]]]]]].
  { exact (consistent_physics p _ scene skeletons next Hcons). }
  { exact Hmode. }
  cbn [Skeleton.physics Skeleton.scene Skeleton.skeletons Skeleton.nextId
       setHandControls handControls] in Hphys, Hlen, Hall.
  exists sys'. split; [exact Hrun|]. split; [rewrite Hphys; reflexivity|].
  split; [exact Hlen|]. split; [destruct Hcons' as [H _]; exact H|].
  intros i hand Hhand.
  destruct (Hall i hand Hhand)
    as [skeleton [Hat [Hpos [Hrot [_ [Hold [Hnew Hmade]]]]]]].
  destruct (pelvis_at_center skeleton (palm hand) Hpos Hmade) as [pelvis [Hp Hw]].
  exists skeleton, pelvis. split; [exact Hat|]. split; [exact Hpos|].
  split; [exact Hrot|]. split; [exact Hp|]. split; [exact Hw|].
  split; [exact Hold | exact Hnew].
Qed.

(** The skeleton theorem at the swarm instance just after construction, when
    the tracker reports one hand. *)
Lemma skeletons_follow_the_hands_witness :
  consistent swarmScene /\
  behavior (params (Skeleton.physics swarmScene)) = needleSwarm /\
  exists sys',
    Skeleton.setHandControls swarmScene [handAt (vec3 5 0 0) 0] = Some sys'
    /\ List.length (Skeleton.skeletons sys') = 1%nat.
Proof.
  assert (Hcons : consistent swarmScene).
  { split; [reflexivity|]. split; [constructor|]. intros skeleton []. }
  split; [exact Hcons|]. split; [reflexivity|].
  destruct (skeletons_follow_the_hands swarmScene [handAt (vec3 5 0 0) 0] Hcons eq_refl)
    as [sys' [Hrun [_ [Hlen _]]]].
  exists sys'. split; [exact Hrun | exact Hlen].
Defined.

Lemma sceneCall_spec (sys : Skeleton.System) (c : Call) :
  consistent sys ->
  exists sys',
    sceneCall sys c = Some sys'
    /\ consistent sys'
    /\ fixtures (Skeleton.scene sys') = fixtures (Skeleton.scene sys)
    /\ params (Skeleton.physics sys') = params (Skeleton.physics sys)
    /\ List.length (Skeleton.skeletons sys') = skeletonsWanted (Skeleton.physics sys').
Proof.
  intros Hcons.
  assert (Hupd : forall sys0, consistent sys0 ->
            exists sys1, Skeleton.updateSkeletons sys0 = Some sys1
                         /\ Skeleton.physics sys1 = Skeleton.physics sys0
                         /\ consistent sys1
                         /\ fixtures (Skeleton.scene sys1) = fixtures (Skeleton.scene sys0)
                         /\ List.length (Skeleton.skeletons sys1)
                            = skeletonsWanted (Skeleton.physics sys0)).
  { intros sys0 H0. unfold skeletonsWanted.
    destruct (behavior (params (Skeleton.physics sys0))) eqn:Hmode.
    1-3: destruct (updateSkeletons_other sys0 H0) as [sys1 [H1 [H2 [H3 [H4 [H5 _]]]]]];
      [rewrite Hmode; discriminate|];
      exists sys1; rewrite H5;
      (split; [exact H1|]); (split; [exact H2|]); (split; [exact H3|]);
      (split; [exact H4 | reflexivity]).
    destruct (updateSkeletons_swarm sys0 H0 Hmode) as [sys1 [H1 [H2 [H3 [H4 [H5 _]]]]]].
    exists sys1. split; [exact H1|]. split; [exact H2|]. split; [exact H3|].
    split; [exact H4 | exact H5]. }
  destruct sys as [p scene skeletons next]. destruct c as [hands|deltaTime now rnd].
  - cbn [sceneCall]. unfold Skeleton.setHandControls.
    cbn [Skeleton.physics Skeleton.scene Skeleton.skeletons Skeleton.nextId].
    destruct (Hupd {| Skeleton.physics := setHandControls p hands; Skeleton.scene := scene;
                      Skeleton.skeletons := skeletons; Skeleton.nextId := next |})
      as [sys1 [H1 [H2 [H3 [H4 H5]]]]].
    { exact (consistent_physics p _ scene skeletons next Hcons). }
    cbn [Skeleton.physics Skeleton.scene] in H2, H4, H5.
    exists sys1. split; [exact H1|]. split; [exact H3|]. split; [exact H4|].
    rewrite H2. split; [reflexivity | exact H5].
  - cbn [sceneCall]. unfold Skeleton.update.
    destruct (Hupd _ Hcons) as [sys1 [H1 [H2 [H3 [H4 H5]]]]].
    rewrite H1. cbn [bind].
    destruct (Part001_update_total (Skeleton.physics sys1) deltaTime now rnd) as [p1 Hp1].
    rewrite Hp1. cbn [bind].
    destruct (Part001_update_shape _ _ _ _ _ Hp1) as [Hparams [Hhands _]].
    destruct sys1 as [q scene1 skeletons1 next1].
    cbn [Skeleton.physics Skeleton.scene Skeleton.skeletons Skeleton.nextId] in *.
    eexists. split; [reflexivity|].
    cbn [Skeleton.physics Skeleton.scene Skeleton.skeletons Skeleton.nextId].
    split; [exact (consistent_physics q _ scene1 skeletons1 next1 H3)|].
    split; [exact H4|]. subst q. split; [exact Hparams|].
    rewrite H5. unfold skeletonsWanted. rewrite Hparams, Hhands. reflexivity.
Qed.

Lemma sceneCalls_spec (cs : list Call) :
  forall sys, consistent sys ->
    exists sys',
      sceneCalls cs sys = Some sys'
      /\ consistent sys'
      /\ fixtures (Skeleton.scene sys') = fixtures (Skeleton.scene sys)
      /\ params (Skeleton.physics sys') = params (Skeleton.physics sys)
      /\ (cs <> [] ->
          List.length (Skeleton.skeletons sys') = skeletonsWanted (Skeleton.physics sys')).
Proof.
  unfold sceneCalls. induction cs as [|c cs IH]; intros sys Hcons.
  - exists sys. cbn [foldM]. split; [reflexivity|]. split; [exact Hcons|].
    split; [reflexivity|]. split; [reflexivity|].
    intros Hne. exfalso. apply Hne. reflexivity.
  - cbn [foldM].
    destruct (sceneCall_spec sys c Hcons) as [sys1 [H1 [H2 [H3 [H4 H5]]]]].
    rewrite H1. cbn [bind].
    destruct (IH sys1 H2) as [sys' [G1 [G2 [G3 [G4 G5]]]]].
    exists sys'. split; [exact G1|]. split; [exact G2|].
    split; [rewrite G3; exact H3|]. split; [rewrite G4; exact H4|].
    intros _. destruct cs as [|c' cs'].
    + cbn [foldM] in G1. injection G1 as <-. exact H5.
    + apply G5. discriminate.
Qed.

(** X18 ([update], [setHandControls] and [updateSkeletons] of
    [src/unnamed/part_001], after its constructor).  Whatever the client
    calls after construction, in any order and with any arguments, every
    call returns, and the scene holds the two lights and the instanced mesh,
    in that order, and exactly the groups of the skeletons of the system,
    each once.  After at least one call there is one skeleton per tracked
    hand in the swarm and none in the other behaviours. *)
Theorem scene_holds_one_skeleton_per_hand (p : OptimizedParticleSystem) (next : nat)
    (cs : list Call) :
  exists sys',
    sceneCalls cs (Skeleton.constructor p next) = Some sys'
    /\ fixtures (Skeleton.scene sys')
       = [Skeleton.ambientLight; Skeleton.pointLight; Skeleton.instancedMesh]
    /\ groupIds (Skeleton.scene sys') = map Skeleton.id (Skeleton.skeletons sys')
    /\ NoDup (groupIds (Skeleton.scene sys'))
    /\ params (Skeleton.physics sys') = params p
    /\ (cs <> [] ->
        List.length (groupIds (Skeleton.scene sys'))
        = skeletonsWanted (Skeleton.physics sys')).
Proof.
  destruct (sceneCalls_spec cs (Skeleton.constructor p next) (consistent_constructor p next))
    as [sys' [H1 [[Hids [Hnd Hall]] [H3 [H4 H5]]]]].
  exists sys'. split; [exact H1|]. split; [exact H3|]. split; [exact Hids|].
  split; [rewrite Hids; exact Hnd|]. split; [exact H4|].
  intros Hne. rewrite Hids, length_map. apply H5. exact Hne.
Qed.

(** ** The revision with two behaviours and the library *)

Lemma foldM_refines {A S : Type} (f g : S -> A -> option S) (l : list A) :
  (forall s a s', In a l -> f s a = Some s' -> g s a = Some s') ->
  forall s s', foldM f l s = Some s' -> foldM g l s = Some s'.
Proof.
  induction l as [|a l IH]; intros Hfg s s' H; simpl in *; [exact H|].
  destruct (f s a) as [s1|] eqn:Hf; [|discriminate]. cbn [bind] in H.
  rewrite (Hfg s a s1 (or_introl eq_refl) Hf). cbn [bind].
  apply IH; [|exact H]. intros s0 b s0' Hb. apply Hfg. right. exact Hb.
Qed.

Lemma foldM_None_In {A S : Type} (f : S -> A -> option S) (a : A) (l : list A) :
  In a l -> (forall s, f s a = None) -> forall s, foldM f l s = None.
Proof.
  induction l as [|b l IH]; intros Hin Hnone s; simpl in *; [contradiction|].
  destruct Hin as [->|Hin].
  - rewrite Hnone. reflexivity.
  - destruct (f s b); [cbn [bind]; apply IH; assumption | reflexivity].
Qed.

Lemma Part002_responsiveHand_refines (params : ParticleSystemConfig) (particle : Particle)
    (totalForce : Vector3) (control : HandControl) (f : Vector3) :
  Part002.responsiveHand params particle totalForce control = Some f ->
  responsiveHand params particle totalForce control = Some f.
Proof.
  unfold Part002.responsiveHand, responsiveHand. cbv zeta.
  rewrite length_Some. cbn [bind].
  pose proof (norm_nonneg (sub (palmVector control) (position particle))) as Hn.
  destruct (interactionRadius params) as [r|]; cbn [nullish].
  - destruct (Rlt_dec _ r) as [Hlt|Hge]; [|intros H; exact H].
    rewrite normalize_Some. cbn [bind].
    destruct (attractionStrength params) as [a|]; [|discriminate].
    cbn [bind nullish]. intros H. exact H.
  - destruct (Rlt_dec _ 0) as [Hlt|Hge]; [lra | intros H; exact H].
Qed.

Lemma Part002_cohesiveOther_refines (params : ParticleSystemConfig)
    (particles : list Particle) (particle : Particle) (index : nat)
    (totalForce : Vector3) (i : nat) (f : Vector3) :
  Part002.cohesiveOther params particles particle index totalForce i = Some f ->
  cohesiveOther params particles particle index totalForce i = Some f.
Proof.
  unfold Part002.cohesiveOther, cohesiveOther.
  destruct (i =? index)%nat; [intros H; exact H|].
  destruct (nth_error particles i) as [other|]; [|discriminate]. cbn [bind]. cbv zeta.
  rewrite length_Some. cbn [bind].
  pose proof (norm_nonneg (sub (position other) (position particle))) as Hn.
  destruct (cohesionRadius params) as [r|]; cbn [nullish].
  - destruct (Rlt_dec _ r) as [Hlt|Hge]; [|intros H; exact H].
    rewrite normalize_Some. cbn [bind].
    destruct (cohesionStrength params) as [a|]; [|discriminate].
    cbn [bind nullish]. intros H. exact H.
  - destruct (Rlt_dec _ 0) as [Hlt|Hge]; [lra | intros H; exact H].
Qed.

Lemma Part002_forceOn_refines (params : ParticleSystemConfig)
    (handControls : list HandControl) (rnd : nat -> R) (store : list Particle) (i : nat)
    (particle : Particle) (f : Vector3) :
  Part002.forceOn params handControls rnd store i particle = Some f ->
  forceOn params handControls rnd store i particle = Some f.
Proof.
  assert (Hresp : forall k,
            Part002.handleResponsiveBehavior params handControls rnd k particle (vec3 0 0 0)
            = Some f ->
            handleResponsiveBehavior params handControls rnd k particle (vec3 0 0 0)
            = Some f).
  { intros k. unfold Part002.handleResponsiveBehavior, handleResponsiveBehavior.
    destruct (foldM (Part002.responsiveHand params particle) handControls (vec3 0 0 0))
      as [t|] eqn:Ht; [|discriminate].
    rewrite (foldM_refines _ (responsiveHand params particle) handControls
               (fun s a s' _ => Part002_responsiveHand_refines params particle s a s')
               _ _ Ht).
    intros H. exact H. }
  assert (Hcoh : Part002.handleCohesiveBehavior params store particle i (vec3 0 0 0)
                 = Some f ->
                 handleCohesiveBehavior params store particle i (vec3 0 0 0) = Some f).
  { unfold Part002.handleCohesiveBehavior, handleCohesiveBehavior. cbv zeta.
    apply foldM_refines. intros s a s' _.
    apply Part002_cohesiveOther_refines. }
  unfold Part002.forceOn, forceOn. cbv zeta.
  destruct (behavior params); [apply Hresp | apply Hcoh | apply Hcoh | apply Hcoh].
Qed.

Lemma updateLoop_refines (force force' : list Particle -> nat -> Particle -> option Vector3)
    (params : ParticleSystemConfig) (ps ps' : list Particle) :
  (forall store i p f, force store i p = Some f -> force' store i p = Some f) ->
  updateLoop force params ps = Some ps' -> updateLoop force' params ps = Some ps'.
Proof.
  intros Hforce. unfold updateLoop. apply foldM_refines.
  intros store i store' _. unfold updateParticle.
  destruct (nth_error store i) as [p|]; [|discriminate]. cbn [bind].
  destruct (force store i p) as [f|] eqn:Hf; [|discriminate].
  rewrite (Hforce store i p f Hf). intros H. exact H.
Qed.

Lemma Part002_responsiveHand_total (params : ParticleSystemConfig) (particle : Particle)
    (totalForce : Vector3) (control : HandControl) :
  attractionStrength params <> None ->
  exists f, Part002.responsiveHand params particle totalForce control = Some f.
Proof.
  intros Hset. unfold Part002.responsiveHand. cbv zeta. rewrite length_Some. cbn [bind].
  pose proof (norm_nonneg (sub (palmVector control) (position particle))) as Hn.
  destruct (interactionRadius params) as [r|]; [|eexists; reflexivity].
  destruct (Rlt_dec _ r) as [Hlt|Hge]; [|eexists; reflexivity].
  rewrite normalize_Some. cbn [bind].
  destruct (attractionStrength params) as [a|]; [|exfalso; apply Hset; reflexivity].
  cbn [bind]. rewrite jsdiv_nonzero by lra. eexists; reflexivity.
Qed.

Lemma Part002_cohesiveOther_total (params : ParticleSystemConfig)
    (particles : list Particle) (particle : Particle) (index : nat)
    (totalForce : Vector3) (i : nat) :
  cohesionStrength params <> None ->
  (i < List.length particles)%nat ->
  exists f, Part002.cohesiveOther params particles particle index totalForce i = Some f.
Proof.
  intros Hset Hi. unfold Part002.cohesiveOther.
  destruct (i =? index)%nat; [eexists; reflexivity|].
  destruct (nth_error_lt_Some particles i Hi) as [other Ho]. rewrite Ho. cbn [bind].
  cbv zeta. rewrite length_Some. cbn [bind].
  pose proof (norm_nonneg (sub (position other) (position particle))) as Hn.
  destruct (cohesionRadius params) as [r|]; [|eexists; reflexivity].
  destruct (Rlt_dec _ r) as [Hlt|Hge]; [|eexists; reflexivity].
  rewrite normalize_Some. cbn [bind].
  destruct (cohesionStrength params) as [a|]; [|exfalso; apply Hset; reflexivity].
  cbn [bind]. rewrite jsdiv_nonzero by lra. eexists; reflexivity.
Qed.

Lemma Part002_forceOn_total (params : ParticleSystemConfig)
    (handControls : list HandControl) (rnd : nat -> R) (store : list Particle) (i : nat)
    (particle : Particle) :
  strengthSet params ->
  exists f, Part002.forceOn params handControls rnd store i particle = Some f.
Proof.
  unfold strengthSet, Part002.forceOn. cbv zeta. intros Hset.
  assert (Hcoh : cohesionStrength params <> None ->
                 exists f, Part002.handleCohesiveBehavior params store particle i (vec3 0 0 0)
                           = Some f).
  { intros Hc. unfold Part002.handleCohesiveBehavior. cbv zeta. apply foldM_total_In.
    intros s j Hj. apply Part002_cohesiveOther_total; [exact Hc|].
    eapply strideFrom_lt, Hj. }
  destruct (behavior params); [|apply Hcoh, Hset..].
  unfold Part002.handleResponsiveBehavior.
  destruct (foldM_total (Part002.responsiveHand params particle) handControls (vec3 0 0 0))
    as [t Ht].
  - intros s a. apply Part002_responsiveHand_total. exact Hset.
  - rewrite Ht. eexists; reflexivity.
Qed.

(** X19 ([update], [handleResponsiveBehavior] and [handleCohesiveBehavior]
    of [src/unnamed/part_002] against those of
    [src/lib/optimized-particle-system.ts]).  On the responsive and the
    cohesive behaviour the library extends the revision with two
    behaviours: whenever a tick of the latter returns a store, the tick of
    the library on the same state and random draws returns the same store,
    whatever its clock.  The tick of the revision returns whenever the
    strength that its behaviour reads is set. *)
Theorem Part002_update_agrees_with_library (s : OptimizedParticleSystem)
    (deltaTime now : R) (rnd : nat -> R) :
  behavior (params s) = responsive \/ behavior (params s) = cohesive ->
  (forall s', Part002.update deltaTime rnd s = Some s' ->
              SrcLib.update deltaTime now rnd s = Some s')
  /\ (strengthSet (params s) ->
      exists s', Part002.update deltaTime rnd s = Some s'
                 /\ SrcLib.update deltaTime now rnd s = Some s').
Proof.
  intros Hmode.
  assert (Hrefines : forall s', Part002.update deltaTime rnd s = Some s' ->
                                SrcLib.update deltaTime now rnd s = Some s').
  { intros s' H. unfold Part002.update in H.
    destruct (updateLoop (Part002.forceOn (params s) (handControls s) rnd) (params s)
                         (particles s)) as [ps|] eqn:Hps; [|discriminate].
    cbn [bind] in H.
    assert (Hlib : updateForces (params s) (handControls s) rnd (particles s) = Some ps).
    { unfold updateForces. revert Hps. apply updateLoop_refines.
      intros store i p f. apply Part002_forceOn_refines. }
    unfold SrcLib.update.
    destruct Hmode as [Hm|Hm]; rewrite Hm, Hlib; exact H. }
  split; [exact Hrefines|].
  intros Hset.
  destruct (updateLoop_total (Part002.forceOn (params s) (handControls s) rnd) (params s)
              (fun store i p => Part002_forceOn_total (params s) (handControls s) rnd
                                  store i p Hset)
              (particles s)) as [ps Hps].
  exists (withParticles s ps).
  assert (Hrun : Part002.update deltaTime rnd s = Some (withParticles s ps)).
  { unfold Part002.update. rewrite Hps. reflexivity. }
  split; [exact Hrun | apply Hrefines; exact Hrun].
Qed.

(** The agreement at the responsive instance of the simulation, with one
    particle held by a hand. *)
Lemma Part002_update_agrees_with_library_witness :
  (behavior (params (heldParticle responsiveConfig)) = responsive
   \/ behavior (params (heldParticle responsiveConfig)) = cohesive) /\
  strengthSet (params (heldParticle responsiveConfig)) /\
  exists s', Part002.update (1 / 60) (fun _ => 0.5) (heldParticle responsiveConfig) = Some s'
             /\ SrcLib.update (1 / 60) 0 (fun _ => 0.5) (heldParticle responsiveConfig)
                = Some s'.
Proof.
  assert (Hmode : behavior (params (heldParticle responsiveConfig)) = responsive
                  \/ behavior (params (heldParticle responsiveConfig)) = cohesive)
    by (left; reflexivity).
  assert (Hset : strengthSet (params (heldParticle responsiveConfig)))
    by (unfold strengthSet; simpl; discriminate).
  split; [exact Hmode|]. split; [exact Hset|].
  destruct (Part002_update_agrees_with_library (heldParticle responsiveConfig)
              (1 / 60) 0 (fun _ => 0.5) Hmode) as [_ Htotal].
  exact (Htotal Hset).
Defined.

(** X20 ([handleResponsiveBehavior] of [src/unnamed/part_002], lines
    160-190, against the library).  In the revision with two behaviours, a
    responsive configuration with an interaction radius but no attraction
    strength makes the tick undefined as soon as one particle is within the
    radius of one palm: the product with the unset strength is not a
    number.  The library reads the unset strength as zero, and its tick
    returns. *)
Theorem Part002_unset_strength_is_undefined (s : OptimizedParticleSystem)
    (deltaTime now : R) (rnd : nat -> R) (r : R) (j : nat) (p : Particle)
    (hand : HandControl) :
  behavior (params s) = responsive ->
  interactionRadius (params s) = Some r ->
  attractionStrength (params s) = None ->
  nth_error (particles s) j = Some p ->
  In hand (handControls s) ->
  norm (sub (palmVector hand) (position p)) < r ->
  Part002.update deltaTime rnd s = None
  /\ exists s', SrcLib.update deltaTime now rnd s = Some s'.
Proof.
  intros Hmode Hr Ha Hp Hhand Hnear.
  split; [|apply SrcLib_update_total].
  unfold Part002.update.
  destruct (updateLoop (Part002.forceOn (params s) (handControls s) rnd) (params s)
                       (particles s)) as [ps|] eqn:Hps; [|reflexivity].
  exfalso.
  destruct (updateLoop_spec _ _ _ _ Hps) as [_ Hall].
  destruct (Hall j p Hp) as [f [Hf _]].
  unfold Part002.forceOn in Hf. cbv zeta in Hf. rewrite Hmode in Hf.
  unfold Part002.handleResponsiveBehavior in Hf.
  rewrite (foldM_None_In (Part002.responsiveHand (params s) p) hand (handControls s) Hhand)
    in Hf; [discriminate|].
  intros t. unfold Part002.responsiveHand. cbv zeta. rewrite length_Some. cbn [bind].
  rewrite Hr. destruct (Rlt_dec _ r) as [_|Hge]; [|contradiction].
  rewrite normalize_Some. cbn [bind]. rewrite Ha. reflexivity.
Qed.

(** The undefined tick at a particle one unit away from a hand. *)
Lemma Part002_unset_strength_is_undefined_witness :
  Part002.update (1 / 60) (fun _ => 0.5) (heldParticle noStrengthConfig) = None
  /\ exists s', SrcLib.update (1 / 60) 0 (fun _ => 0.5) (heldParticle noStrengthConfig)
                = Some s'.
Proof.
  apply (Part002_unset_strength_is_undefined (heldParticle noStrengthConfig)
           (1 / 60) 0 (fun _ => 0.5) 15 0
           (particleAt (vec3 1 0 0) (vec3 0 0 0) (vec3 1 0 0) 0)
           (handAt (vec3 0 0 0) 0));
    try reflexivity.
  - left. reflexivity.
  - unfold norm, lengthSq, sub, palmVector, handAt, particleAt. cbn [x y z palm position].
    replace ((0 - 1) * (0 - 1) + (0 - 0) * (0 - 0) + (0 - 0) * (0 - 0)) with 1 by lra.
    rewrite sqrt_1. lra.
Defined.

(** ** Degenerate geometry in the swarm *)

Lemma at_center_far_from_shell (center : Vector3) (p : Particle) :
  dist (position p) center <= 0.01 ->
  Rabs (norm (sub (position p) center)
        - 12 * (if (groupIndex p =? 0)%nat then 1 else 1.8)) > 0.5.
Proof.
  intros H. rewrite <- dist_norm_sub.
  pose proof (dist_nonneg (position p) center) as Hd.
  destruct (groupIndex p =? 0)%nat; unfold Rabs; destruct (Rcase_abs _); lra.
Qed.

(** The idle step of the library at the center: the radial direction is the
    normalised stored direction. *)
Lemma SrcLib_swarmIdleParticle_at_center (deltaTime time : R) (i : nat) (p : Particle) :
  dist (position p) (vec3 0 0 0) <= 0.01 ->
  let center := vec3 0 0 0 in
  let radius := 12 * (if (groupIndex p =? 0)%nat then 1 else 1.8) in
  let u := normalized (direction p) in
  let v1 := lerp (velocity p) (swimOf u i time 0.5 5.0) (deltaTime * 3.0) in
  let position1 := add (add (multiplyScalar u radius) center) (multiplyScalar v1 deltaTime) in
  let position2 := if Rgt_dec (lengthSq (sub position1 center)) 0.01
                   then add (multiplyScalar (normalized (sub position1 center)) radius) center
                   else position1 in
  SrcLib.swarmIdleParticle deltaTime time i p = Some (withMotion p position2 v1).
Proof.
  intros H. cbv zeta.
  pose proof (SrcLib_swarmIdleParticle_Some deltaTime time i p) as Hstep.
  cbv zeta in Hstep. rewrite (radial_at_center (vec3 0 0 0) p H) in Hstep. exact Hstep.
Qed.

(** The step of [src/unnamed/part_001] at the center. *)
Lemma Part001_swarmParticle_at_center (center : Vector3) (deltaTime time : R) (i : nat)
    (p : Particle) :
  dist (position p) center <= 0.01 ->
  let radius := 12 * (if (groupIndex p =? 0)%nat then 1 else 1.8) in
  let u := normalized (direction p) in
  let position1 := lerp (position p) (add (multiplyScalar u radius) center) 0.4 in
  let direction1 := if Rgt_dec (lengthSq (sub position1 center)) 0.0001
                    then normalized (sub position1 center)
                    else direction p in
  let v1 := lerp (sub (velocity p) (multiplyScalar u (dot (velocity p) u)))
                 (swimOf u i time 0.5 5.0) (deltaTime * 3.0) in
  let w := sub (add position1 (multiplyScalar v1 deltaTime)) center in
  let n := if Rgt_dec (lengthSq w) 0.0001 then normalized w else normalized direction1 in
  Part001.swarmParticle center deltaTime time i p
  = Some (withDirection (withMotion p (add (multiplyScalar n radius) center) v1) direction1).
Proof.
  intros H. cbv zeta.
  pose proof (Part001_swarmParticle_Some center deltaTime time i p) as Hstep.
  cbv zeta in Hstep. rewrite (radial_at_center center p H) in Hstep.
  destruct (Rgt_dec (Rabs (norm (sub (position p) center)
                           - 12 * (if (groupIndex p =? 0)%nat then 1 else 1.8))) 0.5)
    as [_|Hn]; [exact Hstep|].
  exfalso. apply Hn. apply at_center_far_from_shell. exact H.
Qed.

(** The step of the library with hands at the center the particle is
    assigned to: no gravitational pull, and the target position is taken
    along the normalised stored direction. *)
Lemma SrcLib_swarmFollowParticle_at_center (centers : list Vector3)
    (sphereRadius deltaTime time : R) (i : nat) (p : Particle) (center : Vector3) :
  nth_error centers (match assignedCenterIndex p with Some k => k | None => 0%nat end)
  = Some center ->
  dist (position p) center <= 0.01 ->
  let radius := sphereRadius * (if (groupIndex p =? 0)%nat then 1 else 1.8) in
  let u := normalized (direction p) in
  let targetPos := add (multiplyScalar u radius) center in
  let target1 := match targetPosition p with
                 | None => targetPos
                 | Some t => lerp t targetPos 0.3
                 end in
  let position2 :=
    lerp (add (position p) (multiplyScalar (velocity p) deltaTime)) target1 (0.3 * 1.5) in
  let position3 :=
    if Rgt_dec (lengthSq (sub position2 center)) 0.01 then
      if Rgt_dec (Rabs (norm (sub position2 center) - radius)) 2.0
      then lerp position2
                (add (multiplyScalar (normalized (sub position2 center)) radius) center) 0.1
      else position2
    else position2 in
  let v2 := lerp (velocity p) (swimOf (normalized (sub position3 center)) i time 0.5 8.0)
                 (deltaTime * 4.0) in
  let v3 := multiplyScalar v2 0.96 in
  let v4 := if Rgt_dec (norm v3) 25.0 then multiplyScalar (normalized v3) 25.0 else v3 in
  let position4 := add position3 (multiplyScalar v4 deltaTime) in
  let pt :=
    if Rgt_dec (lengthSq (sub position4 center)) 0.01 then
      if Rgt_dec (Rabs (norm (sub position4 center) - radius)) 0.5
      then (lerp position4
                 (add (multiplyScalar (normalized (sub position4 center)) radius) center) 0.2,
            lerp position4
                 (add (multiplyScalar (normalized (sub position4 center)) radius) center) 0.2)
      else (position4, target1)
    else (position4, target1) in
  SrcLib.swarmFollowParticle centers sphereRadius deltaTime time i p
  = Some (withTargetPosition (withMotion p (fst pt) v4) (snd pt)).
Proof.
  intros Hc H. cbv zeta.
  assert (Hg : SrcLib.gravitationalForce (sub center (position p))
                 (norm (sub center (position p)))
                 (sphereRadius * (if (groupIndex p =? 0)%nat then 1 else 1.8))
               = Some (vec3 0 0 0)).
  { unfold SrcLib.gravitationalForce. cbv zeta.
    rewrite <- dist_norm_sub, dist_sym.
    destruct (Rgt_dec (dist (position p) center) 0.01) as [Hgt|_]; [lra | reflexivity]. }
  pose proof (SrcLib_swarmFollowParticle_Some centers sphereRadius deltaTime time i p center
                (vec3 0 0 0)) as Hstep.
  cbv zeta in Hstep. specialize (Hstep Hc Hg).
  rewrite (radial_at_center center p H) in Hstep.
  assert (Hv : add (velocity p) (multiplyScalar (vec3 0 0 0) deltaTime) = velocity p).
  { apply vec3_ext; simpl; ring. }
  rewrite Hv in Hstep. exact Hstep.
Qed.

(** A swarm tick runs the particle step of its revision on every particle,
    around the origin without hands and around the palm the particle is
    assigned to otherwise. *)
Lemma swarm_tick_steps (s : OptimizedParticleSystem) (now deltaTime : R) :
  exists psL psP,
    SrcLib.updateNeedleSwarm s now deltaTime = Some psL /\
    Part001.updateNeedleSwarm s now deltaTime = Some psP /\
    forall i p, nth_error (particles s) i = Some p ->
      exists p1 center pL pP,
        nth_error psL i = Some pL /\ nth_error psP i = Some pP /\
        Part001.swarmParticle center deltaTime (now * 0.001) i p1 = Some pP /\
        match handControls s with
        | [] => p1 = p /\ center = vec3 0 0 0
                /\ SrcLib.swarmIdleParticle deltaTime (now * 0.001) i p1 = Some pL
        | _ => exists k radius,
                 p1 = withAssignedCenterIndex p k
                 /\ nth_error (map palmVector (handControls s)) k = Some center
                 /\ SrcLib.swarmSphereRadius (map palmVector (handControls s)) = Some radius
                 /\ SrcLib.swarmFollowParticle (map palmVector (handControls s)) radius
                      deltaTime (now * 0.001) i p1 = Some pL
        end.
Proof.
  destruct (handControls s) as [|c cs] eqn:Hhc.
  - destruct (forEachParticle_total
                (SrcLib.swarmIdleParticle deltaTime (now * 0.001)) (particles s))
      as [psL HpsL].
    { intros i p _.
      destruct (SrcLib_swarmIdleParticle_total deltaTime (now * 0.001) i p)
        as [p' [Hp' _]]. eexists; exact Hp'. }
    destruct (forEachParticle_total
                (Part001.swarmParticle (vec3 0 0 0) deltaTime (now * 0.001)) (particles s))
      as [psP HpsP].
    { intros i p _.
      destruct (Part001_swarmParticle_total (vec3 0 0 0) deltaTime (now * 0.001) i p)
        as [p' [Hp' _]]. eexists; exact Hp'. }
    exists psL, psP.
    split; [unfold SrcLib.updateNeedleSwarm; cbv zeta; rewrite Hhc; exact HpsL|].
    split; [unfold Part001.updateNeedleSwarm; cbv zeta; rewrite Hhc; exact HpsP|].
    intros i p Hp.
    destruct (forEachParticle_nth _ _ _ HpsL) as [_ HnthL].
    destruct (forEachParticle_nth _ _ _ HpsP) as [_ HnthP].
    destruct (HnthL i p Hp) as [pL [HpL HfL]].
    destruct (HnthP i p Hp) as [pP [HpP HfP]].
    exists p, (vec3 0 0 0), pL, pP. repeat split; assumption.
  - assert (Hne : handControls s <> []) by (rewrite Hhc; discriminate).
    destruct (swarm_tick_hands s now deltaTime Hne) as [psL [psP [HL [HP Hall]]]].
    exists psL, psP. split; [exact HL|]. split; [exact HP|].
    unfold SrcLib.updateNeedleSwarm, Part001.updateNeedleSwarm in HL, HP.
    cbv zeta in HL, HP. rewrite Hhc in HL, HP. rewrite <- Hhc in HL, HP.
    destruct (SrcLib.swarmSphereRadius (map palmVector (handControls s)))
      as [radius|] eqn:Hradius; [|discriminate].
    cbn [bind] in HL.
    destruct (mapM (assignCenter (map palmVector (handControls s))) (particles s))
      as [ps1|] eqn:Hps1; [|discriminate].
    cbn [bind] in HL, HP.
    destruct (mapM_nth _ _ _ Hps1) as [_ Hnth1].
    destruct (forEachParticle_nth _ _ _ HL) as [_ HnthL].
    destruct (forEachParticle_nth _ _ _ HP) as [_ HnthP].
    intros i p Hp.
    destruct (Hnth1 i p Hp) as [p1 [Hp1 Hassign]].
    destruct (HnthL i p1 Hp1) as [pL [HpL HfL]].
    destruct (HnthP i p1 Hp1) as [pP [HpP HfP]].
    destruct (Hall i p Hp) as [_ [_ [k [_ [_ [_ [_ [_ Hassign']]]]]]]].
    assert (Hp1eq : p1 = withAssignedCenterIndex p k) by congruence.
    unfold Part001.swarmFollowParticle in HfP. rewrite Hp1eq in HfP at 1.
    cbn [assignedCenterIndex withAssignedCenterIndex] in HfP.
    destruct (nth_error (map palmVector (handControls s)) k) as [center|] eqn:Hcenter;
      [|discriminate].
    cbn [bind] in HfP.
    exists p1, center, pL, pP.
    split; [exact HpL|]. split; [exact HpP|]. split; [exact HfP|].
    rewrite <- Hhc.
    exists k, radius. repeat split; assumption.
Qed.

(** C8: in the sphere-constrained updates the radial direction of a particle
    within 0.01 of the active center is its normalised stored direction (and
    otherwise the normalised offset from the center).  That direction is the
    one every particle step projects with: the step of the needle sphere in
    both revisions, the step of the idle swarm of the library, the step of
    the swarm with hands of the library (which also feels no pull at its
    center), and the step of the swarm of [src/unnamed/part_001]; each is
    given in full for a particle at its center.  Normalising the zero vector
    is defined and returns the zero vector.  Every tick of both behaviours
    returns in both revisions, and is the particle step of its revision run
    on every particle around the active center of the tick, so no division
    by zero, square root of a negative number or out-of-range index ever
    feeds a position, velocity or direction. *)
Theorem sphere_updates_fall_back_and_stay_defined :
  (forall (center : Vector3) (particle : Particle),
      dist (position particle) center <= 0.01 ->
      radialDirection center particle = normalize (direction particle))
  /\ (forall (center : Vector3) (particle : Particle),
        dist (position particle) center > 0.01 ->
        radialDirection center particle = normalize (sub (position particle) center))
  /\ (forall (params : ParticleSystemConfig) (center : Vector3)
             (handDistance deltaTime time : R) (i : nat) (particle : Particle),
        dist (position particle) center <= 0.01 ->
        let radius := targetRadiusForParticle params handDistance particle in
        let u := normalized (direction particle) in
        let swim := swimOf u i time 0.4 4.0 in
        (let v1 := lerp (velocity particle) swim (deltaTime * 3.0) in
         let position1 := add (add (multiplyScalar u radius) center)
                              (multiplyScalar v1 deltaTime) in
         exists position2,
           SrcLib.needleSphereParticle params center handDistance deltaTime time i particle
           = Some (withMotion particle position2 v1)
           /\ (position2 = position1 \/
               position2 = add (multiplyScalar (normalized (sub position1 center)) radius)
                               center))
        /\ (let v1 := lerp (sub (velocity particle)
                                (multiplyScalar u (dot (velocity particle) u)))
                           swim (deltaTime * 3.0) in
            let position1 := add (add (multiplyScalar u radius) center)
                                 (multiplyScalar v1 deltaTime) in
            exists position2 direction1,
              Part001.needleSphereParticle params center handDistance deltaTime time i particle
              = Some (withDirection (withMotion particle position2 v1) direction1)
              /\ (position2 = add (multiplyScalar u radius) center \/
                  position2 = add (multiplyScalar (normalized (sub position1 center)) radius)
                                  center)))
  /\ (forall (deltaTime time : R) (i : nat) (particle : Particle),
        dist (position particle) (vec3 0 0 0) <= 0.01 ->
        let center := vec3 0 0 0 in
        let radius := 12 * (if (groupIndex particle =? 0)%nat then 1 else 1.8) in
        let u := normalized (direction particle) in
        let v1 := lerp (velocity particle) (swimOf u i time 0.5 5.0) (deltaTime * 3.0) in
        let position1 := add (add (multiplyScalar u radius) center)
                             (multiplyScalar v1 deltaTime) in
        let position2 :=
          if Rgt_dec (lengthSq (sub position1 center)) 0.01
          then add (multiplyScalar (normalized (sub position1 center)) radius) center
          else position1 in
        SrcLib.swarmIdleParticle deltaTime time i particle
        = Some (withMotion particle position2 v1))
  /\ (forall (centers : list Vector3) (sphereRadius deltaTime time : R) (i : nat)
             (particle : Particle) (center : Vector3),
        nth_error centers
                  (match assignedCenterIndex particle with Some k => k | None => 0%nat end)
        = Some center ->
        dist (position particle) center <= 0.01 ->
        let radius := sphereRadius * (if (groupIndex particle =? 0)%nat then 1 else 1.8) in
        let u := normalized (direction particle) in
        let targetPos := add (multiplyScalar u radius) center in
        let target1 := match targetPosition particle with
                       | None => targetPos
                       | Some t => lerp t targetPos 0.3
                       end in
        let position2 :=
          lerp (add (position particle) (multiplyScalar (velocity particle) deltaTime))
               target1 (0.3 * 1.5) in
        let position3 :=
          if Rgt_dec (lengthSq (sub position2 center)) 0.01 then
            if Rgt_dec (Rabs (norm (sub position2 center) - radius)) 2.0
            then lerp position2
                      (add (multiplyScalar (normalized (sub position2 center)) radius) center)
                      0.1
            else position2
          else position2 in
        let v2 := lerp (velocity particle)
                       (swimOf (normalized (sub position3 center)) i time 0.5 8.0)
                       (deltaTime * 4.0) in
        let v3 := multiplyScalar v2 0.96 in
        let v4 := if Rgt_dec (norm v3) 25.0 then multiplyScalar (normalized v3) 25.0 else v3 in
        let position4 := add position3 (multiplyScalar v4 deltaTime) in
        let pt :=
          if Rgt_dec (lengthSq (sub position4 center)) 0.01 then
            if Rgt_dec (Rabs (norm (sub position4 center) - radius)) 0.5
            then (lerp position4
                       (add (multiplyScalar (normalized (sub position4 center)) radius)
                            center) 0.2,
                  lerp position4
                       (add (multiplyScalar (normalized (sub position4 center)) radius)
                            center) 0.2)
            else (position4, target1)
          else (position4, target1) in
        SrcLib.swarmFollowParticle centers sphereRadius deltaTime time i particle
        = Some (withTargetPosition (withMotion particle (fst pt) v4) (snd pt)))
  /\ (forall (center : Vector3) (deltaTime time : R) (i : nat) (particle : Particle),
        dist (position particle) center <= 0.01 ->
        let radius := 12 * (if (groupIndex particle =? 0)%nat then 1 else 1.8) in
        let u := normalized (direction particle) in
        let position1 := lerp (position particle) (add (multiplyScalar u radius) center) 0.4 in
        let direction1 := if Rgt_dec (lengthSq (sub position1 center)) 0.0001
                          then normalized (sub position1 center)
                          else direction particle in
        let v1 := lerp (sub (velocity particle)
                            (multiplyScalar u (dot (velocity particle) u)))
                       (swimOf u i time 0.5 5.0) (deltaTime * 3.0) in
        let w := sub (add position1 (multiplyScalar v1 deltaTime)) center in
        let n := if Rgt_dec (lengthSq w) 0.0001 then normalized w
                 else normalized direction1 in
        Part001.swarmParticle center deltaTime time i particle
        = Some (withDirection
                  (withMotion particle (add (multiplyScalar n radius) center) v1)
                  direction1))
  /\ (forall v : Vector3,
        normalize v = Some (normalized v)
        /\ (lengthSq v = 0 -> normalized v = vec3 0 0 0)
        /\ (lengthSq v <> 0 -> lengthSq (normalized v) = 1))
  /\ (forall (s : OptimizedParticleSystem) (deltaTime now : R) (rnd : nat -> R),
        behavior (params s) = needleSphere \/ behavior (params s) = needleSwarm ->
        exists sL sP,
          SrcLib.update deltaTime now rnd s = Some sL /\
          Part001.update deltaTime now rnd s = Some sP /\
          List.length (particles sL) = List.length (particles s) /\
          List.length (particles sP) = List.length (particles s))
  /\ (forall (s : OptimizedParticleSystem) (deltaTime now : R) (rnd : nat -> R),
        behavior (params s) = needleSphere ->
        exists center handDistance sL sP,
          sphereCenter (handControls s) = Some (center, handDistance) /\
          SrcLib.update deltaTime now rnd s = Some sL /\
          Part001.update deltaTime now rnd s = Some sP /\
          forall i p, nth_error (particles s) i = Some p ->
            exists pL pP,
              nth_error (particles sL) i = Some pL /\
              nth_error (particles sP) i = Some pP /\
              SrcLib.needleSphereParticle (params s) center handDistance deltaTime
                                          (now * 0.001) i p = Some pL /\
              Part001.needleSphereParticle (params s) center handDistance deltaTime
                                           (now * 0.001) i p = Some pP)
  /\ (forall (s : OptimizedParticleSystem) (deltaTime now : R) (rnd : nat -> R),
        behavior (params s) = needleSwarm ->
        exists sL sP,
          SrcLib.update deltaTime now rnd s = Some sL /\
          Part001.update deltaTime now rnd s = Some sP /\
          forall i p, nth_error (particles s) i = Some p ->
            exists p1 center pL pP,
              nth_error (particles sL) i = Some pL /\
              nth_error (particles sP) i = Some pP /\
              position p1 = position p /\ velocity p1 = velocity p /\
              direction p1 = direction p /\ groupIndex p1 = groupIndex p /\
              targetPosition p1 = targetPosition p /\
              Part001.swarmParticle center deltaTime (now * 0.001) i p1 = Some pP /\
              match handControls s with
              | [] => center = vec3 0 0 0
                      /\ SrcLib.swarmIdleParticle deltaTime (now * 0.001) i p1 = Some pL
              | _ => exists k radius,
                       assignedCenterIndex p1 = Some k
                       /\ nth_error (map palmVector (handControls s)) k = Some center
                       /\ SrcLib.swarmSphereRadius (map palmVector (handControls s))
                          = Some radius
                       /\ SrcLib.swarmFollowParticle (map palmVector (handControls s)) radius
                            deltaTime (now * 0.001) i p1 = Some pL
              end).
Proof.
  split; [|split; [|split; [|split; [|split; [|split; [|split; [|split; [|split]]]]]]]].
  - intros center particle H.
    rewrite radialDirection_Some, normalize_Some, radial_at_center by exact H. reflexivity.
  - intros center particle H.
    rewrite radialDirection_Some, normalize_Some, radial_off_center by exact H. reflexivity.
  - intros params center handDistance deltaTime time i particle H. cbv zeta.
    pose proof (SrcLib_needleSphereParticle_Some params center handDistance deltaTime time i
                  particle) as HL.
    pose proof (Part001_needleSphereParticle_Some params center handDistance deltaTime time i
                  particle) as HP.
    cbv zeta in HL, HP. rewrite (radial_at_center center particle H) in HL, HP.
    split.
    + eexists. split; [exact HL|]. destruct (Rgt_dec _ _); [right | left]; reflexivity.
    + do 2 eexists. split; [exact HP|].
      destruct (Rgt_dec _ 0.0001); [right | left]; reflexivity.
  - intros deltaTime time i particle H.
    exact (SrcLib_swarmIdleParticle_at_center deltaTime time i particle H).
  - intros centers sphereRadius deltaTime time i particle center Hc H.
    exact (SrcLib_swarmFollowParticle_at_center centers sphereRadius deltaTime time i particle
             center Hc H).
  - intros center deltaTime time i particle H.
    exact (Part001_swarmParticle_at_center center deltaTime time i particle H).
  - intros v. split; [apply normalize_Some|].
    split; [apply normalized_zero | apply lengthSq_normalized].
  - apply sphere_updates_total.
  - intros s deltaTime now rnd Hmode.
    destruct (sphereCenter_total (handControls s)) as [center [hd [Hc _]]].
    destruct (forEachParticle_total
                (SrcLib.needleSphereParticle (params s) center hd deltaTime (now * 0.001))
                (particles s)) as [psL HpsL].
    { intros i p _.
      destruct (SrcLib_needleSphereParticle_total (params s) center hd deltaTime
                  (now * 0.001) i p) as [p' [Hp' _]]. eexists; exact Hp'. }
    destruct (forEachParticle_total
                (Part001.needleSphereParticle (params s) center hd deltaTime (now * 0.001))
                (particles s)) as [psP HpsP].
    { intros i p _.
      destruct (Part001_needleSphereParticle_total (params s) center hd deltaTime
                  (now * 0.001) i p) as [p' [Hp' _]]. eexists; exact Hp'. }
    exists center, hd, (withParticles s psL), (withParticles s psP).
    split; [exact Hc|].
    unfold SrcLib.update, Part001.update. rewrite Hmode.
    unfold SrcLib.updateNeedleSphere, Part001.updateNeedleSphere.
    rewrite Hc. cbn [bind fst snd]. rewrite HpsL, HpsP. cbn [bind].
    split; [reflexivity|]. split; [reflexivity|].
    intros i p Hp. cbn [particles withParticles].
    destruct (forEachParticle_nth _ _ _ HpsL) as [_ HnthL].
    destruct (forEachParticle_nth _ _ _ HpsP) as [_ HnthP].
    destruct (HnthL i p Hp) as [pL [HpL HfL]].
    destruct (HnthP i p Hp) as [pP [HpP HfP]].
    exists pL, pP. repeat split; assumption.
  - intros s deltaTime now rnd Hmode.
    destruct (swarm_tick_steps s now deltaTime) as [psL [psP [HL [HP Hall]]]].
    exists (withParticles s psL), (withParticles s psP).
    unfold SrcLib.update, Part001.update. rewrite Hmode, HL, HP. cbn [bind].
    split; [reflexivity|]. split; [reflexivity|].
    intros i p Hp. cbn [particles withParticles].
    destruct (Hall i p Hp) as [p1 [center [pL [pP [HpL [HpP [HfP Hcase]]]]]]].
    exists p1, center, pL, pP.
    split; [exact HpL|]. split; [exact HpP|].
    destruct (handControls s) as [|c cs].
    + destruct Hcase as [-> [Hcenter HfL]].
      repeat split; try reflexivity; assumption.
    + destruct Hcase as [k [radius [-> [Hcenter [Hradius HfL]]]]].
      repeat split; try reflexivity; try assumption.
      exists k, radius. repeat split; assumption.
Qed.

(** The theorem at a needle of the swarm that sits on the origin, the
    center of the idle swarm: its radial direction is its stored direction,
    the x axis, and the idle step swims around that axis. *)
Lemma sphere_updates_fall_back_and_stay_defined_witness :
  dist (position centerParticle) (vec3 0 0 0) <= 0.01 /\
  radialDirection (vec3 0 0 0) centerParticle = normalize (direction centerParticle) /\
  normalized (direction centerParticle) = vec3 1 0 0 /\
  (exists pL,
      SrcLib.swarmIdleParticle (1 / 60) 0 0 centerParticle = Some pL
      /\ velocity pL
         = lerp (velocity centerParticle)
                (swimOf (normalized (direction centerParticle)) 0 0 0.5 5.0)
                (1 / 60 * 3.0)) /\
  (behavior (params centeredSwarmNeedle) = needleSphere \/
   behavior (params centeredSwarmNeedle) = needleSwarm) /\
  exists sL sP,
    SrcLib.update (1 / 60) 0 (fun _ => 0.5) centeredSwarmNeedle = Some sL /\
    Part001.update (1 / 60) 0 (fun _ => 0.5) centeredSwarmNeedle = Some sP.
Proof.
  assert (Hd : dist (position centerParticle) (vec3 0 0 0) <= 0.01).
  { unfold dist, distanceToSquared, centerParticle, particleAt. cbn [position x y z].
    replace ((0 - 0) * (0 - 0) + (0 - 0) * (0 - 0) + (0 - 0) * (0 - 0)) with 0 by ring.
    rewrite sqrt_0. lra. }
  assert (Hm : behavior (params centeredSwarmNeedle) = needleSphere \/
               behavior (params centeredSwarmNeedle) = needleSwarm) by (right; reflexivity).
  destruct sphere_updates_fall_back_and_stay_defined
    as [Hfall [_ [_ [Hidle [_ [_ [_ [Htotal _]]]]]]]].
  split; [exact Hd|]. split; [exact (Hfall (vec3 0 0 0) centerParticle Hd)|].
  split.
  { change (direction centerParticle) with (vec3 1 0 0).
    rewrite (normalized_eq _ 1); [apply vec3_ext; simpl; lra | lra |].
    unfold lengthSq; simpl; ring. }
  split.
  { eexists. split; [exact (Hidle (1 / 60) 0 0%nat centerParticle Hd) | reflexivity]. }
  split; [exact Hm|].
  destruct (Htotal centeredSwarmNeedle (1 / 60) 0 (fun _ => 0.5) Hm) as [sL [sP [HL [HP _]]]].
  exists sL, sP. split; assumption.
Defined.
